(* ===== verification/_CoqProject ===== *)
-Q . S2P
Prelude.v
Text.v
PyVal.v
Dict.v
Errors.v
Types.v
MsgPack.v
Codec.v
CodecSpec.v
CodecRoundtrip.v
Chunking.v
ChunkingSpec.v
ChunkingManager.v
ChunkTransfer.v
Ids.v
Transport.v
TransportSpec.v
Calls.v
CallsFrame.v
CallsSpec.v
CallsProps.v
Inbox.v
Retry.v
RetryProps.v
Options.v
Executor.v
Handlers.v
StreamProps.v
PullProps.v
ClientStreams.v
ClientStreamsProps.v
PullerProps.v
Dispatch.v
DispatchSpec.v
DispatchRegistry.v
DispatchProps.v
ServiceCall.v
RemoteCall.v
Callbacks.v
System.v
Teardown.v
Connection.v
ConnectionSpec.v
ConnectionRestore.v
ConnectionProps.v
Service.v
ServiceProps.v
Requests.v
ServiceManager.v
Channel.v
ChannelProps.v
WireTypes.v
Decorators.v
DecoratorsProps.v
Proxy.v
ProxyProps.v
Isolated.v
IsolatedProps.v
Responder.v
