(* ===== verification/Prelude.v ===== *)
(** * A verification library for the Python runtime of camera.ui RPC

    The program is the package [src/python/camera_ui_rpc]: remote calls,
    streams, pull iterators, callbacks, channels and micro-services over NATS.
    The library is a shallow embedding of it: what a Python function does
    without suspending is a Gallina function, in the monad [pm] (state and
    exception, below) where it mutates objects or raises; a coroutine or an
    event-driven part is a machine whose steps are what the event loop runs
    between two suspension points, so that a theorem over all lists of events
    covers all interleavings. Everything is executable; the witnesses run it.

    ** Parts and files

    Foundations. [Prelude]: results, the monad, loops, bytes, digits, tactics,
    the hint database [rpc]. [Text]: [str] methods (database [str]). [PyVal]:
    the values of messages, with Python dicts in insertion order. [Dict]:
    ordered dicts as association lists. [Errors]: errors.py. [Types]: the message
    types of types.py and channel.py as schemas with a decidable check.

    Wire. [MsgPack] is the interface to ormsgpack, a class with laws and a
    concrete instance; [Codec] is codec.py; [CodecSpec] says what framing
    promises (placeholder resolution); [CodecRoundtrip] proves that decoding
    delivers what was encoded, in any segment order, and that views stay
    inside the frame.

    Chunks. [Chunking] is chunking.py; [ChunkingSpec] is about one transfer
    (any order, repetitions, both storage paths), [ChunkingManager] about
    interleaved transfers (invariant, sweep, exactly-once), [ChunkTransfer]
    states the properties.

    Messages. [Ids]: generate_id, generate_reply_prefix, the muxed inbox's
    subjects. [Transport]: [publish] and the message handler of client.py;
    [TransportSpec]: whatever is published is delivered once.

    Calls. [Calls]: the books of client.py (pending requests, futures, timers,
    status handlers, teardown); [CallsFrame]: what a step can change;
    [CallsSpec]: the accounting invariant; [CallsProps]: no call is lost or
    settled twice; [Inbox]: responses too large for one message, reassembled
    among whatever else comes in. [Retry], [RetryProps]: the no-responder
    retries and native requests. [ServiceCall]: the calls of service subjects
    as coroutines with a reply subscription and an inbox each, left behind only
    by a call that is cut off: cancelled, failing before its [try] begins, or
    in the midst of its cleanup.

    Serving. [Handlers] is handler.py (streams, pull iterators, callbacks);
    [StreamProps], [PullProps] give their protocols. [Dispatch] is
    [register_handler] of client.py: classification, answers, the cleanup dicts;
    [DispatchSpec], [DispatchRegistry], [DispatchProps] its responses and
    sessions. [Decorators], [DecoratorsProps]: the marks that decorators set and
    what an object exposes (decorators.py).

    Consuming. [ClientStreams]: the generators of client.py that streams and
    pull iterators hand out; [ClientStreamsProps], [PullerProps]: served by
    [Handlers], they yield what the handler's generator yields. [RemoteCall]:
    a call over the wire is a local call. [Requests]: the messages that open
    streams, pull iterators and callback subscriptions, and that dispatcher and
    endpoints understand them as they were meant. [Callbacks]: a callback
    subscription from end to end. [System]: many callers and a server
    over an unreliable network. [Teardown]: what [disconnect] and [suspend] do
    to everything in flight. [Proxy], [ProxyProps]: the proxies of utils.py on
    top.

    Connection. [Connection]: connect, suspend, disconnect and the subscription
    entries as interleaved coroutines; [ConnectionSpec], [ConnectionRestore],
    [ConnectionProps]: entries stay consistent, a suspended client restores
    them all. [Options]: what nats-py gets of the client's options;
    [Executor]: the shared thread pool. [Isolated], [IsolatedProps]: the tree of clients that isolated
    connections make, and what suspend, reconfigure and connect do to it.
    [Responder]: [on_request], and a native request from end to end.

    Services and channels. [Service], [ServiceProps]: the endpoints of
    service.py, compared with registered methods; [ServiceManager]: the
    registered services and discovery. [Channel], [ChannelProps]: channel.py.
    [WireTypes]: what sessions, channels and chunked transfers publish has its
    declared type (the responses are in [DispatchProps], the requests in
    [Requests]).

    ** How the parts meet

    The components share the codec ([MsgPack] is a class every message path is
    proved against), the world ([Handlers.world]: which ticks of a session are
    connected, which publishes raise) and the responder of [Dispatch], which
    [Service] reuses; so [ServiceProps.service_matches_client] can compare the
    two dispatchers message by message. End-to-end theorems put two sides
    together: [TransportSpec.publish_delivered] (publish, chunks, receiver),
    [ClientStreamsProps.stream_end_to_end] and [PullerProps.pull_end_to_end]
    (generator, wire, consumer), [RemoteCall.call_end_to_end] (caller, wire,
    dispatcher, inbox), with [ProxyProps.proxy_discovers] on top of it,
    [Callbacks.callback_end_to_end] (handler, wire, callback, cancel message),
    [Requests.request_understood] (caller, wire, classification),
    [Inbox.large_response_settles] (publish, chunks, inbox, call),
    [Responder.request_end_to_end] (caller, responder), and
    [ChannelProps.private_delivery] (two channels). Two state machines run
    several components side by side: [System.sys_step] is a relation over the
    books of any number of clients, a dispatcher, and the messages that were
    ever sent, of which any may be delivered to anyone, any number of times or
    never ([System.no_crosstalk] is by induction on its runs); [Teardown.fl_step]
    is one client's calls, consumed streams and iterators, and served sessions,
    with the teardown that waits in between ([Teardown.teardown_releases]).
    [ServiceCall.sv_step] runs any number of service calls over the books of
    [Calls], with whatever else happens to these
    ([ServiceCall.service_call_releases]).

    ** Conventions

    Clocks, random draws, allocation failures, what user callbacks raise, and
    the outcomes of library calls are arguments. Identities ([id(obj)],
    subscriptions, tasks, futures) are numbers. A log records the actions that
    leave a component (messages, subscriptions, user calls), in order.
    Integers are unbounded, as Python's; the four-byte lengths of frames and
    the 63-bit sizes CPython can allocate are written out, and what MessagePack
    can carry is the encoder's business. Strings are bytes; their methods are
    ASCII.

    ** Fuel and bounds

    [Handlers.stream_loop] takes the number of values it may ask a generator
    for: [StreamProps.stream_delivers] gives the amount that suffices for a
    generator that ends or a consumer that cancels; infinite generators are
    covered by every finite prefix. [Retry.stream_loop] counts down the
    attempts, whose number the options fix. [Decorators.extract_with_decorators]
    counts down the recursion depth: more than the number of objects is never
    used up ([DecoratorsProps.extraction_terminates]). [to_digits] takes the
    logarithm of its argument. In [System] messages fit one payload (larger
    responses are [Inbox]'s), values are what the codec carries, and request ids
    are fresh ([Ids.generate_id_ok]). The restoration of a connection ends within a
    bound that [ConnectionProps.suspend_connect_restores] states.

    ** Not modelled

    The libraries themselves (nats-py, its micro-services, ormsgpack, asyncio's
    scheduler beyond the order of steps) are arguments with hypotheses that
    state what they document. [svcm.py] forwards one call; of [types.py]
    the messages are schemas, the error codes and the options are modelled where
    they are used, and the protocols and aliases have no content at run time;
    [__init__.py] only exports. The methods
    [_handle_timeout], [_handle_rpc_response] and [_handle_stream_message] of
    the client have no caller. The examples, scripts and the ports to other
    languages are outside this development. *)

From stdpp Require Export base gmap list strings fin_maps.
From Stdlib Require Export ZArith Lia.
From Stdlib Require Export Strings.Byte.

(** ** Results and the state-and-exception monad

    A Python function that may raise returns a [result]; one that also
    mutates an object runs in [pm E S]: the state survives the exception, as
    Python's mutations do. *)
Inductive result (E A : Type) : Type :=
| Ok (a : A)
| Raise (e : E).
Arguments Ok {E A} a.
Arguments Raise {E A} e.

#[export] Instance result_ret {E} : MRet (result E) := λ A a, Ok a.
#[export] Instance result_bind {E} : MBind (result E) := λ A B f m,
  match m with Ok a => f a | Raise e => Raise e end.

Definition pm (E S A : Type) : Type := S → result E A * S.

#[export] Instance pm_ret {E S} : MRet (pm E S) := λ A a s, (Ok a, s).
#[export] Instance pm_bind {E S} : MBind (pm E S) := λ A B f m s,
  match m s with
  | (Ok a, s') => f a s'
  | (Raise e, s') => (Raise e, s')
  end.

Definition raise {E S A} (e : E) : pm E S A := λ s, (Raise e, s).
Definition get_state {E S} : pm E S S := λ s, (Ok s, s).
Definition put_state {E S} (s' : S) : pm E S unit := λ _, (Ok tt, s').
Definition modify {E S} (f : S → S) : pm E S unit := λ s, (Ok tt, f s).
Definition lift {E S A} (r : result E A) : pm E S A := λ s, (r, s).

(** [try m except e: h e]. *)
Definition try_except {E S A} (m : pm E S A) (h : E → pm E S A) : pm E S A := λ s,
  match m s with
  | (Ok a, s') => (Ok a, s')
  | (Raise e, s') => h e s'
  end.

(** [try: m finally: f] *)
Definition try_finally {E S A} (m : pm E S A) (f : pm E S unit) : pm E S A := λ s,
  let '(r, s) := m s in
  match f s with
  | (Ok _, s) => (r, s)
  | (Raise e, s) => (Raise e, s)
  end.

(** [with contextlib.suppress(Exception): m]. *)
Definition suppress {E S A} (m : pm E S A) : pm E S unit :=
  try_except (a ← m; mret tt) (λ _, mret tt).

(** [for x in l: f x], stopping at the first exception. *)
Fixpoint for_each {E S A} (l : list A) (f : A → pm E S unit) : pm E S unit :=
  match l with
  | [] => mret tt
  | x :: l => f x ≫= λ _, for_each l f
  end.

(** [for x in l: y = f(x)], threading a state without exceptions. *)
Definition walk {S A B} (f : A → S → B * S) : list A → S → list B * S :=
  fix go l s :=
    match l with
    | [] => ([], s)
    | x :: l => let '(y, s) := f x s in let '(ys, s) := go l s in (y :: ys, s)
    end.

(** [for x in l: y = f(x)] in the exception monad. *)
Definition traverse {E S A B} (f : A → pm E S B) : list A → pm E S (list B) :=
  fix go l :=
    match l with
    | [] => mret []
    | x :: l => y ← f x; ys ← go l; mret (y :: ys)
    end.

Definition is_ok {E A} (r : result E A) : bool :=
  match r with Ok _ => true | Raise _ => false end.

Lemma result_bind_ok {E A B} (m : result E A) (f : A → result E B) b :
  m ≫= f = Ok b ↔ ∃ a, m = Ok a ∧ f a = Ok b.
Proof.
  destruct m as [a|e]; cbn; split.
  - intros H. by exists a.
  - intros (a' & H & H'). by simplify_eq.
  - intros H. discriminate H.
  - intros (a' & H & H'). discriminate H.
Qed.

Lemma mapM_result_ok {E A B} (f : A → result E B) l k :
  mapM f l = Ok k ↔ Forall2 (λ x y, f x = Ok y) l k.
Proof.
  split.
  - revert k. induction l as [|x l IH]; intros k H; cbn in H.
    + injection H as <-. constructor.
    + apply result_bind_ok in H as (y & Hy & H). apply result_bind_ok in H as (ys & Hys & H).
      injection H as <-. constructor; auto.
  - induction 1 as [|x y l k Hx _ IH]; [done|]. cbn. rewrite Hx. cbn. by rewrite IH.
Qed.

Lemma pm_bind_ok {E S A B} (m : pm E S A) (f : A → pm E S B) s b s' :
  (m ≫= f) s = (Ok b, s') ↔ ∃ a s1, m s = (Ok a, s1) ∧ f a s1 = (Ok b, s').
Proof.
  unfold mbind, pm_bind. destruct (m s) as [[a|e] s1]; split.
  - intros H. by exists a, s1.
  - intros (a' & s1' & H & H'). by simplify_eq.
  - intros H. discriminate H.
  - intros (a' & s1' & H & H'). discriminate H.
Qed.

(** One step of a bind, and its congruence: a continuation is only ever run
    from the state its first half ends in. *)
Lemma pm_bind_eq {E S A B} (m : pm E S A) (f : A → pm E S B) s :
  (m ≫= f) s = match m s with (Ok a, s') => f a s' | (Raise e, s') => (Raise e, s') end.
Proof. done. Qed.

Lemma pm_bind_ext {E S A B} (m m' : pm E S A) (f f' : A → pm E S B) s :
  m s = m' s → (∀ a s', f a s' = f' a s') → (m ≫= f) s = (m' ≫= f') s.
Proof.
  intros Hm Hf. rewrite !pm_bind_eq, Hm. destruct (m' s) as [[a|e] s']; [apply Hf|done].
Qed.

Lemma traverse_ext {E S A B} (f g : A → pm E S B) l s :
  (∀ x s, f x s = g x s) → traverse f l s = traverse g l s.
Proof.
  intros H. revert s. induction l as [|x l IH]; intros s; [done|].
  apply pm_bind_ext; [apply H|]. intros y s'. apply pm_bind_ext; [apply IH|done].
Qed.

Lemma traverse_cons {E S A B} (f : A → pm E S B) x l s :
  traverse f (x :: l) s =
    match f x s with
    | (Ok y, s1) =>
        match traverse f l s1 with
        | (Ok ys, s2) => (Ok (y :: ys), s2)
        | (Raise e, s2) => (Raise e, s2)
        end
    | (Raise e, s1) => (Raise e, s1)
    end.
Proof. done. Qed.

(** Reasoning about a successful loop: an invariant [R] that relates the
    states around each step composes over the list. *)
Lemma traverse_ok {E S A B} (f : A → pm E S B) l s l' s' :
  traverse f l s = (Ok l', s') →
  match l with
  | [] => l' = [] ∧ s' = s
  | x :: l => ∃ y s1 ys, f x s = (Ok y, s1) ∧ traverse f l s1 = (Ok ys, s') ∧ l' = y :: ys
  end.
Proof.
  destruct l as [|x l]; cbn; intros H.
  - injection H as <- <-. done.
  - apply pm_bind_ok in H as (y & s1 & Hy & H).
    apply pm_bind_ok in H as (ys & s2 & Hys & H).
    injection H as <- <-. by exists y, s1, ys.
Qed.

(** [m] preserves [P] from every state, whether it returns or raises. *)
Definition keeps {E S A} (P : S → Prop) (m : pm E S A) : Prop := ∀ s, P s → P (m s).2.

Lemma keeps_ret {E S A} (P : S → Prop) (a : A) : keeps P (mret a : pm E S A).
Proof. by intros s. Qed.

Lemma keeps_bind {E S A B} (P : S → Prop) (m : pm E S A) (f : A → pm E S B) :
  keeps P m → (∀ a, keeps P (f a)) → keeps P (m ≫= f).
Proof.
  intros Hm Hf s Hs. rewrite pm_bind_eq. specialize (Hm s Hs).
  destruct (m s) as [[a|e] s']; [apply Hf; exact Hm|exact Hm].
Qed.

Lemma keeps_lift {E S A} (P : S → Prop) (r : result E A) : keeps P (lift r : pm E S A).
Proof. by intros s. Qed.

Lemma keeps_modify {E S} (P : S → Prop) (f : S → S) :
  (∀ s, P s → P (f s)) → keeps P (modify f : pm E S unit).
Proof. intros H s. apply H. Qed.

Lemma keeps_get {E S A} (P : S → Prop) (f : S → pm E S A) :
  (∀ s, P s → keeps P (f s)) → keeps P (get_state ≫= f).
Proof. intros H s Hs. by apply H. Qed.

Lemma keeps_raise {E S A} (P : S → Prop) (e : E) : keeps P (raise e : pm E S A).
Proof. by intros s. Qed.

Lemma keeps_try {E S A} (P : S → Prop) (m : pm E S A) h :
  keeps P m → (∀ e, keeps P (h e)) → keeps P (try_except m h).
Proof.
  intros Hm Hh s Hs. unfold try_except. specialize (Hm s Hs).
  destruct (m s) as [[a|e] s']; [exact Hm|]. apply Hh, Hm.
Qed.

Lemma keeps_for_each {E S A} (P : S → Prop) (l : list A) (f : A → pm E S unit) :
  (∀ x, x ∈ l → keeps P (f x)) → keeps P (for_each l f).
Proof.
  induction l as [|x l IH]; intros H; cbn [for_each]; [apply keeps_ret|].
  apply keeps_bind; [apply H, list_elem_of_here|]. intros _. apply IH.
  intros y Hy. by apply H, list_elem_of_further.
Qed.

(** A run of steps, each of which discards the outcome of an event. *)
Lemma keeps_foldl {E S V} (P : S → Prop) (run : V → pm E S unit) (es : list V) (s : S) :
  (∀ e, keeps P (run e)) → P s → P (foldl (λ s e, (run e s).2) s es).
Proof. intros H. revert s. induction es as [|e es IH]; intros s Hs; [done|]. by apply IH, H. Qed.

Lemma keeps_suppress {E S A} (P : S → Prop) (m : pm E S A) : keeps P m → keeps P (suppress m).
Proof.
  intros H. apply keeps_try; [|intros e; apply keeps_ret]. apply keeps_bind; [done|]. intros a. apply keeps_ret.
Qed.

Lemma keeps_try_finally {E S A} (P : S → Prop) (m : pm E S A) (f : pm E S unit) :
  keeps P m → keeps P f → keeps P (try_finally m f).
Proof.
  intros Hm Hf s Hs. unfold try_finally. specialize (Hm s Hs). destruct (m s) as [r s1].
  cbn [snd] in Hm. specialize (Hf s1 Hm). by destruct (f s1) as [[[]|e] s2].
Qed.

Lemma suppress_ext {E S A} (m m' : pm E S A) s : m s = m' s → suppress m s = suppress m' s.
Proof. intros H. unfold suppress, try_except. by rewrite !pm_bind_eq, H. Qed.

Lemma for_each_cons {E S A} (x : A) l (f : A → pm E S unit) s s' :
  f x s = (Ok tt, s') → for_each (x :: l) f s = for_each l f s'.
Proof. intros H. cbn [for_each]. by rewrite pm_bind_eq, H. Qed.

(** A loop whose bodies agree on the states it goes through. *)
Lemma for_each_agree {E S A} (P : S → Prop) (l : list A) (f g : A → pm E S unit) s :
  (∀ x s, P s → f x s = g x s) → (∀ x, keeps P (g x)) → P s → for_each l f s = for_each l g s.
Proof.
  intros Hfg Hg. revert s. induction l as [|x l IH]; intros s Hs; [done|]. cbn [for_each].
  rewrite !pm_bind_eq, Hfg by done. specialize (Hg x s Hs). destruct (g x s) as [[[]|e] s']; [by apply IH|done].
Qed.

Lemma walk_cons {S A B} (f : A → S → B * S) x l s :
  walk f (x :: l) s =
    let '(y, s1) := f x s in let '(ys, s2) := walk f l s1 in (y :: ys, s2).
Proof. done. Qed.

(** ** Tactics *)

(** Splits conjunctions and existentials in the hypotheses. *)
Ltac decompose_hyps :=
  repeat match goal with
  | H : _ ∧ _ |- _ => destruct H
  | H : ∃ _, _ |- _ => destruct H
  end.

(** Case analysis on the innermost [match]/[if] scrutinee of the goal or of a
    hypothesis, keeping the equation. *)
Ltac case_on t :=
  lazymatch t with
  | context [match ?x with _ => _ end] => case_on x
  | _ => destruct t eqn:?
  end.
Ltac case_goal :=
  match goal with |- context [match ?x with _ => _ end] => case_on x end.
Ltac case_in H :=
  match type of H with context [match ?x with _ => _ end] => case_on x end.

(** Runs one binding step of a computation known to succeed. *)
Ltac invert_ok :=
  repeat match goal with
  | H : mbind _ _ = Ok _ |- _ => apply result_bind_ok in H as (? & ? & ?)
  | H : Ok _ = Ok _ |- _ => injection H as H; try subst
  | H : Raise _ = Ok _ |- _ => discriminate H
  | H : mret _ = Ok _ |- _ => injection H as H; try subst
  end.

Ltac bool_to_prop :=
  repeat match goal with
  | H : andb _ _ = true |- _ => apply andb_true_iff in H; destruct H
  | H : andb _ _ = false |- _ => apply andb_false_iff in H
  | H : orb _ _ = false |- _ => apply orb_false_iff in H; destruct H
  | H : orb _ _ = true |- _ => apply orb_true_iff in H
  | H : negb _ = true |- _ => apply negb_true_iff in H
  | H : negb _ = false |- _ => apply negb_false_iff in H
  | H : (_ =? _)%Z = true |- _ => apply Z.eqb_eq in H
  | H : (_ =? _)%Z = false |- _ => apply Z.eqb_neq in H
  | H : (_ <? _)%Z = true |- _ => apply Z.ltb_lt in H
  | H : (_ <? _)%Z = false |- _ => apply Z.ltb_ge in H
  | H : (_ <=? _)%Z = true |- _ => apply Z.leb_le in H
  | H : (_ <=? _)%Z = false |- _ => apply Z.leb_gt in H
  | H : bool_decide _ = true |- _ => apply bool_decide_eq_true in H
  | H : bool_decide _ = false |- _ => apply bool_decide_eq_false in H
  end.

Create HintDb rpc discriminated.

(** ** Lists addressed by Python integers *)

(** [len(l)]. *)
Definition zlen {A} (l : list A) : Z := Z.of_nat (length l).

Lemma zlen_nonneg {A} (l : list A) : (0 ≤ zlen l)%Z.
Proof. unfold zlen. lia. Qed.
#[export] Hint Resolve zlen_nonneg : rpc.

Lemma zlen_app {A} (l1 l2 : list A) : zlen (l1 ++ l2) = (zlen l1 + zlen l2)%Z.
Proof. unfold zlen. rewrite length_app. lia. Qed.
Lemma zlen_nil {A} : zlen (@nil A) = 0%Z.
Proof. done. Qed.
Lemma zlen_cons {A} (x : A) l : zlen (x :: l) = (1 + zlen l)%Z.
Proof. unfold zlen. cbn [length]. lia. Qed.
Create Rewrite HintDb zlen.
#[export] Hint Rewrite @zlen_app @zlen_nil @zlen_cons : zlen.

Lemma mjoin_cons {A} (l : list A) ls : mjoin (l :: ls) = l ++ mjoin ls.
Proof. done. Qed.
Lemma mjoin_app {A} (l1 l2 : list (list A)) : mjoin (l1 ++ l2) = mjoin l1 ++ mjoin l2.
Proof.
  induction l1 as [|x l1 IH]; [done|].
  cbn [app]. rewrite !mjoin_cons, IH. apply app_assoc.
Qed.

(** Slice bound normalisation of CPython (step 1): a negative bound counts
    from the end, and both are clamped to the sequence. *)
Definition slice_bound (n i : Z) : Z :=
  if (i <? 0)%Z then Z.max 0 (i + n) else Z.min i n.

(** [l[start:stop]]. *)
Definition py_slice {A} (l : list A) (start stop : Z) : list A :=
  let a := slice_bound (zlen l) start in
  let b := slice_bound (zlen l) stop in
  take (Z.to_nat (b - a)) (drop (Z.to_nat a) l).

(** [l[start:stop] = new] on a list or bytearray: the addressed range is
    replaced, and the sequence grows or shrinks when the lengths differ. *)
Definition py_slice_set {A} (l : list A) (start stop : Z) (new : list A) : list A :=
  let a := slice_bound (zlen l) start in
  let b := Z.max a (slice_bound (zlen l) stop) in
  take (Z.to_nat a) l ++ new ++ drop (Z.to_nat b) l.

Lemma slice_bound_in n i : (0 ≤ i ≤ n)%Z → slice_bound n i = i.
Proof. unfold slice_bound. intros. destruct (i <? 0)%Z eqn:?; bool_to_prop; lia. Qed.

Lemma py_slice_in {A} (l : list A) a b :
  (0 ≤ a ≤ b)%Z → (b ≤ zlen l)%Z →
  py_slice l a b = take (Z.to_nat (b - a)) (drop (Z.to_nat a) l).
Proof. intros. unfold py_slice. rewrite !slice_bound_in by lia. done. Qed.

Lemma py_slice_app_mid {A} (l1 l2 l3 : list A) :
  py_slice (l1 ++ l2 ++ l3) (zlen l1) (zlen l1 + zlen l2) = l2.
Proof.
  rewrite py_slice_in; autorewrite with zlen; auto with rpc;
    [|pose proof (zlen_nonneg l1); pose proof (zlen_nonneg l2); lia
     |pose proof (zlen_nonneg l3); lia].
  unfold zlen. replace (Z.to_nat _) with (length l2) by lia.
  rewrite Nat2Z.id, drop_app_length, take_app_length. done.
Qed.

Lemma py_slice_length {A} (l : list A) a b :
  (0 ≤ a ≤ b)%Z → (b ≤ zlen l)%Z → zlen (py_slice l a b) = (b - a)%Z.
Proof.
  intros. rewrite py_slice_in by done. unfold zlen in *.
  rewrite length_take, length_drop. lia.
Qed.

(** Cutting a list at [a] and [b]. *)
Lemma py_slice_split {A} (l : list A) a b :
  (0 ≤ a ≤ b)%Z → (b ≤ zlen l)%Z →
  take (Z.to_nat b) l = take (Z.to_nat a) l ++ py_slice l a b.
Proof.
  intros. rewrite py_slice_in by done.
  rewrite take_drop_commute.
  replace (Z.to_nat a + Z.to_nat (b - a)) with (Z.to_nat b) by lia.
  rewrite <- (take_drop (Z.to_nat a) (take (Z.to_nat b) l)) at 1.
  rewrite take_take, Nat.min_l by lia. done.
Qed.

(** ** Bytes *)

(** The byte [z mod 256]. *)
Definition byte_of_Z (z : Z) : byte :=
  match Byte.of_N (Z.to_N (z mod 256)) with Some b => b | None => Byte.x00 end.
Definition Z_of_byte (b : byte) : Z := Z.of_N (Byte.to_N b).

#[export] Instance byte_eq_dec : EqDecision byte := Byte.byte_eq_dec.

Lemma Z_of_byte_range b : (0 ≤ Z_of_byte b < 256)%Z.
Proof. unfold Z_of_byte. pose proof (Byte.to_N_bounded b). lia. Qed.

Lemma Z_of_byte_of_Z z : Z_of_byte (byte_of_Z z) = (z mod 256)%Z.
Proof.
  unfold byte_of_Z, Z_of_byte. pose proof (Z.mod_pos_bound z 256 ltac:(lia)).
  destruct (Byte.of_N _) as [b|] eqn:E.
  - apply Byte.to_of_N in E. rewrite E. lia.
  - apply Byte.of_N_None_iff in E. lia.
Qed.

Lemma byte_of_Z_of_byte b : byte_of_Z (Z_of_byte b) = b.
Proof.
  unfold byte_of_Z. rewrite Z.mod_small by apply Z_of_byte_range.
  unfold Z_of_byte. rewrite N2Z.id, Byte.of_to_N. done.
Qed.

(** The [n] low-order bytes of [z], little endian, and their reading back. *)
Fixpoint le_bytes (n : nat) (z : Z) : list byte :=
  match n with
  | O => []
  | S n => byte_of_Z z :: le_bytes n (Z.shiftr z 8)
  end.
Fixpoint le_value (bs : list byte) : Z :=
  match bs with
  | [] => 0
  | b :: bs => (Z_of_byte b + 256 * le_value bs)%Z
  end.

Lemma length_le_bytes n z : length (le_bytes n z) = n.
Proof. revert z. induction n; cbn; auto. Qed.

Lemma le_value_bytes n z :
  le_value (le_bytes n z) = (z mod 2 ^ (8 * Z.of_nat n))%Z.
Proof.
  revert z. induction n as [|n IH]; intros z.
  { cbn. symmetry. apply Z.mod_1_r. }
  cbn [le_bytes le_value]. rewrite IH, Z_of_byte_of_Z.
  rewrite Z.shiftr_div_pow2 by lia.
  replace (8 * Z.of_nat (S n))%Z with (8 + 8 * Z.of_nat n)%Z by lia.
  rewrite Z.pow_add_r by lia. change (2 ^ 8)%Z with 256%Z.
  pose proof (Z.pow_pos_nonneg 2 (8 * Z.of_nat n) ltac:(lia) ltac:(lia)).
  rewrite Z.rem_mul_r by lia. done.
Qed.

Lemma le_value_roundtrip n z :
  (0 ≤ z < 2 ^ (8 * Z.of_nat n))%Z → le_value (le_bytes n z) = z.
Proof. intros. rewrite le_value_bytes. by apply Z.mod_small. Qed.

(** [b.startswith(p)] on sequences. *)
Definition starts_with {A} `{EqDecision A} (p l : list A) : bool :=
  bool_decide (take (length p) l = p).

Lemma starts_with_app {A} `{EqDecision A} (p l : list A) : starts_with p (p ++ l) = true.
Proof. unfold starts_with. apply bool_decide_eq_true_2. apply take_app_length. Qed.

(** ** Positional numerals, as [str(int)] and base-36 identifiers use *)

(** Digits of [n] in base [b], most significant first, prepended to [acc];
    none for [0]. [fuel] bounds the number of divisions. *)
Fixpoint to_digits (fuel : nat) (b n : Z) (acc : list Z) : list Z :=
  match fuel with
  | O => acc
  | S fuel => if (n =? 0)%Z then acc
              else to_digits fuel b (n / b) ((n mod b)%Z :: acc)
  end.
Definition of_digits (b : Z) (ds : list Z) : Z := foldl (λ a d, (a * b + d)%Z) 0%Z ds.

Lemma foldl_digits b ds a :
  foldl (λ a d, (a * b + d)%Z) a ds = (a * b ^ zlen ds + of_digits b ds)%Z.
Proof.
  unfold of_digits. revert a. induction ds as [|d ds IH]; intros a; cbn [foldl].
  { rewrite zlen_nil. cbn. lia. }
  pose proof (zlen_nonneg ds).
  rewrite IH. rewrite (IH (0 * b + d)%Z), zlen_cons, Z.pow_add_r by lia. lia.
Qed.

Lemma of_digits_cons b d ds : of_digits b (d :: ds) = (d * b ^ zlen ds + of_digits b ds)%Z.
Proof. unfold of_digits at 1. cbn [foldl]. rewrite foldl_digits. lia. Qed.

Lemma of_digits_app b ds1 ds2 :
  of_digits b (ds1 ++ ds2) = (of_digits b ds1 * b ^ zlen ds2 + of_digits b ds2)%Z.
Proof. unfold of_digits at 1. rewrite foldl_app. apply foldl_digits. Qed.

(** Enough fuel: [n < b ^ fuel]. *)
Lemma of_to_digits fuel b n acc :
  (1 < b)%Z → (0 ≤ n < b ^ Z.of_nat fuel)%Z →
  of_digits b (to_digits fuel b n acc) = (n * b ^ zlen acc + of_digits b acc)%Z.
Proof.
  intros Hb. revert n acc. induction fuel as [|fuel IH]; intros n acc Hn.
  { change (Z.of_nat 0) with 0%Z in Hn. rewrite Z.pow_0_r in Hn.
    cbn [to_digits]. replace n with 0%Z by lia. lia. }
  cbn [to_digits]. case_goal; bool_to_prop; [subst; lia|].
  rewrite Nat2Z.inj_succ, Z.pow_succ_r in Hn by lia.
  pose proof (zlen_nonneg acc).
  rewrite IH; [rewrite of_digits_cons, zlen_cons, Z.pow_add_r, Z.pow_1_r by lia|].
  - pose proof (Z.div_mod n b). nia.
  - split; [apply Z.div_pos; lia|]. apply Z.div_lt_upper_bound; lia.
Qed.

Lemma to_digits_range fuel b n acc :
  (1 < b)%Z → Forall (λ d, 0 ≤ d < b)%Z acc →
  Forall (λ d, 0 ≤ d < b)%Z (to_digits fuel b n acc).
Proof.
  intros Hb. revert n acc. induction fuel as [|fuel IH]; intros n acc Hacc; [done|].
  cbn. case_goal; [done|]. apply IH. constructor; [|done].
  apply Z.mod_pos_bound. lia.
Qed.

Lemma to_digits_length fuel b n acc : (zlen (to_digits fuel b n acc) ≤ Z.of_nat fuel + zlen acc)%Z.
Proof.
  revert n acc. induction fuel as [|fuel IH]; intros n acc; cbn [to_digits]; [lia|].
  destruct (n =? 0)%Z; [lia|].
  specialize (IH (n / b)%Z ((n mod b)%Z :: acc)). rewrite zlen_cons in IH. lia.
Qed.
