(* ===== verification/Text.v ===== *)
(** * Python string operations

    Strings are byte sequences (UTF-8), as [Stdlib]'s [string]. The file holds
    the [str] methods the program uses: decimal printing and parsing,
    [join]/[split], [startswith], [in] and [lower] (on ASCII letters; every
    word the program searches for is ASCII). *)

From S2P Require Import Prelude.
From Stdlib Require Export Ascii.

Open Scope string_scope.
Open Scope nat_scope.
Open Scope list_scope.

(** [sep.join(ws)]. *)
Definition join (sep : string) (ws : list string) : string := String.concat sep ws.

(** [s.split(c)] for a one-character separator. *)
Fixpoint split_on (c : ascii) (s : string) : list string :=
  match s with
  | EmptyString => [""]
  | String a s' =>
      if decide (a = c) then "" :: split_on c s'
      else match split_on c s' with
           | w :: ws => String a w :: ws
           | [] => [String a ""]
           end
  end.
Definition dot : ascii := "."%char.

(** [s.startswith(p)]. *)
Definition startswith (p s : string) : bool := String.prefix p s.

(** [sub in s]. *)
Definition contains (sub s : string) : bool :=
  match String.index 0 sub s with Some _ => true | None => false end.

(** [s.split(sub)[0]] for a multi-character separator. *)
Definition before (sub s : string) : string :=
  match String.index 0 sub s with Some n => String.substring 0 n s | None => s end.

Definition lower_ascii (a : ascii) : ascii :=
  let n := nat_of_ascii a in
  if ((65 <=? n) && (n <=? 90))%nat then ascii_of_nat (n + 32)%nat else a.
(** [s.lower()]. *)
Fixpoint lower (s : string) : string :=
  match s with
  | EmptyString => EmptyString
  | String a s' => String (lower_ascii a) (lower s')
  end.

(** [s[n:]]. *)
Fixpoint str_drop (n : nat) (s : string) : string :=
  match n, s with
  | O, _ => s
  | S n, String _ s' => str_drop n s'
  | S _, EmptyString => EmptyString
  end.

(** ** Characters of numerals *)
Definition base36_alphabet : string := "0123456789abcdefghijklmnopqrstuvwxyz".
Definition digit_char (d : Z) : ascii :=
  match String.get (Z.to_nat d) base36_alphabet with Some a => a | None => "0"%char end.
Definition char_digit (a : ascii) : option Z :=
  let n := Z.of_nat (nat_of_ascii a) in
  if (48 <=? n)%Z && (n <=? 57)%Z then Some (n - 48)%Z
  else if (97 <=? n)%Z && (n <=? 122)%Z then Some (n - 87)%Z
  else None.

Definition string_of_chars (l : list ascii) : string := String.string_of_list_ascii l.

(** [str(n)]. *)
Definition str_nonneg (n : Z) : string :=
  if (n =? 0)%Z then "0"
  else string_of_chars (digit_char <$> to_digits (Z.to_nat (Z.log2 n) + 1)%nat 10 n []).
Definition str_int (n : Z) : string :=
  if (n <? 0)%Z then "-" +:+ str_nonneg (- n) else str_nonneg n.

(** [int(s)] on an optional sign followed by decimal digits; [None] is the
    [ValueError]. (The surrounding blanks and the underscores that [int]
    also tolerates never occur in the headers the program parses.) *)
Fixpoint parse_digits (s : string) (acc : Z) : option Z :=
  match s with
  | EmptyString => Some acc
  | String a s' =>
      match char_digit a with
      | Some d => if (d <? 10)%Z then parse_digits s' (acc * 10 + d)%Z else None
      | None => None
      end
  end.
Definition parse_nonneg (s : string) : option Z :=
  match s with EmptyString => None | _ => parse_digits s 0 end.
Definition int_of_str (s : string) : option Z :=
  match s with
  | String "-" s' => Z.opp <$> parse_nonneg s'
  | String "+" s' => parse_nonneg s'
  | _ => parse_nonneg s
  end.

(** ** Lemmas *)

Create Rewrite HintDb str.

Lemma join_cons sep w ws :
  ws ≠ [] → join sep (w :: ws) = w +:+ sep +:+ join sep ws.
Proof. by destruct ws. Qed.

Lemma split_on_nonempty c s : split_on c s ≠ [].
Proof. destruct s; cbn; [done|]. repeat case_goal; done. Qed.

Lemma join_split_on c s : join (String c "") (split_on c s) = s.
Proof.
  induction s as [|a s IH]; [done|]. cbn [split_on]. case_decide; subst.
  - rewrite join_cons by apply split_on_nonempty. by rewrite IH.
  - destruct (split_on c s) as [|w ws] eqn:E; [by apply split_on_nonempty in E|].
    rewrite <- IH. by destruct ws.
Qed.

Lemma append_cons x a b : String x a +:+ b = String x (a +:+ b).
Proof. done. Qed.
Lemma append_nil b : "" +:+ b = b.
Proof. done. Qed.
#[export] Hint Rewrite append_cons append_nil : str.

Lemma string_app_assoc (a b c : string) : (a +:+ b) +:+ c = a +:+ (b +:+ c).
Proof. induction a as [|x a IH]; autorewrite with str; [done|]. by rewrite IH. Qed.

Lemma join_app sep ws ws' : ws ≠ [] → ws' ≠ [] → join sep (ws ++ ws') = join sep ws +:+ sep +:+ join sep ws'.
Proof.
  intros Hws Hws'. induction ws as [|x ws IH]; [done|]. cbn [app].
  destruct ws as [|y ws]; [by rewrite join_cons|]. rewrite !(join_cons sep x) by done.
  rewrite IH by done. by rewrite !string_app_assoc.
Qed.

Lemma join_snoc sep ws w : ws ≠ [] → join sep (ws ++ [w]) = join sep ws +:+ sep +:+ w.
Proof. intros H. by rewrite join_app. Qed.

Lemma startswith_app p s : startswith p (p +:+ s) = true.
Proof.
  unfold startswith. induction p as [|a p IH]; [by destruct s|].
  rewrite append_cons. cbn. destruct (Ascii.ascii_dec a a); done.
Qed.

Lemma startswith_inv p s : startswith p s = true → ∃ t, s = p +:+ t.
Proof.
  unfold startswith. revert s. induction p as [|a p IH]; intros s H; [by exists s|].
  destruct s as [|b s]; [discriminate|]. cbn in H.
  destruct (Ascii.ascii_dec a b); [subst|discriminate].
  destruct (IH _ H) as [t ->]. by exists t.
Qed.

Lemma str_drop_app p s : str_drop (String.length p) (p +:+ s) = s.
Proof. induction p; [by destruct s|done]. Qed.

(** No separator inside: the string is its own only part. *)
Fixpoint lacks (c : ascii) (s : string) : bool :=
  match s with
  | EmptyString => true
  | String a s' => bool_decide (a ≠ c) && lacks c s'
  end.

Lemma lacks_app c s t : lacks c (s +:+ t) = lacks c s && lacks c t.
Proof.
  induction s as [|a s IH]; [done|]. rewrite append_cons. cbn.
  rewrite IH. by rewrite andb_assoc.
Qed.

Lemma split_on_lacks c s : lacks c s = true → split_on c s = [s].
Proof.
  induction s as [|a s IH]; [done|]. cbn. intros H. bool_to_prop.
  rewrite decide_False by done. by rewrite IH.
Qed.

Lemma split_on_app c s t :
  lacks c s = true → split_on c (s +:+ String c t) = s :: split_on c t.
Proof.
  induction s as [|a s IH]; autorewrite with str; cbn; intros H.
  { by rewrite decide_True. }
  bool_to_prop. rewrite decide_False by done. by rewrite IH.
Qed.

Lemma digit_char_inv d : (0 ≤ d < 36)%Z → char_digit (digit_char d) = Some d.
Proof.
  intros H. assert (Hd : In d (Z.of_nat <$> seq 0 36)).
  { apply list_elem_of_In, list_elem_of_fmap. exists (Z.to_nat d).
    split; [lia|]. apply elem_of_seq. lia. }
  revert d Hd H.
  assert (F : Forall (λ d, char_digit (digit_char d) = Some d) (Z.of_nat <$> seq 0 36)).
  { repeat constructor. }
  intros d Hd _. rewrite Forall_forall in F. apply F. by apply list_elem_of_In.
Qed.

Lemma parse_digits_char ds acc :
  Forall (λ d, 0 ≤ d < 10)%Z ds →
  parse_digits (string_of_chars (digit_char <$> ds)) acc
  = Some (foldl (λ a d, (a * 10 + d)%Z) acc ds).
Proof.
  intros H. revert acc. induction H as [|d ds Hd _ IH]; intros acc; [done|].
  cbn [fmap list_fmap]. unfold string_of_chars in *. cbn [String.string_of_list_ascii parse_digits].
  rewrite digit_char_inv by lia. destruct (d <? 10)%Z eqn:E; bool_to_prop; [|lia].
  apply IH.
Qed.

Lemma log2_fuel n : (0 < n)%Z → (n < 10 ^ Z.of_nat (Z.to_nat (Z.log2 n) + 1)%nat)%Z.
Proof.
  intros. pose proof (Z.log2_spec n ltac:(lia)) as [_ H2]. pose proof (Z.log2_nonneg n).
  replace (Z.of_nat _) with (Z.succ (Z.log2 n)) by lia.
  eapply Z.lt_le_trans; [apply H2|]. apply Z.pow_le_mono_l. lia.
Qed.

Lemma to_digits_nonempty fuel b n acc : acc ≠ [] → to_digits fuel b n acc ≠ [].
Proof.
  revert n acc. induction fuel as [|fuel IH]; intros n acc H; [done|].
  cbn. case_goal; [done|]. by apply IH.
Qed.

Lemma parse_str_nonneg n :
  (0 ≤ n)%Z →
  parse_nonneg (str_nonneg n) = Some n ∧
  ∃ a s, str_nonneg n = String a s ∧ is_Some (char_digit a).
Proof.
  intros Hn. unfold str_nonneg. destruct (n =? 0)%Z eqn:E; bool_to_prop.
  { subst. split; [done|]. by exists "0"%char, "". }
  pose proof (log2_fuel n ltac:(lia)) as Hf.
  pose proof (to_digits_range (Z.to_nat (Z.log2 n) + 1)%nat 10 n [] ltac:(lia) (Forall_nil_2 _)) as Hr.
  pose proof (of_to_digits (Z.to_nat (Z.log2 n) + 1)%nat 10 n [] ltac:(lia) ltac:(lia)) as Hv.
  change (zlen []) with 0%Z in Hv. change (of_digits 10 []) with 0%Z in Hv.
  rewrite Z.pow_0_r in Hv.
  destruct (to_digits _ 10 n []) as [|d ds] eqn:Ed.
  { change (of_digits 10 []) with 0%Z in Hv. lia. }
  split.
  - unfold parse_nonneg. cbn [fmap list_fmap]. unfold string_of_chars. cbn [String.string_of_list_ascii].
    change (String (digit_char d) _) with (string_of_chars (digit_char <$> d :: ds)).
    rewrite parse_digits_char by done. f_equal. unfold of_digits in Hv. lia.
  - exists (digit_char d), (string_of_chars (digit_char <$> ds)). split; [done|].
    inversion Hr; subst. rewrite digit_char_inv by lia. done.
Qed.

(** [int(str(n)) == n]. *)
Lemma int_of_str_int n : int_of_str (str_int n) = Some n.
Proof.
  unfold str_int. destruct (n <? 0)%Z eqn:E; bool_to_prop.
  - rewrite append_cons. cbn. destruct (parse_str_nonneg (- n) ltac:(lia)) as [H _].
    change ("" +:+ str_nonneg (- n)) with (str_nonneg (- n)). rewrite H. cbn. f_equal. lia.
  - destruct (parse_str_nonneg n ltac:(lia)) as [H (a & s & Hs & Ha)].
    rewrite Hs in *. unfold int_of_str.
    repeat match goal with |- context [match ?x with _ => _ end] =>
      match type of x with Ascii.ascii => destruct x | bool => destruct x end end;
      try done; cbn in Ha; by destruct Ha.
Qed.
