(* ===== verification/PyVal.v ===== *)
(** * Python values, as far as messages carry them

    The data the library encodes, decodes and routes: scalars, the three
    buffer types, lists, tuples, dicts in insertion order, and the few class
    instances the encoder's default hook knows. Floats are carried as their
    IEEE-754 bit pattern and never computed with. *)

From S2P Require Import Prelude Text.

#[warnings="-register-all"]
Inductive pyval : Type :=
| PNone
| PBool (b : bool)
| PInt (z : Z)
| PFloat (bits : Z)
| PStr (s : string)
| PBytes (bs : list byte)
| PByteArray (bs : list byte)
(** a memoryview: its bytes in C order, and whether it is C-contiguous *)
| PMemView (contiguous : bool) (bs : list byte)
| PList (vs : list pyval)
| PTuple (vs : list pyval)
| PDict (kvs : list (pyval * pyval))
| PEnum (value : pyval)
| PDateTime (year month day hour minute second micro : Z)
| PDate (year month day : Z)
| PTime (hour minute second micro : Z)
(** a callable, and any other object, by identity *)
| PFun (id : Z)
| PObject (id : Z).

(** Induction that reaches the elements of lists, tuples and dicts. *)
Section pyval_ind.
Variable P : pyval → Prop.
Hypothesis Hlist : ∀ vs, Forall P vs → P (PList vs).
Hypothesis Htuple : ∀ vs, Forall P vs → P (PTuple vs).
Hypothesis Hdict : ∀ kvs, Forall (λ kv, P kv.1 ∧ P kv.2) kvs → P (PDict kvs).
Hypothesis Henum : ∀ v, P v → P (PEnum v).
Hypothesis Hleaf : ∀ v,
  match v with PList _ | PTuple _ | PDict _ | PEnum _ => True | _ => P v end.

Fixpoint pyval_nested_ind (v : pyval) : P v :=
  let vals := fix vals vs : Forall P vs :=
    match vs with
    | [] => Forall_nil_2 _
    | v :: vs => Forall_cons_2 _ _ _ (pyval_nested_ind v) (vals vs)
    end in
  match v with
  | PList vs => Hlist vs (vals vs)
  | PTuple vs => Htuple vs (vals vs)
  | PDict kvs => Hdict kvs
      ((fix entries kvs : Forall (λ kv, P kv.1 ∧ P kv.2) kvs :=
        match kvs with
        | [] => Forall_nil_2 _
        | kv :: kvs => Forall_cons_2 _ _ _
            (conj (pyval_nested_ind kv.1) (pyval_nested_ind kv.2)) (entries kvs)
        end) kvs)
  | PEnum v => Henum v (pyval_nested_ind v)
  | v => Hleaf v
  end.
End pyval_ind.

(** Starts that induction on [v]: lists, tuples, dicts, enum members, and one
    goal per remaining constructor. *)
Ltac induct_val v :=
  revert v;
  match goal with |- ∀ v : pyval, @?P v => apply (pyval_nested_ind P) end; cbv beta;
  [intros vs IH|intros vs IH|intros kvs IH|intros v IH|intros []; try exact I].

(** ** Dictionaries with string keys *)

Definition is_key (k : string) (key : pyval) : bool :=
  match key with PStr s => bool_decide (s = k) | _ => false end.

(** [d[k]] for a string [k]; [None] is the missing key. *)
Fixpoint dict_lookup (k : string) (kvs : list (pyval * pyval)) : option pyval :=
  match kvs with
  | [] => None
  | (key, v) :: kvs => if is_key k key then Some v else dict_lookup k kvs
  end.

(** [d.get(k)]. *)
Definition dict_get (k : string) (kvs : list (pyval * pyval)) : pyval :=
  default PNone (dict_lookup k kvs).

(** [k in d]. *)
Definition dict_has (k : string) (kvs : list (pyval * pyval)) : bool :=
  match dict_lookup k kvs with Some _ => true | None => false end.

(** [d[k] = v]: in place when the key exists, at the end otherwise. *)
Fixpoint dict_set (k : string) (v : pyval) (kvs : list (pyval * pyval)) :
    list (pyval * pyval) :=
  match kvs with
  | [] => [(PStr k, v)]
  | (key, w) :: kvs =>
      if is_key k key then (key, v) :: kvs else (key, w) :: dict_set k v kvs
  end.

(** [d.pop(k)] on a present key: the remaining dict. *)
Fixpoint dict_del (k : string) (kvs : list (pyval * pyval)) : list (pyval * pyval) :=
  match kvs with
  | [] => []
  | (key, w) :: kvs => if is_key k key then kvs else (key, w) :: dict_del k kvs
  end.

(** [v.get(k)] on a value that is a dict; [None] otherwise ([AttributeError]
    in Python, which the callers model). *)
Definition val_get (k : string) (v : pyval) : option pyval :=
  match v with PDict kvs => Some (dict_get k kvs) | _ => None end.

(** [bool(v)]. *)
Definition truthy (v : pyval) : bool :=
  match v with
  | PNone => false
  | PBool b => b
  | PInt z => negb (z =? 0)%Z
  | PFloat bits => negb (Z.land bits (2 ^ 63 - 1) =? 0)%Z
  | PStr s => negb (bool_decide (s = ""))
  | PBytes bs | PByteArray bs | PMemView _ bs => negb (bool_decide (bs = []))
  | PList vs | PTuple vs => negb (bool_decide (length vs = O))
  | PDict kvs => negb (bool_decide (length kvs = O))
  | _ => true
  end.

Definition is_none (v : pyval) : bool := match v with PNone => true | _ => false end.
Definition is_dict (v : pyval) : bool := match v with PDict _ => true | _ => false end.
Definition is_true (v : pyval) : bool := match v with PBool true => true | _ => false end.

(** ** Lemmas *)

Lemma is_key_refl k : is_key k (PStr k) = true.
Proof. cbn. by apply bool_decide_eq_true_2. Qed.
Lemma is_key_ne k k' : k ≠ k' → is_key k (PStr k') = false.
Proof. intros H. cbn. apply bool_decide_eq_false_2. congruence. Qed.

Lemma dict_lookup_set k v kvs : dict_lookup k (dict_set k v kvs) = Some v.
Proof.
  induction kvs as [|[key w] kvs IH]; cbn -[is_key].
  - by rewrite is_key_refl.
  - destruct (is_key k key) eqn:E; cbn -[is_key]; by rewrite E.
Qed.

Lemma dict_lookup_set_ne k k' v kvs :
  k ≠ k' → dict_lookup k' (dict_set k v kvs) = dict_lookup k' kvs.
Proof.
  intros H. induction kvs as [|[key w] kvs IH]; cbn -[is_key].
  - by rewrite is_key_ne.
  - destruct (is_key k key) eqn:E; cbn -[is_key].
    + destruct key; try discriminate. cbn in E. bool_to_prop. subst.
      by rewrite is_key_ne.
    + by rewrite IH.
Qed.

Lemma dict_get_set k v kvs : dict_get k (dict_set k v kvs) = v.
Proof. unfold dict_get. by rewrite dict_lookup_set. Qed.
Lemma dict_get_set_ne k k' v kvs : k ≠ k' → dict_get k' (dict_set k v kvs) = dict_get k' kvs.
Proof. intros. unfold dict_get. by rewrite dict_lookup_set_ne. Qed.
