(* ===== verification/Dict.v ===== *)
(** * Python dicts whose order matters

    An association list in insertion order, with Python's semantics: an
    assignment keeps the place of an existing key and appends a new one. *)

From S2P Require Import Prelude.

Section odict.
Context {K : Type} `{EqDecision K} {A : Type}.
Implicit Types (k : K) (v : A) (d : list (K * A)).

Fixpoint od_get k d : option A :=
  match d with
  | [] => None
  | (k', v) :: d => if decide (k' = k) then Some v else od_get k d
  end.

(** [d[k] = v] *)
Fixpoint od_set k v d : list (K * A) :=
  match d with
  | [] => [(k, v)]
  | (k', w) :: d => if decide (k' = k) then (k, v) :: d else (k', w) :: od_set k v d
  end.

(** [d.pop(k, None)], the remaining dict *)
Definition od_del k d : list (K * A) := filter (λ kv, kv.1 ≠ k) d.

(** [k in d] *)
Definition od_has k d : bool := bool_decide (is_Some (od_get k d)).

Definition od_wf d : Prop := NoDup d.*1.

Lemma od_get_set k v d : od_get k (od_set k v d) = Some v.
Proof.
  induction d as [|[k' w] d IH]; cbn; [by rewrite decide_True|].
  destruct (decide (k' = k)) as [->|]; cbn; [by rewrite decide_True|by rewrite decide_False].
Qed.

Lemma od_get_set_ne k k' v d : k ≠ k' → od_get k' (od_set k v d) = od_get k' d.
Proof.
  intros Hk. induction d as [|[j w] d IH]; cbn; [by rewrite decide_False|].
  destruct (decide (j = k)) as [->|]; cbn; [by rewrite !decide_False|by rewrite IH].
Qed.

Lemma od_del_cons k k' v d :
  od_del k ((k', v) :: d) = if decide (k' = k) then od_del k d else (k', v) :: od_del k d.
Proof.
  unfold od_del. rewrite filter_cons. cbn. destruct (decide (k' = k)) as [->|Hn].
  - by rewrite decide_False by tauto.
  - by rewrite decide_True.
Qed.

Lemma od_get_del k d : od_get k (od_del k d) = None.
Proof.
  induction d as [|[k' w] d IH]; [done|]. rewrite od_del_cons.
  destruct (decide (k' = k)); [done|]. cbn. by rewrite decide_False.
Qed.

Lemma od_get_del_ne k k' d : k ≠ k' → od_get k' (od_del k d) = od_get k' d.
Proof.
  intros Hk. induction d as [|[j w] d IH]; [done|]. rewrite od_del_cons.
  destruct (decide (j = k)) as [->|]; cbn; [by rewrite decide_False|by rewrite IH].
Qed.

Lemma od_get_in k v d : od_get k d = Some v → (k, v) ∈ d.
Proof.
  induction d as [|[j w] d IH]; cbn; [done|]. destruct (decide (j = k)) as [->|].
  - intros [= ->]. apply list_elem_of_here.
  - intros H'. apply list_elem_of_further. auto.
Qed.

Lemma od_in_get k v d : od_wf d → (k, v) ∈ d → od_get k d = Some v.
Proof.
  unfold od_wf. induction d as [|[j w] d IH]; cbn; intros Hd Hin; [by apply elem_of_nil in Hin|].
  apply NoDup_cons in Hd as [Hj Hd]. apply elem_of_cons in Hin as [[= -> ->]|Hin].
  - by rewrite decide_True.
  - rewrite decide_False; [auto|]. intros ->. apply Hj, list_elem_of_fmap. by exists (k, v).
Qed.

Lemma od_get_keys k d : is_Some (od_get k d) ↔ k ∈ d.*1.
Proof.
  induction d as [|[j w] d IH]; cbn.
  - split; [by intros []|by intros []%elem_of_nil].
  - rewrite elem_of_cons. destruct (decide (j = k)) as [->|]; [by split; eauto|].
    rewrite IH. split; [auto|]. by intros [->|].
Qed.

Lemma od_keys_set k v d j : j ∈ (od_set k v d).*1 ↔ j = k ∨ j ∈ d.*1.
Proof.
  induction d as [|[i w] d IH]; cbn; [by rewrite list_elem_of_singleton, elem_of_nil; intuition|].
  destruct (decide (i = k)) as [->|]; cbn; rewrite !elem_of_cons; [tauto|]. rewrite IH. tauto.
Qed.

Lemma od_wf_set k v d : od_wf d → od_wf (od_set k v d).
Proof.
  unfold od_wf. induction d as [|[j w] d IH]; cbn; intros Hd.
  - apply NoDup_singleton.
  - apply NoDup_cons in Hd as [Hj Hd]. destruct (decide (j = k)) as [->|]; cbn.
    + by constructor.
    + constructor; [|auto]. rewrite od_keys_set. by intros [->|].
Qed.

Lemma od_keys_del k d : (od_del k d).*1 = filter (λ j, j ≠ k) d.*1.
Proof.
  induction d as [|[j w] d IH]; [done|]. rewrite od_del_cons, fmap_cons, filter_cons. cbn.
  destruct (decide (j = k)) as [->|].
  - by rewrite decide_False by tauto.
  - rewrite decide_True by done. rewrite fmap_cons. by rewrite IH.
Qed.

Lemma od_wf_del k d : od_wf d → od_wf (od_del k d).
Proof. unfold od_wf. intros. rewrite od_keys_del. by apply NoDup_filter. Qed.

Lemma od_elem_del k d j v : (j, v) ∈ od_del k d ↔ j ≠ k ∧ (j, v) ∈ d.
Proof. unfold od_del. by rewrite list_elem_of_filter. Qed.

Lemma od_set_elem k v d j w : (j, w) ∈ od_set k v d → (j, w) = (k, v) ∨ (j, w) ∈ d.
Proof.
  induction d as [|[i u] d IH]; cbn; [intros ?%list_elem_of_singleton; auto|].
  destruct (decide (i = k)) as [->|]; rewrite !elem_of_cons; [tauto|]. intros [?|?]; [tauto|]. destruct IH; auto.
Qed.

Lemma od_set_elem_wf k v d j w :
  od_wf d → (j, w) ∈ od_set k v d → (j = k ∧ w = v) ∨ (j ≠ k ∧ (j, w) ∈ d).
Proof.
  intros Hd Hin. assert (Hg : od_get j (od_set k v d) = Some w) by (by apply od_in_get; [apply od_wf_set|]).
  destruct (decide (k = j)) as [->|Hne].
  - left. rewrite od_get_set in Hg. by injection Hg.
  - right. rewrite od_get_set_ne in Hg by done. split; [done|by apply od_get_in].
Qed.

Lemma od_wf_filter (P : K * A → Prop) `{∀ kv, Decision (P kv)} d : od_wf d → NoDup (filter P d).*1.
Proof.
  unfold od_wf. induction d as [|[j w] d IH]; [done|]. rewrite filter_cons, fmap_cons.
  intros [Hj Hd]%NoDup_cons. destruct (decide (P (j, w))); [|auto].
  rewrite fmap_cons. constructor; [|auto]. intros Hin. apply Hj.
  apply list_elem_of_fmap in Hin as (kv & -> & Hin). apply list_elem_of_filter in Hin as [_ Hin].
  apply list_elem_of_fmap. by exists kv.
Qed.
End odict.

Arguments od_del : simpl never.

#[export] Hint Resolve od_wf_set od_wf_del od_get_set od_get_del : rpc.
