(* ===== verification/Errors.v ===== *)
(** * RPC errors (errors.py, the [ErrorCode] enum of types.py)

    The exception class that crosses the wire, the standard codes, and the
    Python exceptions the modelled code raises or inspects. *)

From S2P Require Import Prelude Text PyVal.

Inductive error_code :=
| METHOD_NOT_FOUND | INVALID_PARAMS | INTERNAL_ERROR | TIMEOUT
| CONNECTION_CLOSED | STREAM_ERROR | PAYLOAD_TOO_LARGE | NOT_FOUND.
#[export] Instance error_code_eq_dec : EqDecision error_code.
Proof. solve_decision. Defined.

(** [ErrorCode.X.value]. *)
Definition code_value (c : error_code) : string :=
  match c with
  | METHOD_NOT_FOUND => "METHOD_NOT_FOUND" | INVALID_PARAMS => "INVALID_PARAMS"
  | INTERNAL_ERROR => "INTERNAL_ERROR" | TIMEOUT => "TIMEOUT"
  | CONNECTION_CLOSED => "CONNECTION_CLOSED" | STREAM_ERROR => "STREAM_ERROR"
  | PAYLOAD_TOO_LARGE => "PAYLOAD_TOO_LARGE" | NOT_FOUND => "NOT_FOUND"
  end.

(** [RPCException]: nothing checks the types of [code] and [message], which a
    peer chooses, so they are values. *)
Record rpc_exception := RPCException { rx_code : pyval; rx_message : pyval; rx_data : pyval }.

(** Exceptions by class, each with its [str(e)]. *)
Inductive exn :=
| ValueError (msg : string)
| RuntimeError (msg : string)
| TypeError (msg : string)
| AttributeError (msg : string)
| KeyError (key : string)
| IndexError
| ZeroDivisionError
| StructError
(** [nats.errors.TimeoutError]; its [str] is fixed, whatever its arguments *)
| TimeoutError (msg : string)
(** [nats.errors.NoRespondersError], likewise *)
| NoRespondersError (subject : string)
| RPCError (e : rpc_exception)
(** any other exception class, with its [str(e)] *)
| OtherError (msg : string).

(** [RPCException.to_dict]. *)
Definition to_dict (e : rpc_exception) : pyval :=
  PDict [(PStr "code", rx_code e); (PStr "message", rx_message e); (PStr "data", rx_data e)].

(** [RPCException.from_dict]: [error["code"]] and [error["message"]] are
    required, [data] is optional. *)
Definition from_dict (error : pyval) : result exn rpc_exception :=
  match error with
  | PDict kvs =>
      match dict_lookup "code" kvs with
      | None => Raise (KeyError "code")
      | Some code =>
          match dict_lookup "message" kvs with
          | None => Raise (KeyError "message")
          | Some message => Ok (RPCException code message (dict_get "data" kvs))
          end
      end
  | _ => Raise (TypeError "error is not subscriptable by a string")
  end.

Inductive code_arg := CodeEnum (c : error_code) | CodeStr (s : string).

Definition create_error (code : code_arg) (message : string) (data : pyval) : rpc_exception :=
  let code := match code with CodeEnum c => code_value c | CodeStr s => s end in
  RPCException (PStr code) (PStr message) data.

Definition create_error_from_dict (kvs : list (pyval * pyval)) : rpc_exception :=
  RPCException
    (default (PStr (code_value INTERNAL_ERROR)) (dict_lookup "code" kvs))
    (default (PStr "Unknown error") (dict_lookup "message" kvs))
    (dict_get "data" kvs).

Section str.
(** [str(v)] of a value that is not a string. *)
Variable py_str : pyval → string.

Definition fmt (v : pyval) : string := match v with PStr s => s | _ => py_str v end.

(** [RPCException.__str__]. *)
Definition rpc_exception_str (e : rpc_exception) : string :=
  if truthy (rx_data e)
  then "[" +:+ fmt (rx_code e) +:+ "] " +:+ fmt (rx_message e)
         +:+ " (data: " +:+ fmt (rx_data e) +:+ ")"
  else "[" +:+ fmt (rx_code e) +:+ "] " +:+ fmt (rx_message e).

(** [str(e)]. *)
Definition exn_str (e : exn) : string :=
  match e with
  | ValueError m | RuntimeError m | TypeError m | AttributeError m
  | OtherError m => m
  | TimeoutError _ => "nats: timeout"
  | KeyError k => "'" +:+ k +:+ "'"
  | IndexError => "list index out of range"
  | ZeroDivisionError => "integer division or modulo by zero"
  | StructError => "argument out of range"
  | NoRespondersError _ => "nats: no responders available for request"
  | RPCError e => rpc_exception_str e
  end.

(** handler.py [format_error_dict]. *)
Definition format_error_dict (e : exn) : pyval :=
  match e with
  | RPCError e => to_dict e
  | _ => PDict [(PStr "code", PStr (code_value INTERNAL_ERROR)); (PStr "message", PStr (exn_str e))]
  end.
End str.

(** ** Lemmas *)

Lemma from_to_dict e : from_dict (to_dict e) = Ok e.
Proof. by destruct e. Qed.

Lemma code_value_inj c1 c2 : code_value c1 = code_value c2 → c1 = c2.
Proof. by destruct c1, c2. Qed.

(** What a caller sees of an exception raised in a handler. *)
Definition remote_error (py_str : pyval → string) (e : exn) : rpc_exception :=
  match e with
  | RPCError e => e
  | _ => RPCException (PStr (code_value INTERNAL_ERROR)) (PStr (exn_str py_str e)) PNone
  end.

Lemma from_format_error_dict py_str e :
  from_dict (format_error_dict py_str e) = Ok (remote_error py_str e).
Proof. destruct e as [| | | | | | | | | | [] |]; done. Qed.
