(* ===== verification/Types.v ===== *)
(** * The declared message types (types.py, channel.py)

    The [TypedDict]s of the messages that cross the wire, as schemas with a
    decidable check. What the code publishes is checked against them where it
    is modelled ([DispatchSpec], [WireTypes]). Nothing checks at run time that
    an exception's code and message are strings, so the schemas take the type
    of these texts: [TStr] as declared, [TAny] for whatever they are.

    Python mangles the keys that begin with two underscores inside a class
    body; the messages use them unmangled, as they are written here. *)

From S2P Require Import Prelude Text PyVal Dict Errors.

#[warnings="-register-all"]
Inductive ty :=
| TAny
| TNone
| TBool
| TInt
| TStr
| TBytes
| TLiteral (ss : list string)
| TUnion (a b : ty)
| TList (t : ty)
(** the keys, each required or not *)
| TTypedDict (fields : list (string * (bool * ty))).

Definition required (t : ty) : bool * ty := (true, t).
Definition not_required (t : ty) : bool * ty := (false, t).

(** The keys of a dict that has only strings. *)
Definition str_keys (kvs : list (pyval * pyval)) : option (list string) :=
  mapM (λ k, match k with PStr s => Some s | _ => None end) kvs.*1.

(** Distinct declared keys. *)
Definition keys_declared (fields : list (string * (bool * ty))) (kvs : list (pyval * pyval)) : bool :=
  match str_keys kvs with
  | Some ks => bool_decide (NoDup ks) && forallb (λ k, od_has k fields) ks
  | None => false
  end.

Fixpoint has_type (t : ty) (v : pyval) : bool :=
  match t, v with
  | TAny, _ => true
  | TNone, PNone => true
  | TBool, PBool _ => true
  | TInt, PInt _ => true
  | TStr, PStr _ => true
  | TBytes, PBytes _ => true
  | TLiteral ss, PStr s => bool_decide (s ∈ ss)
  | TUnion a b, _ => has_type a v || has_type b v
  | TList t, PList vs => forallb (has_type t) vs
  | TTypedDict fields, PDict kvs =>
      keys_declared fields kvs &&
      forallb (λ '(k, (req, t)), match dict_lookup k kvs with Some x => has_type t x | None => negb req end) fields
  | _, _ => false
  end.

(** ** types.py *)

Definition optional (t : ty) : ty := TUnion t TNone.

Section types.
Variable text : ty.

Definition RPCErrorDict : ty :=
  TTypedDict [("code", required text); ("message", required text); ("data", not_required (optional TAny))].
Definition RPCTiming : ty := TTypedDict [("start", required TInt); ("end", required TInt)].
Definition RPCMessage : ty :=
  TTypedDict [("id", required TStr); ("method", required TStr); ("params", required TAny);
              ("error", not_required (optional RPCErrorDict)); ("__discover", not_required TBool);
              ("__timing", not_required TBool)].
Definition RPCResponse : ty :=
  TTypedDict [("id", required TStr); ("result", not_required (optional TAny));
              ("error", not_required (optional RPCErrorDict)); ("__methods", not_required (optional (TList TStr)));
              ("__timing", not_required (optional RPCTiming))].
Definition StreamMessage : ty :=
  TTypedDict [("id", required TStr); ("type", required (TLiteral ["data"; "end"; "error"]));
              ("data", not_required (optional TAny)); ("error", not_required (optional RPCErrorDict))].
Definition PullIteratorRequest : ty :=
  TTypedDict [("id", required TStr); ("type", required (TLiteral ["next"; "cancel"]))].
Definition PullIteratorResponse : ty :=
  TTypedDict [("id", required TStr); ("type", required (TLiteral ["value"; "done"; "error"]));
              ("value", not_required (optional TAny)); ("error", not_required (optional RPCErrorDict))].
Definition ChunkedTransferHeader : ty :=
  TTypedDict [("type", required (TLiteral ["chunked"])); ("transferId", required TStr);
              ("totalChunks", required TInt); ("totalSize", required TInt); ("chunkSize", required TInt)].
Definition CallbackParams : ty :=
  TTypedDict [("__callback", required TBool); ("__callbackSubject", required TStr); ("args", required (TList TAny))].
Definition CallbackMessage : ty :=
  TTypedDict [("id", required TStr); ("type", required (TLiteral ["data"; "error"]));
              ("data", not_required (optional TAny)); ("error", not_required (optional RPCErrorDict))].
Definition PullCallbackParams : ty :=
  TTypedDict [("__pullCallback", required TBool); ("__iteratorId", required TStr);
              ("__callbackSubject", required TStr); ("__callbackMethods", required (TList TStr));
              ("__onewayMethods", required (TList TStr)); ("args", required (TList TAny))].
Definition CallbackInvocation : ty :=
  TTypedDict [("method", required TStr); ("args", required (TList TAny))].
(** channel.py *)
Definition ChannelMessage : ty :=
  TTypedDict [("type", required (TLiteral ["message"; "close"; "error"])); ("data", required (optional TAny));
              ("error", required (optional TStr)); ("sender", required (optional TStr))].
End types.

(** ** Building a typed dict key by key *)

Lemma dict_set_keys k v kvs ks :
  kvs.*1 = PStr <$> ks →
  (dict_set k v kvs).*1 = PStr <$> (if decide (k ∈ ks) then ks else ks ++ [k]).
Proof.
  revert ks. induction kvs as [|[key w] kvs IH]; intros ks H.
  - destruct ks; [|done]. by rewrite decide_False by apply not_elem_of_nil.
  - destruct ks as [|k' ks]; [done|]. rewrite !fmap_cons in H. cbn in H. injection H as -> H.
    cbn -[is_key]. destruct (is_key k (PStr k')) eqn:E.
    + cbn in E. bool_to_prop. subst. rewrite decide_True by apply list_elem_of_here.
      rewrite !fmap_cons. cbn. by rewrite H.
    + cbn in E. bool_to_prop. rewrite fmap_cons, (IH ks H). cbn.
      destruct (decide (k ∈ ks)); [rewrite decide_True by (by apply list_elem_of_further); done|].
      rewrite decide_False; [done|]. intros [->|?]%elem_of_cons; done.
Qed.

Lemma str_keys_spec kvs ks : str_keys kvs = Some ks ↔ kvs.*1 = PStr <$> ks.
Proof.
  unfold str_keys. generalize kvs.*1. intros l. rewrite mapM_Some. split.
  - induction 1 as [|x y l k Hx _ IH]; [done|]. destruct x; try done. injection Hx as ->. by rewrite IH.
  - intros ->. induction ks; constructor; done.
Qed.

Lemma forallb_Forall {A} (f : A → bool) l : forallb f l = true ↔ Forall (λ x, f x = true) l.
Proof. rewrite forallb_forall, Forall_forall. by setoid_rewrite list_elem_of_In. Qed.

Lemma keys_declared_spec fields kvs :
  keys_declared fields kvs = true ↔
  ∃ ks, kvs.*1 = PStr <$> ks ∧ NoDup ks ∧ Forall (λ k, is_Some (od_get k fields)) ks.
Proof.
  unfold keys_declared. split.
  - destruct (str_keys kvs) as [ks|] eqn:E; [|done]. rewrite andb_true_iff, forallb_Forall. intros [H1 H2].
    exists ks. apply str_keys_spec in E. split_and!; [done|by apply bool_decide_eq_true_1 in H1|].
    eapply Forall_impl; [exact H2|]. intros k Hk. by apply bool_decide_eq_true_1 in Hk.
  - intros (ks & E & H1 & H2). apply str_keys_spec in E. rewrite E, andb_true_iff, forallb_Forall.
    split; [by apply bool_decide_eq_true_2|]. eapply Forall_impl; [exact H2|]. intros k Hk. by apply bool_decide_eq_true_2.
Qed.

(** A typed dict stays one when a declared key gets a value of its type. *)
Lemma has_type_set fields k req t v kvs :
  od_wf fields → od_get k fields = Some (req, t) → has_type t v = true →
  has_type (TTypedDict fields) (PDict kvs) = true → has_type (TTypedDict fields) (PDict (dict_set k v kvs)) = true.
Proof.
  intros Hw Hk Hv. cbn [has_type]. rewrite !andb_true_iff, !keys_declared_spec, !forallb_Forall.
  intros [(ks & E & H1 & H2) H3]. split.
  - rewrite (dict_set_keys k v kvs ks E). eexists. split; [done|].
    destruct (decide (k ∈ ks)) as [|Hn]; [done|]. split.
    + apply NoDup_app. split; [done|]. split; [|apply NoDup_singleton].
      intros x Hx Hx'%list_elem_of_singleton. by subst.
    + apply Forall_app. split; [done|]. apply Forall_singleton. eauto.
  - apply Forall_forall. intros [k' [req' t']] Hin. rewrite Forall_forall in H3. specialize (H3 _ Hin).
    destruct (decide (k = k')) as [<-|Hne].
    + rewrite dict_lookup_set. apply od_in_get in Hin; [|done]. rewrite Hk in Hin. injection Hin as <- <-. by rewrite Hv.
    + by rewrite dict_lookup_set_ne.
Qed.

Lemma has_type_optional t v : has_type t v = true → has_type (optional t) v = true.
Proof. intros H. unfold optional. cbn [has_type]. by rewrite H. Qed.

Lemma strings_type ss : has_type (TList TStr) (PList (PStr <$> ss)) = true.
Proof. cbn. by induction ss. Qed.
Lemma values_type vs : has_type (TList TAny) (PList vs) = true.
Proof. cbn. by induction vs. Qed.

(** An exception as the library sends it. *)
Lemma to_dict_type e : has_type (RPCErrorDict TAny) (to_dict e) = true.
Proof. by destruct e. Qed.
Lemma format_error_type py_str e : has_type (RPCErrorDict TAny) (format_error_dict py_str e) = true.
Proof. by destruct e as [| | | | | | | | | |[]|]. Qed.
