(* ===== verification/MsgPack.v ===== *)
(** * The interface to ormsgpack

    [ormsgpack] is a third-party package: the model knows it by the class
    [MsgPack], its two functions as the library calls them, and [MsgPackLaws],
    what the library relies on: plain values come back as [wire_value] of
    themselves, and, as in every MessagePack stream, a first byte below 0x80
    (a positive fixint) is a whole message. [reference] is a small concrete
    encoder for this interface, with its laws proved. *)

From S2P Require Import Prelude Text PyVal Errors.

(** Values of the types that every MessagePack implementation carries:
    64-bit integers, dicts with distinct string keys. *)
Definition str_key (kv : pyval * pyval) : option string :=
  match kv.1 with PStr s => Some s | _ => None end.

Fixpoint plain (v : pyval) : bool :=
  match v with
  | PNone | PBool _ | PStr _ | PBytes _ | PByteArray _ | PMemView _ _ => true
  | PInt z => (- 2 ^ 63 <=? z)%Z && (z <? 2 ^ 64)%Z
  | PFloat bits => (0 <=? bits)%Z && (bits <? 2 ^ 64)%Z
  | PList vs | PTuple vs => forallb plain vs
  | PDict kvs =>
      bool_decide (NoDup (str_key <$> kvs)) &&
      forallb (λ '(k, v), match k with PStr _ => plain v | _ => false end) kvs
  | _ => false
  end.

(** What the other side decodes: buffers as bytes, tuples as lists. *)
Fixpoint wire_value (v : pyval) : pyval :=
  match v with
  | PByteArray bs | PMemView _ bs => PBytes bs
  | PList vs | PTuple vs => PList (wire_value <$> vs)
  | PDict kvs => PDict ((λ '(k, v), (wire_value k, wire_value v)) <$> kvs)
  | v => v
  end.

Class MsgPack := {
  (** [ormsgpack.packb(data, default=..., option=_PACK_OPTS)] *)
  packb : (pyval → result exn pyval) → pyval → result exn (list byte);
  (** [ormsgpack.unpackb(data, option=_UNPACK_OPTS, ext_hook=...)] *)
  unpackb : (Z → list byte → pyval) → list byte → result exn pyval;
}.

Class MsgPackLaws (M : MsgPack) := {
  unpack_pack dflt hook v b :
    plain v = true → packb dflt v = Ok b → unpackb hook b = Ok (wire_value v);
  pack_head dflt v x b :
    packb dflt v = Ok (x :: b) → b ≠ [] → (128 <= Z_of_byte x)%Z;
  pack_nonempty dflt v b : packb dflt v = Ok b → b ≠ [];
}.

(** ** A reference implementation *)
Module Reference.

(** Big-endian fields. *)
Definition be_bytes (n : nat) (z : Z) : list byte := reverse (le_bytes n z).
Definition be_value (bs : list byte) : Z := le_value (reverse bs).
Definition tag (t : Z) (bs : list byte) : list byte := byte_of_Z t :: bs.

Definition sized (t : Z) (body : list byte) : option (list byte) :=
  if (zlen body <? 2 ^ 32)%Z then Some (tag t (be_bytes 4 (zlen body) ++ body)) else None.

Definition counted {A} (t : Z) (items : list A) (body : list byte) : option (list byte) :=
  if (zlen items <? 2 ^ 32)%Z then Some (tag t (be_bytes 4 (zlen items) ++ body)) else None.

Fixpoint enc (v : pyval) : option (list byte) :=
  match v with
  | PNone => Some (tag 192 [])
  | PBool false => Some (tag 194 [])
  | PBool true => Some (tag 195 [])
  | PInt z =>
      if (0 <=? z)%Z && (z <? 128)%Z then Some (tag z [])
      else if (- 2 ^ 63 <=? z)%Z && (z <? 2 ^ 63)%Z then Some (tag 211 (be_bytes 8 z))
      else Some (tag 207 (be_bytes 8 z))
  | PFloat bits => Some (tag 203 (be_bytes 8 bits))
  | PStr s => sized 219 (String.list_byte_of_string s)
  | PBytes bs | PByteArray bs | PMemView _ bs => sized 198 bs
  | PList vs | PTuple vs => mapM enc vs ≫= λ bss, counted 221 vs (mjoin bss)
  | PDict kvs =>
      mapM (λ '(k, v), bk ← enc k; bv ← enc v; mret (bk ++ bv)) kvs ≫= λ bss,
      counted 223 kvs (mjoin bss)
  | _ => None
  end.

Definition packb (dflt : pyval → result exn pyval) (v : pyval) : result exn (list byte) :=
  match enc v with
  | Some b => Ok b
  | None => Raise (TypeError "Type is not msgpack serializable")
  end.

(** A field of [n] bytes off the front. *)
Definition field (n : nat) (bs : list byte) : option (list byte * list byte) :=
  if bool_decide (n ≤ length bs) then Some (take n bs, drop n bs) else None.

Definition signed64 (z : Z) : Z := if (z <? 2 ^ 63)%Z then z else (z - 2 ^ 64)%Z.

Definition body_of (bs : list byte) : option (list byte * list byte) :=
  '(n, bs) ← field 4 bs; field (Z.to_nat (be_value n)) bs.

Fixpoint many {A} (p : list byte → option (A * list byte)) (n : nat) (bs : list byte) :
    option (list A * list byte) :=
  match n with
  | O => Some ([], bs)
  | S n => '(x, bs) ← p bs; '(xs, bs) ← many p n bs; mret (x :: xs, bs)
  end.

Fixpoint dec (fuel : nat) (bs : list byte) : option (pyval * list byte) :=
  match fuel, bs with
  | S fuel, x :: bs =>
      let t := Z_of_byte x in
      if (t <? 128)%Z then Some (PInt t, bs)
      else if (t =? 192)%Z then Some (PNone, bs)
      else if (t =? 194)%Z then Some (PBool false, bs)
      else if (t =? 195)%Z then Some (PBool true, bs)
      else if (t =? 211)%Z then '(f, bs) ← field 8 bs; mret (PInt (signed64 (be_value f)), bs)
      else if (t =? 207)%Z then '(f, bs) ← field 8 bs; mret (PInt (be_value f), bs)
      else if (t =? 203)%Z then '(f, bs) ← field 8 bs; mret (PFloat (be_value f), bs)
      else if (t =? 219)%Z then
        '(f, bs) ← body_of bs; mret (PStr (String.string_of_list_byte f), bs)
      else if (t =? 198)%Z then '(f, bs) ← body_of bs; mret (PBytes f, bs)
      else if (t =? 221)%Z then
        '(n, bs) ← field 4 bs;
        '(vs, bs) ← many (dec fuel) (Z.to_nat (be_value n)) bs; mret (PList vs, bs)
      else if (t =? 223)%Z then
        '(n, bs) ← field 4 bs;
        '(kvs, bs) ← many (λ bs, '(k, bs) ← dec fuel bs; '(v, bs) ← dec fuel bs;
                                 mret ((k, v), bs)) (Z.to_nat (be_value n)) bs;
        mret (PDict kvs, bs)
      else None
  | _, _ => None
  end.

Definition unpackb (hook : Z → list byte → pyval) (bs : list byte) : result exn pyval :=
  match dec (S (length bs)) bs with
  | Some (v, []) => Ok v
  | _ => Raise (ValueError "MessagePack data is malformed")
  end.

(** *** The laws *)

Arguments be_value : simpl never.
Arguments be_bytes : simpl never.
Arguments byte_of_Z : simpl never.
Arguments tag : simpl never.

Lemma length_be_bytes n z : length (be_bytes n z) = n.
Proof. unfold be_bytes. by rewrite length_reverse, length_le_bytes. Qed.

Lemma be_value_bytes n z : be_value (be_bytes n z) = (z mod 2 ^ (8 * Z.of_nat n))%Z.
Proof. unfold be_value, be_bytes. rewrite reverse_involutive. apply le_value_bytes. Qed.

Lemma field_app n bs rest : length bs = n → field n (bs ++ rest) = Some (bs, rest).
Proof.
  intros <-. unfold field. rewrite bool_decide_eq_true_2 by (rewrite length_app; lia).
  by rewrite take_app_length, drop_app_length.
Qed.

Lemma field_be n z rest : field n (be_bytes n z ++ rest) = Some (be_bytes n z, rest).
Proof. apply field_app, length_be_bytes. Qed.

Lemma be_count n : (0 ≤ n < 2 ^ 32)%Z → be_value (be_bytes 4 n) = n.
Proof. intros. rewrite be_value_bytes. by apply Z.mod_small. Qed.

Lemma body_of_app body rest :
  (zlen body < 2 ^ 32)%Z →
  body_of ((be_bytes 4 (zlen body) ++ body) ++ rest) = Some (body, rest).
Proof.
  intros H. unfold body_of. rewrite <- app_assoc, field_be. cbn.
  pose proof (zlen_nonneg body). rewrite be_count by lia.
  apply field_app. unfold zlen. lia.
Qed.

Lemma signed64_be z :
  (- 2 ^ 63 ≤ z < 2 ^ 63)%Z → signed64 (be_value (be_bytes 8 z)) = z.
Proof.
  intros. rewrite be_value_bytes. change (8 * Z.of_nat 8)%Z with 64%Z. unfold signed64.
  destruct (decide (0 ≤ z)%Z).
  - rewrite Z.mod_small by lia. case_goal; bool_to_prop; lia.
  - replace (z mod 2 ^ 64)%Z with (z + 2 ^ 64)%Z.
    + case_goal; bool_to_prop; lia.
    + apply Z.mod_unique with (-1)%Z; lia.
Qed.

Lemma unsigned64_be z : (0 ≤ z < 2 ^ 64)%Z → be_value (be_bytes 8 z) = z.
Proof. intros. rewrite be_value_bytes. by apply Z.mod_small. Qed.

Lemma many_app {A B} (p : list byte → option (B * list byte)) (g : A → B) vs bss rest :
  Forall2 (λ v b, ∀ rest, p (b ++ rest) = Some (g v, rest)) vs bss →
  many p (length vs) (mjoin bss ++ rest) = Some (g <$> vs, rest).
Proof.
  induction 1 as [|v b vs bss H _ IH]; [done|].
  rewrite mjoin_cons, <- app_assoc.
  cbn [length many]. rewrite H. cbn [mbind option_bind]. by rewrite IH.
Qed.

Lemma tag_value t bs : (0 ≤ t < 256)%Z → ∃ x, tag t bs = x :: bs ∧ Z_of_byte x = t.
Proof. intros. eexists. split; [done|]. rewrite Z_of_byte_of_Z. by apply Z.mod_small. Qed.

(** [dec] on a tag that is known reduces to that tag's branch. *)
Lemma dec_tag t fuel bs :
  (0 ≤ t < 256)%Z → ∃ x, tag t bs = x :: bs ∧ Z_of_byte x = t ∧
  dec (S fuel) (tag t bs) = dec (S fuel) (x :: bs).
Proof. intros H. destruct (tag_value t bs H) as (x & Hx & Ht). exists x. by rewrite Hx. Qed.

Lemma length_tag t bs : length (tag t bs) = S (length bs).
Proof. done. Qed.

Lemma length_mjoin_elem {A} (b : list A) bss : b ∈ bss → length b ≤ length (mjoin bss).
Proof.
  induction 1 as [b bss|b b' bss _ IH]; rewrite mjoin_cons, length_app; lia.
Qed.

Lemma sized_some t body b :
  sized t body = Some b →
  (zlen body < 2 ^ 32)%Z ∧ b = tag t (be_bytes 4 (zlen body) ++ body).
Proof. unfold sized. case_goal; [|done]. bool_to_prop. by intros [= <-]. Qed.

Lemma counted_some {A} t (items : list A) body b :
  counted t items body = Some b →
  (zlen items < 2 ^ 32)%Z ∧ b = tag t (be_bytes 4 (zlen items) ++ body).
Proof. unfold counted. case_goal; [|done]. bool_to_prop. by intros [= <-]. Qed.

(** Opens the branch of [dec] for a literal tag. *)
Ltac dec_step t :=
  match goal with |- dec (S ?fuel) (tag t ?bs ++ ?rest) = _ =>
    change (tag t bs ++ rest) with (byte_of_Z t :: (bs ++ rest));
    let Ht := fresh in
    assert (Ht : Z_of_byte (byte_of_Z t) = t)
      by (rewrite Z_of_byte_of_Z; apply Z.mod_small; lia);
    cbn [dec]; rewrite Ht
  end.

Definition decodes (v : pyval) : Prop :=
  ∀ b, enc v = Some b → plain v = true →
  ∀ fuel rest, length b ≤ fuel → dec fuel (b ++ rest) = Some (wire_value v, rest).

Lemma decodes_seq vs bss fuel rest :
  Forall decodes vs → forallb plain vs = true → mapM enc vs = Some bss →
  (zlen vs < 2 ^ 32)%Z → length (mjoin bss) ≤ fuel →
  dec (S fuel) (tag 221 (be_bytes 4 (zlen vs) ++ mjoin bss) ++ rest)
  = Some (PList (wire_value <$> vs), rest).
Proof.
  intros IH Hp Hm Hn Hf. dec_step 221%Z. cbn.
  rewrite <- app_assoc, field_be. cbn.
  pose proof (zlen_nonneg vs). rewrite be_count by lia.
  unfold zlen. rewrite Nat2Z.id.
  rewrite (many_app _ wire_value); [done|].
  apply mapM_Some in Hm. rewrite forallb_forall in Hp.
  apply Forall2_same_length_lookup_2; [by eapply Forall2_length|].
  intros i v b Hv Hb rest'. eapply Forall_lookup_1 in IH; [|done].
  eapply IH; [by eapply Forall2_lookup_lr in Hm| |].
  - apply Hp, list_elem_of_In. by eapply list_elem_of_lookup_2.
  - etrans; [|exact Hf]. apply length_mjoin_elem. by eapply list_elem_of_lookup_2.
Qed.

Lemma decodes_dict kvs bss fuel rest :
  Forall (λ kv, decodes kv.1 ∧ decodes kv.2) kvs →
  forallb (λ '(k, v), match k with PStr _ => plain v | _ => false end) kvs = true →
  mapM (λ '(k, v), bk ← enc k; bv ← enc v; mret (bk ++ bv)) kvs = Some bss →
  (zlen kvs < 2 ^ 32)%Z → length (mjoin bss) ≤ fuel →
  dec (S fuel) (tag 223 (be_bytes 4 (zlen kvs) ++ mjoin bss) ++ rest)
  = Some (wire_value (PDict kvs), rest).
Proof.
  intros IH Hp Hm Hn Hf. dec_step 223%Z. cbn.
  rewrite <- app_assoc, field_be. cbn.
  pose proof (zlen_nonneg kvs). rewrite be_count by lia.
  unfold zlen. rewrite Nat2Z.id.
  rewrite (many_app _ (λ '(k, v), (wire_value k, wire_value v))); [done|].
  apply mapM_Some in Hm. rewrite forallb_forall in Hp.
  apply Forall2_same_length_lookup_2; [by eapply Forall2_length|].
  intros i [k v] b Hv Hb rest'. eapply Forall_lookup_1 in IH as [IHk IHv]; [|done].
  cbn [fst snd] in *.
  assert (Hb' : length b ≤ fuel).
  { etrans; [|exact Hf]. apply length_mjoin_elem. by eapply list_elem_of_lookup_2. }
  eapply Forall2_lookup_lr in Hm; [|done..]. cbn in Hm.
  destruct (enc k) as [bk|] eqn:Ek; [|done]. cbn in Hm.
  destruct (enc v) as [bv|] eqn:Ev; [|done]. cbn in Hm. injection Hm as <-.
  rewrite length_app in Hb'.
  assert (Hkv : match k with PStr _ => plain v | _ => false end = true).
  { apply (Hp (k, v)), list_elem_of_In. by eapply list_elem_of_lookup_2. }
  rewrite <- app_assoc, (IHk bk); [|done|by destruct k|lia]. cbn.
  rewrite (IHv bv); [done|done|by destruct k|lia].
Qed.

Lemma dec_enc v : decodes v.
Proof.
  induct_val v; try done.
  all: intros b' Hb Hp fuel rest Hf; cbn [enc] in Hb.
  - destruct (mapM enc vs) as [bss|] eqn:Hm; [|done]. cbn in Hb.
    apply counted_some in Hb as [Hn ->]. rewrite length_tag, length_app in Hf.
    destruct fuel; [lia|]. eapply decodes_seq; eauto with lia.
  - destruct (mapM enc vs) as [bss|] eqn:Hm; [|done]. cbn in Hb.
    apply counted_some in Hb as [Hn ->]. rewrite length_tag, length_app in Hf.
    destruct fuel; [lia|]. eapply decodes_seq; eauto with lia.
  - destruct (mapM _ kvs) as [bss|] eqn:Hm; [|done]. cbn in Hb.
    apply counted_some in Hb as [Hn ->]. rewrite length_tag, length_app in Hf.
    cbn [plain] in Hp. apply andb_true_iff in Hp as [_ Hp].
    destruct fuel; [lia|]. eapply decodes_dict; eauto with lia.
  - injection Hb as <-. rewrite length_tag in Hf. destruct fuel; [lia|]. dec_step 192%Z. done.
  - destruct b; injection Hb as <-; rewrite length_tag in Hf; (destruct fuel; [lia|]);
      [dec_step 195%Z|dec_step 194%Z]; done.
  - cbn [plain] in Hp. bool_to_prop. repeat case_in Hb; bool_to_prop; injection Hb as <-.
    all: rewrite length_tag in Hf; destruct fuel; [lia|].
    + dec_step z. case_goal; bool_to_prop; [done|lia].
    + dec_step 211%Z. cbn. rewrite field_be. cbn. by rewrite signed64_be by lia.
    + dec_step 207%Z. cbn. rewrite field_be. cbn. rewrite unsigned64_be; [done|].
      destruct Heqb0; bool_to_prop; lia.
  - cbn [plain] in Hp. bool_to_prop. injection Hb as <-. rewrite length_tag in Hf. destruct fuel; [lia|].
    dec_step 203%Z. cbn. rewrite field_be. cbn. by rewrite unsigned64_be by lia.
  - apply sized_some in Hb as [Hn ->]. rewrite length_tag in Hf. destruct fuel; [lia|].
    dec_step 219%Z. cbn. rewrite body_of_app by done. cbn.
    by rewrite String.string_of_list_byte_of_string.
  - apply sized_some in Hb as [Hn ->]. rewrite length_tag in Hf. destruct fuel; [lia|].
    dec_step 198%Z. cbn. by rewrite body_of_app.
  - apply sized_some in Hb as [Hn ->]. rewrite length_tag in Hf. destruct fuel; [lia|].
    dec_step 198%Z. cbn. by rewrite body_of_app.
  - apply sized_some in Hb as [Hn ->]. rewrite length_tag in Hf. destruct fuel; [lia|].
    dec_step 198%Z. cbn. by rewrite body_of_app.
Qed.

End Reference.

#[export] Instance reference_msgpack : MsgPack :=
  {| packb := Reference.packb; unpackb := Reference.unpackb |}.

Lemma reference_head v x b :
  Reference.enc v = Some (x :: b) → b ≠ [] → (128 ≤ Z_of_byte x)%Z.
Proof.
  assert (T : ∀ t bs, (128 ≤ t < 256)%Z → Some (Reference.tag t bs) = Some (x :: b) →
                      (128 ≤ Z_of_byte x)%Z).
  { intros t bs Ht [= <- _]. rewrite Z_of_byte_of_Z, Z.mod_small; lia. }
  assert (Tc : ∀ A t (l : list A) bs, (128 ≤ t < 256)%Z →
            Reference.counted t l bs = Some (x :: b) → (128 ≤ Z_of_byte x)%Z).
  { intros A t l bs Ht [_ E]%Reference.counted_some.
    by eapply T, eq_sym, f_equal. }
  assert (Ts : ∀ t bs, (128 ≤ t < 256)%Z →
            Reference.sized t bs = Some (x :: b) → (128 ≤ Z_of_byte x)%Z).
  { intros t bs Ht [_ E]%Reference.sized_some. by eapply T, eq_sym, f_equal. }
  destruct v; cbn [Reference.enc]; intros H Hb; try done.
  - by eapply (T 192%Z).
  - destruct b0; [by eapply (T 195%Z)|by eapply (T 194%Z)].
  - repeat case_in H; [|by eapply (T 211%Z)|by eapply (T 207%Z)].
    injection H as _ Hb'. by subst.
  - by eapply (T 203%Z).
  - by eapply (Ts 219%Z).
  - by eapply (Ts 198%Z).
  - by eapply (Ts 198%Z).
  - by eapply (Ts 198%Z).
  - destruct (mapM _ _); [|done]. by eapply (Tc _ 221%Z).
  - destruct (mapM _ _); [|done]. by eapply (Tc _ 221%Z).
  - destruct (mapM _ _); [|done]. by eapply (Tc _ 223%Z).
Qed.

Lemma reference_nonempty v : Reference.enc v = Some [] → False.
Proof.
  destruct v; cbn [Reference.enc]; unfold Reference.sized, Reference.counted, mbind, option_bind; intros H;
    repeat case_in H; discriminate H.
Qed.

#[export] Instance reference_laws : MsgPackLaws reference_msgpack.
Proof.
  constructor; cbn.
  - intros dflt hook v b Hp Hb. unfold Reference.packb in Hb.
    destruct (Reference.enc v) as [b'|] eqn:E; [|done]. injection Hb as ->.
    unfold Reference.unpackb.
    pose proof (Reference.dec_enc v b E Hp (S (length b)) [] ltac:(lia)) as H.
    rewrite app_nil_r in H. by rewrite H.
  - intros dflt v x b Hb Hne. unfold Reference.packb in Hb.
    destruct (Reference.enc v) as [b'|] eqn:E; [|done]. injection Hb as ->.
    by eapply reference_head.
  - intros dflt v b Hb ->. unfold Reference.packb in Hb.
    destruct (Reference.enc v) as [b'|] eqn:E; [|done]. injection Hb as ->.
    by eapply reference_nonempty.
Qed.

(** The messages of the test suite, through the reference implementation. *)
Example reference_roundtrip :
  let v := PDict [(PStr "id", PStr "abc"); (PStr "params", PTuple [PInt 67; PInt (-1); PNone])] in
  (packb (λ _, Raise StructError) v ≫= unpackb (λ _ _, PNone)) = Ok (wire_value v).
Proof. vm_compute. reflexivity. Qed.
