(* ===== verification/Codec.v ===== *)
(** * The wire codec (codec.py)

    MessagePack through ormsgpack, and the CUIB framing: binaries of at least
    16 KiB leave the envelope, which keeps a placeholder map in their place,
    and follow it back to back in index order:
    ["CUIB" | u32 LE envelope length | envelope | segment 0 | segment 1 ...]. *)

From S2P Require Import Prelude Text PyVal Errors MsgPack.

Definition BINARY_EXTRACT_THRESHOLD : Z := 16384.
(** [b"CUIB"] *)
Definition MAGIC : list byte := [Byte.x43; Byte.x55; Byte.x49; Byte.x42].
Definition HEADER_SIZE : Z := 8.
Definition PLACEHOLDER_KEY : string := "__cui_bin__".

Definition pad (n : nat) (s : string) : string :=
  string_of_chars (replicate (n - String.length s) "0"%char) +:+ s.

(** [datetime.time.isoformat()] of a naive time. *)
Definition time_isoformat (h m s us : Z) : string :=
  pad 2 (str_int h) +:+ ":" +:+ pad 2 (str_int m) +:+ ":" +:+ pad 2 (str_int s)
  +:+ (if (us =? 0)%Z then "" else "." +:+ pad 6 (str_int us)).

(** [_default_handler]: enum members by value, dates as midnight datetimes,
    times as ISO strings; a [datetime] never reaches the hook as a [date]. *)
Definition default_handler (obj : pyval) : result exn pyval :=
  match obj with
  | PEnum v => Ok v
  | PDate y m d => Ok (PDateTime y m d 0 0 0 0)
  | PTime h m s us => Ok (PStr (time_isoformat h m s us))
  | _ => Raise (TypeError "Object is not JSON serializable")
  end.

(** [_ext_hook] *)
Definition ext_hook (code : Z) (data : list byte) : pyval := PNone.

(** [_as_extractable_segment]: the bytes of an extractable buffer. (A
    non-contiguous memoryview is copied by [tobytes], which gives the same
    bytes.) *)
Definition as_extractable_segment (value : pyval) : option (list byte) :=
  match value with
  | PBytes bs | PByteArray bs => if (zlen bs >=? BINARY_EXTRACT_THRESHOLD)%Z then Some bs else None
  | PMemView _ bs => if (zlen bs <? BINARY_EXTRACT_THRESHOLD)%Z then None else Some bs
  | _ => None
  end.

Definition placeholder (index length : Z) : pyval :=
  PDict [(PStr PLACEHOLDER_KEY, PInt index); (PStr "l", PInt length)].

(** [cls is str or cls is int or cls is float or cls is bool or item is None] *)
Definition scalar_leaf (v : pyval) : bool :=
  match v with PNone | PBool _ | PInt _ | PFloat _ | PStr _ => true | _ => false end.

(** A copy-on-write result: [None] is "the same object". The container is
    copied at the first changed item; without one it stays itself. *)
Definition copied {A} (items : list (A * option pyval)) : bool :=
  existsb (λ it, match it.2 with Some _ => true | None => false end) items.

(** [_extract_binaries], with the growing [segments] list as its state. *)
Fixpoint extract_binaries (value : pyval) (segments : list (list byte)) {struct value} :
    option pyval * list (list byte) :=
  match as_extractable_segment value with
  | Some segment =>
      (Some (placeholder (zlen segments) (zlen segment)), segments ++ [segment])
  | None =>
      match value with
      | PDict kvs =>
          let '(items, segments) :=
            walk (λ (kv : pyval * pyval) segments,
                    let '(key, item) := kv in
                    let '(t, segments) :=
                      if scalar_leaf item then (None, segments)
                      else extract_binaries item segments in
                    ((kv, t), segments)) kvs segments in
          (if copied items
           then Some (PDict ((λ it, (it.1.1, default it.1.2 it.2)) <$> items)) else None,
           segments)
      | PList vs | PTuple vs =>
          let '(items, segments) :=
            walk (λ item segments,
                    let '(t, segments) :=
                      if scalar_leaf item then (None, segments)
                      else extract_binaries item segments in
                    ((item, t), segments)) vs segments in
          (if copied items then Some (PList ((λ it, default it.1 it.2) <$> items)) else None,
           segments)
      | _ => (None, segments)
      end
  end.

(** [_is_binary_placeholder], with the index and length it found: exactly two
    entries, both non-negative [int]s (and not [bool]s). *)
Definition placeholder_of (value : pyval) : option (Z * Z) :=
  match value with
  | PDict kvs =>
      if bool_decide (length kvs ≠ 2) then None
      else match dict_get PLACEHOLDER_KEY kvs, dict_get "l" kvs with
           | PInt index, PInt len =>
               if (0 <=? index)%Z && (0 <=? len)%Z then Some (index, len) else None
           | _, _ => None
           end
  | _ => None
  end.
Definition is_binary_placeholder (value : pyval) : bool :=
  match placeholder_of value with Some _ => true | None => false end.

(** [_RestoreState] *)
Record restore_state := RestoreState { rs_next : Z; rs_offset : Z; rs_out_of_order : bool }.
Definition init_restore_state (offset : Z) : restore_state := RestoreState 0 offset false.

Definition frame_error (msg : string) : exn := ValueError ("Invalid CUIB frame: " +:+ msg).
Definition segment_exceeds (i total : Z) : exn :=
  frame_error ("segment " +:+ str_int i +:+ " exceeds payload size " +:+ str_int total).

Definition is_container (v : pyval) : bool :=
  match v with PDict _ | PList _ => true | _ => false end.

(** [_restore_sequential]: the freshly decoded envelope is a tree, so its
    in-place update is the returned value. *)
Fixpoint restore_sequential (data : list byte) (value : pyval) {struct value} :
    pm exn restore_state pyval := λ st,
  match placeholder_of value with
  | Some (index, len) =>
      if rs_out_of_order st || negb (index =? rs_next st)%Z
      then (Ok value, RestoreState (rs_next st) (rs_offset st) true)
      else
        let end_ := (rs_offset st + len)%Z in
        if (end_ >? zlen data)%Z then (Raise (segment_exceeds (rs_next st) (zlen data)), st)
        else (Ok (PMemView true (py_slice data (rs_offset st) end_)),
              RestoreState (rs_next st + 1) end_ (rs_out_of_order st))
  | None =>
      match value with
      | PDict kvs =>
          (kvs' ← traverse (λ (kv : pyval * pyval),
                    let '(key, item) := kv in
                    item' ← (if is_container item then restore_sequential data item else mret item);
                    mret (key, item')) kvs;
           mret (PDict kvs')) st
      | PList vs =>
          (vs' ← traverse (λ item,
                    if is_container item then restore_sequential data item else mret item) vs;
           mret (PList vs')) st
      | _ => (Ok value, st)
      end
  end.

(** [_collect_segment_lengths] *)
Fixpoint collect_segment_lengths (value : pyval) (lengths : gmap Z Z) {struct value} : gmap Z Z :=
  match placeholder_of value with
  | Some (index, len) => <[index := len]> lengths
  | None =>
      match value with
      | PList vs => foldl (λ m item, collect_segment_lengths item m) lengths vs
      | PDict kvs => foldl (λ m kv, collect_segment_lengths kv.2 m) lengths kvs
      | _ => lengths
      end
  end.

(** [_restore_by_index]; a missing index is the [KeyError] of [views[...]]. *)
Fixpoint restore_by_index (views : gmap Z (list byte)) (value : pyval) {struct value} :
    result exn pyval :=
  match placeholder_of value with
  | Some (index, _) =>
      match views !! index with
      | Some view => Ok (PMemView true view)
      | None => Raise (KeyError (str_int index))
      end
  | None =>
      match value with
      | PList vs => vs' ← mapM (restore_by_index views) vs; mret (PList vs')
      | PDict kvs =>
          kvs' ← mapM (λ (kv : pyval * pyval),
                   item' ← restore_by_index views kv.2; mret (kv.1, item')) kvs;
          mret (PDict kvs')
      | _ => Ok value
      end
  end.

(** The [for i in range(...)] loop of [_restore_remaining]: [n] iterations
    from index [i]. *)
Fixpoint place_segments (data : list byte) (lengths : gmap Z Z) (n : nat) (i offset : Z)
    (views : gmap Z (list byte)) : result exn (gmap Z (list byte) * Z) :=
  match n with
  | O => Ok (views, offset)
  | S n =>
      match lengths !! i with
      | None => Raise (frame_error ("missing placeholder for segment " +:+ str_int i))
      | Some len =>
          let end_ := (offset + len)%Z in
          if (end_ >? zlen data)%Z then Raise (segment_exceeds i (zlen data))
          else place_segments data lengths n (i + 1) end_ (<[i := py_slice data offset end_]> views)
      end
  end.

(** [max(lengths) + 1 if lengths else next] *)
Definition stop_index (lengths : gmap Z Z) (next : Z) : Z :=
  match map_to_list lengths with
  | [] => next
  | (k, _) :: l => (foldr Z.max k (fst <$> l) + 1)%Z
  end.

(** [_restore_remaining]; it leaves the final offset in the state. *)
Definition restore_remaining (envelope : pyval) (data : list byte) : pm exn restore_state pyval :=
  st ← get_state;
  let lengths := collect_segment_lengths envelope ∅ in
  let n := Z.to_nat (stop_index lengths (rs_next st) - rs_next st) in
  '(views, offset) ← lift (place_segments data lengths n (rs_next st) (rs_offset st) ∅);
  put_state (RestoreState (rs_next st) offset (rs_out_of_order st)) ≫= λ _,
  lift (restore_by_index views envelope).

Section codec.
Context {M : MsgPack}.

Definition encode (data : pyval) : result exn (list byte) := packb default_handler data.
Definition decode (data : list byte) : result exn pyval := unpackb ext_hook data.

(** [_ENV_LEN_STRUCT.pack]: [struct.error] outside 32 unsigned bits. *)
Definition pack_env_len (n : Z) : result exn (list byte) :=
  if (n <? 2 ^ 32)%Z then Ok (le_bytes 4 n) else Raise StructError.

Definition encode_message (data : pyval) : result exn (list byte) :=
  let '(transformed, segments) := extract_binaries data [] in
  match segments with
  | [] => encode data
  | _ =>
      envelope ← encode (default data transformed);
      len ← pack_env_len (zlen envelope);
      mret (MAGIC ++ len ++ envelope ++ mjoin segments)
  end.

Definition is_frame (data : list byte) : bool :=
  negb ((zlen data <? HEADER_SIZE)%Z || negb (starts_with MAGIC data)).

Definition decode_message (data : list byte) : result exn pyval :=
  if negb (is_frame data) then decode data
  else
    let total := zlen data in
    let env_len := le_value (py_slice data 4 8) in
    let segment_base := (HEADER_SIZE + env_len)%Z in
    if (segment_base >? total)%Z then
      Raise (frame_error ("envelope length " +:+ str_int env_len
                          +:+ " exceeds payload size " +:+ str_int total))
    else
      envelope ← decode (py_slice data HEADER_SIZE segment_base);
      match restore_sequential data envelope (init_restore_state segment_base) with
      | (Raise e, _) => Raise e
      | (Ok envelope, st) =>
          let '(r, st) :=
            if rs_out_of_order st then restore_remaining envelope data st
            else (Ok envelope, st) in
          envelope ← r;
          if negb (rs_offset st =? total)%Z then
            Raise (frame_error ("expected payload size " +:+ str_int (rs_offset st)
                                +:+ ", got " +:+ str_int total))
          else Ok envelope
      end.
End codec.
