(* ===== verification/CodecSpec.v ===== *)
(** * What the codec promises

    The abstract view of a framed envelope is [resolve]: every placeholder map
    is replaced by the segment its index names. The sequential pass, the
    out-of-order fallback and their combination all refine it, and encoding
    followed by decoding delivers the sent value. *)

From S2P Require Import Prelude Text PyVal Errors MsgPack Codec.

(** ** The specification *)

(** The placeholders of an envelope in traversal order, as index and length. *)
Fixpoint placeholders (value : pyval) : list (Z * Z) :=
  match placeholder_of value with
  | Some p => [p]
  | None =>
      match value with
      | PList vs => mjoin (placeholders <$> vs)
      | PDict kvs => mjoin ((λ kv, placeholders kv.2) <$> kvs)
      | _ => []
      end
  end.

(** Every placeholder whose index has a segment becomes a view of it. *)
Fixpoint resolve (table : Z → option (list byte)) (value : pyval) : pyval :=
  match placeholder_of value with
  | Some (index, _) =>
      match table index with Some s => PMemView true s | None => value end
  | None =>
      match value with
      | PList vs => PList (resolve table <$> vs)
      | PDict kvs => PDict ((λ '(k, item), (k, resolve table item)) <$> kvs)
      | _ => value
      end
  end.

(** Segment [i] of a list of segments, by integer index. *)
Definition segment_table (segs : list (list byte)) (i : Z) : option (list byte) :=
  if (i <? 0)%Z then None else segs !! Z.to_nat i.

(** ** One-step equations *)

Lemma placeholder_dict v p : placeholder_of v = Some p → ∃ kvs, v = PDict kvs.
Proof. destruct v; try done. eauto. Qed.

Lemma placeholder_nonneg v i l : placeholder_of v = Some (i, l) → (0 ≤ i ∧ 0 ≤ l)%Z.
Proof.
  intros H. destruct (placeholder_dict _ _ H) as [kvs ->]. cbn in H.
  repeat case_in H; try done. injection H as <- <-. bool_to_prop. lia.
Qed.

Section steps.
Context (data : list byte) (st : restore_state).

Lemma restore_leaf v :
  is_container v = false → restore_sequential data v st = (Ok v, st).
Proof. by destruct v. Qed.

Lemma restore_placeholder v i l :
  placeholder_of v = Some (i, l) →
  restore_sequential data v st =
    if rs_out_of_order st || negb (i =? rs_next st)%Z
    then (Ok v, RestoreState (rs_next st) (rs_offset st) true)
    else if (rs_offset st + l >? zlen data)%Z
    then (Raise (segment_exceeds (rs_next st) (zlen data)), st)
    else (Ok (PMemView true (py_slice data (rs_offset st) (rs_offset st + l))),
          RestoreState (rs_next st + 1) (rs_offset st + l) (rs_out_of_order st)).
Proof.
  intros H. destruct (placeholder_dict _ _ H) as [kvs ->].
  cbn [restore_sequential]. by rewrite H.
Qed.
End steps.

Lemma restore_child data v s :
  (if is_container v then restore_sequential data v else mret v) s
  = restore_sequential data v s.
Proof. destruct (is_container v) eqn:C; [done|]. by rewrite restore_leaf. Qed.

Lemma restore_list data vs st :
  restore_sequential data (PList vs) st =
    (vs' ← traverse (restore_sequential data) vs; mret (PList vs')) st.
Proof.
  apply pm_bind_ext; [|done]. apply traverse_ext. intros x s. apply restore_child.
Qed.

Definition restore_entry (data : list byte) (kv : pyval * pyval) :
    pm exn restore_state (pyval * pyval) :=
  item' ← restore_sequential data kv.2; mret (kv.1, item').

Lemma restore_dict data kvs st :
  placeholder_of (PDict kvs) = None →
  restore_sequential data (PDict kvs) st =
    (kvs' ← traverse (restore_entry data) kvs; mret (PDict kvs')) st.
Proof.
  intros H. cbn [restore_sequential]. rewrite H.
  apply pm_bind_ext; [|done]. apply traverse_ext. intros [k v] s.
  apply pm_bind_ext; [apply restore_child|done].
Qed.

(** ** Placeholders and substitution *)

(** Restoration never turns a value into an integer or back, so it cannot
    make or destroy the placeholder shape of an enclosing map. *)
Definition same_int (v w : pyval) : Prop := ∀ z, v = PInt z ↔ w = PInt z.

#[export] Instance same_int_refl : Reflexive same_int.
Proof. by intros v z. Qed.

Lemma same_int_dict_get k kvs kvs' :
  kvs'.*1 = kvs.*1 → Forall2 same_int kvs.*2 kvs'.*2 →
  same_int (dict_get k kvs) (dict_get k kvs').
Proof.
  unfold dict_get. revert kvs'. induction kvs as [|[key v] kvs IH]; intros [|[key' v'] kvs'] Hk Hv;
    try discriminate; [done|].
  cbn in Hk, Hv. injection Hk as -> Hk. inversion Hv; subst.
  cbn -[is_key]. destruct (is_key k key); [done|]. by apply IH.
Qed.

Lemma placeholder_of_same kvs kvs' :
  kvs'.*1 = kvs.*1 → Forall2 same_int kvs.*2 kvs'.*2 →
  placeholder_of (PDict kvs') = placeholder_of (PDict kvs).
Proof.
  intros Hk Hv. assert (Hl : length kvs' = length kvs).
  { by rewrite <- (length_fmap fst kvs'), Hk, length_fmap. }
  cbn. rewrite Hl. case_goal; [done|].
  pose proof (same_int_dict_get PLACEHOLDER_KEY _ _ Hk Hv) as Hi.
  pose proof (same_int_dict_get "l" _ _ Hk Hv) as Hn.
  destruct (dict_get PLACEHOLDER_KEY kvs) as [| |i| | | | | | | | | | | | | |] eqn:Ei.
  3: { rewrite (proj1 (Hi i) eq_refl).
       destruct (dict_get "l" kvs) as [| |n| | | | | | | | | | | | | |] eqn:En.
       3: by rewrite (proj1 (Hn n) eq_refl).
       all: destruct (dict_get "l" kvs') eqn:En'; try done;
         exfalso; by discriminate (proj2 (Hn _) eq_refl). }
  all: destruct (dict_get PLACEHOLDER_KEY kvs') eqn:Ei'; try done;
    exfalso; by discriminate (proj2 (Hi _) eq_refl).
Qed.

Lemma placeholders_leaf v i l : placeholder_of v = Some (i, l) → placeholders v = [(i, l)].
Proof. intros H. destruct (placeholder_dict _ _ H) as [kvs ->]. cbn [placeholders]. by rewrite H. Qed.

Lemma placeholders_dict kvs :
  placeholder_of (PDict kvs) = None →
  placeholders (PDict kvs) = mjoin (placeholders <$> kvs.*2).
Proof. intros H. cbn [placeholders]. rewrite H. by rewrite <- list_fmap_compose. Qed.

Lemma resolve_leaf T v i l :
  placeholder_of v = Some (i, l) →
  resolve T v = match T i with Some s => PMemView true s | None => v end.
Proof. intros H. destruct (placeholder_dict _ _ H) as [kvs ->]. cbn [resolve]. by rewrite H. Qed.

Lemma resolve_dict T kvs :
  placeholder_of (PDict kvs) = None →
  resolve T (PDict kvs) = PDict (zip kvs.*1 (resolve T <$> kvs.*2)).
Proof.
  intros H. cbn [resolve]. rewrite H. f_equal. clear H.
  induction kvs as [|[k v] kvs IH]; [done|]. cbn. by rewrite IH.
Qed.

Lemma placeholders_nonneg v i l : (i, l) ∈ placeholders v → (0 ≤ i ∧ 0 ≤ l)%Z.
Proof.
  revert i l. induct_val v; intros i l; cbn [placeholders]; try (by intros ?%elem_of_nil).
  - cbn. intros (p & H & (v & -> & Hv)%list_elem_of_fmap)%list_elem_of_join.
    rewrite Forall_forall in IH. by eapply IH.
  - destruct (placeholder_of (PDict kvs)) as [[i' l']|] eqn:E.
    + intros [= -> ->]%list_elem_of_singleton. by eapply placeholder_nonneg.
    + intros (p & H & (kv & -> & Hv)%list_elem_of_fmap)%list_elem_of_join.
      rewrite Forall_forall in IH. by eapply (proj2 (IH kv Hv)).
Qed.

(** Index and length of the segments numbered from [n]. *)
Fixpoint numbered (n : Z) (segs : list (list byte)) : list (Z * Z) :=
  match segs with
  | [] => []
  | s :: segs => (n, zlen s) :: numbered (n + 1) segs
  end.

Lemma numbered_app n s1 s2 : numbered n (s1 ++ s2) = numbered n s1 ++ numbered (n + zlen s1) s2.
Proof.
  revert n. induction s1 as [|s s1 IH]; intros n; cbn.
  - by rewrite Z.add_0_r.
  - rewrite IH, zlen_cons. by replace (n + 1 + zlen s1)%Z with (n + (1 + zlen s1))%Z by lia.
Qed.

Lemma elem_of_numbered n segs i l :
  (i, l) ∈ numbered n segs ↔
  ∃ s, (n ≤ i)%Z ∧ segs !! Z.to_nat (i - n) = Some s ∧ l = zlen s.
Proof.
  revert n. induction segs as [|s segs IH]; intros n; cbn.
  - rewrite elem_of_nil. split; [done|]. intros (s & _ & H & _). by rewrite lookup_nil in H.
  - rewrite elem_of_cons, IH. split.
    + intros [[= -> ->]|(s' & Hi & Hs & ->)].
      * exists s. rewrite Z.sub_diag. done.
      * exists s'. split; [lia|]. split; [|done].
        replace (Z.to_nat (i - n)) with (S (Z.to_nat (i - (n + 1)))) by lia. done.
    + intros (s' & Hi & Hs & ->). destruct (decide (i = n)) as [->|].
      * rewrite Z.sub_diag in Hs. injection Hs as ->. by left.
      * right. exists s'. split; [lia|]. split; [|done].
        replace (Z.to_nat (i - n)) with (S (Z.to_nat (i - (n + 1)))) in Hs by lia. done.
Qed.

(** ** The sequential pass *)

Definition agrees (T : Z → option (list byte)) (n : Z) (segs : list (list byte)) : Prop :=
  ∀ k s, segs !! k = Some s → T (n + Z.of_nat k)%Z = Some s.

Lemma agrees_app T n s1 s2 :
  agrees T n (s1 ++ s2) → agrees T n s1 ∧ agrees T (n + zlen s1) s2.
Proof.
  intros H. split; intros k s Hk.
  - apply H. by apply lookup_app_l_Some.
  - replace (n + zlen s1 + Z.of_nat k)%Z with (n + Z.of_nat (length s1 + k))%Z by (unfold zlen; lia).
    apply H. rewrite lookup_app_r by lia. by replace (length s1 + k - length s1) with k by lia.
Qed.

(** The cursor moves over the segments [segs]. *)
Definition cursor_moves (data : list byte) (st st' : restore_state) (segs : list (list byte)) : Prop :=
  rs_next st' = (rs_next st + zlen segs)%Z ∧
  (rs_offset st ≤ rs_offset st' ≤ zlen data)%Z ∧
  take (Z.to_nat (rs_offset st')) data = take (Z.to_nat (rs_offset st)) data ++ mjoin segs ∧
  (rs_out_of_order st' = false → rs_out_of_order st = false).

Lemma cursor_moves_trans data st1 st2 st3 s1 s2 :
  cursor_moves data st1 st2 s1 → cursor_moves data st2 st3 s2 → cursor_moves data st1 st3 (s1 ++ s2).
Proof.
  intros (Hn & Ho & Ht & Hf) (Hn' & Ho' & Ht' & Hf'). split_and!.
  - rewrite Hn', Hn, zlen_app. lia.
  - lia.
  - lia.
  - by rewrite Ht', Ht, mjoin_app, app_assoc.
  - auto.
Qed.

Lemma cursor_moves_refl data st :
  (rs_offset st ≤ zlen data)%Z → cursor_moves data st st [].
Proof.
  intros H. split_and!; [rewrite zlen_nil; lia|lia|done|cbn; by rewrite app_nil_r|done].
Qed.

(** What one successful run of the sequential pass establishes, for a value
    and for the values of a list. *)
Definition restored (data : list byte) (st : restore_state) (v v' : pyval) (st' : restore_state) : Prop :=
  ∃ segs, cursor_moves data st st' segs ∧
    (∀ T, agrees T (rs_next st) segs → resolve T v' = resolve T v) ∧
    placeholders v ≡ₚ numbered (rs_next st) segs ++ placeholders v' ∧
    (rs_out_of_order st' = false → placeholders v' = []) ∧
    same_int v v'.

Definition restored_all (data : list byte) (st : restore_state) (vs vs' : list pyval)
    (st' : restore_state) : Prop :=
  ∃ segs, cursor_moves data st st' segs ∧
    (∀ T, agrees T (rs_next st) segs → resolve T <$> vs' = resolve T <$> vs) ∧
    mjoin (placeholders <$> vs) ≡ₚ numbered (rs_next st) segs ++ mjoin (placeholders <$> vs') ∧
    (rs_out_of_order st' = false → mjoin (placeholders <$> vs') = []) ∧
    Forall2 same_int vs vs'.

Definition seq_restores (data : list byte) (v : pyval) : Prop :=
  ∀ st v' st', (0 ≤ rs_offset st ≤ zlen data)%Z →
    restore_sequential data v st = (Ok v', st') → restored data st v v' st'.

Lemma seq_restores_list data vs st vs' st' :
  Forall (seq_restores data) vs → (0 ≤ rs_offset st ≤ zlen data)%Z →
  traverse (restore_sequential data) vs st = (Ok vs', st') →
  restored_all data st vs vs' st'.
Proof.
  intros H. revert st vs'. induction H as [|v vs Hv _ IH]; intros st vs' Ho E;
    apply traverse_ok in E.
  - destruct E as [-> ->]. exists []. split; [apply cursor_moves_refl; lia|]. by split_and!.
  - destruct E as (w & st1 & ws & E1 & E2 & ->).
    destruct (Hv _ _ _ Ho E1) as (s1 & C1 & R1 & P1 & N1 & I1).
    assert (Ho1 : (0 ≤ rs_offset st1 ≤ zlen data)%Z) by (destruct C1 as (_ & ? & _); lia).
    destruct (IH _ _ Ho1 E2) as (s2 & C2 & R2 & P2 & N2 & I2).
    exists (s1 ++ s2). split_and!.
    + by eapply cursor_moves_trans.
    + intros T [A1 A2]%agrees_app. cbn. rewrite (R1 T A1), (R2 T); [done|].
      destruct C1 as [-> _]. done.
    + rewrite !fmap_cons, !mjoin_cons, P1, P2, numbered_app. destruct C1 as [-> _]. solve_Permutation.
    + intros Hf. rewrite fmap_cons, mjoin_cons, N1, N2; [done|done|]. destruct C2 as (_ & _ & _ & C2). auto.
    + by constructor.
Qed.

(** The dict loop is the list loop over its values. *)
Lemma traverse_entries data kvs st kvs' st' :
  traverse (restore_entry data) kvs st = (Ok kvs', st') →
  traverse (restore_sequential data) kvs.*2 st = (Ok kvs'.*2, st') ∧ kvs'.*1 = kvs.*1.
Proof.
  revert st kvs'. induction kvs as [|[k v] kvs IH]; intros st kvs' E; apply traverse_ok in E.
  - destruct E as [-> ->]. done.
  - destruct E as (y & s1 & ys & E1 & E2 & ->).
    apply pm_bind_ok in E1 as (w & s2 & Ew & E1). injection E1 as <- <-.
    destruct (IH _ _ E2) as [E3 E4]. rewrite !fmap_cons. cbn [fst snd] in *. rewrite E4.
    split; [|done]. by rewrite traverse_cons, Ew, E3.
Qed.

Lemma restored_leaf data st v :
  (0 ≤ rs_offset st ≤ zlen data)%Z → placeholders v = [] → restored data st v v st.
Proof.
  intros Ho H. exists []. split; [apply cursor_moves_refl; lia|]. by split_and!.
Qed.

Lemma seq_restores_placeholder data v i l : placeholder_of v = Some (i, l) → seq_restores data v.
Proof.
  intros Hp st v' st' Ho E. rewrite (restore_placeholder _ _ _ _ _ Hp) in E.
  pose proof (placeholder_nonneg _ _ _ Hp) as [_ Hl].
  pose proof (placeholders_leaf _ _ _ Hp) as Hph.
  destruct (_ || _) eqn:Eo.
  - injection E as <- <-. exists [].
    split; [|by split_and!].
    split_and!; cbn [rs_next rs_offset]; [rewrite zlen_nil; lia|lia|lia|by rewrite app_nil_r|done].
  - apply orb_false_iff in Eo as [Eo Ei]. bool_to_prop. subst i.
    destruct (_ >? _)%Z eqn:Eb; [done|]. rewrite Z.gtb_ltb in Eb. bool_to_prop.
    injection E as <- <-. exists [py_slice data (rs_offset st) (rs_offset st + l)].
    split; [|split_and!]; cbn [rs_next rs_offset rs_out_of_order].
    + split_and!; cbn [rs_next rs_offset mjoin list_join]; [done|lia|lia| |done].
      rewrite app_nil_r. apply py_slice_split; lia.
    + intros T HT. rewrite (resolve_leaf _ _ _ _ Hp).
      pose proof (HT 0 _ eq_refl) as HT0. rewrite Z.add_0_r in HT0. by rewrite HT0.
    + rewrite Hph. cbn. rewrite py_slice_length by lia.
      by replace (rs_offset st + l - rs_offset st)%Z with l by lia.
    + done.
    + destruct (placeholder_dict _ _ Hp) as [kvs ->]. intros z. split; discriminate.
Qed.

Lemma restore_sequential_spec data v : seq_restores data v.
Proof.
  induct_val v; try (intros; intros st v' st' Ho E; rewrite restore_leaf in E by done;
    injection E as <- <-; by apply restored_leaf).
  - intros st v' st' Ho E. rewrite restore_list in E.
    apply pm_bind_ok in E as (vs' & s1 & E & E'). injection E' as <- <-.
    destruct (seq_restores_list _ _ _ _ _ IH Ho E) as (segs & C & R & P & N & I).
    exists segs. split_and!; try done. intros T HT. cbn. by rewrite (R T HT).
  - destruct (placeholder_of (PDict kvs)) as [[i l]|] eqn:Hp; [by eapply seq_restores_placeholder|].
    intros st v' st' Ho E. rewrite restore_dict in E by done.
    apply pm_bind_ok in E as (kvs' & s1 & E & E'). injection E' as <- <-.
    apply traverse_entries in E as [E Hk].
    assert (IH' : Forall (seq_restores data) kvs.*2).
    { apply Forall_fmap. eapply Forall_impl; [exact IH|]. by intros kv []. }
    destruct (seq_restores_list _ _ _ _ _ IH' Ho E) as (segs & C & R & P & N & I).
    assert (Hp' : placeholder_of (PDict kvs') = None) by (by rewrite (placeholder_of_same kvs)).
    exists segs. rewrite !placeholders_dict by done. split_and!; try done.
    intros T HT. rewrite !resolve_dict by done. by rewrite Hk, (R T HT).
Qed.

(** No error arises when the envelope names segments that are there. *)
Section forward.
Context (data : list byte) (segs : list (list byte)) (base : Z).
Context (Hdata : zlen data = (base + zlen (mjoin segs))%Z).

Definition names_segments (v : pyval) : Prop :=
  ∀ i l, (i, l) ∈ placeholders v → (i, l) ∈ numbered 0 segs.

Definition at_segment (st : restore_state) : Prop :=
  (0 ≤ rs_next st)%Z ∧
  rs_offset st = (base + zlen (mjoin (take (Z.to_nat (rs_next st)) segs)))%Z.

Definition seq_succeeds (v : pyval) : Prop :=
  names_segments v → ∀ st, at_segment st →
    ∃ v' st', restore_sequential data v st = (Ok v', st') ∧ at_segment st'.

Lemma seq_succeeds_list vs :
  Forall seq_succeeds vs →
  (∀ i l, (i, l) ∈ mjoin (placeholders <$> vs) → (i, l) ∈ numbered 0 segs) →
  ∀ st, at_segment st →
    ∃ vs' st', traverse (restore_sequential data) vs st = (Ok vs', st') ∧ at_segment st'.
Proof.
  induction 1 as [|v vs Hv _ IH]; intros Hn st Hst; [by exists [], st|].
  rewrite fmap_cons, mjoin_cons in Hn.
  destruct (Hv) with (st := st) as (w & st1 & E1 & H1); [|done|].
  { intros i l Hi. apply Hn, elem_of_app. by left. }
  destruct (IH) with (st := st1) as (ws & st2 & E2 & H2); [|done|].
  { intros i l Hi. apply Hn, elem_of_app. by right. }
  exists (w :: ws), st2. by rewrite traverse_cons, E1, E2.
Qed.

Lemma at_segment_fits k s :
  segs !! k = Some s →
  zlen (mjoin (take (S k) segs)) = (zlen (mjoin (take k segs)) + zlen s)%Z ∧
  (zlen (mjoin (take (S k) segs)) ≤ zlen (mjoin segs))%Z.
Proof.
  intros H. split.
  - rewrite (take_S_r _ _ _ H), mjoin_app, zlen_app, mjoin_cons, zlen_app.
    change (zlen (mjoin [])) with 0%Z. lia.
  - assert (mjoin segs = mjoin (take (S k) segs) ++ mjoin (drop (S k) segs)) as ->.
    { by rewrite <- mjoin_app, take_drop. }
    rewrite zlen_app. pose proof (zlen_nonneg (mjoin (drop (S k) segs))). lia.
Qed.

Lemma traverse_entries_ok kvs st vs' st' :
  traverse (restore_sequential data) kvs.*2 st = (Ok vs', st') →
  ∃ kvs', traverse (restore_entry data) kvs st = (Ok kvs', st').
Proof.
  revert st vs'. induction kvs as [|[k v] kvs IH]; intros st vs' E.
  - apply traverse_ok in E as [-> ->]. by exists [].
  - rewrite fmap_cons in E. apply traverse_ok in E as (w & s1 & ws & E1 & E2 & ->).
    destruct (IH _ _ E2) as [kvs' E3]. exists ((k, w) :: kvs').
    rewrite traverse_cons. unfold restore_entry at 1. rewrite pm_bind_eq, E1.
    cbv [mret pm_ret]. by rewrite E3.
Qed.

Lemma restore_sequential_succeeds v : seq_succeeds v.
Proof.
  induct_val v; try (intros; intros _ st Hst; rewrite restore_leaf by done; by eexists _, _).
  - intros Hn st Hst. rewrite restore_list.
    destruct (seq_succeeds_list vs IH Hn st Hst) as (vs' & st' & E & H').
    rewrite pm_bind_eq, E. by eexists _, _.
  - intros Hn st Hst. destruct (placeholder_of (PDict kvs)) as [[i l]|] eqn:Hp.
    + rewrite (restore_placeholder _ _ _ _ _ Hp).
      destruct (_ || _) eqn:Eo; [by eexists _, _|].
      apply orb_false_iff in Eo as [Eo Ei]. bool_to_prop. subst i.
      assert (Hi : (rs_next st, l) ∈ numbered 0 segs).
      { apply Hn. rewrite (placeholders_leaf _ _ _ Hp). by apply list_elem_of_singleton. }
      apply elem_of_numbered in Hi as (s & Hi & Hs & ->). rewrite Z.sub_0_r in Hs.
      apply at_segment_fits in Hs as [Hs1 Hs2]. destruct Hst as [_ Ho].
      rewrite Z.gtb_ltb. destruct (_ <? _)%Z eqn:Eb; bool_to_prop; [lia|].
      eexists _, _. split; [done|]. split; cbn; [lia|].
      replace (Z.to_nat (rs_next st + 1)) with (S (Z.to_nat (rs_next st))) by lia. lia.
    + rewrite restore_dict by done.
      assert (IH' : Forall seq_succeeds kvs.*2).
      { apply Forall_fmap. eapply Forall_impl; [exact IH|]. by intros kv []. }
      unfold names_segments in Hn. rewrite placeholders_dict in Hn by done.
      destruct (seq_succeeds_list _ IH' Hn st Hst) as (vs' & st' & E & H').
      apply traverse_entries_ok in E as [kvs' E].
      rewrite pm_bind_eq, E. by eexists _, _.
Qed.
End forward.

(** ** The out-of-order fallback *)

Lemma collect_placeholders v m :
  collect_segment_lengths v m = foldl (λ m p, <[p.1 := p.2]> m) m (placeholders v).
Proof.
  revert m. induct_val v; try (intros; done).
  - intros m. cbn [collect_segment_lengths placeholders placeholder_of].
    revert m. induction IH as [|v vs Hv _ IH]; intros m; [done|].
    rewrite fmap_cons, mjoin_cons, foldl_app. cbn [foldl]. by rewrite Hv, IH.
  - intros m. cbn [collect_segment_lengths placeholders].
    destruct (placeholder_of (PDict kvs)) as [[i l]|]; [done|].
    revert m. induction IH as [|kv kvs [_ Hv] _ IH]; intros m; [done|].
    rewrite fmap_cons, mjoin_cons, foldl_app. cbn [foldl]. by rewrite Hv, IH.
Qed.

Section inserts.
Implicit Types (ps : list (Z * Z)) (m : gmap Z Z).

Definition inserts m ps : gmap Z Z := foldl (λ m p, <[p.1 := p.2]> m) m ps.

Lemma inserts_lookup_inv m ps i l :
  inserts m ps !! i = Some l → (i, l) ∈ ps ∨ m !! i = Some l.
Proof.
  unfold inserts. revert m. induction ps as [|[j k] ps IH]; intros m H; cbn in *; [by right|].
  apply IH in H as [H|H]; [left; by right|].
  destruct (decide (i = j)) as [->|].
  - rewrite lookup_insert_eq in H. injection H as ->. left. by left.
  - rewrite lookup_insert_ne in H by done. by right.
Qed.

Lemma inserts_lookup_some m ps i :
  is_Some (m !! i) ∨ i ∈ ps.*1 → is_Some (inserts m ps !! i).
Proof.
  unfold inserts. revert m. induction ps as [|[j k] ps IH]; intros m H; cbn in *.
  - destruct H as [H|H]; [done|]. by apply elem_of_nil in H.
  - apply IH. destruct (decide (i = j)) as [->|].
    + left. by rewrite lookup_insert_eq.
    + rewrite lookup_insert_ne by done. rewrite elem_of_cons in H.
      destruct H as [H|[H|H]]; [by left|by subst|by right].
Qed.
End inserts.

Lemma stop_index_bound lengths n i l :
  lengths !! i = Some l → (i < stop_index lengths n)%Z.
Proof.
  intros H%elem_of_map_to_list. unfold stop_index.
  destruct (map_to_list lengths) as [|[k lk] kls]; [by apply elem_of_nil in H|].
  apply elem_of_cons in H as [[= -> ->]|H].
  - clear. induction kls as [|[j lj] kls IH]; cbn in *; lia.
  - induction kls as [|[j lj] kls IH]; [by apply elem_of_nil in H|].
    apply elem_of_cons in H as [[= -> ->]|H]; cbn in *; [lia|]. specialize (IH H). lia.
Qed.

Lemma stop_index_last lengths n :
  stop_index lengths n = n ∨ ∃ l, lengths !! (stop_index lengths n - 1)%Z = Some l.
Proof.
  unfold stop_index. destruct (map_to_list lengths) as [|[k lk] kls] eqn:E; [by left|right].
  assert (H : ∀ kl, kl ∈ (k, lk) :: kls → lengths !! kl.1 = Some kl.2).
  { intros [j lj] Hj. apply elem_of_map_to_list. by rewrite E. }
  clear E. revert H. generalize lengths. clear lengths.
  induction kls as [|[j lj] kls IH]; intros lengths H.
  - exists lk. cbn. replace (k + 1 - 1)%Z with k by lia. apply (H (k, lk)). by left.
  - destruct (IH lengths) as [l Hl].
    { intros kl Hkl. apply H. apply elem_of_cons in Hkl as [->|]; [by left|by do 2 right]. }
    cbn [fmap list_fmap foldr fst]. destruct (Z.max_spec j (foldr Z.max k (fst <$> kls))) as [[_ ->]|[_ ->]].
    + by exists l.
    + exists lj. replace (j + 1 - 1)%Z with j by lia. apply (H (j, lj)). right. by left.
Qed.

Lemma place_segments_ok data lengths n i o views views' o' :
  (0 ≤ o ≤ zlen data)%Z → (∀ j l, lengths !! j = Some l → (0 ≤ l)%Z) →
  place_segments data lengths n i o views = Ok (views', o') →
  ∃ segs : list (list byte), length segs = n ∧ (o ≤ o' ≤ zlen data)%Z ∧
    take (Z.to_nat o') data = take (Z.to_nat o) data ++ mjoin segs ∧
    (∀ k s, segs !! k = Some s →
       views' !! (i + Z.of_nat k)%Z = Some s ∧ lengths !! (i + Z.of_nat k)%Z = Some (zlen s)) ∧
    (∀ j, (j < i ∨ i + Z.of_nat n ≤ j)%Z → views' !! j = views !! j).
Proof.
  intros Ho Hl. revert i o views Ho. induction n as [|n IH]; intros i o views Ho E; cbn in E.
  { injection E as <- <-. exists []. split_and!; try done; try lia. cbn. by rewrite app_nil_r. }
  destruct (lengths !! i) as [l|] eqn:Ei; [|done]. specialize (Hl _ _ Ei) as Hl0.
  destruct (_ >? _)%Z eqn:Eb; [done|]. rewrite Z.gtb_ltb in Eb. bool_to_prop.
  apply IH in E as (segs & Hn & Ho' & Ht & Hs & Hv); [|lia].
  exists (py_slice data o (o + l) :: segs). split_and!.
  - cbn. lia.
  - lia.
  - lia.
  - rewrite Ht, mjoin_cons, app_assoc. f_equal. apply py_slice_split; lia.
  - intros [|k] s Hk.
    + injection Hk as <-. rewrite Z.add_0_r, Hv, lookup_insert_eq by lia. split; [done|].
      rewrite py_slice_length by lia. rewrite Ei. f_equal. lia.
    + cbn in Hk. apply Hs in Hk. by replace (i + Z.of_nat (S k))%Z with (i + 1 + Z.of_nat k)%Z by lia.
  - intros j Hj. rewrite Hv by lia. apply lookup_insert_ne. lia.
Qed.

(** The loop succeeds when each index has a length and the sum fits. *)
Lemma place_segments_succeeds data lengths (segs : list (list byte)) i o views :
  (0 ≤ o)%Z → (o + zlen (mjoin segs) ≤ zlen data)%Z →
  (∀ k s, segs !! k = Some s → lengths !! (i + Z.of_nat k)%Z = Some (zlen s)) →
  ∃ views', place_segments data lengths (length segs) i o views
            = Ok (views', (o + zlen (mjoin segs))%Z).
Proof.
  revert i o views. induction segs as [|s segs IH]; intros i o views Ho Hd Hl.
  { exists views. cbn. by rewrite Z.add_0_r. }
  rewrite mjoin_cons, zlen_app in Hd. cbn [length place_segments].
  pose proof (Hl 0 s eq_refl) as H0. rewrite Z.add_0_r in H0. rewrite H0.
  pose proof (zlen_nonneg s). pose proof (zlen_nonneg (mjoin segs)).
  rewrite Z.gtb_ltb. destruct (_ <? _)%Z eqn:Eb; bool_to_prop; [lia|].
  destruct (IH (i + 1)%Z (o + zlen s)%Z (<[i:=py_slice data o (o + zlen s)]> views)) as [views' E];
    [lia|lia| |].
  { intros k s' Hk. specialize (Hl (S k) s' Hk).
    by replace (i + 1 + Z.of_nat k)%Z with (i + Z.of_nat (S k))%Z by lia. }
  exists views'. rewrite E, mjoin_cons, zlen_app. do 2 f_equal. lia.
Qed.

Lemma resolve_ext T T' v :
  (∀ i l, (i, l) ∈ placeholders v → T i = T' i) → resolve T v = resolve T' v.
Proof.
  induct_val v; try (intros; done).
  - cbn. intros H. f_equal. apply list_fmap_ext. intros n v Hv.
    eapply (Forall_lookup_1 _ _ _ _ IH Hv). intros i l Hi. apply (H i l).
    apply list_elem_of_join. exists (placeholders v). split; [done|].
    apply list_elem_of_fmap_2. by eapply list_elem_of_lookup_2.
  - destruct (placeholder_of (PDict kvs)) as [[i l]|] eqn:Hp; intros H.
    + rewrite !(resolve_leaf _ _ _ _ Hp). rewrite (H i l); [done|].
      rewrite (placeholders_leaf _ _ _ Hp). by apply list_elem_of_singleton.
    + rewrite !resolve_dict by done. rewrite placeholders_dict in H by done. do 2 f_equal.
      apply list_fmap_ext. intros n v (kv & -> & Hv)%list_lookup_fmap_Some.
      eapply (proj2 (Forall_lookup_1 _ _ _ _ IH Hv)). intros i l Hi. apply (H i l).
      apply list_elem_of_join. exists (placeholders kv.2). split; [done|].
      apply list_elem_of_fmap_2, list_elem_of_fmap_2. by eapply list_elem_of_lookup_2.
Qed.

(** Without placeholders there is nothing to replace. *)
Lemma resolve_none T v : placeholders v = [] → resolve T v = resolve (λ _, None) v.
Proof. intros H. apply resolve_ext. rewrite H. by intros i l ?%elem_of_nil. Qed.

Lemma resolve_empty v : resolve (λ _, None) v = v.
Proof.
  induct_val v; try (intros; done).
  - cbn. f_equal. rewrite <- (list_fmap_id vs) at 2. apply list_fmap_ext.
    intros n v Hv. by apply (Forall_lookup_1 _ _ _ _ IH Hv).
  - cbn [resolve]. case_goal; [by repeat case_goal|]. f_equal.
    rewrite <- (list_fmap_id kvs) at 2. apply list_fmap_ext.
    intros n [k v] Hv. cbn. f_equal. by apply (Forall_lookup_1 _ _ _ _ IH Hv).
Qed.

Section by_index.
Context (views : gmap Z (list byte)).

Definition present (v : pyval) : Prop := ∀ i l, (i, l) ∈ placeholders v → is_Some (views !! i).

Lemma restore_by_index_ok v :
  present v → restore_by_index views v = Ok (resolve (λ i, views !! i) v).
Proof.
  induct_val v; try (intros; done).
  - intros H. cbn [restore_by_index placeholder_of resolve].
    apply result_bind_ok. exists (resolve (λ i, views !! i) <$> vs). split; [|done].
    apply mapM_result_ok, Forall2_fmap_r, Forall_Forall2_diag.
    rewrite Forall_forall in IH |- *. intros v Hv. apply IH; [done|].
    intros i l Hi. apply (H i l), list_elem_of_join. exists (placeholders v).
    split; [done|]. by apply list_elem_of_fmap_2.
  - destruct (placeholder_of (PDict kvs)) as [[i l]|] eqn:Hp; intros H.
    + destruct (H i l) as [s Hs].
      { rewrite (placeholders_leaf _ _ _ Hp). by apply list_elem_of_singleton. }
      rewrite (resolve_leaf _ _ _ _ Hp). cbn [restore_by_index]. by rewrite Hp, Hs.
    + unfold present in H. rewrite placeholders_dict in H by done.
      cbn [restore_by_index resolve]. rewrite Hp.
      apply result_bind_ok. eexists. split; [|done].
      apply mapM_result_ok, Forall2_fmap_r, Forall_Forall2_diag.
      rewrite Forall_forall in IH |- *. intros [k v] Hv. cbn [fst snd].
      pose proof (proj2 (IH _ Hv)) as IHv. cbn [fst snd] in IHv. rewrite IHv; [done|].
      intros i l Hi. apply (H i l), list_elem_of_join. exists (placeholders v).
      split; [done|]. by apply list_elem_of_fmap_2, (list_elem_of_fmap_2 snd _ (k, v)).
Qed.

Lemma restore_by_index_present v w : restore_by_index views v = Ok w → present v.
Proof.
  revert w. induct_val v; try (intros; intros ? ? ?%elem_of_nil; done).
  - intros w H i l. cbn [placeholders placeholder_of restore_by_index] in *.
    apply result_bind_ok in H as (ws & H & _). apply mapM_result_ok in H.
    intros (ps & Hi & (v & -> & Hv)%list_elem_of_fmap)%list_elem_of_join.
    apply list_elem_of_lookup in Hv as [n Hv].
    destruct (Forall2_lookup_l _ _ _ _ _ H Hv) as (w' & _ & Hw).
    by eapply (Forall_lookup_1 _ _ _ _ IH Hv).
  - intros w. cbn [restore_by_index]. destruct (placeholder_of (PDict kvs)) as [[i l]|] eqn:Hp.
    + intros H i' l'. rewrite (placeholders_leaf _ _ _ Hp).
      intros [= -> ->]%list_elem_of_singleton. by destruct (views !! i).
    + intros H i l. rewrite placeholders_dict by done.
      apply result_bind_ok in H as (ws & H & _). apply mapM_result_ok in H.
      intros (ps & Hi & (v & -> & (kv & -> & Hv)%list_elem_of_fmap)%list_elem_of_fmap)%list_elem_of_join.
      apply list_elem_of_lookup in Hv as [n Hv].
      destruct (Forall2_lookup_l _ _ _ _ _ H Hv) as (w' & _ & Hw).
      apply result_bind_ok in Hw as (w'' & Hw & _).
      by eapply (proj2 (Forall_lookup_1 _ _ _ _ IH Hv)).
Qed.
End by_index.

(** ** Both passes together *)

Lemma segment_table_app s1 s2 i :
  segment_table (s1 ++ s2) i =
    if (i <? zlen s1)%Z then segment_table s1 i else segment_table s2 (i - zlen s1).
Proof.
  unfold segment_table, zlen. destruct (i <? 0)%Z eqn:E0; bool_to_prop.
  - destruct (_ <? _)%Z eqn:E1; [done|]. bool_to_prop. lia.
  - destruct (_ <? _)%Z eqn:E1; bool_to_prop.
    + by rewrite lookup_app_l by lia.
    + destruct (i - _ <? 0)%Z eqn:E2; bool_to_prop; [lia|].
      rewrite lookup_app_r by lia. f_equal. lia.
Qed.

Lemma segment_table_some segs i : (0 ≤ i < zlen segs)%Z → is_Some (segment_table segs i).
Proof.
  intros H. unfold segment_table. destruct (i <? 0)%Z eqn:E; bool_to_prop; [lia|].
  apply lookup_lt_is_Some. unfold zlen in *. lia.
Qed.

Lemma segment_table_inv segs i s :
  segment_table segs i = Some s → (0 ≤ i)%Z ∧ segs !! Z.to_nat i = Some s.
Proof. unfold segment_table. destruct (i <? 0)%Z eqn:E; bool_to_prop; [done|]. auto. Qed.

(** The restoration of a decoded envelope, as [decode_message] runs it. *)
Definition restore_frame (data : list byte) (envelope : pyval) (base : Z) : result exn pyval :=
  match restore_sequential data envelope (init_restore_state base) with
  | (Raise e, _) => Raise e
  | (Ok envelope, st) =>
      let '(r, st) :=
        if rs_out_of_order st then restore_remaining envelope data st
        else (Ok envelope, st) in
      envelope ← r;
      if negb (rs_offset st =? zlen data)%Z then
        Raise (frame_error ("expected payload size " +:+ str_int (rs_offset st)
                            +:+ ", got " +:+ str_int (zlen data)))
      else Ok envelope
  end.

(** What the fallback establishes when it succeeds. *)
Lemma restore_remaining_ok v data st w st' :
  (0 ≤ rs_offset st ≤ zlen data)%Z → restore_remaining v data st = (Ok w, st') →
  ∃ segs, (rs_offset st' ≤ zlen data)%Z ∧
    take (Z.to_nat (rs_offset st')) data = take (Z.to_nat (rs_offset st)) data ++ mjoin segs ∧
    (∀ i l, (i, l) ∈ placeholders v → (rs_next st ≤ i < rs_next st + zlen segs)%Z) ∧
    w = resolve (λ i, segment_table segs (i - rs_next st)) v.
Proof.
  intros Ho E. unfold restore_remaining in E.
  apply pm_bind_ok in E as (st0 & s0 & [= <- <-] & E).
  apply pm_bind_ok in E as ([views o] & s1 & E1 & E). injection E1 as E1 <-.
  apply pm_bind_ok in E as ([] & s2 & [= <-] & E). injection E as E <-.
  cbn [rs_offset] in *. rewrite collect_placeholders in E1.
  apply place_segments_ok in E1 as (segs & Hn & Ho' & Ht & Hs & Hv); [|done|].
  2: { intros j l Hj. apply inserts_lookup_inv in Hj as [Hj|Hj]; [|by rewrite lookup_empty in Hj].
       by apply placeholders_nonneg in Hj as []. }
  assert (Hviews : ∀ i, views !! i = segment_table segs (i - rs_next st)).
  { intros i. unfold segment_table. destruct (i - rs_next st <? 0)%Z eqn:Ei; bool_to_prop.
    - rewrite Hv by lia. apply lookup_empty.
    - destruct (segs !! Z.to_nat (i - rs_next st)) as [s|] eqn:Hi.
      + apply Hs in Hi as [Hi _]. by replace (rs_next st + Z.of_nat (Z.to_nat (i - rs_next st)))%Z with i in Hi by lia.
      + apply lookup_ge_None in Hi. rewrite Hv by lia. apply lookup_empty. }
  pose proof (restore_by_index_present _ _ _ E) as Hp.
  exists segs. split_and!; [lia|done| |].
  - intros i l Hi. destruct (Hp _ _ Hi) as [s Hsome]. rewrite Hviews in Hsome.
    apply segment_table_inv in Hsome as [H0 Hl]. apply lookup_lt_Some in Hl.
    unfold zlen. lia.
  - rewrite restore_by_index_ok in E by done. injection E as <-. by apply resolve_ext.
Qed.

Lemma agrees_segment_table s1 s2 : agrees (segment_table (s1 ++ s2)) 0 s1.
Proof.
  intros k s Hk. unfold segment_table. destruct (_ <? 0)%Z eqn:E; bool_to_prop; [lia|].
  rewrite Z.add_0_l, Nat2Z.id. by apply lookup_app_l_Some.
Qed.

Lemma init_at base : rs_next (init_restore_state base) = 0%Z ∧
  rs_offset (init_restore_state base) = base.
Proof. done. Qed.

(** Soundness: whatever the order and the multiplicity of the placeholders,
    an accepted frame is the base followed by back-to-back segments, every
    placeholder names one of them, and has become exactly that segment. *)
Lemma restore_frame_sound data v base w :
  (0 ≤ base ≤ zlen data)%Z → restore_frame data v base = Ok w →
  ∃ segs, data = take (Z.to_nat base) data ++ mjoin segs ∧
    (∀ i l, (i, l) ∈ placeholders v → (0 ≤ i < zlen segs)%Z) ∧
    w = resolve (segment_table segs) v.
Proof.
  intros Hb E. unfold restore_frame in E.
  destruct (restore_sequential _ _ _) as [[v'|e] st] eqn:Es; [|done].
  apply restore_sequential_spec in Es as (segs1 & C & R & P & N & _); [|done].
  cbn [rs_next init_restore_state] in *.
  destruct C as (Hn & Ho & Ht & _). cbn [rs_next rs_offset init_restore_state] in *.
  assert (Hall : ∀ o : Z, o = zlen data → take (Z.to_nat o) data = data).
  { intros o ->. unfold zlen. rewrite Nat2Z.id. apply firstn_all. }
  destruct (rs_out_of_order st) eqn:Eo.
  - destruct (restore_remaining v' data st) as [r st'] eqn:Er.
    apply result_bind_ok in E as (w' & -> & E).
    destruct (rs_offset st' =? zlen data)%Z eqn:Et; [|done]. injection E as ->. bool_to_prop.
    apply restore_remaining_ok in Er as (segs2 & _ & Ht' & Hi & ->); [|lia].
    exists (segs1 ++ segs2). split_and!.
    + rewrite mjoin_app, app_assoc, <- Ht, <- Ht'. by rewrite Hall.
    + intros i l Hil. rewrite zlen_app. rewrite P in Hil.
      apply elem_of_app in Hil as [Hil|Hil].
      * apply elem_of_numbered in Hil as (s & H0 & Hs & _). apply lookup_lt_Some in Hs.
        pose proof (zlen_nonneg segs2). unfold zlen in *. lia.
      * apply Hi in Hil. pose proof (zlen_nonneg segs1). lia.
    + rewrite <- (R (segment_table (segs1 ++ segs2))) by apply agrees_segment_table.
      apply resolve_ext. intros i l Hil. apply Hi in Hil. rewrite segment_table_app.
      destruct (_ <? _)%Z eqn:E1; bool_to_prop; [lia|]. f_equal. lia.
  - apply result_bind_ok in E as (w' & [= <-] & E).
    destruct (rs_offset st =? zlen data)%Z eqn:Et; [|done]. injection E as <-. bool_to_prop.
    specialize (N eq_refl). exists segs1. split_and!.
    + rewrite <- Ht. by rewrite Hall.
    + intros i l Hil. rewrite P, N, app_nil_r in Hil.
      apply elem_of_numbered in Hil as (s & H0 & Hs & _). apply lookup_lt_Some in Hs.
      unfold zlen. lia.
    + rewrite <- (R (segment_table segs1)).
      * by rewrite resolve_none, resolve_empty.
      * rewrite <- (app_nil_r segs1) at 1. apply agrees_segment_table.
Qed.

(** Segments of the same lengths cut from the same bytes are the same. *)
Lemma mjoin_same_lengths {A} (l1 l2 : list (list A)) x1 x2 :
  Forall2 (λ s1 s2, length s1 = length s2) l1 l2 →
  mjoin l1 ++ x1 = mjoin l2 ++ x2 → l1 = l2.
Proof.
  induction 1 as [|s1 s2 l1 l2 Hs _ IH]; [done|]. rewrite !mjoin_cons, <- !app_assoc.
  intros [-> H]%app_inj_1; [|done]. by rewrite IH.
Qed.

Lemma numbered_same_lengths n s1 s2 :
  (∀ k s, s1 !! k = Some s → (n + Z.of_nat k, zlen s)%Z ∈ numbered n s2) →
  ∃ t r, s2 = t ++ r ∧ Forall2 (λ a b, length a = length b) s1 t ∧ numbered n s1 = numbered n t.
Proof.
  revert n s2. induction s1 as [|a s1 IH]; intros n s2 H.
  { exists [], s2. by split_and!. }
  pose proof (H 0 a eq_refl) as Ha. rewrite Z.add_0_r in Ha.
  apply elem_of_numbered in Ha as (b & _ & Hb & Hl). rewrite Z.sub_diag in Hb.
  destruct s2 as [|b' s2]; [done|]. injection Hb as ->.
  destruct (IH (n + 1)%Z s2) as (t & r & -> & Ht & Hn).
  { intros k s Hk. specialize (H (S k) s Hk).
    replace (n + Z.of_nat (S k))%Z with (n + 1 + Z.of_nat k)%Z in H by lia.
    cbn in H. apply elem_of_cons in H as [[= H _]|H]; [lia|done]. }
  exists (b :: t), r. split_and!; [done|constructor; [unfold zlen in Hl; lia|done]|].
  cbn. by rewrite Hl, Hn.
Qed.

Lemma lengths_of_numbered lengths n rest :
  (∀ i l, lengths !! i = Some l → (i, l) ∈ numbered n rest) →
  (∀ i l, (i, l) ∈ numbered n rest → is_Some (lengths !! i)) →
  (∀ k s, rest !! k = Some s → lengths !! (n + Z.of_nat k)%Z = Some (zlen s)) ∧
  stop_index lengths n = (n + zlen rest)%Z.
Proof.
  intros Hin Hsome.
  assert (Hk : ∀ k s, rest !! k = Some s → lengths !! (n + Z.of_nat k)%Z = Some (zlen s)).
  { intros k s Hs. destruct (Hsome (n + Z.of_nat k)%Z (zlen s)) as [l Hl].
    { apply elem_of_numbered. exists s. split_and!; [lia| |done].
      by replace (Z.to_nat (n + Z.of_nat k - n)) with k by lia. }
    pose proof (Hin _ _ Hl) as (s' & _ & Hs' & ->)%elem_of_numbered.
    replace (Z.to_nat (n + Z.of_nat k - n)) with k in Hs' by lia.
    rewrite Hs in Hs'. injection Hs' as <-. done. }
  split; [done|].
  assert (Hup : ∀ i l, lengths !! i = Some l → (i < n + zlen rest)%Z).
  { intros i l (s & H0 & Hs & _)%Hin%elem_of_numbered. apply lookup_lt_Some in Hs.
    unfold zlen. lia. }
  destruct (decide (rest = [])) as [->|Er].
  - destruct (stop_index_last lengths n) as [->|[l Hl]]; [rewrite zlen_nil; lia|].
    apply Hin in Hl. by apply elem_of_nil in Hl.
  - assert (Hlen : length rest = S (pred (length rest))) by (by destruct rest).
    destruct (lookup_lt_is_Some_2 rest (pred (length rest)) ltac:(lia)) as [s Hs].
    pose proof (stop_index_bound _ n _ _ (Hk _ _ Hs)) as Hlo.
    destruct (stop_index_last lengths n) as [Hst|[l Hl]]; [lia|].
    apply Hup in Hl. unfold zlen in *. lia.
Qed.

(** The fallback places exactly the segments that its placeholders number. *)
Lemma restore_remaining_complete v data st rest pre :
  data = pre ++ mjoin rest → rs_offset st = zlen pre →
  placeholders v ≡ₚ numbered (rs_next st) rest → (0 ≤ rs_next st)%Z →
  ∃ st', restore_remaining v data st
         = (Ok (resolve (λ i, segment_table rest (i - rs_next st)) v), st') ∧
         rs_offset st' = zlen data.
Proof.
  intros Hd Ho Hp Hn0. pose proof (zlen_nonneg pre) as Hpre.
  set (lengths := inserts ∅ (placeholders v)).
  destruct (lengths_of_numbered lengths (rs_next st) rest) as [Hk Hstop].
  { intros i l Hi. apply inserts_lookup_inv in Hi as [Hi|Hi]; [by rewrite Hp in Hi|].
    by rewrite lookup_empty in Hi. }
  { intros i l Hi. rewrite <- Hp in Hi. apply inserts_lookup_some. right.
    by apply (list_elem_of_fmap_2 fst _ (i, l)). }
  assert (Hd' : zlen data = (zlen pre + zlen (mjoin rest))%Z) by (by rewrite Hd, zlen_app).
  destruct (place_segments_succeeds data lengths rest (rs_next st) (rs_offset st) ∅)
    as [views E]; [lia|lia|done|].
  pose proof E as E'. apply place_segments_ok in E' as (segs & Hl & _ & Ht & Hs & Hv).
  2: pose proof (zlen_nonneg (mjoin rest)); lia.
  2: { intros j l Hj. apply inserts_lookup_inv in Hj as [Hj|Hj]; [|by rewrite lookup_empty in Hj].
       by apply placeholders_nonneg in Hj as []. }
  assert (segs = rest) as ->.
  { apply (mjoin_same_lengths segs rest [] []).
    - apply Forall2_same_length_lookup_2; [done|]. intros k s1 s2 H1 H2.
      apply Hs in H1 as [_ H1]. apply Hk in H2. rewrite H1 in H2. injection H2 as H2.
      unfold zlen in H2. lia.
    - rewrite !app_nil_r. rewrite Ho, <- Hd' in Ht. rewrite Hd in Ht.
      unfold zlen in Ht. rewrite !Nat2Z.id, take_app_length, firstn_all in Ht.
      by apply app_inv_head in Ht. }
  exists (RestoreState (rs_next st) (rs_offset st + zlen (mjoin rest)) (rs_out_of_order st)).
  split; [|cbn; lia].
  unfold restore_remaining. rewrite pm_bind_eq. cbn [get_state].
  rewrite collect_placeholders. fold (inserts ∅ (placeholders v)). fold lengths.
  rewrite Hstop. replace (Z.to_nat (rs_next st + zlen rest - rs_next st)) with (length rest)
    by (unfold zlen; lia).
  rewrite pm_bind_eq. unfold lift at 1. rewrite E. cbv beta iota.
  rewrite pm_bind_eq. cbn [put_state]. unfold lift. f_equal.
  rewrite restore_by_index_ok.
  - f_equal. apply resolve_ext. intros i l Hi. rewrite Hp in Hi.
    apply elem_of_numbered in Hi as (s & H0 & Hi & _).
    pose proof (Hs _ _ Hi) as [Hvi _].
    replace (rs_next st + Z.of_nat (Z.to_nat (i - rs_next st)))%Z with i in Hvi by lia.
    rewrite Hvi. unfold segment_table. destruct (_ <? 0)%Z eqn:E0; bool_to_prop; [lia|done].
  - intros i l Hi. rewrite Hp in Hi. apply elem_of_numbered in Hi as (s & H0 & Hi & _).
    pose proof (Hs _ _ Hi) as [Hvi _].
    replace (rs_next st + Z.of_nat (Z.to_nat (i - rs_next st)))%Z with i in Hvi by lia. eauto.
Qed.

(** Completeness: placeholders that number the segments, in any order. *)
Lemma restore_frame_complete pre segs v :
  placeholders v ≡ₚ numbered 0 segs →
  restore_frame (pre ++ mjoin segs) v (zlen pre) = Ok (resolve (segment_table segs) v).
Proof.
  intros Hp. set (data := pre ++ mjoin segs).
  assert (Hd : zlen data = (zlen pre + zlen (mjoin segs))%Z) by (unfold data; by rewrite zlen_app).
  pose proof (zlen_nonneg pre) as H0. pose proof (zlen_nonneg (mjoin segs)) as H0'.
  destruct (restore_sequential_succeeds data segs (zlen pre) Hd v) with
    (st := init_restore_state (zlen pre)) as (v' & st & Es & Hat).
  { intros i l Hi. by rewrite Hp in Hi. }
  { split; [done|]. change (zlen pre = zlen pre + 0)%Z. lia. }
  unfold restore_frame. rewrite Es.
  apply restore_sequential_spec in Es as (segs1 & C & R & P & N & _); [|cbn; lia].
  destruct C as (Hn & Ho & Ht & _). cbn [rs_next rs_offset init_restore_state] in *.
  rewrite Z.add_0_l in Hn.
  destruct (numbered_same_lengths 0 segs1 segs) as (t & rest & -> & Hlt & Hnt).
  { intros k s Hk. rewrite <- Hp, P. apply elem_of_app. left. apply elem_of_numbered.
    exists s. split_and!; [lia| |done]. by replace (Z.to_nat (0 + Z.of_nat k - 0)) with k by lia. }
  rewrite P, numbered_app, Hnt in Hp. apply Permutation_app_inv_l in Hp.
  assert (segs1 = t) as ->.
  { apply (mjoin_same_lengths segs1 t (drop (Z.to_nat (rs_offset st)) data) (mjoin rest)); [done|].
    apply (app_inv_head pre). rewrite <- mjoin_app. fold data.
    rewrite <- (take_drop (Z.to_nat (rs_offset st)) data) at 2. rewrite Ht.
    unfold data, zlen. rewrite Nat2Z.id, take_app_length. by rewrite app_assoc. }
  rewrite Z.add_0_l in Hp. rewrite <- Hn in Hp.
  assert (Hoff : rs_offset st = zlen (pre ++ mjoin t)).
  { destruct Hat as [_ ->]. rewrite Hn.
    replace (Z.to_nat (zlen t)) with (length t) by (unfold zlen; lia).
    by rewrite take_app_length, zlen_app. }
  assert (Hwhole : resolve (segment_table (t ++ rest)) v' = resolve (segment_table (t ++ rest)) v).
  { apply R, agrees_segment_table. }
  destruct (rs_out_of_order st) eqn:Eo.
  - destruct (restore_remaining_complete v' data st rest (pre ++ mjoin t)) as (st' & E & Ho').
    + unfold data. by rewrite mjoin_app, app_assoc.
    + done.
    + done.
    + rewrite Hn. auto with rpc.
    + rewrite E. cbn [mbind result_bind]. rewrite Ho', Z.eqb_refl. cbn [negb]. f_equal.
      rewrite <- Hwhole. apply resolve_ext. intros i l Hi. rewrite Hp in Hi.
      apply elem_of_numbered in Hi as (s & Hi & _). rewrite segment_table_app, <- Hn.
      destruct (_ <? _)%Z eqn:E1; bool_to_prop; [lia|done].
  - specialize (N eq_refl). rewrite N in Hp. apply Permutation_nil_l in Hp.
    destruct rest; [|done].
    assert (Hoff' : rs_offset st = zlen data) by (rewrite Hoff, Hd, app_nil_r, zlen_app; done).
    cbn [mbind result_bind]. rewrite Hoff', Z.eqb_refl. cbn [negb]. f_equal.
    rewrite <- Hwhole. by rewrite resolve_none, resolve_empty.
Qed.
