(* ===== verification/CodecRoundtrip.v ===== *)
(** * Encoding, then decoding

    The placeholders that [_extract_binaries] leaves number its segments in
    order, so the frame it builds is one that [restore_frame_complete]
    resolves: the receiver gets the sent value, large binaries as views. *)

From S2P Require Import Prelude Text PyVal Errors MsgPack Codec CodecSpec.

(** What the receiver of an encoded value gets: as [wire_value], except that
    extracted binaries arrive as memoryviews. *)
Fixpoint delivered (v : pyval) : pyval :=
  match as_extractable_segment v with
  | Some segment => PMemView true segment
  | None =>
      match v with
      | PByteArray bs | PMemView _ bs => PBytes bs
      | PList vs | PTuple vs => PList (delivered <$> vs)
      | PDict kvs => PDict ((λ '(k, item), (wire_value k, delivered item)) <$> kvs)
      | v => v
      end
  end.

(** No map of the value has the exact shape of a placeholder. *)
Fixpoint no_lookalike (v : pyval) : bool :=
  match v with
  | PList vs | PTuple vs => forallb no_lookalike vs
  | PDict kvs => negb (is_binary_placeholder v) && forallb (λ kv, no_lookalike kv.2) kvs
  | _ => true
  end.

(** The buffers that leave the envelope, in traversal order. *)
Fixpoint large_binaries (v : pyval) : list (list byte) :=
  match as_extractable_segment v with
  | Some segment => [segment]
  | None =>
      match v with
      | PList vs | PTuple vs => mjoin (large_binaries <$> vs)
      | PDict kvs => mjoin ((λ kv, large_binaries kv.2) <$> kvs)
      | _ => []
      end
  end.

(** ** Extraction of a list of children *)

Definition extract_item (item : pyval) (segments : list (list byte)) :
    (pyval * option pyval) * list (list byte) :=
  let '(t, segments) := extract_binaries item segments in ((item, t), segments).

Lemma walk_ext {S A B} (f g : A → S → B * S) l s :
  (∀ x s, f x s = g x s) → walk f l s = walk g l s.
Proof.
  intros H. revert s. induction l as [|x l IH]; intros s; [done|].
  cbn. rewrite H. destruct (g x s) as [y s1]. by rewrite IH.
Qed.

(** Walking over images is walking over the elements. *)
Lemma walk_fmap {S A A' B B'} (f : A → S → B * S) (g : A' → S → B' * S) (p : A → A')
    (q : A → B' → B) l s :
  (∀ x s, f x s = let '(y, s) := g (p x) s in (q x y, s)) →
  walk f l s = let '(ys, s) := walk g (p <$> l) s in (zip_with q l ys, s).
Proof.
  intros H. revert s. induction l as [|x l IH]; intros s; [done|].
  rewrite fmap_cons, !walk_cons, H. destruct (g (p x) s) as [y s1]. rewrite IH.
  by destruct (walk g (p <$> l) s1) as [ys s2].
Qed.

Lemma extract_leaf v segs :
  scalar_leaf v = true → extract_binaries v segs = (None, segs).
Proof. by destruct v. Qed.

Lemma extract_item_eq item segs :
  (let '(t, segments) :=
     if scalar_leaf item then (None, segs) else extract_binaries item segs in
   ((item, t), segments)) = extract_item item segs.
Proof.
  unfold extract_item. destruct (scalar_leaf item) eqn:E; [|done]. by rewrite extract_leaf.
Qed.

Definition items_env (items : list (pyval * option pyval)) : list pyval :=
  (λ it, default it.1 it.2) <$> items.

Lemma walk_extract_fst vs segs items segs' :
  walk extract_item vs segs = (items, segs') → items.*1 = vs.
Proof.
  revert segs items. induction vs as [|v vs IH]; intros segs items H.
  - by injection H as <- <-.
  - rewrite walk_cons in H. unfold extract_item at 1 in H.
    destruct (extract_binaries v segs) as [t s1].
    destruct (walk extract_item vs s1) as [its s2] eqn:E.
    injection H as <- <-. cbn. f_equal. by eapply IH.
Qed.

Lemma not_copied_env items : copied items = false → items_env items = items.*1.
Proof.
  unfold items_env. induction items as [|[a t] items IH]; [done|].
  cbn [copied existsb snd]. destruct t; [done|]. intros H.
  rewrite !fmap_cons. cbn [fst snd default]. f_equal. by apply IH.
Qed.

(** The environment value of a container, in terms of its children. *)
Lemma extract_seq mk vs segs :
  (mk = PList ∨ mk = PTuple) →
  ∃ items segs', walk extract_item vs segs = (items, segs') ∧
    extract_binaries (mk vs) segs =
      (if copied items then Some (PList (items_env items)) else None, segs').
Proof.
  intros Hmk. destruct (walk extract_item vs segs) as [items segs'] eqn:E.
  exists items, segs'. split; [done|].
  destruct Hmk as [->| ->]; cbn [extract_binaries as_extractable_segment];
    rewrite (walk_ext _ extract_item) by (intros; apply extract_item_eq); by rewrite E.
Qed.

Lemma extract_dict kvs segs :
  ∃ items segs', walk extract_item kvs.*2 segs = (items, segs') ∧
    extract_binaries (PDict kvs) segs =
      (if copied items then Some (PDict (zip kvs.*1 (items_env items))) else None, segs').
Proof.
  destruct (walk extract_item kvs.*2 segs) as [items segs'] eqn:E.
  exists items, segs'. split; [done|].
  cbn [extract_binaries as_extractable_segment].
  rewrite (walk_fmap _ extract_item snd (λ kv it, (kv, it.2))), E.
  - apply walk_extract_fst in E.
    assert (Hc : copied (zip_with (λ kv (it : pyval * option pyval), (kv, it.2)) kvs items)
                 = copied items ∧
      (λ it : pyval * pyval * option pyval, (it.1.1, default it.1.2 it.2)) <$>
        zip_with (λ kv (it : pyval * option pyval), (kv, it.2)) kvs items
      = zip kvs.*1 (items_env items)).
    { revert items E. induction kvs as [|[k v] kvs IH]; intros [|[a t] items] E;
        try discriminate; [done|].
      cbn in E. injection E as -> E. destruct (IH _ E) as [IHc IHe].
      unfold copied in *. cbn [zip_with existsb fst snd]. rewrite IHc. split; [done|].
      rewrite fmap_cons, IHe. done. }
    destruct Hc as [-> ->]. done.
  - intros [k v] s. cbn [fst snd]. unfold extract_item.
    destruct (scalar_leaf v) eqn:El; [by rewrite (extract_leaf v)|].
    by destruct (extract_binaries v s).
Qed.

(** ** What extraction establishes *)

(** Python's size limit on a buffer and on a list. *)
Definition bounded (n : Z) (new : list (list byte)) : Prop :=
  (0 ≤ n)%Z ∧ (n + zlen new < 2 ^ 63)%Z ∧ Forall (λ s, zlen s < 2 ^ 63)%Z new.

Lemma bounded_app n s1 s2 :
  bounded n (s1 ++ s2) → bounded n s1 ∧ bounded (n + zlen s1) s2.
Proof.
  intros (H0 & H & [F1 F2]%Forall_app). rewrite zlen_app in H.
  pose proof (zlen_nonneg s1). pose proof (zlen_nonneg s2).
  repeat split; try done; lia.
Qed.

Definition extracted (v env : pyval) (n : Z) (new : list (list byte)) : Prop :=
  same_int v env ∧
  (plain v = true → no_lookalike v = true →
     placeholders (wire_value env) = numbered n new ∧
     ∀ T, agrees T n new → resolve T (wire_value env) = delivered v) ∧
  (plain v = true → bounded n new → plain env = true).

Definition extracted_all (vs es : list pyval) (n : Z) (new : list (list byte)) : Prop :=
  Forall2 same_int vs es ∧
  (forallb plain vs = true → forallb no_lookalike vs = true →
     mjoin (placeholders <$> (wire_value <$> es)) = numbered n new ∧
     ∀ T, agrees T n new → resolve T <$> (wire_value <$> es) = delivered <$> vs) ∧
  (forallb plain vs = true → bounded n new → forallb plain es = true).

Definition big (s : list byte) : Prop := (BINARY_EXTRACT_THRESHOLD ≤ zlen s)%Z.

Definition extracts (v : pyval) : Prop :=
  ∀ segs, let '(t, segs') := extract_binaries v segs in
    ∃ new, segs' = segs ++ new ∧ (t = None ↔ new = []) ∧ Forall big new ∧
      extracted v (default v t) (zlen segs) new.

Lemma extracts_list vs segs items segs' :
  Forall extracts vs → walk extract_item vs segs = (items, segs') →
  ∃ new, segs' = segs ++ new ∧ (copied items = false ↔ new = []) ∧ Forall big new ∧
    extracted_all vs (items_env items) (zlen segs) new.
Proof.
  intros H. revert segs items. induction H as [|v vs Hv _ IH]; intros segs items E.
  - injection E as <- <-. exists []. rewrite app_nil_r. by repeat split.
  - rewrite walk_cons in E. unfold extract_item at 1 in E. specialize (Hv segs).
    destruct (extract_binaries v segs) as [t s1].
    destruct Hv as (new1 & -> & Ht & B1 & I1 & R1 & Q1).
    destruct (walk extract_item vs (segs ++ new1)) as [its s2] eqn:Ew.
    injection E as <- <-.
    destruct (IH _ _ Ew) as (new2 & -> & Hc & B2 & I2 & R2 & Q2).
    rewrite zlen_app in R2, Q2.
    exists (new1 ++ new2). split; [|split; [|split; [|split; [|split]]]].
    + by rewrite app_assoc.
    + unfold copied in *. cbn [existsb snd]. destruct t as [t|].
      * split; [done|]. intros [E _]%app_nil. by apply Ht in E.
      * rewrite (proj1 Ht eq_refl). exact Hc.
    + by apply Forall_app.
    + unfold items_env. rewrite fmap_cons. constructor; [exact I1|exact I2].
    + cbn [forallb]. intros Hp Hl. bool_to_prop.
      destruct R1 as [P1 R1]; [done|done|]. destruct R2 as [P2 R2]; [done|done|].
      unfold items_env. rewrite !fmap_cons, mjoin_cons, numbered_app. fold (items_env its).
      rewrite P2. split; [by rewrite <- P1|].
      intros T [A1 A2]%agrees_app. rewrite !fmap_cons, (R2 T A2). f_equal. by apply R1.
    + cbn [forallb]. intros Hp [B1' B2']%bounded_app. bool_to_prop.
      unfold items_env. rewrite fmap_cons. cbn [forallb]. fold (items_env its).
      rewrite Q2 by done. rewrite andb_true_r. by apply Q1.
Qed.

Lemma same_int_wire v : same_int v (wire_value v).
Proof. destruct v; cbn; try done; intros z; split; discriminate. Qed.
Lemma same_int_trans u v w : same_int u v → same_int v w → same_int u w.
Proof. intros H1 H2 z. by rewrite (H1 z). Qed.

Lemma same_int_none v w : (∀ z, v ≠ PInt z) → (∀ z, w ≠ PInt z) → same_int v w.
Proof. intros H1 H2 z. split; intros E; [by apply H1 in E|by apply H2 in E]. Qed.

Lemma extracts_segment v s : as_extractable_segment v = Some s → extracts v.
Proof.
  intros H segs.
  assert (E : extract_binaries v segs = (Some (placeholder (zlen segs) (zlen s)), segs ++ [s])).
  { destruct v; cbn [extract_binaries]; try discriminate; by rewrite H. }
  assert (D : delivered v = PMemView true s).
  { destruct v; cbn [delivered]; try discriminate; by rewrite H. }
  assert (Hph : placeholder_of (placeholder (zlen segs) (zlen s)) = Some (zlen segs, zlen s)).
  { pose proof (zlen_nonneg segs). pose proof (zlen_nonneg s).
    assert (Hz : ((0 <=? zlen segs)%Z && (0 <=? zlen s)%Z) = true)
      by (apply andb_true_iff; split; apply Z.leb_le; lia).
    transitivity (if (0 <=? zlen segs)%Z && (0 <=? zlen s)%Z
                  then Some (zlen segs, zlen s) else None); [reflexivity|by rewrite Hz]. }
  rewrite E. exists [s]. cbn [default].
  split; [done|split; [done|split; [|split; [|split]]]].
  - constructor; [|done]. unfold big.
    destruct v; cbn in H; try discriminate; case_in H; try discriminate;
      injection H as <-; rewrite ?Z.geb_leb in *; bool_to_prop; done.
  - apply same_int_none; [|done]. intros z ->. discriminate.
  - intros _ _. split; [exact (placeholders_leaf _ _ _ Hph)|].
    intros T HT. change (wire_value (placeholder (zlen segs) (zlen s)))
      with (placeholder (zlen segs) (zlen s)).
    rewrite (resolve_leaf _ _ _ _ Hph).
    pose proof (HT 0 s eq_refl) as H0. rewrite Z.add_0_r in H0. by rewrite H0, D.
  - intros _ (H0 & H1 & [H2 _]%Forall_cons). rewrite zlen_cons, zlen_nil in H1.
    pose proof (zlen_nonneg s). cbn -[zlen Z.leb Z.ltb Z.pow].
    repeat (apply andb_true_iff; split); try apply bool_decide_eq_true_2;
      try apply Z.leb_le; try apply Z.ltb_lt; try lia; try done.
    apply NoDup_cons. split; [|apply NoDup_singleton]. by intros [=]%list_elem_of_singleton.
Qed.

(** Rebuilding a dict from its keys and mapped values. *)
Lemma zip_fst_snd {A B} (l : list (A * B)) : zip l.*1 l.*2 = l.
Proof. induction l as [|[a b] l IH]; [done|]. cbn. by rewrite IH. Qed.

Lemma wire_dict ks vs :
  length ks = length vs →
  wire_value (PDict (zip ks vs)) = PDict (zip (wire_value <$> ks) (wire_value <$> vs)).
Proof.
  cbn [wire_value]. intros H. f_equal. revert vs H.
  induction ks as [|k ks IH]; intros [|v vs] H; try discriminate; [done|].
  cbn. f_equal. apply IH. by injection H.
Qed.

Lemma delivered_dict kvs :
  delivered (PDict kvs) = PDict (zip (wire_value <$> kvs.*1) (delivered <$> kvs.*2)).
Proof.
  cbn [delivered as_extractable_segment]. f_equal.
  induction kvs as [|[k v] kvs IH]; [done|]. cbn. by rewrite IH.
Qed.

(** A key of the delivered dict holds the delivered value. *)
Lemma delivered_lookup kvs :
  ∃ kvs', delivered (PDict kvs) = PDict kvs' ∧ ∀ k, dict_lookup k kvs' = delivered <$> dict_lookup k kvs.
Proof.
  rewrite delivered_dict. eexists. split; [done|]. intros k.
  induction kvs as [|[key v] kvs IH]; [done|]. cbn [fmap list_fmap fst snd zip zip_with dict_lookup].
  change (zip_with pair (list_fmap _ _ wire_value kvs.*1) (list_fmap _ _ delivered kvs.*2)) with
    (zip (wire_value <$> kvs.*1) (delivered <$> kvs.*2)).
  assert (E : is_key k (wire_value key) = is_key k key) by (by destruct key).
  rewrite E. by destruct (is_key k key).
Qed.

Lemma plain_dict kvs :
  plain (PDict kvs) = bool_decide (NoDup (str_key <$> kvs)) &&
    forallb (λ k, match k with PStr _ => true | _ => false end) kvs.*1 && forallb plain kvs.*2.
Proof.
  cbn [plain]. rewrite <- andb_assoc. f_equal.
  induction kvs as [|[k v] kvs IH]; [done|]. cbn. rewrite IH.
  destruct k; cbn; try done; try (by rewrite andb_false_r).
  destruct (plain v); cbn; [done|by rewrite andb_false_r].
Qed.

Lemma forallb_snd {A B} (f : B → bool) (l : list (A * B)) :
  forallb (λ kv, f kv.2) l = forallb f l.*2.
Proof. induction l as [|[a b] l IH]; [done|]. cbn. by rewrite IH. Qed.

Lemma plain_keys_wire ks :
  forallb (λ k, match k with PStr _ => true | _ => false end) ks = true → wire_value <$> ks = ks.
Proof.
  induction ks as [|k ks IH]; [done|]. cbn. intros H. bool_to_prop.
  rewrite IH by done. by destruct k.
Qed.

Lemma zip_keys_str_key ks (vs vs' : list pyval) :
  length vs = length vs' → str_key <$> zip ks vs = str_key <$> zip ks vs'.
Proof.
  revert ks vs'. induction vs as [|v vs IH]; intros [|k ks] [|v' vs'] H; try discriminate; try done.
  cbn. f_equal. apply IH. by injection H.
Qed.

Lemma items_env_length vs segs items segs' :
  walk extract_item vs segs = (items, segs') → length (items_env items) = length vs.
Proof.
  intros <-%walk_extract_fst. unfold items_env. by rewrite !length_fmap.
Qed.

Lemma extracts_dict kvs : Forall extracts kvs.*2 → extracts (PDict kvs).
Proof.
  intros IH segs. destruct (extract_dict kvs segs) as (items & segs' & Ew & ->).
  pose proof (items_env_length _ _ _ _ Ew) as Hl.
  destruct (extracts_list _ _ _ _ IH Ew) as (new & -> & Hc & B & I & R & Q).
  set (es := items_env items) in *.
  assert (Hk : length kvs.*1 = length es) by (by rewrite Hl, !length_fmap).
  assert (Henv : default (PDict kvs) (if copied items then Some (PDict (zip kvs.*1 es)) else None)
                 = PDict (zip kvs.*1 es)).
  { destruct (copied items) eqn:E; [done|]. cbn. unfold es.
    rewrite (not_copied_env _ E), (walk_extract_fst _ _ _ _ Ew). by rewrite zip_fst_snd. }
  exists new. split; [done|]. split; [rewrite <- Hc; by destruct (copied items)|].
  split; [done|]. rewrite Henv. split; [|split].
  - by apply same_int_none.
  - rewrite plain_dict. cbn [no_lookalike]. rewrite forallb_snd.
    intros [[_ Hks]%andb_true_iff Hp]%andb_true_iff [Hnp Hno]%andb_true_iff.
    apply negb_true_iff in Hnp.
    destruct R as [P R]; [done|done|].
    rewrite wire_dict, delivered_dict, (plain_keys_wire kvs.*1) by done.
    set (kvs' := zip kvs.*1 (wire_value <$> es)).
    assert (Hkl : length kvs.*1 = length (wire_value <$> es)) by (by rewrite Hk, length_fmap).
    assert (Hk1 : kvs'.*1 = kvs.*1) by (apply fst_zip; lia).
    assert (Hk2 : kvs'.*2 = wire_value <$> es) by (apply snd_zip; lia).
    assert (Hno' : placeholder_of (PDict kvs') = None).
    { rewrite (placeholder_of_same kvs); [|done|].
      - unfold is_binary_placeholder in *. by destruct (placeholder_of (PDict kvs)).
      - rewrite Hk2. apply Forall2_fmap_r. eapply Forall2_impl; [exact I|].
        intros v w Hvw. eapply same_int_trans; [exact Hvw|]. apply same_int_wire. }
    rewrite placeholders_dict, Hk2, P by done. split; [done|].
    intros T HT. rewrite resolve_dict, Hk1, Hk2, (R T HT) by done. done.
  - rewrite !plain_dict. intros Hp Hb. bool_to_prop.
    rewrite fst_zip, snd_zip by lia.
    repeat (apply andb_true_iff; split); [|done|by apply Q].
    apply bool_decide_eq_true_2.
    rewrite <- (zip_fst_snd kvs) in H. erewrite zip_keys_str_key; [exact H|].
    by rewrite Hl, !length_fmap.
Qed.

Lemma extracts_sequence mk vs :
  (mk = PList ∨ mk = PTuple) → Forall extracts vs → extracts (mk vs).
Proof.
  intros Hmk IH segs. destruct (extract_seq mk vs segs Hmk) as (items & segs' & Ew & ->).
  destruct (extracts_list _ _ _ _ IH Ew) as (new & -> & Hc & B & I & R & Q).
  set (es := items_env items) in *.
  assert (Henv : ∃ mk', (mk' = PList ∨ mk' = PTuple) ∧
    default (mk vs) (if copied items then Some (PList es) else None) = mk' es).
  { destruct (copied items) eqn:E; [by exists PList; auto|]. exists mk. split; [done|]. cbn. unfold es.
    by rewrite (not_copied_env _ E), (walk_extract_fst _ _ _ _ Ew). }
  destruct Henv as (mk' & Hmk' & ->).
  exists new. split; [done|]. split; [rewrite <- Hc; by destruct (copied items)|].
  split; [done|].
  assert (Hw : wire_value (mk' es) = PList (wire_value <$> es)) by (by destruct Hmk' as [->| ->]).
  assert (Hd : delivered (mk vs) = PList (delivered <$> vs)) by (by destruct Hmk as [->| ->]).
  split; [|split].
  - by destruct Hmk as [->| ->], Hmk' as [->| ->]; apply same_int_none.
  - intros Hp Hn. destruct R as [P R]; [by destruct Hmk as [->| ->]|by destruct Hmk as [->| ->]|].
    rewrite Hw, Hd. split; [exact P|]. intros T HT. cbn [resolve placeholder_of].
    by rewrite (R T HT).
  - intros Hp Hb. assert (Hq : forallb plain es = true) by (apply Q; by destruct Hmk as [->| ->]).
    by destruct Hmk' as [->| ->].
Qed.

Lemma extracts_leaf v :
  extract_binaries v = (λ segs, (None, segs)) → placeholders (wire_value v) = [] →
  delivered v = wire_value v → extracts v.
Proof.
  intros E P D segs. rewrite E. exists []. rewrite app_nil_r.
  split; [done|]. split; [done|]. split; [done|]. split; [done|]. split; [|done].
  intros _ _. split; [done|]. intros T _. cbn [default].
  by rewrite resolve_none, resolve_empty, D.
Qed.

Lemma extracts_buffer v bs :
  v = PBytes bs ∨ v = PByteArray bs ∨ (∃ c, v = PMemView c bs) → extracts v.
Proof.
  intros Hv. destruct (as_extractable_segment v) as [s|] eqn:E; [by eapply extracts_segment|].
  assert (H : ∀ segs, extract_binaries v segs = (None, segs)).
  { intros segs. destruct Hv as [->|[->|[c ->]]]; cbn in E |- *; by case_goal. }
  assert (D : delivered v = wire_value v).
  { destruct Hv as [->|[->|[c ->]]]; cbn in E |- *; by case_goal. }
  assert (P : ∀ T, placeholders (wire_value v) = [] ∧ resolve T (wire_value v) = wire_value v).
  { by destruct Hv as [->|[->|[c ->]]]. }
  intros segs. rewrite H. exists []. rewrite app_nil_r.
  split; [done|]. split; [done|]. split; [done|]. split; [done|]. split; [|done].
  intros _ _. split; [apply (P (λ _, None))|]. intros T _. rewrite D. apply P.
Qed.

Lemma extract_binaries_spec v : extracts v.
Proof.
  induct_val v; try (by apply extracts_leaf).
  - apply extracts_sequence; auto.
  - apply extracts_sequence; auto.
  - apply extracts_dict. apply Forall_fmap. eapply Forall_impl; [exact IH|]. by intros kv [].
  - by apply (extracts_buffer _ bs); left.
  - by apply (extracts_buffer _ bs); right; left.
  - apply (extracts_buffer _ bs). right; right. by eexists.
Qed.

Lemma walk_segments vs segs :
  Forall (λ v, ∀ segs, (extract_binaries v segs).2 = segs ++ large_binaries v) vs →
  (walk extract_item vs segs).2 = segs ++ mjoin (large_binaries <$> vs).
Proof.
  intros H. revert segs. induction H as [|v vs Hv _ IH]; intros segs.
  - cbn. by rewrite app_nil_r.
  - rewrite walk_cons, fmap_cons, mjoin_cons, app_assoc, <- Hv.
    unfold extract_item at 1. destruct (extract_binaries v segs) as [t s1]. cbn [snd].
    rewrite <- IH. by destruct (walk extract_item vs s1).
Qed.

Lemma extract_segments v segs : (extract_binaries v segs).2 = segs ++ large_binaries v.
Proof.
  revert segs. induct_val v; try (intros; cbn; by rewrite app_nil_r).
  - intros segs. destruct (extract_seq PList vs segs) as (its & s' & E & ->); [auto|].
    cbn [snd large_binaries as_extractable_segment]. by rewrite <- walk_segments, E.
  - intros segs. destruct (extract_seq PTuple vs segs) as (its & s' & E & ->); [auto|].
    cbn [snd large_binaries as_extractable_segment]. by rewrite <- walk_segments, E.
  - intros segs. destruct (extract_dict kvs segs) as (its & s' & E & ->).
    cbn [snd large_binaries as_extractable_segment].
    rewrite (list_fmap_compose snd large_binaries kvs : (λ kv, large_binaries kv.2) <$> kvs = _).
    rewrite <- walk_segments, E; [done|].
    apply Forall_fmap. eapply Forall_impl; [exact IH|]. by intros kv [].
  - intros segs. cbn. case_goal; cbn; by rewrite ?app_nil_r.
  - intros segs. cbn. case_goal; cbn; by rewrite ?app_nil_r.
  - intros segs. cbn. case_goal; cbn; by rewrite ?app_nil_r.
Qed.

(** ** Frames *)

(** The frame of an envelope [e] and segments. *)
Definition frame (e : list byte) (segs : list (list byte)) : list byte :=
  MAGIC ++ le_bytes 4 (zlen e) ++ e ++ mjoin segs.

Section theorems.
Context {M : MsgPack} {L : MsgPackLaws M}.

Lemma frame_split e segs : frame e segs = (MAGIC ++ le_bytes 4 (zlen e)) ++ e ++ mjoin segs.
Proof. unfold frame. by rewrite app_assoc. Qed.

Lemma frame_header (e : list byte) : zlen (MAGIC ++ le_bytes 4 (zlen e)) = HEADER_SIZE.
Proof. rewrite zlen_app. unfold zlen at 2. by rewrite length_le_bytes. Qed.

Lemma frame_base e segs :
  frame e segs = ((MAGIC ++ le_bytes 4 (zlen e)) ++ e) ++ mjoin segs ∧
  zlen ((MAGIC ++ le_bytes 4 (zlen e)) ++ e) = (HEADER_SIZE + zlen e)%Z.
Proof.
  split; [by rewrite frame_split, app_assoc|]. by rewrite zlen_app, frame_header.
Qed.

Lemma decode_frame e segs :
  (zlen e < 2 ^ 32)%Z →
  decode_message (frame e segs)
  = envelope ← decode e; restore_frame (frame e segs) envelope (HEADER_SIZE + zlen e).
Proof.
  intros He. pose proof (zlen_nonneg e). pose proof (zlen_nonneg (mjoin segs)).
  assert (Hlen : zlen (frame e segs) = (HEADER_SIZE + zlen e + zlen (mjoin segs))%Z).
  { rewrite frame_split, zlen_app, frame_header, zlen_app. lia. }
  assert (Hf : is_frame (frame e segs) = true).
  { unfold is_frame. destruct (_ <? _)%Z eqn:E; bool_to_prop; [rewrite Hlen in E; lia|].
    unfold frame. by rewrite starts_with_app. }
  assert (Hlv : le_value (py_slice (frame e segs) 4 8) = zlen e).
  { assert (Es : py_slice (frame e segs) 4 8 = le_bytes 4 (zlen e)).
    { pose proof (py_slice_app_mid MAGIC (le_bytes 4 (zlen e)) (e ++ mjoin segs)) as E.
      replace (zlen (le_bytes 4 (zlen e))) with 4%Z in E; [done|].
      unfold zlen. by rewrite length_le_bytes. }
    rewrite Es. apply le_value_roundtrip. lia. }
  assert (Hev : py_slice (frame e segs) HEADER_SIZE (HEADER_SIZE + zlen e) = e).
  { pose proof (py_slice_app_mid (MAGIC ++ le_bytes 4 (zlen e)) e (mjoin segs)) as E.
    by rewrite frame_header, <- frame_split in E. }
  unfold decode_message. rewrite Hf. cbn [negb]. rewrite Hlv, Hev.
  rewrite Z.gtb_ltb. destruct (_ <? _)%Z eqn:E; bool_to_prop; [lia|done].
Qed.

Lemma decode_frame_resolve e env segs :
  (zlen e < 2 ^ 32)%Z → decode e = Ok env → placeholders env ≡ₚ numbered 0 segs →
  decode_message (frame e segs) = Ok (resolve (segment_table segs) env).
Proof.
  intros He Hd Hp. rewrite decode_frame, Hd by done. cbn [mbind result_bind].
  destruct (frame_base e segs) as [-> <-]. by apply restore_frame_complete.
Qed.

(** C18. A frame decodes to its envelope with every placeholder replaced by
    the segment it names, in whatever order the placeholders appear: the
    sequential pass and the out-of-order fallback together implement
    [resolve]. *)
Theorem decode_any_order e env segs :
  (zlen e < 2 ^ 32)%Z → decode e = Ok env → placeholders env ≡ₚ numbered 0 segs →
  decode_message (frame e segs) = Ok (resolve (segment_table segs) env).
Proof. apply decode_frame_resolve. Qed.

(** C29. A frame that [decode_message] accepts, from any sender, is exactly
    header, envelope and back-to-back segments; every placeholder names one
    of these segments (no view reaches outside the payload), and the result
    is the envelope with the placeholders resolved. *)
Theorem decode_message_sound b v :
  is_frame b = true → decode_message b = Ok v →
  ∃ e env segs, b = MAGIC ++ py_slice b 4 8 ++ e ++ mjoin segs ∧
    zlen e = le_value (py_slice b 4 8) ∧ decode e = Ok env ∧
    (∀ i l, (i, l) ∈ placeholders env → (0 ≤ i < zlen segs)%Z) ∧
    v = resolve (segment_table segs) env.
Proof.
  intros Hf E. unfold decode_message in E. rewrite Hf in E. cbn [negb] in E.
  unfold is_frame in Hf. bool_to_prop. unfold starts_with in H0. bool_to_prop.
  set (n := le_value (py_slice b 4 8)) in *.
  assert (Hn : (0 ≤ n)%Z).
  { subst n. generalize (py_slice b 4 8). clear. intros l. induction l as [|x l IH]; cbn; [lia|].
    pose proof (Z_of_byte_range x). lia. }
  destruct (_ >? _)%Z eqn:Eb; [done|]. rewrite Z.gtb_ltb in Eb. bool_to_prop.
  apply result_bind_ok in E as (env & Hd & E).
  apply restore_frame_sound in E as (segs & Hb & Hi & ->); [|unfold HEADER_SIZE in *; lia].
  exists (py_slice b HEADER_SIZE (HEADER_SIZE + n)), env, segs. split_and!; try done.
  - rewrite Hb at 1. rewrite !app_assoc. f_equal.
    assert (H4 : take (Z.to_nat 4) b = MAGIC) by done.
    rewrite (py_slice_split b 8 (HEADER_SIZE + n)) by (unfold HEADER_SIZE in *; lia).
    rewrite (py_slice_split b 4 8) by (unfold HEADER_SIZE in *; lia).
    by rewrite H4.
  - rewrite py_slice_length by (unfold HEADER_SIZE in *; lia). lia.
Qed.

Lemma big_count new : Forall big new → (zlen new ≤ zlen (mjoin new))%Z ∧
  Forall (λ s, zlen s ≤ zlen (mjoin new))%Z new.
Proof.
  induction 1 as [|s new Hs _ [IH1 IH2]]; [by split|].
  unfold big, BINARY_EXTRACT_THRESHOLD in Hs.
  pose proof (zlen_nonneg (mjoin new)). rewrite zlen_cons, mjoin_cons, zlen_app. split; [lia|].
  constructor; [lia|]. eapply Forall_impl; [exact IH2|]. cbn. lia.
Qed.

(** [encode_message] is [encode] when the value holds no binary of the
    threshold size; otherwise it is the frame of its envelope with exactly
    those binaries as segments, in traversal order, and [struct.error] when
    the envelope length does not fit 32 bits. *)
Theorem encode_message_spec v :
  encode_message v =
    if bool_decide (large_binaries v = []) then encode v
    else e ← encode (default v (extract_binaries v []).1);
         if (zlen e <? 2 ^ 32)%Z then Ok (frame e (large_binaries v)) else Raise StructError.
Proof.
  unfold encode_message. pose proof (extract_segments v []) as E.
  destruct (extract_binaries v []) as [t segs]. cbn [fst snd app] in *. subst segs.
  destruct (large_binaries v) as [|s segs] eqn:El; [done|].
  rewrite bool_decide_eq_false_2 by done.
  destruct (encode (default v t)) as [e|]; [|done]. cbn [mbind result_bind].
  unfold pack_env_len. by destruct (_ <? _)%Z.
Qed.

(** A plain message of eight bytes or more never starts with the magic. *)
Lemma encoded_not_frame v b : encode v = Ok b → is_frame b = false.
Proof.
  intros E. unfold is_frame. destruct (_ <? _)%Z eqn:E8; [done|]. bool_to_prop. cbn.
  rewrite negb_involutive. unfold starts_with. apply bool_decide_eq_false_2. intros Hm.
  destruct b as [|x [|y b]]; try done. unfold encode in E.
  apply pack_head in E; [|done]. injection Hm as -> _. cbn in E. lia.
Qed.

Lemma decode_encoded v b :
  plain v = true → no_lookalike v = true → (zlen b < 2 ^ 63)%Z →
  encode_message v = Ok b → decode_message b = Ok (delivered v).
Proof.
  intros Hp Hn Hb E. unfold encode_message in E. pose proof (extract_binaries_spec v []) as X.
  destruct (extract_binaries v []) as [t segs].
  destruct X as (new & -> & Ht & Hbig & _ & HR & HQ). cbn [app] in *.
  change (zlen []) with 0%Z in *. destruct (HR Hp Hn) as [P R].
  destruct new as [|s0 new0].
  - rewrite (proj2 Ht eq_refl) in *. cbn [default] in *.
    unfold decode_message. rewrite (encoded_not_frame v b) by done. cbn [negb].
    unfold encode, decode in *. rewrite (unpack_pack _ ext_hook v b Hp E). f_equal.
    rewrite <- (R (λ _, None)); [|by intros k s Hk; rewrite lookup_nil in Hk].
    by rewrite resolve_empty.
  - set (new := s0 :: new0) in *.
    apply result_bind_ok in E as (e & Ee & E). apply result_bind_ok in E as (len & El & E).
    unfold pack_env_len in El. destruct (_ <? _)%Z eqn:E32; [|done]. bool_to_prop.
    injection El as <-.
    assert (b = frame e new) as -> by (by injection E as <-). clear E. clearbody new.
    destruct (big_count new Hbig) as [Hc Hs].
    destruct (frame_base e new) as [Hf Hfl]. rewrite Hf, zlen_app, Hfl in Hb.
    pose proof (zlen_nonneg e). unfold HEADER_SIZE in Hb.
    assert (Hq : plain (default v t) = true).
    { apply HQ; [done|]. split_and!; [done|lia|].
      eapply Forall_impl; [exact Hs|]. cbn. lia. }
    rewrite (decode_frame_resolve e (wire_value (default v t)) new); [|done| |by rewrite P].
    + f_equal. apply R. rewrite <- (app_nil_r new) at 1. apply agrees_segment_table.
    + unfold encode, decode in *. by rewrite (unpack_pack _ ext_hook _ _ Hq Ee).
Qed.

(** C3. Decoding an encoded message delivers the sent value: buffers as
    bytes, tuples as lists, and binaries of at least the threshold as views,
    for every plain value none of whose maps has the placeholder shape. *)
Theorem decode_encode_message v b :
  plain v = true → no_lookalike v = true → (zlen b < 2 ^ 63)%Z →
  encode_message v = Ok b → decode_message b = Ok (delivered v).
Proof. apply decode_encoded. Qed.
End theorems.

(** ** Witnesses *)

Definition sample_message : pyval :=
  PDict [(PStr "id", PStr "a"); (PStr "params", PTuple [PInt 67; PBytes (replicate (Z.to_nat 16384) Byte.x41)])].
Definition sample_bytes : list byte :=
  match encode_message sample_message with Ok b => b | Raise _ => [] end.

Lemma decode_encode_message_witness :
  decode_message sample_bytes = Ok (delivered sample_message).
Proof.
  apply (decode_encode_message sample_message sample_bytes); vm_compute; reflexivity.
Defined.

Definition swapped_envelope : pyval := PList [placeholder 1 2; PStr "x"; placeholder 0 1].
Definition swapped_segments : list (list byte) := [[Byte.x01]; [Byte.x02; Byte.x03]].
Definition swapped_bytes : list byte :=
  match encode swapped_envelope with Ok b => b | Raise _ => [] end.

Lemma decode_any_order_witness :
  decode_message (frame swapped_bytes swapped_segments)
  = Ok (PList [PMemView true [Byte.x02; Byte.x03]; PStr "x"; PMemView true [Byte.x01]]).
Proof.
  apply (decode_any_order swapped_bytes swapped_envelope swapped_segments).
  - vm_compute. reflexivity.
  - vm_compute. reflexivity.
  - apply Permutation_swap.
Defined.

Lemma decode_message_sound_witness :
  ∃ v, ∃ e env segs, frame swapped_bytes swapped_segments
         = MAGIC ++ py_slice (frame swapped_bytes swapped_segments) 4 8 ++ e ++ mjoin segs ∧
      zlen e = le_value (py_slice (frame swapped_bytes swapped_segments) 4 8) ∧ decode e = Ok env ∧
      (∀ i l, (i, l) ∈ placeholders env → (0 ≤ i < zlen segs)%Z) ∧
      v = resolve (segment_table segs) env.
Proof.
  eexists. apply decode_message_sound; vm_compute; reflexivity.
Defined.
