(* ===== verification/Chunking.v ===== *)
(** * Chunked transfers (chunking.py)

    [create_chunks], the [ChunkAssembler] and the [ChunkingManager]. A chunk
    is the dict the callers build, with its optional keys; times are
    readings of the monotonic clock in milliseconds, one per call of
    [time.monotonic]. *)

From S2P Require Import Prelude Text PyVal Dict Errors MsgPack Codec.

Record chunk := Chunk {
  c_id : option string;
  c_transferId : option string;
  c_index : option Z;
  c_chunkIndex : option Z;
  c_data : option (list byte);
  c_isLast : bool }.

Definition total_chunks_of (total_size max_chunk_size : Z) : Z :=
  ((total_size + max_chunk_size - 1) / max_chunk_size)%Z.

(** [create_chunks]; a zero chunk size divides by zero at the first element,
    a negative one gives an empty range. *)
Definition create_chunks (encoded : list byte) (chunk_id : string) (max_chunk_size : Z) :
    result exn (list chunk) :=
  let total_size := zlen encoded in
  if (total_size =? 0)%Z then Ok []
  else if (max_chunk_size =? 0)%Z then Raise ZeroDivisionError
  else
    let total_chunks := total_chunks_of total_size max_chunk_size in
    Ok ((λ i,
           let start := (i * max_chunk_size)%Z in
           let end_ := Z.min (start + max_chunk_size) total_size in
           Chunk None (Some chunk_id) (Some i) None (Some (py_slice encoded start end_)) false)
        <$> seqZ 0 total_chunks).

(** ** ChunkAssembler *)

Record assembler := Assembler {
  a_id : string;
  a_received : gset Z;
  a_total_chunks : option Z;
  a_total_size : Z;
  a_buffer : option (list byte);
  a_temp : gmap Z (list byte);
  a_chunk_size : option Z }.

Definition new_assembler (id : string) : assembler := Assembler id ∅ None 0 None ∅ None.

Section assembler.
(** whether [bytearray(n)] succeeds, for an [n] that fits an index *)
Variable can_alloc : Z → bool.

(** [set_expected_chunks] *)
Definition set_expected_chunks (count : Z) (total_size chunk_size : option Z) :
    pm exn assembler unit := λ a,
  let chunk_size := match chunk_size with Some _ => chunk_size | None => a_chunk_size a end in
  let a := Assembler (a_id a) (a_received a) (Some count) (a_total_size a) (a_buffer a)
                     (a_temp a) chunk_size in
  match total_size with
  | None => (Ok tt, a)
  | Some n =>
      if (n >? 0)%Z then
        let with_buffer := λ b, Assembler (a_id a) (a_received a) (a_total_chunks a) n b
                                          (a_temp a) (a_chunk_size a) in
        if (n >=? 2 ^ 63)%Z
        then (Raise (OtherError "cannot fit 'int' into an index-sized integer"),
              with_buffer (a_buffer a))
        else if can_alloc n then (Ok tt, with_buffer (Some (replicate (Z.to_nat n) Byte.x00)))
        else (Ok tt, with_buffer None)
      else (Ok tt, a)
  end.
End assembler.

(** [is_complete] *)
Definition is_complete (a : assembler) : bool :=
  match a_total_chunks a with
  | None => false
  | Some n => (Z.of_nat (size (a_received a)) =? n)%Z
  end.

(** [bool(n)] of an optional int *)
Definition int_truthy (n : option Z) : bool :=
  match n with None => false | Some n => negb (n =? 0)%Z end.

(** the write of [add_chunk] into the pre-allocated buffer *)
Definition write_chunk (total_size : Z) (buf : list byte) (offset : Z) (data : list byte) :
    list byte :=
  if (offset + zlen data <=? total_size)%Z
  then py_slice_set buf offset (offset + zlen data) data
  else
    let remaining := (total_size - offset)%Z in
    if (remaining >? 0)%Z
    then py_slice_set buf offset (zlen buf) (py_slice data 0 remaining)
    else buf.

(** [d[key]] of a chunk key *)
Definition chunk_key {A} (key : string) (v : option A) : result exn A :=
  match v with Some v => Ok v | None => Raise (KeyError key) end.

(** [add_chunk] *)
Definition add_chunk (c : chunk) : pm exn assembler bool := λ a,
  match chunk_key "transferId" (c_transferId c) with
  | Raise e => (Raise e, a)
  | Ok tid =>
  if negb (bool_decide (tid = a_id a))
  then (Raise (ValueError ("Chunk ID mismatch: expected " +:+ a_id a +:+ ", got " +:+ tid)), a)
  else
  match chunk_key "index" (c_index c) with
  | Raise e => (Raise e, a)
  | Ok index =>
  match chunk_key "data" (c_data c) with
  | Raise e => (Raise e, a)
  | Ok data =>
    let size := zlen data in
    let chunk_size :=
      match a_chunk_size a, a_total_chunks a with
      | None, Some n => if (index =? 0)%Z && negb (n =? 0)%Z && (n >? 1)%Z then Some size else None
      | cs, _ => cs
      end in
    let effective := if int_truthy chunk_size then default 0%Z chunk_size else size in
    let '(buffer, temp) :=
      match a_buffer a with
      | Some buf => (Some (write_chunk (a_total_size a) buf (index * effective) data), a_temp a)
      | None => (None, <[index := data]> (a_temp a))
      end in
    let received := {[index]} ∪ a_received a in
    let total := if c_isLast c then Some (index + 1)%Z else a_total_chunks a in
    let a := Assembler (a_id a) received total (a_total_size a) buffer temp chunk_size in
    (Ok (is_complete a), a)
  end end end.

(** [temp_chunks[i]] *)
Definition temp_chunk (a : assembler) (i : Z) : result exn (list byte) :=
  match a_temp a !! i with Some data => Ok data | None => Raise (KeyError (str_int i)) end.

(** the copy loop of [get_data]'s fallback path *)
Definition copy_chunk (st : list byte * Z) (data : list byte) : list byte * Z :=
  let '(combined, offset) := st in
  (py_slice_set combined offset (offset + zlen data) data, (offset + zlen data)%Z).

Section get_data.
Context {M : MsgPack}.

(** [get_data] *)
Definition get_data (a : assembler) : result exn pyval :=
  if negb (is_complete a)
  then Raise (RuntimeError "Cannot get data: Not all chunks have been received.")
  else
    match a_buffer a with
    | Some buffer => decode_message buffer
    | None =>
        chunks ← mapM (temp_chunk a) (seqZ 0 (default 0%Z (a_total_chunks a)));
        let total_size := foldr Z.add 0%Z (zlen <$> chunks) in
        let '(combined, _) :=
          foldl copy_chunk (replicate (Z.to_nat total_size) Byte.x00, 0%Z) chunks in
        decode_message combined
    end.
End get_data.

(** [ChunkAssembler.get_progress]: received, total, and the percentage as an
    exact fraction (numerator, denominator). *)
Definition assembler_progress (a : assembler) : Z * Z * (Z * Z) :=
  let received := Z.of_nat (size (a_received a)) in
  let total := default 0%Z (a_total_chunks a) in
  (received, total, if (total >? 0)%Z then (received * 100, total)%Z else (0, 1)%Z).

(** ** ChunkingManager *)

(** A call of one of the two callbacks of a transfer. *)
Inductive callback_call :=
| CallComplete (tid : string) (cb : Z) (data : pyval)
| CallError (tid : string) (cb : Z) (e : exn).

Record manager := Manager {
  cm_assemblers : gmap string assembler;
  cm_completed : gmap string Z;
  cm_error : gmap string Z;
  (** the pool, the next assembler to hand out first *)
  cm_pool : list assembler;
  cm_activity : list (string * Z);
  cm_last_sweep : Z;
  (** the callback calls made so far *)
  cm_calls : list callback_call }.

Definition new_manager : manager := Manager ∅ ∅ ∅ [] [] 0 [].

(** [_STALE_TRANSFER_TTL], [_SWEEP_INTERVAL] in milliseconds *)
Definition STALE_TRANSFER_TTL : Z := 30000.
Definition SWEEP_INTERVAL : Z := 1000.

Definition set_assemblers f (s : manager) : manager :=
  Manager (f (cm_assemblers s)) (cm_completed s) (cm_error s) (cm_pool s) (cm_activity s)
          (cm_last_sweep s) (cm_calls s).
Definition set_completed f (s : manager) : manager :=
  Manager (cm_assemblers s) (f (cm_completed s)) (cm_error s) (cm_pool s) (cm_activity s)
          (cm_last_sweep s) (cm_calls s).
Definition set_error f (s : manager) : manager :=
  Manager (cm_assemblers s) (cm_completed s) (f (cm_error s)) (cm_pool s) (cm_activity s)
          (cm_last_sweep s) (cm_calls s).
Definition set_pool f (s : manager) : manager :=
  Manager (cm_assemblers s) (cm_completed s) (cm_error s) (f (cm_pool s)) (cm_activity s)
          (cm_last_sweep s) (cm_calls s).
Definition set_activity f (s : manager) : manager :=
  Manager (cm_assemblers s) (cm_completed s) (cm_error s) (cm_pool s) (f (cm_activity s))
          (cm_last_sweep s) (cm_calls s).
Definition set_last_sweep t (s : manager) : manager :=
  Manager (cm_assemblers s) (cm_completed s) (cm_error s) (cm_pool s) (cm_activity s)
          t (cm_calls s).
Definition log_call c (s : manager) : manager :=
  Manager (cm_assemblers s) (cm_completed s) (cm_error s) (cm_pool s) (cm_activity s)
          (cm_last_sweep s) (cm_calls s ++ [c]).

(** The reset of a reused assembler: every field but [chunk_size]. *)
Definition reset_assembler (id : string) (a : assembler) : assembler :=
  Assembler id ∅ None 0 None ∅ (a_chunk_size a).

(** [_get_assembler] *)
Definition get_assembler (tid : string) : pm exn manager assembler := λ s,
  match cm_pool s with
  | a :: pool => (Ok (reset_assembler tid a), set_pool (λ _, pool) s)
  | [] => (Ok (new_assembler tid), s)
  end.

(** [_return_assembler] *)
Definition return_assembler (a : assembler) : pm exn manager unit :=
  let a := Assembler (a_id a) (a_received a) (a_total_chunks a) (a_total_size a) None ∅
                     (a_chunk_size a) in
  modify (set_pool (λ pool, if bool_decide (length pool < 10) then a :: pool else pool)).

(** [d.pop(tid, None)] on each dict of the manager. *)
Definition pop_error (tid : string) : pm exn manager (option Z) := λ s,
  (Ok (cm_error s !! tid), set_error (delete tid) s).
Definition pop_completed (tid : string) : pm exn manager (option Z) := λ s,
  (Ok (cm_completed s !! tid), set_completed (delete tid) s).
Definition pop_assembler (tid : string) : pm exn manager (option assembler) := λ s,
  (Ok (cm_assemblers s !! tid), set_assemblers (delete tid) s).
Definition pop_activity (tid : string) : pm exn manager unit := modify (set_activity (od_del tid)).

Section manager.
Context {M : MsgPack}.
Variable can_alloc : Z → bool.
(** the exception a callback raises, if it does; callbacks do not call the
    manager back *)
Variable callback_raises : callback_call → option exn.

Definition call_back (c : callback_call) : pm exn manager unit := λ s,
  (match callback_raises c with None => Ok tt | Some e => Raise e end, log_call c s).

(** [if cb: cb(x)] *)
Definition call_opt (cb : option Z) (call : Z → callback_call) : pm exn manager unit :=
  match cb with Some cb => call_back (call cb) | None => mret tt end.

(** [_handle_error], also the body of the sweep's loop. *)
Definition handle_error (tid : string) (e : exn) : pm exn manager unit :=
  error_callback ← pop_error tid;
  assembler ← pop_assembler tid;
  match assembler with Some a => return_assembler a | None => mret tt end ≫= λ _,
  pop_completed tid ≫= λ _,
  pop_activity tid ≫= λ _,
  call_opt error_callback (λ cb, CallError tid cb e).

(** [_sweep_stale] at clock reading [now]. *)
Definition sweep_stale (now : Z) : pm exn manager unit :=
  s ← get_state;
  if bool_decide (cm_activity s = []) then mret tt
  else if (now - cm_last_sweep s <? SWEEP_INTERVAL)%Z then mret tt
  else
    modify (set_last_sweep now) ≫= λ _,
    let cutoff := (now - STALE_TRANSFER_TTL)%Z in
    let stale := (filter (λ kv, (kv.2 < cutoff)%Z) (cm_activity s)).*1 in
    for_each stale (λ tid, handle_error tid (RuntimeError "Transfer timed out")).

(** [start_receiving]; [now] is the sweep's clock reading, [now'] the one of
    the activity stamp. *)
Definition start_receiving (now now' : Z) (tid : string) (total_chunks on_complete on_error : Z)
    (total_size chunk_size : option Z) : pm exn manager unit :=
  sweep_stale now ≫= λ _,
  a ← get_assembler tid;
  let '(r, a) := set_expected_chunks can_alloc total_chunks total_size chunk_size a in
  lift r ≫= λ _,
  modify (set_assemblers (<[tid := a]>)) ≫= λ _,
  modify (set_completed (<[tid := on_complete]>)) ≫= λ _,
  modify (set_error (<[tid := on_error]>)) ≫= λ _,
  modify (set_activity (od_set tid now')).

(** A method call on the assembler of [tid], which the dict holds. *)
Definition on_assembler {A} (tid : string) (m : pm exn assembler A) : pm exn manager A := λ s,
  match cm_assemblers s !! tid with
  | Some a => let '(r, a) := m a in (r, set_assemblers (<[tid := a]>) s)
  | None => (Raise (KeyError tid), s)
  end.

(** [chunk.get("id") or chunk.get("transferId")], when truthy *)
Definition chunk_transfer (c : chunk) : option string :=
  let nonempty := λ s, if bool_decide (s = "") then None else Some s in
  match c_id c ≫= nonempty with
  | Some s => Some s
  | None => c_transferId c ≫= nonempty
  end.

(** The normalisation of the keys of a received chunk. *)
Definition normalize_chunk (tid : string) (c : chunk) : chunk :=
  Chunk (c_id c)
        (match c_transferId c with Some t => Some t | None => Some tid end)
        (match c_index c with Some i => Some i | None => c_chunkIndex c end)
        (c_chunkIndex c) (c_data c) (c_isLast c).

(** The completion branch of [process_chunk]. *)
Definition complete_transfer (tid : string) : pm exn manager unit :=
  data ← on_assembler tid (λ a, (get_data a, a));
  callback ← pop_completed tid;
  assembler ← pop_assembler tid;
  pop_error tid ≫= λ _,
  pop_activity tid ≫= λ _,
  match assembler with Some a => return_assembler a | None => mret tt end ≫= λ _,
  call_opt callback (λ cb, CallComplete tid cb data).

(** [process_chunk] *)
Definition process_chunk (now now' : Z) (c : chunk) : pm exn manager unit :=
  sweep_stale now ≫= λ _,
  match chunk_transfer c with
  | None => mret tt
  | Some tid =>
      s ← get_state;
      match cm_assemblers s !! tid with
      | None => mret tt
      | Some _ =>
          modify (set_activity (od_set tid now')) ≫= λ _,
          try_except
            (complete ← on_assembler (A:=bool) tid (add_chunk (normalize_chunk tid c));
             if (complete : bool) then complete_transfer tid else mret tt)
            (handle_error tid)
      end
  end.

(** [cancel] *)
Definition cancel (tid : string) : pm exn manager unit :=
  handle_error tid (RuntimeError "Transfer cancelled").

(** [ChunkingManager.get_progress] *)
Definition manager_progress (s : manager) (tid : string) : option (Z * Z * (Z * Z)) :=
  assembler_progress <$> cm_assemblers s !! tid.
End manager.
