(* ===== verification/ChunkingSpec.v ===== *)
(** * Reassembly of one transfer

    What [create_chunks] produces, and that an assembler rebuilds the payload
    from its chunks whatever their order and however often each arrives, on
    the pre-allocated path and on the fallback path. *)

From S2P Require Import Prelude Text PyVal Dict Errors MsgPack Codec Chunking.

(** ** Pieces of a payload *)

(** Bytes [i * m, (i + 1) * m) of the payload, cut at its end. *)
Definition piece (encoded : list byte) (m i : Z) : list byte :=
  py_slice encoded (i * m) (Z.min (i * m + m) (zlen encoded)).

Lemma total_chunks_bounds t m :
  (0 < m)%Z → (0 < t)%Z →
  (0 < total_chunks_of t m ∧ (total_chunks_of t m - 1) * m < t ≤ total_chunks_of t m * m)%Z.
Proof.
  intros Hm Ht. unfold total_chunks_of.
  pose proof (Z.div_mod (t + m - 1) m ltac:(lia)).
  pose proof (Z.mod_pos_bound (t + m - 1) m Hm).
  assert (0 < (t + m - 1) / m)%Z by (apply Z.div_str_pos; lia). nia.
Qed.

Lemma piece_length encoded m i :
  (0 < m)%Z → (0 ≤ i)%Z → (i * m ≤ zlen encoded)%Z →
  zlen (piece encoded m i) = Z.min m (zlen encoded - i * m).
Proof. intros. unfold piece. rewrite py_slice_length by nia. lia. Qed.

Lemma piece_lookup encoded m i (k : nat) :
  (0 < m)%Z → (0 ≤ i)%Z → (i * m ≤ zlen encoded)%Z → (Z.of_nat k < m)%Z →
  piece encoded m i !! k = encoded !! (Z.to_nat (i * m) + k).
Proof.
  intros Hm Hi Ht Hk. unfold piece. rewrite py_slice_in by nia.
  destruct (decide (Z.of_nat k < Z.min (i * m + m) (zlen encoded) - i * m)%Z).
  - rewrite lookup_take_lt by lia. apply lookup_drop.
  - rewrite lookup_take_ge by lia. symmetry. apply lookup_ge_None. unfold zlen in *. lia.
Qed.

(** The first [k] pieces make up the first [k * m] bytes. *)
Lemma pieces_take encoded m (k : nat) :
  (0 < m)%Z →
  (Z.of_nat k ≤ total_chunks_of (zlen encoded) m)%Z → (0 < zlen encoded)%Z →
  mjoin (piece encoded m <$> seqZ 0 (Z.of_nat k)) = take (Z.to_nat (Z.min (Z.of_nat k * m) (zlen encoded))) encoded.
Proof.
  intros Hm Hk Ht. destruct (total_chunks_bounds (zlen encoded) m) as (Hn0 & Hn1 & Hn2); [done..|].
  induction k as [|k IH].
  { cbn. rewrite Z.min_l by lia. done. }
  replace (Z.of_nat (S k)) with (Z.of_nat k + 1)%Z in * by lia.
  rewrite seqZ_app, fmap_app, mjoin_app, IH by lia.
  cbn [seqZ]. replace (seqZ (0 + Z.of_nat k) 1) with [Z.of_nat k] by done.
  rewrite fmap_cons, mjoin_cons, app_nil_r. unfold piece.
  assert (Z.of_nat k * m ≤ zlen encoded)%Z by nia.
  rewrite (Z.min_l (Z.of_nat k * m)) by lia.
  rewrite <- py_slice_split by lia.
  do 2 f_equal. lia.
Qed.

Lemma pieces_join encoded m :
  (0 < m)%Z → (0 < zlen encoded)%Z →
  mjoin (piece encoded m <$> seqZ 0 (total_chunks_of (zlen encoded) m)) = encoded.
Proof.
  intros Hm Ht. destruct (total_chunks_bounds (zlen encoded) m) as (Hn0 & Hn1 & Hn2); [done..|].
  rewrite <- (Z2Nat.id (total_chunks_of (zlen encoded) m)) by lia.
  rewrite pieces_take, Z2Nat.id, Z.min_r by lia.
  unfold zlen. by rewrite Nat2Z.id, firstn_all.
Qed.

(** ** Reassembly *)

Section transfer.
Context {M : MsgPack}.
Variables (encoded : list byte) (id : string) (m : Z).
Hypothesis Hm : (0 < m)%Z.
Hypothesis Ht : (0 < zlen encoded)%Z.
Let n := total_chunks_of (zlen encoded) m.

(** [c] is the chunk of index [i] of this transfer. *)
Definition carries (c : chunk) (i : Z) : Prop :=
  c_transferId c = Some id ∧ c_index c = Some i ∧
  c_data c = Some (piece encoded m i) ∧ c_isLast c = false.

(** What the storage of the assembler holds of the chunks received so far. *)
Definition stored (a : assembler) : Prop :=
  match a_buffer a with
  | Some buf =>
      a_total_size a = zlen encoded ∧ length buf = length encoded ∧
      ∀ p : nat, p < length encoded → (Z.of_nat p / m)%Z ∈ a_received a → buf !! p = encoded !! p
  | None => ∀ i, i ∈ a_received a → a_temp a !! i = Some (piece encoded m i)
  end.

(** The chunk size is known, or chunk 0 determines it (a single chunk needs
    none). *)
Definition size_known (a : assembler) : Prop :=
  a_chunk_size a = Some m ∨ a_chunk_size a = None ∧ (n = 1%Z ∨ a_received a = ∅).

Record receiving (a : assembler) : Prop := {
  rv_id : a_id a = id;
  rv_total : a_total_chunks a = Some n;
  rv_range : ∀ i, i ∈ a_received a → (0 ≤ i < n)%Z;
  rv_size : size_known a;
  rv_store : stored a }.

(** The next chunk does not meet an assembler that needs chunk 0 first. *)
Definition acceptable (i : Z) (a : assembler) : Prop :=
  (0 ≤ i < n)%Z ∧ (a_chunk_size a = Some m ∨ i = 0%Z ∨ a_received a ≠ ∅).

Lemma index_in_range i : (0 ≤ i < n)%Z → (i * m < zlen encoded)%Z.
Proof.
  intros Hi. destruct (total_chunks_bounds (zlen encoded) m) as (H0 & H1 & H2); [done..|].
  fold n in H0, H1, H2. nia.
Qed.

Lemma write_chunk_lookup buf i (p : nat) :
  length buf = length encoded → (0 ≤ i < n)%Z → p < length encoded →
  write_chunk (zlen encoded) buf (i * m) (piece encoded m i) !! p
  = if decide (Z.of_nat p / m = i)%Z then encoded !! p else buf !! p.
Proof.
  intros Hl Hi Hp. pose proof (index_in_range i Hi) as Hlt.
  assert (Hpl := piece_length encoded m i Hm ltac:(lia) ltac:(lia)).
  unfold write_chunk. destruct (_ <=? _)%Z eqn:E; bool_to_prop; [|lia].
  unfold py_slice_set. assert (zlen buf = zlen encoded) as Hz by (unfold zlen; lia).
  rewrite !slice_bound_in by (rewrite Hz; nia). rewrite Z.max_r by lia.
  assert (Hlen : length (take (Z.to_nat (i * m)) buf) = Z.to_nat (i * m)).
  { rewrite length_take. unfold zlen in *. lia. }
  destruct (decide (Z.of_nat p / m = i)%Z) as [Hd|Hd].
  - pose proof (Z.div_mod (Z.of_nat p) m ltac:(lia)). pose proof (Z.mod_pos_bound (Z.of_nat p) m Hm).
    rewrite lookup_app_r by nia. rewrite Hlen.
    rewrite lookup_app_l by (unfold zlen in *; nia).
    rewrite piece_lookup by nia. f_equal. nia.
  - destruct (decide (Z.of_nat p < i * m)%Z).
    + rewrite lookup_app_l by lia. apply lookup_take_lt. lia.
    + assert (i * m + m ≤ Z.of_nat p)%Z.
      { pose proof (Z.div_mod (Z.of_nat p) m ltac:(lia)).
        pose proof (Z.mod_pos_bound (Z.of_nat p) m Hm). nia. }
      rewrite lookup_app_r by lia. rewrite Hlen.
      unfold zlen in *. rewrite lookup_app_r by lia. rewrite lookup_drop. f_equal. lia.
Qed.

Lemma write_chunk_length buf i :
  length buf = length encoded → (0 ≤ i < n)%Z →
  length (write_chunk (zlen encoded) buf (i * m) (piece encoded m i)) = length encoded.
Proof.
  intros Hl Hi. pose proof (index_in_range i Hi) as Hlt.
  assert (Hpl := piece_length encoded m i Hm ltac:(lia) ltac:(lia)).
  unfold write_chunk. destruct (_ <=? _)%Z eqn:E; bool_to_prop; [|lia].
  unfold py_slice_set. assert (zlen buf = zlen encoded) as Hz by (unfold zlen; lia).
  rewrite !slice_bound_in by (rewrite Hz; nia). rewrite Z.max_r by lia.
  rewrite !length_app, length_take, length_drop. unfold zlen in *. nia.
Qed.

(** The offset [add_chunk] computes is the chunk's place in the payload. *)
Lemma effective_offset a i :
  receiving a → acceptable i a →
  let size := zlen (piece encoded m i) in
  let cs := match a_chunk_size a, a_total_chunks a with
            | None, Some n =>
                if (i =? 0)%Z && negb (n =? 0)%Z && (n >? 1)%Z then Some size else None
            | cs, _ => cs
            end in
  (i * (if int_truthy cs then default 0 cs else size) = i * m)%Z ∧
  (cs = Some m ∨ cs = None ∧ n = 1%Z).
Proof.
  intros [_ Htot _ Hs _] [Hi Ha]. cbv zeta. rewrite Htot.
  pose proof (index_in_range i Hi).
  assert (Hm0 : int_truthy (Some m) = true) by (cbn; rewrite (proj2 (Z.eqb_neq _ _)); [done|lia]).
  destruct Hs as [->|[Hn Hs]].
  { rewrite Hm0. cbn [default]. auto. }
  rewrite Hn in *. assert (i = 0%Z) as ->.
  { destruct Ha as [?|[?|?]]; [done|done|]. destruct Hs; [lia|done]. }
  split; [done|]. rewrite Z.eqb_refl. destruct (decide (n = 1%Z)) as [->|Hn1]; [by right|].
  left. rewrite (proj2 (Z.eqb_neq n 0)) by lia.
  rewrite Z.gtb_ltb, (proj2 (Z.ltb_lt 1 n)) by lia. cbn. f_equal.
  pose proof (index_in_range 1 ltac:(lia)).
  rewrite piece_length by lia. lia.
Qed.

Lemma add_chunk_step c i a :
  receiving a → acceptable i a → carries c i →
  ∃ a', add_chunk c a = (Ok (is_complete a'), a') ∧ receiving a' ∧
        a_received a' = {[i]} ∪ a_received a ∧ (a_chunk_size a = Some m → a_chunk_size a' = Some m).
Proof.
  intros R A (Hc1 & Hc2 & Hc3 & Hc4). pose proof (effective_offset a i R A) as [Ho Hcs].
  destruct R as [Rid Rtot Rr Rs Rst]. destruct A as [Hi A].
  unfold add_chunk. rewrite Hc1, Hc2, Hc3, Hc4. cbn [chunk_key].
  rewrite bool_decide_eq_true_2 by done. cbn [negb].
  set (cs := match a_chunk_size a with None => _ | _ => _ end) in *.
  rewrite Ho. unfold stored in Rst. destruct (a_buffer a) as [buf|] eqn:Eb.
  - destruct Rst as (Rts & Rl & Rp). rewrite Rts.
    eexists. split; [reflexivity|]. split; [|split; [done|]].
    + split; [done|done| |destruct Hcs as [->|[-> ?]]; [by left|by right; auto]|].
      * intros j. cbn. rewrite elem_of_union, elem_of_singleton. intros [->|]; auto.
      * cbn. split; [done|]. split; [by apply write_chunk_length|].
        intros p Hp Hin. rewrite write_chunk_lookup by done.
        case_decide; [done|]. apply Rp; [done|].
        apply elem_of_union in Hin as [Hin%elem_of_singleton|Hin]; [congruence|done].
    + intros E. subst cs. cbn. by rewrite E.
  - eexists. split; [reflexivity|]. split; [|split; [done|]].
    + split; [done|done| |destruct Hcs as [->|[-> ?]]; [by left|by right; auto]|].
      * intros j. cbn. rewrite elem_of_union, elem_of_singleton. intros [->|]; auto.
      * cbn. intros j Hj. destruct (decide (i = j)) as [->|Hij]; [apply lookup_insert_eq|].
        rewrite lookup_insert_ne by done. apply Rst.
        apply elem_of_union in Hj as [Hj%elem_of_singleton|Hj]; [congruence|done].
    + intros E. subst cs. cbn. by rewrite E.
Qed.

(** All chunks are in: the storage is the payload. *)
Lemma received_all a i :
  receiving a → is_complete a = true → (0 ≤ i < n)%Z → i ∈ a_received a.
Proof.
  intros [_ Rtot Rr _ _] Hc Hi. unfold is_complete in Hc. rewrite Rtot in Hc. bool_to_prop.
  assert (Hn : (0 < n)%Z) by (apply total_chunks_bounds; done).
  assert (E : a_received a ≡ list_to_set (C:=gset Z) (seqZ 0 n)).
  { apply set_subseteq_size_equiv.
    - intros j Hj%Rr. apply elem_of_list_to_set, elem_of_seqZ. lia.
    - rewrite size_list_to_set by apply NoDup_seqZ. rewrite length_seqZ. lia. }
  rewrite E. apply elem_of_list_to_set, elem_of_seqZ. lia.
Qed.

Lemma complete_iff a :
  receiving a → is_complete a = true ↔ ∀ i, (0 ≤ i < n)%Z → i ∈ a_received a.
Proof.
  intros R. split; [intros Hc i; by apply received_all|]. intros Hall. destruct R as [_ Rtot Rr _ _].
  assert (Hn : (0 < n)%Z) by (apply total_chunks_bounds; done).
  assert (E : a_received a ≡ list_to_set (C:=gset Z) (seqZ 0 n)).
  { intros j. rewrite elem_of_list_to_set, elem_of_seqZ. split; [intros Hj%Rr; lia|].
    intros Hj. apply Hall. lia. }
  unfold is_complete. rewrite Rtot, E, size_list_to_set by apply NoDup_seqZ.
  rewrite length_seqZ. apply Z.eqb_eq. lia.
Qed.

Lemma copy_chunks_prefix (ds : list (list byte)) done_ (k : nat) :
  k = length (mjoin ds) →
  foldl copy_chunk (done_ ++ replicate k Byte.x00, zlen done_) ds
  = (done_ ++ mjoin ds, (zlen done_ + zlen (mjoin ds))%Z).
Proof.
  revert done_ k. induction ds as [|d ds IH]; intros done_ k Hk; cbn [foldl].
  { cbn in Hk. subst k. change (mjoin []) with (@nil byte). rewrite zlen_nil. cbn. f_equal. lia. }
  rewrite mjoin_cons, length_app in Hk. subst k. rewrite replicate_add.
  rewrite app_assoc. unfold copy_chunk at 2. unfold py_slice_set.
  pose proof (zlen_nonneg done_). pose proof (zlen_nonneg d).
  rewrite !slice_bound_in by (rewrite ?zlen_app; unfold zlen; rewrite ?length_replicate; lia).
  rewrite Z.max_r by lia.
  replace (take _ _) with done_.
  2:{ unfold zlen. rewrite Nat2Z.id, <- app_assoc. by rewrite take_app_length. }
  replace (drop _ _) with (replicate (length (mjoin ds)) Byte.x00).
  2:{ replace (Z.to_nat (zlen done_ + zlen d)) with
        (length (done_ ++ replicate (length d) Byte.x00))
        by (rewrite length_app, length_replicate; unfold zlen; lia).
      by rewrite drop_app_length. }
  rewrite app_assoc. rewrite <- zlen_app. rewrite IH by done.
  rewrite mjoin_cons, !zlen_app, app_assoc. f_equal. lia.
Qed.

Lemma sum_lengths (ds : list (list byte)) : foldr Z.add 0%Z (zlen <$> ds) = zlen (mjoin ds).
Proof.
  induction ds as [|d ds IH]; [done|]. rewrite fmap_cons, mjoin_cons, zlen_app. cbn [foldr].
  by rewrite IH.
Qed.

Lemma get_data_complete a :
  receiving a → is_complete a = true → get_data a = decode_message encoded.
Proof.
  intros R Hc. pose proof (λ i, received_all a i R Hc) as Hall. destruct R as [_ Rtot _ _ Rst].
  unfold get_data. rewrite Hc. cbn [negb]. unfold stored in Rst.
  destruct (a_buffer a) as [buf|] eqn:Eb.
  - destruct Rst as (_ & Rl & Rp). f_equal. apply list_eq. intros p.
    destruct (decide (p < length encoded)) as [Hp|Hp].
    + apply Rp; [done|]. apply Hall.
      destruct (total_chunks_bounds (zlen encoded) m) as (H0 & H1 & H2); [done..|].
      fold n in H0, H1, H2. unfold zlen in *.
      split; [apply Z.div_pos; lia|]. apply Z.div_lt_upper_bound; lia.
    + rewrite !(proj2 (lookup_ge_None _ _)) by lia. done.
  - rewrite Rtot. change (default 0%Z (Some n)) with n.
    rewrite (proj2 (mapM_result_ok (temp_chunk a) (seqZ 0 n) (piece encoded m <$> seqZ 0 n))).
    + cbn [mbind result_bind]. rewrite sum_lengths.
      unfold n at 1. rewrite pieces_join by done.
      pose proof (copy_chunks_prefix (piece encoded m <$> seqZ 0 n) [] (Z.to_nat (zlen encoded))) as E.
      cbn [app] in E. change (zlen []) with 0%Z in E. rewrite E; [|unfold n; rewrite pieces_join by done; unfold zlen; lia].
      unfold n. by rewrite pieces_join.
    + apply Forall2_fmap_r, Forall_Forall2_diag, Forall_forall. intros i Hi.
      apply elem_of_seqZ in Hi. unfold temp_chunk. rewrite Rst; [done|]. apply Hall. lia.
Qed.

(** An assembler as the manager prepares it. *)
Lemma fresh_receiving can_alloc total csize :
  (total = None ∨ total = Some (zlen encoded)) → (zlen encoded < 2 ^ 63)%Z →
  (csize = Some m ∨ csize = None) →
  ∃ a, set_expected_chunks can_alloc n total csize (new_assembler id) = (Ok tt, a) ∧
       receiving a ∧ a_received a = ∅ ∧ a_chunk_size a = csize.
Proof.
  intros Htot H63 Hcs.
  assert (Hsz : (match csize with Some _ => csize | None => None end) = csize) by by destruct csize.
  unfold set_expected_chunks. cbn [a_chunk_size new_assembler]. rewrite Hsz.
  assert (Hk : ∀ a, a_chunk_size a = csize → a_received a = ∅ → size_known a).
  { intros a E1 E2. unfold size_known. rewrite E1, E2. destruct Hcs as [->| ->]; auto. }
  destruct Htot as [->| ->]; [|destruct (_ >? _)%Z eqn:E0].
  - eexists. split; [reflexivity|]. split; [|done]. split; try done; auto.
  - rewrite Z.geb_leb, (proj2 (Z.leb_gt _ _)) by lia. destruct (can_alloc _).
    + eexists. split; [reflexivity|]. split; [|done].
      split; try done; auto. cbn. split; [done|]. split; [|done].
      rewrite length_replicate. unfold zlen. lia.
    + eexists. split; [reflexivity|]. split; [|done]. split; try done; auto.
  - rewrite Z.gtb_ltb in E0. bool_to_prop. lia.
Qed.
End transfer.
