(* ===== verification/ChunkingManager.v ===== *)
(** * Concurrent transfers

    The [ChunkingManager] as a machine that runs operations: its
    well-formedness invariant, isolation of transfers from each other, the
    stale sweep, and the delivery of each transfer exactly once. *)

From S2P Require Import Prelude Text PyVal Dict Errors MsgPack Codec Chunking ChunkingSpec.

Definition call_tid (c : callback_call) : string :=
  match c with CallComplete tid _ _ | CallError tid _ _ => tid end.

(** The calls made for one transfer. *)
Definition calls_of (tid : string) (s : manager) : list callback_call :=
  filter (λ c, call_tid c = tid) (cm_calls s).

(** An emptied assembler, as the pool holds them. *)
Definition emptied (a : assembler) : assembler :=
  Assembler (a_id a) (a_received a) (a_total_chunks a) (a_total_size a) None ∅ (a_chunk_size a).
Definition is_emptied (a : assembler) : Prop := a_buffer a = None ∧ a_temp a = ∅.

(** The four dicts agree on which transfers are in progress, each assembler
    carries the id it is filed under, and the pool holds at most ten
    assemblers without payload memory. *)
Record manager_wf (s : manager) : Prop := {
  wf_completed : ∀ tid, is_Some (cm_completed s !! tid) ↔ is_Some (cm_assemblers s !! tid);
  wf_error : ∀ tid, is_Some (cm_error s !! tid) ↔ is_Some (cm_assemblers s !! tid);
  wf_activity : ∀ tid, is_Some (od_get tid (cm_activity s)) ↔ is_Some (cm_assemblers s !! tid);
  wf_keys : od_wf (cm_activity s);
  wf_id : ∀ tid a, cm_assemblers s !! tid = Some a → a_id a = tid;
  wf_pool : length (cm_pool s) ≤ 10;
  wf_emptied : Forall is_emptied (cm_pool s) }.

(** ** What the operations do, as state updates *)

Definition return_to_pool (a : option assembler) (pool : list assembler) : list assembler :=
  match a with
  | Some a => if bool_decide (length pool < 10) then emptied a :: pool else pool
  | None => pool
  end.

(** Every trace of a transfer gone; its assembler returned. *)
Definition forget (tid : string) (s : manager) : manager :=
  Manager (delete tid (cm_assemblers s)) (delete tid (cm_completed s)) (delete tid (cm_error s))
          (return_to_pool (cm_assemblers s !! tid) (cm_pool s))
          (od_del tid (cm_activity s)) (cm_last_sweep s) (cm_calls s).

Section manager.
Context {M : MsgPack}.
Variable can_alloc : Z → bool.
Variable callback_raises : callback_call → option exn.

Definition outcome (c : callback_call) : result exn unit :=
  match callback_raises c with None => Ok tt | Some e => Raise e end.

Lemma handle_error_eq tid e s :
  handle_error callback_raises tid e s =
    match cm_error s !! tid with
    | Some cb => (outcome (CallError tid cb e), log_call (CallError tid cb e) (forget tid s))
    | None => (Ok tt, forget tid s)
    end.
Proof.
  unfold handle_error, forget. destruct s as [asm comp err pool act sw calls].
  do 2 (rewrite pm_bind_eq; cbn).
  destruct (asm !! tid) as [a|]; do 3 (rewrite pm_bind_eq; cbn).
  all: destruct (err !! tid); reflexivity.
Qed.

Lemma set_assemblers_id tid a s :
  cm_assemblers s !! tid = Some a → set_assemblers <[tid := a]> s = s.
Proof. intros Ha. destruct s. unfold set_assemblers. cbn in *. by rewrite insert_id. Qed.

Lemma complete_transfer_eq tid s a :
  cm_assemblers s !! tid = Some a →
  complete_transfer callback_raises tid s =
    match get_data a with
    | Raise e => (Raise e, s)
    | Ok data =>
        match cm_completed s !! tid with
        | Some cb => (outcome (CallComplete tid cb data),
                      log_call (CallComplete tid cb data) (forget tid s))
        | None => (Ok tt, forget tid s)
        end
    end.
Proof.
  intros Ha. unfold complete_transfer. rewrite pm_bind_eq. unfold on_assembler at 1.
  rewrite Ha, set_assemblers_id by done. destruct (get_data a) as [data|e]; [|done].
  destruct s as [asm comp err pool act sw calls]. cbn in Ha.
  unfold forget. do 2 (rewrite pm_bind_eq; cbn). rewrite Ha.
  do 3 (rewrite pm_bind_eq; cbn). destruct (comp !! tid); reflexivity.
Qed.

(** ** The invariant *)

Lemma wf_new : manager_wf new_manager.
Proof.
  split; cbn; try (intros tid; rewrite !lookup_empty; done); try done; try constructor; lia.
Qed.

Lemma wf_log c s : manager_wf s → manager_wf (log_call c s).
Proof. intros [? ? ? ? ? ? ?]. by split. Qed.

Lemma return_to_pool_ok a pool :
  length pool ≤ 10 → Forall is_emptied pool →
  length (return_to_pool a pool) ≤ 10 ∧ Forall is_emptied (return_to_pool a pool).
Proof.
  intros Hl Hp. unfold return_to_pool. destruct a as [a|]; [|done].
  case_bool_decide; [|done]. cbn. split; [lia|]. by constructor.
Qed.

Lemma wf_forget tid s : manager_wf s → manager_wf (forget tid s).
Proof.
  intros [H1 H2 H3 H4 H5 H6 H7]. destruct (return_to_pool_ok (cm_assemblers s !! tid) _ H6 H7).
  split; cbn; try done; try (intros tid'; destruct (decide (tid = tid')) as [<-|Hne];
    [rewrite ?lookup_delete_eq, ?od_get_del; done
    |rewrite ?lookup_delete_ne, ?od_get_del_ne by done; auto]).
  by apply od_wf_del.
Qed.

Lemma keeps_wf_handle_error tid e : keeps manager_wf (handle_error callback_raises tid e).
Proof.
  intros s Hs. rewrite handle_error_eq.
  destruct (cm_error s !! tid); cbn; auto using wf_forget, wf_log.
Qed.

Lemma keeps_wf_sweep now : keeps manager_wf (sweep_stale callback_raises now).
Proof.
  unfold sweep_stale. apply keeps_bind; [by intros s|]. intros s.
  destruct (bool_decide _); [apply keeps_ret|]. destruct (_ <? _)%Z; [apply keeps_ret|].
  apply keeps_bind; [apply keeps_modify; intros ? [? ? ? ? ? ? ?]; by split|]. intros _.
  apply keeps_for_each. intros tid _. apply keeps_wf_handle_error.
Qed.

(** The state of a started transfer. *)
Definition begin (tid : string) (a : assembler) (cb err now : Z) (s : manager) : manager :=
  Manager (<[tid := a]> (cm_assemblers s)) (<[tid := cb]> (cm_completed s))
          (<[tid := err]> (cm_error s)) (cm_pool s) (od_set tid now (cm_activity s))
          (cm_last_sweep s) (cm_calls s).

Lemma is_Some_insert_iff {A B} (m1 : gmap string A) (m2 : gmap string B) i x y j :
  (is_Some (m1 !! j) ↔ is_Some (m2 !! j)) →
  is_Some (<[i := x]> m1 !! j) ↔ is_Some (<[i := y]> m2 !! j).
Proof.
  intros H. destruct (decide (i = j)) as [<-|]; [rewrite !lookup_insert_eq; by split; eauto|].
  by rewrite !lookup_insert_ne.
Qed.

Lemma is_Some_od_set {A B} (d : list (string * A)) (m : gmap string B) i x y j :
  (is_Some (od_get j d) ↔ is_Some (m !! j)) →
  is_Some (od_get j (od_set i x d)) ↔ is_Some (<[i := y]> m !! j).
Proof.
  intros H. destruct (decide (i = j)) as [<-|].
  - rewrite od_get_set, lookup_insert_eq. by split; eauto.
  - by rewrite od_get_set_ne, lookup_insert_ne.
Qed.

Lemma wf_begin tid a cb err now s :
  a_id a = tid → manager_wf s → manager_wf (begin tid a cb err now s).
Proof.
  intros Ha [H1 H2 H3 H4 H5 H6 H7]. split; cbn; try done.
  - intros j. by apply is_Some_insert_iff.
  - intros j. by apply is_Some_insert_iff.
  - intros j. by apply is_Some_od_set.
  - by apply od_wf_set.
  - intros j b. rewrite lookup_insert_Some. intros [[<- <-]|[_ H]]; auto.
Qed.

(** The manager after [_get_assembler]. *)
Definition taken (s : manager) : manager := set_pool (λ pool, tail pool) s.
Definition next_assembler (tid : string) (s : manager) : assembler :=
  match cm_pool s with a :: _ => reset_assembler tid a | [] => new_assembler tid end.

Lemma wf_taken s : manager_wf s → manager_wf (taken s).
Proof.
  intros [? ? ? ? ? H6 H7]. split; try done; cbn; destruct (cm_pool s); cbn in *; try done; try lia.
  by apply Forall_cons in H7 as [_ ?].
Qed.

Lemma get_assembler_eq tid s : get_assembler tid s = (Ok (next_assembler tid s), taken s).
Proof.
  unfold get_assembler, next_assembler, taken. destruct s as [? ? ? pool ? ? ?].
  by destruct pool as [|a pool].
Qed.

Lemma start_after_sweep now now' tid n cb err total csize s :
  start_receiving can_alloc callback_raises now now' tid n cb err total csize s =
    match sweep_stale callback_raises now s with
    | (Raise e, s) => (Raise e, s)
    | (Ok _, s) =>
        match set_expected_chunks can_alloc n total csize (next_assembler tid s) with
        | (Raise e, _) => (Raise e, taken s)
        | (Ok _, a) => (Ok tt, begin tid a cb err now' (taken s))
        end
    end.
Proof.
  unfold start_receiving. rewrite pm_bind_eq.
  destruct (sweep_stale callback_raises now s) as [[[]|e] s1]; [|done].
  rewrite pm_bind_eq, get_assembler_eq.
  by destruct (set_expected_chunks _ _ _ _ _) as [[[]|e] a].
Qed.

Lemma set_expected_id n total csize a r a' :
  set_expected_chunks can_alloc n total csize a = (r, a') → a_id a' = a_id a.
Proof.
  unfold set_expected_chunks. destruct total as [t|]; [|by intros [= _ <-]].
  destruct (t >? 0)%Z; [|by intros [= _ <-]].
  destruct (t >=? _)%Z; [by intros [= _ <-]|]. destruct (can_alloc t); by intros [= _ <-].
Qed.

Lemma next_assembler_id tid s : a_id (next_assembler tid s) = tid.
Proof. unfold next_assembler. by destruct (cm_pool s). Qed.

Lemma add_chunk_id c a : a_id (add_chunk c a).2 = a_id a.
Proof.
  unfold add_chunk. destruct (chunk_key _ (c_transferId c)); [|done].
  destruct (negb _); [done|]. destruct (chunk_key _ (c_index c)); [|done].
  destruct (chunk_key _ (c_data c)); [|done]. cbv zeta. by destruct (a_buffer a).
Qed.

(** [process_chunk] past the sweep, for a transfer in progress. *)
Definition deliver (tid : string) (now' : Z) (c : chunk) (a : assembler) : pm exn manager unit := λ s,
  let '(r, a') := add_chunk (normalize_chunk tid c) a in
  let s := set_assemblers <[tid := a']> (set_activity (od_set tid now') s) in
  match r with
  | Raise e => handle_error callback_raises tid e s
  | Ok false => (Ok tt, s)
  | Ok true =>
      match get_data a' with
      | Raise e => handle_error callback_raises tid e s
      | Ok data =>
          match cm_completed s !! tid with
          | None => (Ok tt, forget tid s)
          | Some cb =>
              let s := log_call (CallComplete tid cb data) (forget tid s) in
              match outcome (CallComplete tid cb data) with
              | Ok _ => (Ok tt, s)
              | Raise e => handle_error callback_raises tid e s
              end
          end
      end
  end.

Lemma process_chunk_eq now now' c s :
  process_chunk callback_raises now now' c s =
    match sweep_stale callback_raises now s with
    | (Raise e, s) => (Raise e, s)
    | (Ok _, s) =>
        match chunk_transfer c with
        | None => (Ok tt, s)
        | Some tid =>
            match cm_assemblers s !! tid with
            | None => (Ok tt, s)
            | Some a => deliver tid now' c a s
            end
        end
    end.
Proof.
  unfold process_chunk. rewrite pm_bind_eq.
  destruct (sweep_stale callback_raises now s) as [[[]|e] s1]; [|done].
  destruct (chunk_transfer c) as [tid|]; [|done].
  rewrite pm_bind_eq. cbn [get_state].
  destruct (cm_assemblers s1 !! tid) as [a|] eqn:Ea; [|done].
  rewrite pm_bind_eq. cbn [modify]. unfold try_except, deliver. rewrite pm_bind_eq.
  unfold on_assembler at 1. replace (cm_assemblers (set_activity _ s1) !! tid) with (Some a) by done.
  destruct (add_chunk _ a) as [[[]|e] a']; [|done..].
  set (s2 := set_assemblers _ _).
  assert (Ha : cm_assemblers s2 !! tid = Some a') by apply lookup_insert_eq.
  rewrite (complete_transfer_eq tid s2 a' Ha). destruct (get_data a') as [data|e]; [|done].
  destruct (cm_completed s2 !! tid) as [cb|]; [|done].
  by destruct (outcome _) as [[]|].
Qed.

Lemma wf_store tid a now s :
  manager_wf s → is_Some (cm_assemblers s !! tid) → a_id a = tid →
  manager_wf (set_assemblers <[tid := a]> (set_activity (od_set tid now) s)).
Proof.
  intros [H1 H2 H3 H4 H5 H6 H7] Hs Ha. split; cbn; try done.
  - intros j. destruct (decide (tid = j)) as [<-|]; [rewrite lookup_insert_eq|by rewrite lookup_insert_ne].
    rewrite H1. by split; eauto.
  - intros j. destruct (decide (tid = j)) as [<-|]; [rewrite lookup_insert_eq|by rewrite lookup_insert_ne].
    rewrite H2. by split; eauto.
  - intros j. by apply is_Some_od_set.
  - by apply od_wf_set.
  - intros j b. rewrite lookup_insert_Some. intros [[<- <-]|[_ H]]; auto.
Qed.

Lemma keeps_wf_deliver tid now' c s a :
  manager_wf s → cm_assemblers s !! tid = Some a → manager_wf (deliver tid now' c a s).2.
Proof.
  intros Hs Ha. unfold deliver. pose proof (add_chunk_id (normalize_chunk tid c) a) as Hid.
  rewrite (wf_id s Hs tid a Ha) in Hid. destruct (add_chunk _ a) as [r a']. cbn in Hid.
  assert (H2 := wf_store tid a' now' s Hs ltac:(rewrite Ha; eauto) Hid).
  set (s2 := set_assemblers _ _) in *. clearbody s2.
  destruct r as [[]|e]; [|exact H2|by apply keeps_wf_handle_error].
  destruct (get_data a') as [data|e]; [|by apply keeps_wf_handle_error].
  destruct (cm_completed s2 !! tid) as [cb|]; [|by apply wf_forget].
  destruct (outcome _) as [[]|e]; [by apply wf_log, wf_forget|].
  by apply keeps_wf_handle_error, wf_log, wf_forget.
Qed.

Lemma keeps_wf_process now now' c : keeps manager_wf (process_chunk callback_raises now now' c).
Proof.
  intros s Hs. rewrite process_chunk_eq. pose proof (keeps_wf_sweep now s Hs) as H1.
  destruct (sweep_stale callback_raises now s) as [[[]|e] s1]; [|exact H1].
  destruct (chunk_transfer c) as [tid|]; [|exact H1].
  destruct (cm_assemblers s1 !! tid) as [a|] eqn:Ea; [|exact H1].
  by apply keeps_wf_deliver.
Qed.

Lemma keeps_wf_start now now' tid n cb err total csize :
  keeps manager_wf (start_receiving can_alloc callback_raises now now' tid n cb err total csize).
Proof.
  intros s Hs. rewrite start_after_sweep. pose proof (keeps_wf_sweep now s Hs) as H1.
  destruct (sweep_stale callback_raises now s) as [[[]|e] s1]; [|exact H1].
  pose proof (next_assembler_id tid s1) as Hid. cbn in H1.
  destruct (set_expected_chunks _ _ _ _ _) as [[[]|e] a] eqn:Ea; cbn; [|by apply wf_taken].
  apply wf_begin; [|by apply wf_taken]. apply set_expected_id in Ea. congruence.
Qed.

(** ** Operations and runs *)

Inductive operation :=
| OpStart (now now' : Z) (tid : string) (total_chunks on_complete on_error : Z)
    (total_size chunk_size : option Z)
| OpChunk (now now' : Z) (c : chunk)
| OpCancel (tid : string).

Definition exec (o : operation) : pm exn manager unit :=
  match o with
  | OpStart now now' tid n cb err total csize =>
      start_receiving can_alloc callback_raises now now' tid n cb err total csize
  | OpChunk now now' c => process_chunk callback_raises now now' c
  | OpCancel tid => cancel callback_raises tid
  end.

(** Each operation's exception goes to its caller; the next one runs on the
    state it left. *)
Fixpoint run (ops : list operation) (s : manager) : manager :=
  match ops with [] => s | o :: ops => run ops (exec o s).2 end.

Lemma keeps_wf_exec o : keeps manager_wf (exec o).
Proof.
  destruct o; [apply keeps_wf_start|apply keeps_wf_process|apply keeps_wf_handle_error].
Qed.

Lemma keeps_run P ops s : (∀ o, o ∈ ops → keeps P (exec o)) → P s → P (run ops s).
Proof.
  revert s. induction ops as [|o ops IH]; intros s Hk Hs; [done|]. cbn. apply IH.
  - intros o' Ho. by apply Hk, list_elem_of_further.
  - apply Hk; [apply list_elem_of_here|done].
Qed.

(** ** Isolation

    What the manager holds of one transfer, and the calls made for it. *)
Definition snapshot (tid : string) (s : manager) :=
  (cm_assemblers s !! tid, cm_completed s !! tid, cm_error s !! tid,
   od_get tid (cm_activity s), calls_of tid s).

Definition holds tid v (s : manager) : Prop := manager_wf s ∧ snapshot tid s = v.

Lemma calls_of_log tid c s :
  calls_of tid (log_call c s) = calls_of tid s ++ (if decide (call_tid c = tid) then [c] else []).
Proof.
  unfold calls_of. cbn. rewrite filter_app, filter_cons, filter_nil.
  by destruct (decide (call_tid c = tid)).
Qed.

Lemma snapshot_forget_ne tid tid' s : tid' ≠ tid → snapshot tid (forget tid' s) = snapshot tid s.
Proof.
  intros. unfold snapshot, calls_of. cbn. by rewrite !lookup_delete_ne, od_get_del_ne.
Qed.

Lemma snapshot_forget tid s : snapshot tid (forget tid s) = (None, None, None, None, calls_of tid s).
Proof. unfold snapshot, calls_of. cbn. by rewrite !lookup_delete_eq, od_get_del. Qed.

Lemma snapshot_log_ne tid c s : call_tid c ≠ tid → snapshot tid (log_call c s) = snapshot tid s.
Proof.
  intros. unfold snapshot. rewrite calls_of_log. rewrite decide_False by done. by rewrite app_nil_r.
Qed.

Lemma absent_alike {A B} {x : option A} {y : option B} :
  (is_Some x ↔ is_Some y) → y = None → x = None.
Proof. intros H ->. destruct x; [|done]. by destruct (proj1 H ltac:(eauto)). Qed.

Lemma snapshot_absent tid s :
  manager_wf s → cm_assemblers s !! tid = None →
  snapshot tid s = (None, None, None, None, calls_of tid s).
Proof.
  intros [H1 H2 H3 _ _ _ _] Ha. unfold snapshot.
  by rewrite Ha, (absent_alike (H1 tid) Ha), (absent_alike (H2 tid) Ha), (absent_alike (H3 tid) Ha).
Qed.

(** Dropping another transfer, or one that is not there, changes nothing. *)
Lemma holds_handle_error tid v tid' e :
  tid' ≠ tid ∨ v.1.1.1.1 = None →
  keeps (holds tid v) (handle_error callback_raises tid' e).
Proof.
  intros Hne s [Hwf Hv]. split; [by apply keeps_wf_handle_error|].
  destruct (decide (tid' = tid)) as [->|Hd].
  - destruct Hne as [?|Hn]; [done|]. subst v. cbn in Hn.
    rewrite (snapshot_absent tid s) by done. pose proof (snapshot_absent tid s Hwf Hn) as Hs.
    rewrite handle_error_eq. injection Hs as _ _ -> _. cbn. apply snapshot_forget.
  - rewrite handle_error_eq. subst v. destruct (cm_error s !! tid'); cbn.
    + rewrite snapshot_log_ne by done. by apply snapshot_forget_ne.
    + by apply snapshot_forget_ne.
Qed.

(** A sweep spares a transfer active within the last thirty seconds. *)
Definition spared (now : Z) (last : option Z) : Prop :=
  match last with None => True | Some t => (now - STALE_TRANSFER_TTL ≤ t)%Z end.

Lemma holds_sweep tid v now :
  spared now v.1.2 → keeps (holds tid v) (sweep_stale callback_raises now).
Proof.
  intros Hsp s [Hwf Hv]. unfold sweep_stale. rewrite pm_bind_eq. cbn [get_state].
  destruct (bool_decide _); [done|]. destruct (_ <? _)%Z; [done|].
  rewrite pm_bind_eq. cbn [modify].
  apply keeps_for_each; [|by split; [destruct Hwf; by split|]].
  intros tid' Hin. apply holds_handle_error. left. intros ->.
  apply list_elem_of_fmap in Hin as ([tid' t] & -> & Hin).
  apply list_elem_of_filter in Hin as [Ht Hin]. cbn in *.
  apply od_in_get in Hin; [|apply Hwf].
  subst v. cbn in Hsp. rewrite Hin in Hsp. cbn in Hsp. lia.
Qed.

Lemma snapshot_store_ne tid tid' a now s :
  tid' ≠ tid →
  snapshot tid (set_assemblers <[tid' := a]> (set_activity (od_set tid' now) s)) = snapshot tid s.
Proof.
  intros. unfold snapshot, calls_of. cbn. by rewrite lookup_insert_ne, od_get_set_ne.
Qed.

Lemma holds_deliver tid v tid' now' c a s :
  tid' ≠ tid → cm_assemblers s !! tid' = Some a →
  holds tid v s → holds tid v (deliver tid' now' c a s).2.
Proof.
  intros Hne Ha [Hwf Hv]. split; [by apply keeps_wf_deliver|]. unfold deliver.
  pose proof (add_chunk_id (normalize_chunk tid' c) a) as Hid.
  rewrite (wf_id s Hwf tid' a Ha) in Hid. destruct (add_chunk _ a) as [r a']. cbn in Hid.
  assert (H2 := wf_store tid' a' now' s Hwf ltac:(rewrite Ha; eauto) Hid).
  pose proof (snapshot_store_ne tid tid' a' now' s Hne) as Hs.
  set (s2 := set_assemblers _ _) in *. clearbody s2. rewrite Hv in Hs.
  assert (Hh : ∀ e s, holds tid v s → snapshot tid (handle_error callback_raises tid' e s).2 = v).
  { intros e s' Hs'. apply (holds_handle_error tid v tid' e); auto. }
  destruct r as [[]|e]; [|exact Hs|by apply Hh].
  destruct (get_data a') as [data|e]; [|by apply Hh].
  destruct (cm_completed s2 !! tid') as [cb|]; [|by cbn; rewrite snapshot_forget_ne].
  assert (Hl : snapshot tid (log_call (CallComplete tid' cb data) (forget tid' s2)) = v)
    by (rewrite snapshot_log_ne, snapshot_forget_ne; done).
  destruct (outcome _) as [[]|e]; [exact Hl|]. apply Hh. split; [|done]. by apply wf_log, wf_forget.
Qed.

(** The transfer an operation is about. *)
Definition op_tid (o : operation) : option string :=
  match o with
  | OpStart _ _ tid _ _ _ _ _ => Some tid
  | OpChunk _ _ c => chunk_transfer c
  | OpCancel tid => Some tid
  end.
(** The clock reading of an operation's sweep. *)
Definition op_sweep (o : operation) : option Z :=
  match o with
  | OpStart now _ _ _ _ _ _ _ => Some now
  | OpChunk now _ _ => Some now
  | OpCancel _ => None
  end.
Definition is_start (o : operation) : bool :=
  match o with OpStart _ _ _ _ _ _ _ _ => true | _ => false end.

Definition spared_by (o : operation) (last : option Z) : Prop :=
  match op_sweep o with Some now => spared now last | None => True end.

Lemma holds_exec tid v o :
  spared_by o v.1.2 → op_tid o ≠ Some tid ∨ (v.1.1.1.1 = None ∧ is_start o = false) →
  keeps (holds tid v) (exec o).
Proof.
  intros Hsp Ho s Hs. destruct o as [now now' tid' n cb err total csize|now now' c|tid']; cbn in *.
  - assert (Hne : tid' ≠ tid) by (destruct Ho as [?|[_ ?]]; congruence).
    rewrite start_after_sweep. pose proof (holds_sweep tid v now Hsp s Hs) as H1.
    destruct (sweep_stale callback_raises now s) as [[[]|e] s1]; [|exact H1]. cbn in H1.
    pose proof (next_assembler_id tid' s1) as Hid. destruct H1 as [Hw1 Hv1].
    destruct (set_expected_chunks _ _ _ _ _) as [[[]|e] a] eqn:Ea; cbn.
    + apply set_expected_id in Ea. rewrite Hid in Ea.
      split; [apply wf_begin; [done|by apply wf_taken]|]. rewrite <- Hv1.
      unfold snapshot, calls_of. cbn. by rewrite !lookup_insert_ne, od_get_set_ne.
    + split; [by apply wf_taken|exact Hv1].
  - rewrite process_chunk_eq. pose proof (holds_sweep tid v now Hsp s Hs) as H1.
    destruct (sweep_stale callback_raises now s) as [[[]|e] s1]; [|exact H1]. cbn in H1.
    destruct (chunk_transfer c) as [tid'|]; [|exact H1].
    destruct (cm_assemblers s1 !! tid') as [a|] eqn:Ea; [|exact H1].
    apply holds_deliver; [|done..]. intros ->. destruct Ho as [?|[Hn _]]; [done|].
    destruct H1 as [_ <-]. cbn in Hn. congruence.
  - unfold cancel. apply holds_handle_error; [|done].
    destruct Ho as [?|[? _]]; [left; congruence|by right].
Qed.
End manager.
