(* ===== verification/ChunkTransfer.v ===== *)
(** * What chunked transfers guarantee

    The properties of chunking.py: the cut, reassembly in any order, the
    manager's invariant, the stale sweep, delivery exactly once, and the
    one state that survives pooling. *)

From S2P Require Import Prelude Text PyVal Dict Errors MsgPack Codec Chunking ChunkingSpec ChunkingManager.

#[export] Instance chunk_eq_dec : EqDecision chunk.
Proof. solve_decision. Defined.

(** Feeding chunks to an assembler one by one; the last answer. *)
Fixpoint receive (cs : list chunk) : pm exn assembler bool :=
  match cs with
  | [] => λ a, (Ok (is_complete a), a)
  | [c] => add_chunk c
  | c :: cs => add_chunk c ≫= λ _, receive cs
  end.

Lemma receive_cons c cs a a' :
  add_chunk c a = (Ok (is_complete a'), a') → receive (c :: cs) a = receive cs a'.
Proof. intros E. destruct cs; cbn; [done|]. by rewrite pm_bind_eq, E. Qed.

(** The chunk [create_chunks] makes of index [i]. *)
Definition sent_chunk (encoded : list byte) (id : string) (m i : Z) : chunk :=
  Chunk None (Some id) (Some i) None (Some (piece encoded m i)) false.

Lemma create_chunks_eq encoded id m :
  (0 < m)%Z → (0 < zlen encoded)%Z →
  create_chunks encoded id m
  = Ok (sent_chunk encoded id m <$> seqZ 0 (total_chunks_of (zlen encoded) m)).
Proof.
  intros Hm Ht. unfold create_chunks.
  rewrite (proj2 (Z.eqb_neq _ _)) by lia. by rewrite (proj2 (Z.eqb_neq _ _)) by lia.
Qed.

Lemma sent_chunk_carries encoded id m i : carries encoded id m (sent_chunk encoded id m i) i.
Proof. by repeat split. Qed.

(** The chunks of a payload are numbered from zero, none is empty, all but
    the last have exactly the maximum size, and their data is the payload;
    an empty payload has none, and a chunk size of zero divides by zero. *)
Theorem create_chunks_spec encoded id m :
  (0 ≤ m)%Z →
  match create_chunks encoded id m with
  | Raise e => e = ZeroDivisionError ∧ m = 0%Z ∧ encoded ≠ []
  | Ok cs =>
      mjoin (default [] ∘ c_data <$> cs) = encoded ∧
      ∀ k c, cs !! k = Some c →
        c_transferId c = Some id ∧ c_index c = Some (Z.of_nat k) ∧
        ∃ d, c_data c = Some d ∧ (0 < zlen d ≤ m)%Z ∧ (S k < length cs → zlen d = m)
  end.
Proof.
  intros Hm. destruct (decide (zlen encoded = 0%Z)) as [E|E].
  { assert (encoded = []) as -> by (apply length_zero_iff_nil; unfold zlen in E; lia).
    cbn. split; [done|]. intros k c H. by rewrite lookup_nil in H. }
  pose proof (zlen_nonneg encoded).
  destruct (decide (m = 0%Z)) as [->|Hm0].
  { unfold create_chunks. rewrite (proj2 (Z.eqb_neq _ _)) by done. cbn.
    split_and!; [done|done|]. intros ->. done. }
  rewrite create_chunks_eq by lia. split.
  { rewrite <- list_fmap_compose. apply pieces_join; lia. }
  intros k c Hk. rewrite list_lookup_fmap, fmap_Some in Hk. destruct Hk as (i & Hi & ->).
  rewrite lookup_seqZ in Hi. destruct Hi as [-> Hi]. cbn [sent_chunk c_transferId c_index c_data].
  rewrite Z.add_0_l. split_and!; [done|done|]. eexists. split; [done|].
  pose proof (index_in_range encoded m ltac:(lia) ltac:(lia) (Z.of_nat k) ltac:(lia)).
  rewrite length_fmap, length_seqZ, piece_length by lia. split; [lia|]. intros Hl.
  pose proof (index_in_range encoded m ltac:(lia) ltac:(lia) (Z.of_nat (S k)) ltac:(lia)). lia.
Qed.

Section any_order.
Context {M : MsgPack}.
Variables (encoded : list byte) (id : string) (m : Z).
Hypothesis Hm : (0 < m)%Z.
Hypothesis Ht : (0 < zlen encoded)%Z.
Let n := total_chunks_of (zlen encoded) m.

(** Feeding the chunks of indices [is], in that order. *)
Lemma receive_indices is_ a :
  receiving encoded id m a →
  Forall (λ i, 0 ≤ i < n)%Z is_ →
  a_chunk_size a = Some m ∨ a_received a ≠ ∅ ∨ head is_ ∈ [None; Some 0%Z] →
  ∃ a', receive (sent_chunk encoded id m <$> is_) a = (Ok (is_complete a'), a') ∧
        receiving encoded id m a' ∧ a_received a' = list_to_set is_ ∪ a_received a.
Proof.
  revert a. induction is_ as [|i is_ IH]; intros a R Hall Hk.
  { exists a. cbn. split_and!; [done|done|set_solver]. }
  apply Forall_cons in Hall as [Hi Hall].
  destruct (add_chunk_step encoded id m Hm Ht (sent_chunk encoded id m i) i a R)
    as (a' & E & R' & Er & Es); [|apply sent_chunk_carries|].
  { split; [exact Hi|]. destruct Hk as [?|[?|Hk]]; auto. cbn in Hk.
    rewrite elem_of_cons, list_elem_of_singleton in Hk. destruct Hk as [|[= ->]]; [done|auto]. }
  destruct (IH a' R' Hall) as (a2 & E2 & R2 & Er2).
  { right. left. rewrite Er. set_solver. }
  exists a2. rewrite fmap_cons, (receive_cons _ _ a a') by done. split_and!; [done|done|].
  rewrite Er2, Er. cbn. set_solver.
Qed.
End any_order.

Lemma sublist_indices encoded id m n arrived :
  (∀ c, c ∈ arrived → c ∈ sent_chunk encoded id m <$> seqZ 0 n) →
  ∃ is_, arrived = sent_chunk encoded id m <$> is_ ∧ Forall (λ i, 0 ≤ i < n)%Z is_.
Proof.
  induction arrived as [|c arrived IH]; intros H; [by exists []|].
  destruct IH as (is_ & -> & Hall); [by intros; apply H, list_elem_of_further|].
  destruct (proj1 (list_elem_of_fmap _ _ _) (H c (list_elem_of_here _ _))) as (i & -> & Hi).
  apply elem_of_seqZ in Hi. exists (i :: is_). split; [done|]. constructor; [lia|done].
Qed.

Lemma sent_chunk_inj encoded id m i j :
  sent_chunk encoded id m i = sent_chunk encoded id m j → i = j.
Proof. by intros [= ->]. Qed.

(** Whatever subset of a transfer's chunks arrives, in whatever order and
    with whatever repetitions, the assembler reports completion exactly when
    every chunk is in, and then yields the decoded payload: with or without
    a pre-allocated buffer, and, for a fresh assembler that was not told the
    chunk size, when chunk 0 comes first. *)
Theorem assemble_any_order {M : MsgPack} can_alloc encoded id m total announced chunks arrived :
  (0 < m)%Z → (0 < zlen encoded < 2 ^ 63)%Z →
  total = None ∨ total = Some (zlen encoded) →
  announced = Some m ∨ announced = None ∧ head arrived = head chunks →
  create_chunks encoded id m = Ok chunks →
  (∀ c, c ∈ arrived → c ∈ chunks) →
  ∃ a0 a,
    set_expected_chunks can_alloc (zlen chunks) total announced (new_assembler id) = (Ok tt, a0) ∧
    receive arrived a0 = (Ok (bool_decide (Forall (λ c, c ∈ arrived) chunks)), a) ∧
    (Forall (λ c, c ∈ arrived) chunks → get_data a = decode_message encoded).
Proof.
  intros Hm Ht Htot Hann Hc Harr. rewrite create_chunks_eq in Hc by lia. injection Hc as <-.
  destruct (total_chunks_bounds (zlen encoded) m) as (Hn & _); [lia..|].
  set (n := total_chunks_of (zlen encoded) m) in *.
  assert (Hz : zlen (sent_chunk encoded id m <$> seqZ 0 n) = n).
  { unfold zlen. rewrite length_fmap, length_seqZ. lia. }
  destruct (sublist_indices _ _ _ _ _ Harr) as (is_ & -> & Hall).
  destruct (fresh_receiving encoded id m ltac:(lia) can_alloc total announced)
    as (a0 & E0 & R0 & Er0 & Es0); [done|lia|tauto|].
  destruct (receive_indices encoded id m ltac:(lia) ltac:(lia) is_ a0 R0 Hall) as (a & E & R & Er).
  { destruct Hann as [->|[_ Hh]]; [auto|]. right. right.
    destruct is_ as [|i is_]; cbn; [set_solver|].
    replace n with (1 + (n - 1))%Z in Hh by lia. rewrite seqZ_app in Hh by lia.
    change (seqZ 0 1) with [0%Z] in Hh. rewrite fmap_app, !fmap_cons in Hh. cbn [app head] in Hh.
    apply (inj Some) in Hh. apply sent_chunk_inj in Hh as ->. set_solver. }
  assert (Hiff : is_complete a = true ↔ Forall (λ c, c ∈ sent_chunk encoded id m <$> is_)
                                          (sent_chunk encoded id m <$> seqZ 0 n)).
  { rewrite Forall_forall, (complete_iff encoded id m) by (done || lia). fold n. rewrite Er, Er0. split.
    - intros H c (i & -> & Hi)%list_elem_of_fmap. apply elem_of_seqZ in Hi.
      apply list_elem_of_fmap. exists i. split; [done|]. specialize (H i ltac:(lia)). set_solver.
    - intros H i Hi. destruct (proj1 (list_elem_of_fmap _ _ _) (H (sent_chunk encoded id m i)
        ltac:(apply list_elem_of_fmap; exists i; split; [done|]; apply elem_of_seqZ; lia)))
        as (j & ->%sent_chunk_inj & Hj). set_solver. }
  exists a0, a. rewrite Hz. split; [done|]. split.
  - rewrite E. do 2 f_equal. destruct (is_complete a) eqn:Ec; symmetry.
    + apply bool_decide_eq_true_2. by apply Hiff.
    + apply bool_decide_eq_false_2. intros H. apply Hiff in H. congruence.
  - intros H. apply (get_data_complete encoded id m); [lia|lia|done|by apply Hiff].
Qed.

(** ** The manager *)

Section manager.
Context {M : MsgPack}.
Variable can_alloc : Z → bool.
Variable callback_raises : callback_call → option exn.

(** C27. In every state the manager reaches, whatever operations arrive and
    whatever the callbacks raise, the four dicts agree on the transfers in
    progress, every assembler is filed under its own id, and the pool holds
    at most ten assemblers, none with payload memory. *)
Theorem manager_invariant ops : manager_wf (run can_alloc callback_raises ops new_manager).
Proof. apply keeps_run; [|apply wf_new]. intros o _. apply keeps_wf_exec. Qed.

(** *** One transfer among others *)

Section one_transfer.
Variables (encoded : list byte) (tid : string) (m cb err : Z).
Hypothesis Hm : (0 < m)%Z.
Hypothesis Ht : (0 < zlen encoded)%Z.
Let n := total_chunks_of (zlen encoded) m.

(** An operation that the transfer's sender and the other transfers may
    cause: no second start, no cancellation, only the sender's chunks. *)
Definition well_behaved (o : operation) : Prop :=
  match o with
  | OpStart _ _ tid' _ _ _ _ _ | OpCancel tid' => tid' ≠ tid
  | OpChunk _ _ c => chunk_transfer c = Some tid →
      ∃ i, (0 ≤ i < n)%Z ∧ carries encoded tid m (normalize_chunk tid c) i
  end.

(** The chunk of this transfer an operation brings. *)
Definition op_index (o : operation) : option Z :=
  match o with
  | OpChunk _ _ c =>
      if bool_decide (chunk_transfer c = Some tid) then c_index (normalize_chunk tid c) else None
  | _ => None
  end.

(** No sweep happens more than the time to live after the transfer's last
    activity. *)
Fixpoint tended (last : Z) (ops : list operation) : Prop :=
  match ops with
  | [] => True
  | o :: ops =>
      spared_by o (Some last) ∧
      tended (match o with
              | OpChunk _ now' c => if bool_decide (chunk_transfer c = Some tid) then now' else last
              | _ => last
              end) ops
  end.

(** The one call a complete transfer causes. *)
Definition verdict : callback_call :=
  match decode_message encoded with
  | Ok data => CallComplete tid cb data
  | Raise e => CallError tid err e
  end.

Definition all_received (is_ : gset Z) : Prop := Forall (λ i, i ∈ is_) (seqZ 0 n).

#[export] Instance all_received_dec is_ : Decision (all_received is_).
Proof. unfold all_received. apply _. Defined.

Hypothesis Hquiet : ∀ tid cb e, callback_raises (CallError tid cb e) = None.

Lemma handle_error_quiet tid' e s : (handle_error callback_raises tid' e s).1 = Ok tt.
Proof.
  rewrite handle_error_eq. destruct (cm_error s !! tid'); [|done].
  unfold outcome. cbn. by rewrite Hquiet.
Qed.

Lemma deliver_quiet tid' now' c a s : (deliver callback_raises tid' now' c a s).1 = Ok tt.
Proof.
  unfold deliver. destruct (add_chunk _ a) as [[[]|e] a']; [|done|apply handle_error_quiet].
  destruct (get_data a'); [|apply handle_error_quiet].
  destruct (cm_completed _ !! tid'); [|done].
  destruct (outcome _ _) as [[]|]; [done|apply handle_error_quiet].
Qed.

Lemma sweep_quiet now s : (sweep_stale callback_raises now s).1 = Ok tt.
Proof.
  unfold sweep_stale. rewrite pm_bind_eq. cbn [get_state].
  destruct (bool_decide _); [done|]. destruct (_ <? _)%Z; [done|].
  rewrite pm_bind_eq. cbn [modify]. generalize (set_last_sweep now s).
  induction (filter _ _).*1 as [|t l IH]; intros s1; [done|]. cbn [for_each].
  rewrite pm_bind_eq. pose proof (handle_error_quiet t (RuntimeError "Transfer timed out") s1) as Hq.
  destruct (handle_error _ _ _ s1) as [[[]|] s2]; [apply IH|done].
Qed.

(** A transfer that is over gets no further call, whatever arrives. *)
Lemma run_gone L ops s :
  holds tid (None, None, None, None, L) s → Forall well_behaved ops →
  calls_of tid (run can_alloc callback_raises ops s) = L.
Proof.
  intros Hs Hall. eapply (keeps_run can_alloc callback_raises (holds tid (None, None, None, None, L)))
    in Hs as [_ Hs]; [by injection Hs|].
  intros o Ho. apply holds_exec.
  - unfold spared_by. by destruct (op_sweep o).
  - rewrite Forall_forall in Hall. specialize (Hall o Ho).
    destruct o; cbn in *; [left; congruence|right; done|left; congruence].
Qed.

Lemma holds_fields v s : holds tid v s →
  manager_wf s ∧ cm_assemblers s !! tid = v.1.1.1.1 ∧ cm_completed s !! tid = v.1.1.1.2 ∧
  cm_error s !! tid = v.1.1.2 ∧ od_get tid (cm_activity s) = v.1.2 ∧ calls_of tid s = v.2.
Proof. by intros [Hs <-]. Qed.

(** One chunk of the transfer: it is stored, and the last one ends the
    transfer with its verdict. *)
Lemma deliver_step now' c i s a last L :
  holds tid (Some a, Some cb, Some err, Some last, L) s →
  receiving encoded tid m a → a_chunk_size a = Some m →
  (0 ≤ i < n)%Z → carries encoded tid m (normalize_chunk tid c) i →
  ∃ a', receiving encoded tid m a' ∧ a_chunk_size a' = Some m ∧
    a_received a' = {[i]} ∪ a_received a ∧
    holds tid (if is_complete a' then (None, None, None, None, L ++ [verdict])
               else (Some a', Some cb, Some err, Some now', L))
          (deliver callback_raises tid now' c a s).2.
Proof.
  intros Hs R Hsz Hi Hc. pose proof Hs as (Hwf & Ha & Hcb & He & Hl & HL)%holds_fields.
  cbn in Ha, Hcb, He, Hl, HL.
  destruct (add_chunk_step encoded tid m Hm Ht _ i a R ltac:(split; auto) Hc)
    as (a' & E & R' & Er & Es).
  exists a'. split_and!; [done|auto|done|]. split; [by apply keeps_wf_deliver|].
  unfold deliver. rewrite E. set (s2 := set_assemblers _ _).
  assert (H2 : snapshot tid s2 = (Some a', Some cb, Some err, Some now', L)).
  { unfold snapshot, s2, calls_of. cbn. rewrite lookup_insert_eq, od_get_set, Hcb, He.
    unfold calls_of in HL. by rewrite HL. }
  clearbody s2. injection H2 as E1 E2 E3 E4 E5.
  destruct (is_complete a') eqn:Ec; [|cbn; unfold snapshot; by rewrite E1, E2, E3, E4, E5].
  rewrite (get_data_complete encoded tid m) by done. unfold verdict.
  destruct (decode_message encoded) as [data|e].
  - rewrite E2. set (s3 := log_call _ _).
    assert (H3 : snapshot tid s3 = (None, None, None, None, L ++ [CallComplete tid cb data])).
    { unfold s3, snapshot, calls_of. cbn. rewrite !lookup_delete_eq, od_get_del, filter_app.
      unfold calls_of in E5. by rewrite E5, filter_cons, decide_True. }
    clearbody s3. destruct (outcome _ _) as [[]|e]; [exact H3|].
    rewrite handle_error_eq. injection H3 as _ _ -> _ H3. cbn. by rewrite snapshot_forget, H3.
  - rewrite handle_error_eq, E3. cbn. unfold snapshot, calls_of. cbn.
    rewrite !lookup_delete_eq, od_get_del, filter_app. unfold calls_of in E5.
    by rewrite E5, filter_cons, decide_True.
Qed.

Lemma run_receiving ops : ∀ s a last L,
  holds tid (Some a, Some cb, Some err, Some last, L) s →
  receiving encoded tid m a → a_chunk_size a = Some m → is_complete a = false →
  Forall well_behaved ops → tended last ops →
  calls_of tid (run can_alloc callback_raises ops s)
  = L ++ (if decide (all_received (list_to_set (omap op_index ops) ∪ a_received a))
          then [verdict] else []).
Proof.
  induction ops as [|o ops IH]; intros s a last L Hs R Hsz Hc Hall Htd.
  { apply holds_fields in Hs as (_ & _ & _ & _ & _ & HL). cbn in *. rewrite HL.
    rewrite decide_False; [by rewrite app_nil_r|]. intros Hr.
    assert (is_complete a = true) as Hc'; [|congruence].
    apply (complete_iff encoded tid m); [done..|]. intros i Hi. unfold all_received in Hr.
    rewrite Forall_forall in Hr. specialize (Hr i ltac:(apply elem_of_seqZ; lia)). set_solver. }
  apply Forall_cons in Hall as [Ho Hall]. destruct Htd as [Hsp Htd]. cbn [run].
  destruct (decide (op_tid o = Some tid)) as [Hot|Hot].
  2:{ assert (Hidx : op_index o = None).
      { destruct o; cbn in *; [done| |done]. by rewrite bool_decide_eq_false_2. }
      assert (Htd' : tended last ops).
      { destruct o; cbn in *; [done| |done]. by rewrite bool_decide_eq_false_2 in Htd. }
      cbn [omap list_omap]. rewrite Hidx. eapply IH; try done.
      by apply holds_exec; [|left|]. }
  destruct o as [|now now' c|]; cbn in Hot; [by injection Hot; intros ->| |by injection Hot; intros ->].
  cbn in Ho, Hsp, Htd. rewrite bool_decide_eq_true_2 in Htd by done.
  destruct (Ho Hot) as (i & Hi & Hcar). cbn [omap list_omap op_index].
  rewrite bool_decide_eq_true_2 by done. rewrite (proj1 (proj2 Hcar)).
  cbn [exec]. rewrite process_chunk_eq, Hot.
  pose proof (holds_sweep callback_raises tid (Some a, Some cb, Some err, Some last, L) now Hsp s Hs) as H1.
  pose proof (sweep_quiet now s) as Hq.
  destruct (sweep_stale callback_raises now s) as [r s1]. cbn in Hq, H1. subst r.
  pose proof H1 as (_ & Ha1 & _)%holds_fields. cbn in Ha1. rewrite Ha1.
  destruct (deliver_step now' c i s1 a last L H1 R Hsz Hi Hcar) as (a' & R' & Hsz' & Er & H2).
  set (rest := omap _ ops) in *. clearbody rest.
  destruct (is_complete a') eqn:Ec'.
  - rewrite (run_gone _ ops _ H2 Hall). f_equal. rewrite decide_True; [done|].
    apply Forall_forall. intros j Hj%elem_of_seqZ.
    pose proof (received_all encoded tid m Hm Ht a' j R' Ec' ltac:(fold n; lia)). set_solver.
  - rewrite (IH _ a' now' L) by done. f_equal.
    assert (E : list_to_set rest ∪ a_received a' = list_to_set (i :: rest) ∪ a_received a)
      by (apply leibniz_equiv; rewrite Er; set_solver).
    by rewrite E.
Qed.

(** An announced chunk size hides the one a pooled assembler kept. *)
Lemma next_assembler_announced total s :
  set_expected_chunks can_alloc n total (Some m) (next_assembler tid s)
  = set_expected_chunks can_alloc n total (Some m) (new_assembler tid).
Proof. unfold next_assembler. by destruct (cm_pool s). Qed.

(** Starting the transfer. *)
Lemma start_step now now' total s :
  manager_wf s → cm_assemblers s !! tid = None →
  total = None ∨ total = Some (zlen encoded) → (zlen encoded < 2 ^ 63)%Z →
  ∃ a, holds tid (Some a, Some cb, Some err, Some now', calls_of tid s)
         (start_receiving can_alloc callback_raises now now' tid n cb err total (Some m) s).2 ∧
       receiving encoded tid m a ∧ a_chunk_size a = Some m ∧ a_received a = ∅ ∧
       is_complete a = false.
Proof.
  intros Hwf Ha Htot H63. rewrite start_after_sweep.
  pose proof (snapshot_absent tid s Hwf Ha) as Hsn.
  pose proof (holds_sweep callback_raises tid (None, None, None, None, calls_of tid s) now I s
                ltac:(by split)) as H1.
  pose proof (sweep_quiet now s) as Hq.
  destruct (sweep_stale callback_raises now s) as [r s1]. cbn in Hq, H1. subst r.
  destruct (fresh_receiving encoded tid m Ht can_alloc total (Some m) Htot H63 ltac:(auto))
    as (a & E & R & Er & Es).
  rewrite next_assembler_announced. unfold n in *. rewrite E. cbn [snd].
  destruct H1 as [Hw1 Hs1]. exists a. split_and!; [|done..|].
  - split; [apply wf_begin; [apply R|by apply wf_taken]|].
    unfold snapshot, calls_of. cbn. rewrite !lookup_insert_eq, od_get_set.
    injection Hs1 as _ _ _ _ Hs1. unfold calls_of in Hs1. by rewrite Hs1.
  - destruct (is_complete a) eqn:Ec; [|done].
    destruct (total_chunks_bounds (zlen encoded) m) as (Hn & _); [done..|].
    pose proof (received_all encoded tid m Hm Ht a 0 R Ec ltac:(lia)). set_solver.
Qed.

Lemma transfer_run now now' total ops s :
  manager_wf s → cm_assemblers s !! tid = None →
  total = None ∨ total = Some (zlen encoded) → (zlen encoded < 2 ^ 63)%Z →
  Forall well_behaved ops → tended now' ops →
  calls_of tid (run can_alloc callback_raises
                  (OpStart now now' tid n cb err total (Some m) :: ops) s)
  = calls_of tid s ++ (if decide (all_received (list_to_set (omap op_index ops)))
                       then [verdict] else []).
Proof.
  intros Hwf Ha Htot H63 Hall Htd. cbn [run exec].
  destruct (start_step now now' total s Hwf Ha Htot H63) as (a & Hs & R & Es & Er & Ec).
  rewrite (run_receiving ops _ a now' (calls_of tid s)) by done. by rewrite Er, union_empty_r_L.
Qed.

(** C19. A transfer announced with its chunk size, among any other operations
    and with its chunks in any order and any number of repetitions, causes
    exactly one callback once every chunk is in: the completion with the
    decoded payload, or the error when it does not decode; and no call
    before that or after it, as long as no sweep comes more than thirty
    seconds after its last activity. *)
Theorem transfer_delivered_once now now' total ops s :
  manager_wf s → cm_assemblers s !! tid = None →
  total = None ∨ total = Some (zlen encoded) → (zlen encoded < 2 ^ 63)%Z →
  Forall well_behaved ops → tended now' ops →
  calls_of tid (run can_alloc callback_raises
                  (OpStart now now' tid n cb err total (Some m) :: ops) s)
  = calls_of tid s ++ (if decide (all_received (list_to_set (omap op_index ops)))
                       then [verdict] else []).
Proof. apply transfer_run. Qed.
End one_transfer.

(** *** The stale sweep *)

Section sweep.
Hypothesis Hquiet : ∀ tid cb e, callback_raises (CallError tid cb e) = None.

Lemma sweep_loop tid l a cb err act L s e :
  NoDup l → tid ∈ l → holds tid (Some a, Some cb, Some err, act, L) s →
  holds tid (None, None, None, None, L ++ [CallError tid err e])
        (for_each l (λ t, handle_error callback_raises t e) s).2.
Proof.
  intros Hnd. revert s. induction Hnd as [|t l Ht Hnd IH]; intros s Hin Hs.
  { by apply elem_of_nil in Hin. }
  cbn [for_each]. rewrite pm_bind_eq. pose proof (handle_error_quiet Hquiet t e s) as Hok.
  destruct (decide (t = tid)) as [->|Hne].
  - assert (H1 : holds tid (None, None, None, None, L ++ [CallError tid err e])
                   (handle_error callback_raises tid e s).2).
    { destruct Hs as [Hwf Hs]. split; [by apply keeps_wf_handle_error|].
      injection Hs as E1 E2 E3 E4 E5. rewrite handle_error_eq, E3. cbn.
      unfold snapshot. rewrite calls_of_log. cbn. rewrite !lookup_delete_eq, od_get_del.
      rewrite decide_True by done. unfold calls_of in *. cbn. by rewrite E5. }
    destruct (handle_error _ _ _ s) as [r s1]. cbn in Hok, H1. subst r.
    apply keeps_for_each; [|done]. intros t' Ht'. apply holds_handle_error. by right.
  - apply elem_of_cons in Hin as [->|Hin]; [done|].
    pose proof (holds_handle_error callback_raises tid _ t e (or_introl Hne) s Hs) as H1.
    destruct (handle_error _ _ _ s) as [r s1]. cbn in Hok, H1. subst r. by apply IH.
Qed.

(** A sweep, at most once a second, ends exactly the transfers without
    activity for more than thirty seconds, with one timeout error call each,
    and leaves every other transfer as it was. *)
Theorem sweep_exact now tid s :
  manager_wf s →
  let s' := (sweep_stale callback_raises now s).2 in
  if (now - cm_last_sweep s <? SWEEP_INTERVAL)%Z then s' = s
  else
    match od_get tid (cm_activity s), cm_error s !! tid with
    | Some last, Some cb =>
        if (last <? now - STALE_TRANSFER_TTL)%Z
        then cm_assemblers s' !! tid = None ∧
             calls_of tid s' = calls_of tid s ++ [CallError tid cb (RuntimeError "Transfer timed out")]
        else snapshot tid s' = snapshot tid s
    | _, _ => snapshot tid s' = snapshot tid s
    end.
Proof.
  intros Hwf s'. subst s'. destruct (_ <? SWEEP_INTERVAL)%Z eqn:Ei.
  { unfold sweep_stale. rewrite pm_bind_eq. cbn [get_state].
    destruct (bool_decide _); [done|]. by rewrite Ei. }
  assert (Hkeep : spared now (od_get tid (cm_activity s)) →
                  snapshot tid (sweep_stale callback_raises now s).2 = snapshot tid s).
  { intros Hsp. by apply (holds_sweep callback_raises tid (snapshot tid s) now Hsp s). }
  destruct (od_get tid (cm_activity s)) as [last|] eqn:El; [|by apply Hkeep].
  destruct (cm_error s !! tid) as [cb|] eqn:Ee.
  2:{ pose proof (absent_alike (iff_trans (wf_activity s Hwf tid) (iff_sym (wf_error s Hwf tid))) Ee).
      congruence. }
  destruct (last <? _)%Z eqn:Elt; bool_to_prop; [|apply Hkeep; cbn; lia].
  assert (Ha : is_Some (cm_assemblers s !! tid)) by (apply (wf_activity s Hwf); rewrite El; eauto).
  destruct (proj2 (wf_completed s Hwf tid) Ha) as [cb' Ec]. destruct Ha as [a Ha].
  unfold sweep_stale. rewrite pm_bind_eq. cbn [get_state]. rewrite bool_decide_eq_false_2.
  2:{ intros E. by rewrite E in El. }
  rewrite (proj2 (Z.ltb_ge _ _)) by done. rewrite pm_bind_eq. cbn [modify].
  set (stale := (filter (λ kv, (kv.2 < now - STALE_TRANSFER_TTL)%Z) (cm_activity s)).*1).
  destruct (sweep_loop tid stale a cb' cb (Some last) (calls_of tid s) (set_last_sweep now s)
    (RuntimeError "Transfer timed out")) as [_ Hs].
  - by apply od_wf_filter, Hwf.
  - apply list_elem_of_fmap. exists (tid, last). split; [done|]. apply list_elem_of_filter.
    split; [cbn; lia|]. by apply od_get_in.
  - split; [destruct Hwf; by split|]. unfold snapshot. cbn. by rewrite Ha, Ec, Ee, El.
  - injection Hs as Hs1 _ _ _ Hs2. by split.
Qed.
End sweep.
End manager.

(** ** Witnesses *)

(** the MessagePack array of 1, 2, 3, 4, 5 *)
Definition small_value : pyval := PList [PInt 1; PInt 2; PInt 3; PInt 4; PInt 5].
Definition small_payload : list byte :=
  match encode_message small_value with Ok b => b | Raise _ => [] end.

Definition quiet (_ : callback_call) : option exn := None.
Definition alloc (_ : Z) : bool := true.

(** A received chunk message, as the message handler of client.py builds it. *)
Definition wire_chunk (tid : string) (i : Z) (data : list byte) : chunk :=
  Chunk (Some tid) None None (Some i) (Some data) false.
Definition feed (t : Z) (tid : string) (m i : Z) : operation :=
  OpChunk t t (wire_chunk tid i (piece small_payload m i)).

Definition first_transfer : list operation :=
  [OpStart 0 0 "a" 2 1 2 (Some 10%Z) (Some 6%Z); feed 1 "a" 6 0; feed 2 "a" 6 1].
Definition second_transfer : list operation :=
  [OpStart 3 3 "b" 2 3 4 (Some 10%Z) None; feed 4 "b" 5 0; feed 5 "b" 5 1].


Lemma create_chunks_spec_witness :
  match create_chunks small_payload "a" 6 with
  | Raise e => e = ZeroDivisionError ∧ 6%Z = 0%Z ∧ small_payload ≠ []
  | Ok cs =>
      mjoin (default [] ∘ c_data <$> cs) = small_payload ∧
      ∀ k c, cs !! k = Some c →
        c_transferId c = Some "a" ∧ c_index c = Some (Z.of_nat k) ∧
        ∃ d, c_data c = Some d ∧ (0 < zlen d ≤ 6)%Z ∧ (S k < length cs → zlen d = 6%Z)
  end.
Proof. apply (create_chunks_spec small_payload "a" 6). lia. Defined.

(** Three chunks, the middle one twice, the first one last; the buffer cannot
    be allocated. *)
Definition small_chunks : list chunk := sent_chunk small_payload "a" 4 <$> [0; 1; 2]%Z.
Definition shuffled : list chunk := sent_chunk small_payload "a" 4 <$> [2; 1; 1; 0]%Z.

Lemma assemble_any_order_witness :
  ∃ a0 a,
    set_expected_chunks (λ _, false) (zlen small_chunks) (Some 10%Z) (Some 4%Z)
      (new_assembler "a") = (Ok tt, a0) ∧
    receive shuffled a0 = (Ok (bool_decide (Forall (λ c, c ∈ shuffled) small_chunks)), a) ∧
    (Forall (λ c, c ∈ shuffled) small_chunks → get_data a = decode_message small_payload).
Proof.
  apply (assemble_any_order (λ _, false) small_payload "a" 4 (Some 10%Z) (Some 4%Z)
           small_chunks shuffled).
  - lia.
  - vm_compute. split; reflexivity.
  - right. reflexivity.
  - left. reflexivity.
  - vm_compute. reflexivity.
  - apply Forall_forall. apply (bool_decide_unpack _). vm_compute. exact I.
Defined.

(** Chunks out of order and repeated, a foreign transfer in between. *)
Definition interleaved : list operation :=
  [feed 2 "t" 4 2; OpStart 3 3 "u" 1 7 8 None None; feed 1500 "t" 4 0; feed 1501 "t" 4 0;
   OpCancel "u"; feed 1502 "t" 4 1; feed 1503 "t" 4 1].

Lemma transfer_delivered_once_witness :
  calls_of "t" (run alloc quiet (OpStart 1 1 "t" 3 5 6 (Some 10%Z) (Some 4%Z) :: interleaved)
                    new_manager)
  = [CallComplete "t" 5 small_value].
Proof.
  apply (transfer_delivered_once alloc quiet small_payload "t" 4 5 6
           ltac:(lia) ltac:(vm_compute; reflexivity) ltac:(reflexivity)
           1 1 (Some 10%Z) interleaved new_manager).
  - apply wf_new.
  - reflexivity.
  - right. reflexivity.
  - vm_compute. reflexivity.
  - repeat constructor; try discriminate; intros _;
      [exists 2%Z|exists 0%Z|exists 0%Z|exists 1%Z|exists 1%Z];
      (split; [vm_compute; split; congruence|repeat split]).
  - cbn. vm_compute. repeat split; discriminate.
Defined.

(** A transfer started at 0 and never continued, swept at 31 s. *)
Definition idle : manager := run alloc quiet [OpStart 0 0 "t" 3 5 6 (Some 10%Z) (Some 4%Z)] new_manager.

Lemma sweep_exact_witness :
  let s' := (sweep_stale quiet 31000 idle).2 in
  cm_assemblers s' !! "t" = None ∧
  calls_of "t" s' = calls_of "t" idle ++ [CallError "t" 6 (RuntimeError "Transfer timed out")].
Proof.
  apply (sweep_exact quiet ltac:(reflexivity) 31000 "t" idle).
  unfold idle. apply keeps_run; [intros o _; apply keeps_wf_exec|apply wf_new].
Defined.
