(* ===== verification/Ids.v ===== *)
(** * Request ids and reply subjects (utils.py, client.py)

    Ids carry the client's reply prefix as their first segment, so that the
    reply subject of every call falls under the one wildcard the client
    subscribes to. The clock reading, the random characters and the random
    bits are arguments. *)

From S2P Require Import Prelude Text.

(** [_ID_CHARS] *)
Definition ID_CHARS : string := base36_alphabet.

(** [choices(_ID_CHARS, k=9)]: the nine indices drawn *)
Definition random_part (draws : list Z) : string := string_of_chars (digit_char <$> draws).

(** [generate_id] at [now_ms = int(time.time() * 1000)] *)
Definition generate_id (now_ms : Z) (draws : list Z) (reply_prefix : option string) : string :=
  let request_id := str_int now_ms +:+ "-" +:+ random_part draws in
  match reply_prefix with
  | Some p => if bool_decide (p = "") then request_id else p +:+ "." +:+ request_id
  | None => request_id
  end.

(** The [while value] loop of [generate_reply_prefix]: least significant
    character first. *)
Fixpoint prefix_chars (fuel : nat) (value : Z) : list ascii :=
  match fuel with
  | O => []
  | S fuel =>
      if (value =? 0)%Z then []
      else digit_char (value mod 36) :: prefix_chars fuel (value / 36)
  end.

(** [s.rjust(n, "0")] *)
Definition rjust (n : nat) (s : string) : string :=
  string_of_chars (replicate (n - String.length s) "0"%char) +:+ s.

(** [generate_reply_prefix] for [value = secrets.randbits(48)]; the loop ends
    within ten rounds. *)
Definition generate_reply_prefix (value : Z) : string :=
  rjust 10 (string_of_chars (reverse (prefix_chars 10 value))).

(** The reply subject of a call, and the subject suffix the mux reads back. *)
Definition reply_root : string := "rpc.reply.".
Definition reply_subject (request_id : string) : string := reply_root +:+ request_id.
Definition reply_suffix (subject : string) : string := str_drop (String.length reply_root) subject.
(** The wildcard of the muxed reply inbox. *)
Definition mux_pattern (reply_prefix : string) : string := reply_root +:+ reply_prefix +:+ ".>".

(** ** Lemmas *)

Lemma prefix_chars_digits fuel v acc :
  reverse (prefix_chars fuel v) ++ (digit_char <$> acc) = digit_char <$> to_digits fuel 36 v acc.
Proof.
  revert v acc. induction fuel as [|fuel IH]; intros v acc; [done|]. cbn [prefix_chars to_digits].
  destruct (v =? 0)%Z; [done|]. rewrite reverse_cons, <- app_assoc. apply (IH _ (_ :: acc)).
Qed.

Lemma string_of_chars_app l1 l2 : string_of_chars (l1 ++ l2) = string_of_chars l1 +:+ string_of_chars l2.
Proof. induction l1 as [|a l1 IH]; [done|]. cbn [app]. unfold string_of_chars in *. cbn. by rewrite IH. Qed.

Lemma string_of_chars_inj l1 l2 : string_of_chars l1 = string_of_chars l2 → l1 = l2.
Proof.
  unfold string_of_chars. intros H. apply (f_equal String.list_ascii_of_string) in H.
  by rewrite !String.list_ascii_of_string_of_list_ascii in H.
Qed.

Lemma length_string_of_chars l : String.length (string_of_chars l) = length l.
Proof. induction l as [|a l IH]; [done|]. unfold string_of_chars in *. cbn. by rewrite IH. Qed.

Lemma digit_char_inj d e : (0 ≤ d < 36)%Z → (0 ≤ e < 36)%Z → digit_char d = digit_char e → d = e.
Proof.
  intros Hd He E. apply (f_equal char_digit) in E. rewrite !digit_char_inv in E by done. congruence.
Qed.

Lemma digits_chars_inj l1 l2 :
  Forall (λ d, 0 ≤ d < 36)%Z l1 → Forall (λ d, 0 ≤ d < 36)%Z l2 →
  digit_char <$> l1 = digit_char <$> l2 → l1 = l2.
Proof.
  intros H1. revert l2. induction H1 as [|d l1 Hd H1 IH]; intros l2 H2 E; destruct H2 as [|e l2 He H2];
    try discriminate; [done|].
  rewrite !fmap_cons in E. injection E as E1 E2. f_equal; [by apply digit_char_inj|by apply IH].
Qed.

(** The digits of the prefix, zero padded to ten. *)
Definition prefix_digits (value : Z) : list Z :=
  let ds := to_digits 10 36 value [] in replicate (10 - length ds) 0%Z ++ ds.

Lemma prefix_digits_length v : length (prefix_digits v) = 10.
Proof.
  unfold prefix_digits. pose proof (to_digits_length 10 36 v []) as H. unfold zlen in H. cbn [length] in H.
  rewrite length_app, length_replicate. lia.
Qed.

Lemma prefix_digits_range v : Forall (λ d, 0 ≤ d < 36)%Z (prefix_digits v).
Proof.
  unfold prefix_digits. apply Forall_app. split; [apply Forall_replicate; lia|].
  apply to_digits_range; [lia|done].
Qed.

Lemma of_digits_zeros n ds : of_digits 36 (replicate n 0%Z ++ ds) = of_digits 36 ds.
Proof. induction n as [|n IH]; [done|]. cbn [replicate app]. rewrite of_digits_cons, IH. lia. Qed.

Lemma prefix_digits_value v : (0 ≤ v < 2 ^ 48)%Z → of_digits 36 (prefix_digits v) = v.
Proof.
  intros H. unfold prefix_digits. rewrite of_digits_zeros, of_to_digits; [|lia|].
  - rewrite zlen_nil. change (of_digits 36 []) with 0%Z. lia.
  - split; [lia|]. assert (2 ^ 48 < 36 ^ Z.of_nat 10)%Z by (vm_compute; done). lia.
Qed.

Lemma generate_reply_prefix_digits v :
  generate_reply_prefix v = string_of_chars (digit_char <$> prefix_digits v).
Proof.
  unfold generate_reply_prefix, rjust, prefix_digits.
  pose proof (prefix_chars_digits 10 v []) as E. rewrite fmap_nil, app_nil_r in E. rewrite E.
  rewrite length_string_of_chars, length_fmap, fmap_app, string_of_chars_app.
  by rewrite fmap_replicate.
Qed.

Lemma lacks_string_of_chars c l : lacks c (string_of_chars l) = forallb (λ a, bool_decide (a ≠ c)) l.
Proof.
  induction l as [|a l IH]; [done|]. change (string_of_chars (a :: l)) with (String a (string_of_chars l)).
  cbn [lacks forallb]. by rewrite IH.
Qed.

(** Base-36 digits are never separators. *)
Lemma lacks_digits c ds :
  char_digit c = None → Forall (λ d, 0 ≤ d < 36)%Z ds →
  lacks c (string_of_chars (digit_char <$> ds)) = true.
Proof.
  intros Hc H. rewrite lacks_string_of_chars. induction H as [|d ds Hd _ IH]; [done|].
  rewrite fmap_cons. cbn [forallb]. rewrite IH, bool_decide_eq_true_2; [done|].
  intros E. apply (f_equal char_digit) in E. rewrite digit_char_inv in E by done. congruence.
Qed.

Lemma lacks_str_nonneg c n : char_digit c = None → (0 ≤ n)%Z → lacks c (str_nonneg n) = true.
Proof.
  intros Hc Hn. unfold str_nonneg. destruct (n =? 0)%Z eqn:E.
  - cbn. rewrite bool_decide_eq_true_2; [done|]. intros <-. by cbn in Hc.
  - apply lacks_digits; [done|]. eapply Forall_impl; [apply to_digits_range; [lia|done]|].
    cbn. lia.
Qed.

Lemma app_sep_inj c s1 s2 t1 t2 :
  lacks c s1 = true → lacks c s2 = true →
  s1 +:+ String c t1 = s2 +:+ String c t2 → s1 = s2 ∧ t1 = t2.
Proof.
  revert s2. induction s1 as [|a s1 IH]; intros [|b s2] H1 H2 E;
    autorewrite with str in E; cbn in *; bool_to_prop; try (injection E; congruence).
  - by injection E as ->.
  - injection E as -> E. destruct (IH s2 ltac:(done) ltac:(done) E) as [-> ->]. done.
Qed.

(** C36. A generated reply prefix is ten base-36 characters, none of them a
    subject separator or wildcard, and distinct random values give distinct
    prefixes. *)
Theorem reply_prefix_ok v :
  (0 ≤ v < 2 ^ 48)%Z →
  String.length (generate_reply_prefix v) = 10 ∧
  (∀ c, c ∈ ["."%char; "*"%char; ">"%char; " "%char] → lacks c (generate_reply_prefix v) = true) ∧
  (∀ v', (0 ≤ v' < 2 ^ 48)%Z → generate_reply_prefix v = generate_reply_prefix v' → v = v').
Proof.
  intros Hv. rewrite generate_reply_prefix_digits. split; [|split].
  - by rewrite length_string_of_chars, length_fmap, prefix_digits_length.
  - intros c Hc. apply lacks_digits; [|apply prefix_digits_range].
    repeat (apply elem_of_cons in Hc as [->|Hc]; [done|]). by apply elem_of_nil in Hc.
  - intros v' Hv' E. rewrite generate_reply_prefix_digits in E.
    apply string_of_chars_inj, digits_chars_inj in E; [|apply prefix_digits_range..].
    apply (f_equal (of_digits 36)) in E. by rewrite !prefix_digits_value in E.
Qed.

(** Two ids agree only when they were generated in the same millisecond
    with the same random characters; the reply subject of an id lies under
    the client's wildcard, and the mux reads the id back from it. *)
Theorem generate_id_ok p now draws :
  p ≠ "" → (0 ≤ now)%Z → Forall (λ d, 0 ≤ d < 36)%Z draws →
  let id := generate_id now draws (Some p) in
  reply_suffix (reply_subject id) = id ∧
  (∃ base rest, rest ≠ "" ∧ mux_pattern p = base +:+ ">" ∧ reply_subject id = base +:+ rest) ∧
  (∀ now' draws', (0 ≤ now')%Z → Forall (λ d, 0 ≤ d < 36)%Z draws' →
     id = generate_id now' draws' (Some p) → now = now' ∧ draws = draws').
Proof.
  intros Hp Hnow Hd. cbn zeta. unfold generate_id. rewrite bool_decide_eq_false_2 by done.
  split; [apply str_drop_app|]. split.
  - exists (reply_root +:+ p +:+ "."), (str_int now +:+ "-" +:+ random_part draws). split_and!.
    + unfold str_int. destruct (now <? 0)%Z; [done|]. intros E.
      pose proof (parse_str_nonneg now Hnow) as (_ & a & s & Es & _). by rewrite Es in E.
    + unfold mux_pattern. by rewrite !string_app_assoc.
    + unfold reply_subject. by rewrite !string_app_assoc.
  - intros now' draws' Hnow' Hd' E.
    apply (f_equal (str_drop (String.length (p +:+ ".")))) in E.
    rewrite <- !string_app_assoc, !(string_app_assoc (p +:+ ".")), !str_drop_app in E.
    rewrite !string_app_assoc in E. unfold str_int in E.
    rewrite !(proj2 (Z.ltb_ge _ _)) in E by done.
    change ("-" +:+ random_part draws) with (String "-" (random_part draws)) in E.
    change ("-" +:+ random_part draws') with (String "-" (random_part draws')) in E.
    apply app_sep_inj in E as [E1 E2]; [|by apply lacks_str_nonneg..].
    split; [|by apply digits_chars_inj, string_of_chars_inj].
    apply (f_equal parse_nonneg) in E1.
    rewrite (proj1 (parse_str_nonneg now Hnow)), (proj1 (parse_str_nonneg now' Hnow')) in E1.
    congruence.
Qed.

(** ** Witnesses *)

Lemma reply_prefix_ok_witness :
  generate_reply_prefix 1 = "0000000001" ∧ String.length (generate_reply_prefix 1) = 10.
Proof. split; [reflexivity|]. apply (reply_prefix_ok 1). lia. Defined.

Lemma generate_id_ok_witness :
  let id := generate_id 1700000000000 [0; 10; 35]%Z (Some "c1") in
  id = "c1.1700000000000-0az" ∧ reply_suffix (reply_subject id) = id.
Proof.
  split; [vm_compute; reflexivity|].
  apply (generate_id_ok "c1" 1700000000000 [0; 10; 35]%Z); [discriminate|lia|].
  repeat constructor; lia.
Defined.
