(* ===== verification/Transport.v ===== *)
(** * Publishing and receiving messages (client.py)

    [publish] with its automatic chunking, and the message handler that
    [_nats_subscribe] installs: chunk headers and chunks go through the shared
    chunking manager, and what it assembles is handed to the subscription's
    handler in the order of its messages. *)

From S2P Require Import Prelude Text PyVal Dict Errors MsgPack Codec Chunking ChunkingManager Ids.

(** A NATS message: subject, reply subject ("" when absent), headers, payload. *)
Record msg := Msg {
  m_subject : string;
  m_reply : string;
  m_headers : option (list (string * string));
  m_data : list byte }.

(** [ChunkedTransferHeader] *)
Definition header_msg (transfer_id : string) (total_chunks total_size chunk_size : Z) : pyval :=
  PDict [(PStr "type", PStr "chunked"); (PStr "transferId", PStr transfer_id);
         (PStr "totalChunks", PInt total_chunks); (PStr "totalSize", PInt total_size);
         (PStr "chunkSize", PInt chunk_size)].

(** [headers or {}] *)
Definition headers_or_new (headers : option (list (string * string))) : list (string * string) :=
  default [] headers.

(** The value that the caller's own dict has after [publish]: an absent or
    empty one is replaced, any other is written to. *)
Definition caller_headers (headers : option (list (string * string))) (hdrs : list (string * string)) :
    option (list (string * string)) :=
  match headers with
  | None => None
  | Some [] => Some []
  | Some _ => Some hdrs
  end.

(** [msg.headers.get(key) if msg.headers else None] *)
Definition header (key : string) (m : msg) : option string :=
  match m_headers m with None | Some [] => None | Some h => od_get key h end.

(** An integer field of a decoded transfer header. (Other types are outside
    the model: they count as the [TypeError] their first use raises.) *)
Definition int_field (v : pyval) : result exn Z :=
  match v with
  | PInt z => Ok z
  | PBool b => Ok (Z.b2z b)
  | _ => Raise (TypeError "an integer is required")
  end.
Definition opt_int_field (v : pyval) : result exn (option Z) :=
  match v with PNone => Ok None | _ => z ← int_field v; mret (Some z) end.

(** What a transfer header announces: transfer id, chunk count, total size,
    chunk size; [None] when it is not addressed to [chunk_id]. *)
Definition read_header (decoded : pyval) (chunk_id : string) :
    result exn (option (Z * option Z * option Z)) :=
  match decoded with
  | PDict kvs =>
      match dict_get "transferId" kvs with
      | PStr t =>
          if bool_decide (t = chunk_id) then
            total ← match dict_lookup "totalChunks" kvs with
                    | Some v => int_field v | None => Raise (KeyError "totalChunks") end;
            size ← opt_int_field (dict_get "totalSize" kvs);
            csize ← opt_int_field (dict_get "chunkSize" kvs);
            mret (Some (total, size, csize))
          else mret None
      | _ => mret None
      end
  | _ => Raise (AttributeError "object has no attribute 'get'")
  end.

(** [int(headers.get("x-chunk-index", "0"))] *)
Definition chunk_index (m : msg) : result exn Z :=
  match int_of_str (default "0" (header "x-chunk-index" m)) with
  | Some i => Ok i
  | None => Raise (ValueError "invalid literal for int() with base 10")
  end.

(** The chunk dict of a chunk message. *)
Definition received_chunk (chunk_id : string) (index : Z) (data : list byte) : chunk :=
  Chunk (Some chunk_id) None None (Some index) (Some data) false.

(** The callbacks of the message handlers append or print; none raises. *)
Definition no_raise (_ : callback_call) : option exn := None.

(** The receiving side: the shared chunking manager, the [assembled_queue] of
    each subscription, and the handler calls made so far, by subscription. *)
Record transport := Transport {
  tr_chunks : manager;
  tr_queues : gmap Z (list pyval);
  tr_delivered : list (Z * pyval) }.

Definition new_transport : transport := Transport new_manager ∅ [].

Section transport.
Context {M : MsgPack}.
Variable can_alloc : Z → bool.

(** [publish], with the clock reading and random draws of its transfer id;
    the messages it sends, and the caller's headers afterwards. *)
Definition publish (connected : bool) (max_payload now : Z) (draws : list Z) (subject : string)
    (data : pyval) (headers : option (list (string * string))) (reply : option string) :
    result exn (list msg) * option (list (string * string)) :=
  if negb connected then (Raise (RuntimeError "Not connected"), headers)
  else
    match encode_message data with
    | Raise e => (Raise e, headers)
    | Ok encoded =>
        let reply_to := default "" reply in
        if (zlen encoded <=? max_payload)%Z
        then (Ok [Msg subject reply_to headers encoded], headers)
        else if (max_payload =? 0)%Z then (Raise ZeroDivisionError, headers)
        else
          let transfer_id := generate_id now draws None in
          let total_chunks := total_chunks_of (zlen encoded) max_payload in
          let hdrs := od_set "x-chunk-id" transfer_id
                        (od_set "x-chunked-transfer" "header" (headers_or_new headers)) in
          let r :=
            header ← encode (header_msg transfer_id total_chunks (zlen encoded) max_payload);
            chunks ← create_chunks encoded transfer_id max_payload;
            mret (Msg subject reply_to (Some hdrs) header ::
                  imap (λ i c, Msg subject reply_to
                                 (Some [("x-chunked-transfer", "chunk"); ("x-chunk-id", transfer_id);
                                        ("x-chunk-index", str_int (Z.of_nat i))])
                                 (default [] (c_data c))) chunks) in
          (r, caller_headers headers hdrs)
    end.

(** A call of the shared manager: completed payloads land in the queue of the
    subscription that started the transfer. *)
Definition absorb (calls : list callback_call) (queues : gmap Z (list pyval)) : gmap Z (list pyval) :=
  foldl (λ q c, match c with
                | CallComplete _ key data => <[key := default [] (q !! key) ++ [data]]> q
                | CallError _ _ _ => q
                end) queues calls.
Definition on_chunks (op : pm exn manager unit) : pm exn transport unit := λ s,
  let '(r, chunks) := op (tr_chunks s) in
  let new_calls := drop (length (cm_calls (tr_chunks s))) (cm_calls chunks) in
  (r, Transport chunks (absorb new_calls (tr_queues s)) (tr_delivered s)).

(** [handler(data)]; its exceptions are caught and printed. *)
Definition call_handler (key : Z) (data : pyval) : pm exn transport unit :=
  modify (λ s, Transport (tr_chunks s) (tr_queues s) (tr_delivered s ++ [(key, data)])).

(** [_handle_assembled_data] *)
Definition handle_assembled_data (key : Z) (data : pyval) : pm exn transport unit :=
  call_handler key data.

(** [while assembled_queue: ...] *)
Definition drain (key : Z) : pm exn transport unit :=
  s ← get_state;
  let queue := default [] (tr_queues s !! key) in
  modify (λ s, Transport (tr_chunks s) (delete key (tr_queues s)) (tr_delivered s)) ≫= λ _,
  for_each queue (handle_assembled_data key).

(** [message_handler] of the subscription [key]; [now] and [now'] are the
    clock readings of the manager's sweep and activity stamp. *)
Definition message_handler (key now now' : Z) (m : msg) : pm exn transport unit :=
  try_except
    (let chunk_type := header "x-chunked-transfer" m in
     if bool_decide (chunk_type = Some "header") then
         decoded ← lift (decode (m_data m));
         match header "x-chunk-id" m with
         | None | Some "" => mret tt
         | Some chunk_id =>
             fields ← lift (read_header decoded chunk_id);
             match fields with
             | None => mret tt
             | Some (total, size, csize) =>
                 on_chunks (start_receiving can_alloc no_raise now now' chunk_id total key key size csize)
             end
         end
     else if bool_decide (chunk_type = Some "chunk") then
         index ← lift (chunk_index m);
         match header "x-chunk-id" m with
         | None | Some "" => mret tt
         | Some chunk_id =>
             on_chunks (process_chunk no_raise now now' (received_chunk chunk_id index (m_data m))) ≫= λ _,
             drain key
         end
     else
         data ← lift (decode_message (m_data m));
         call_handler key data)
    (λ _, mret tt).

(** A subscription's messages one after the other, with their clock readings. *)
Definition receive_all (key : Z) (ms : list (Z * Z * msg)) (s : transport) : transport :=
  foldl (λ s '(now, now', m), (message_handler key now now' m s).2) s ms.
End transport.
