(* ===== verification/TransportSpec.v ===== *)
(** * End-to-end delivery of published messages

    Whatever [publish] sends, small or chunked, the receiving message handler
    turns back into exactly one call of the subscription's handler with the
    value that was sent; and what [publish] does to its caller's headers. *)

From S2P Require Import Prelude Text PyVal Dict Errors MsgPack Codec CodecRoundtrip Chunking ChunkingSpec ChunkingManager ChunkTransfer Ids Transport.

(** ** The calls one operation adds to the manager's log *)

Definition is_completion (c : callback_call) : bool :=
  match c with CallComplete _ _ _ => true | CallError _ _ _ => false end.

(** The log has grown from [L0] by errors, and completions of [tid] only. *)
Definition grown (tid : option string) (L0 : list callback_call) (s : manager) : Prop :=
  ∃ new, cm_calls s = L0 ++ new ∧
         Forall (λ c, is_completion c = true → Some (call_tid c) = tid) new.

Section log.
Context {M : MsgPack}.
Variable can_alloc : Z → bool.
Variable callback_raises : callback_call → option exn.

Lemma grown_refl tid s : grown tid (cm_calls s) s.
Proof. exists []. by rewrite app_nil_r. Qed.

Lemma grown_log tid L0 c s :
  (is_completion c = true → Some (call_tid c) = tid) → grown tid L0 s → grown tid L0 (log_call c s).
Proof.
  intros Hc (new & E & H). exists (new ++ [c]). cbn. rewrite E, app_assoc. split; [done|].
  apply Forall_app. by split; [|constructor].
Qed.

Lemma grown_same tid L0 s s' : cm_calls s' = cm_calls s → grown tid L0 s → grown tid L0 s'.
Proof. intros E (new & E' & H). exists new. by rewrite E. Qed.

Lemma keeps_grown_handle_error tid L0 t e : keeps (grown tid L0) (handle_error callback_raises t e).
Proof.
  intros s Hs. rewrite handle_error_eq. destruct (cm_error s !! t); cbn.
  - apply grown_log; [done|]. by eapply grown_same.
  - by eapply grown_same.
Qed.

Lemma keeps_grown_sweep tid L0 now : keeps (grown tid L0) (sweep_stale callback_raises now).
Proof.
  unfold sweep_stale. apply keeps_bind; [by intros s|]. intros s.
  destruct (bool_decide _); [apply keeps_ret|]. destruct (_ <? _)%Z; [apply keeps_ret|].
  apply keeps_bind; [by apply keeps_modify|]. intros _.
  apply keeps_for_each. intros t _. apply keeps_grown_handle_error.
Qed.

Lemma keeps_grown_exec L0 o : keeps (grown (op_tid o) L0) (exec can_alloc callback_raises o).
Proof.
  destruct o as [now now' tid n cb err total csize|now now' c|tid]; cbn [exec op_tid]; intros s Hs.
  - rewrite start_after_sweep. pose proof (keeps_grown_sweep (Some tid) L0 now s Hs) as H1.
    destruct (sweep_stale callback_raises now s) as [[[]|e] s1]; [|exact H1].
    destruct (set_expected_chunks _ _ _ _ _) as [[[]|e] a]; by eapply grown_same.
  - rewrite process_chunk_eq. pose proof (keeps_grown_sweep (chunk_transfer c) L0 now s Hs) as H1.
    destruct (sweep_stale callback_raises now s) as [[[]|e] s1]; [|exact H1].
    destruct (chunk_transfer c) as [tid|]; [|exact H1].
    destruct (cm_assemblers s1 !! tid) as [a|]; [|exact H1]. unfold deliver.
    destruct (add_chunk _ a) as [r a'].
    assert (H2 : grown (Some tid) L0 (set_assemblers <[tid := a']> (set_activity (od_set tid now') s1)))
      by by eapply grown_same.
    set (s2 := set_assemblers _ _) in *. clearbody s2.
    destruct r as [[]|e]; [|exact H2|by apply keeps_grown_handle_error].
    destruct (get_data a') as [data|e]; [|by apply keeps_grown_handle_error].
    destruct (cm_completed s2 !! tid); [|by eapply grown_same].
    assert (H3 : grown (Some tid) L0 (log_call (CallComplete tid z data) (forget tid s2)))
      by (apply grown_log; [done|by eapply grown_same]).
    destruct (outcome _ _); [exact H3|by apply keeps_grown_handle_error].
  - by apply keeps_grown_handle_error.
Qed.
End log.

(** Only completions reach a queue. *)
Lemma absorb_completions calls q :
  absorb calls q = absorb (filter (λ c, is_completion c = true) calls) q.
Proof.
  revert q. induction calls as [|c calls IH]; intros q; [done|]. rewrite filter_cons.
  destruct c; cbn; [|apply IH]. apply IH.
Qed.


Lemma completions_of tid new :
  Forall (λ c, is_completion c = true → Some (call_tid c) = Some tid) new →
  filter (λ c, is_completion c = true) new
  = filter (λ c, is_completion c = true) (filter (λ c, call_tid c = tid) new).
Proof.
  induction 1 as [|c new Hc _ IH]; [done|]. rewrite !filter_cons.
  destruct (decide (is_completion c = true)) as [Hi|Hi].
  - apply (inj Some) in Hc; [|done]. rewrite (decide_True _ _ Hc), filter_cons, decide_True by done.
    by rewrite IH.
  - destruct (decide (call_tid c = tid)); [|done]. by rewrite filter_cons, decide_False.
Qed.

Section delivery.
Context {M : MsgPack}.
Variable can_alloc : Z → bool.

(** A manager operation inside the transport, when its effect on the calls of
    its transfer is known. *)
Lemma on_chunks_calls o tid X s :
  op_tid o = Some tid →
  calls_of tid (exec can_alloc no_raise o (tr_chunks s)).2 = calls_of tid (tr_chunks s) ++ X →
  (on_chunks (exec can_alloc no_raise o) s).2
  = Transport (exec can_alloc no_raise o (tr_chunks s)).2 (absorb X (tr_queues s)) (tr_delivered s).
Proof.
  intros Ho HX. unfold on_chunks.
  pose proof (keeps_grown_exec can_alloc no_raise (cm_calls (tr_chunks s)) o (tr_chunks s)
                (grown_refl _ _)) as (new & E & Hn).
  destruct (exec can_alloc no_raise o (tr_chunks s)) as [r m]. cbn [fst snd] in *.
  unfold calls_of in HX. rewrite E in *. rewrite drop_app_length. f_equal.
  rewrite filter_app in HX. apply app_inv_head in HX. rewrite Ho in Hn.
  rewrite absorb_completions, (completions_of tid), HX by done.
  by rewrite <- absorb_completions.
Qed.

Lemma drain_nil key s : tr_queues s !! key = None → (drain key s).2 =
  Transport (tr_chunks s) (delete key (tr_queues s)) (tr_delivered s).
Proof. intros H. unfold drain. rewrite pm_bind_eq. cbn [get_state]. rewrite H. done. Qed.

Lemma drain_one key x s : tr_queues s !! key = Some [x] → (drain key s).2 =
  Transport (tr_chunks s) (delete key (tr_queues s)) (tr_delivered s ++ [(key, x)]).
Proof. intros H. unfold drain. rewrite pm_bind_eq. cbn [get_state]. rewrite H. done. Qed.

(** The message that carries chunk [i]. *)
Definition chunk_msg (subject reply tid : string) (i : Z) (data : list byte) : msg :=
  Msg subject reply (Some [("x-chunked-transfer", "chunk"); ("x-chunk-id", tid);
                           ("x-chunk-index", str_int i)]) data.

Lemma message_handler_chunk key t t' subject reply tid i data s :
  tid ≠ "" →
  (message_handler can_alloc key t t' (chunk_msg subject reply tid i data) s).2
  = let o := OpChunk t t' (received_chunk tid i data) in
    match (on_chunks (exec can_alloc no_raise o) s) with
    | (Ok _, s) => (drain key s).2
    | (Raise _, s) => s
    end.
Proof.
  intros Hne. unfold message_handler, try_except.
  change (header "x-chunked-transfer" _) with (Some "chunk").
  rewrite bool_decide_eq_false_2, bool_decide_eq_true_2 by done.
  change (header "x-chunk-id" _) with (Some tid). cbv iota beta.
  rewrite pm_bind_eq. unfold chunk_index. change (header "x-chunk-index" _) with (Some (str_int i)).
  change (default "0" (Some (str_int i))) with (str_int i). rewrite int_of_str_int.
  cbn [lift]. destruct tid as [|a tid]; [done|]. cbn [m_data chunk_msg]. rewrite pm_bind_eq.
  unfold exec. destruct (on_chunks _ s) as [[[]|e] s1]; [|done].
  unfold drain. rewrite pm_bind_eq. cbn [get_state]. rewrite pm_bind_eq. cbn [modify].
  by destruct (for_each _ _ _) as [[[]|e] s2].
Qed.

Section stream.
Variables (encoded : list byte) (tid : string) (m key : Z) (v : pyval).
Hypothesis Hm : (0 < m)%Z.
Hypothesis Ht : (0 < zlen encoded)%Z.
Hypothesis Htid : tid ≠ "".
Hypothesis Hv : decode_message encoded = Ok v.
Let n := total_chunks_of (zlen encoded) m.

Lemma no_raise_quiet : ∀ t cb e, no_raise (CallError t cb e) = None.
Proof. done. Qed.

Lemma carries_received i :
  chunk_transfer (received_chunk tid i (piece encoded m i)) = Some tid ∧
  carries encoded tid m (normalize_chunk tid (received_chunk tid i (piece encoded m i))) i.
Proof.
  split; [|by repeat split]. unfold chunk_transfer. cbn. by rewrite bool_decide_eq_false_2.
Qed.

(** One chunk message: stored; the last one calls the handler. *)
Lemma chunk_step t t' subject reply i s a last L :
  holds tid (Some a, Some key, Some key, Some last, L) (tr_chunks s) →
  spared t (Some last) → receiving encoded tid m a → a_chunk_size a = Some m →
  (0 ≤ i < n)%Z → tr_queues s !! key = None →
  let s' := (message_handler can_alloc key t t'
               (chunk_msg subject reply tid i (piece encoded m i)) s).2 in
  ∃ a', receiving encoded tid m a' ∧ a_chunk_size a' = Some m ∧
    a_received a' = {[i]} ∪ a_received a ∧ tr_queues s' !! key = None ∧
    tr_delivered s' = tr_delivered s ++ (if is_complete a' then [(key, v)] else []) ∧
    manager_wf (tr_chunks s') ∧
    (is_complete a' = false → holds tid (Some a', Some key, Some key, Some t', L) (tr_chunks s')).
Proof.
  intros Hs Hsp R Hsz Hi Hq. cbv zeta. rewrite message_handler_chunk by done. cbv zeta.
  set (o := OpChunk t t' _). destruct (carries_received i) as [Hct Hcar].
  assert (Hex : ∃ a', receiving encoded tid m a' ∧ a_chunk_size a' = Some m ∧
    a_received a' = {[i]} ∪ a_received a ∧ (exec can_alloc no_raise o (tr_chunks s)).1 = Ok tt ∧
    holds tid (if is_complete a' then (None, None, None, None, L ++ [verdict encoded tid key key])
               else (Some a', Some key, Some key, Some t', L))
          (exec can_alloc no_raise o (tr_chunks s)).2).
  { unfold o. cbn [exec]. rewrite process_chunk_eq, Hct.
    pose proof (holds_sweep no_raise tid (Some a, Some key, Some key, Some last, L) t Hsp _ Hs) as H1.
    pose proof (sweep_quiet no_raise no_raise_quiet t (tr_chunks s)) as Hok.
    destruct (sweep_stale no_raise t (tr_chunks s)) as [r s1]. cbn in Hok, H1. subst r.
    pose proof (holds_fields _ _ _ H1) as (_ & Ha1 & _). cbn in Ha1. rewrite Ha1.
    destruct (deliver_step no_raise encoded tid m key key Hm Ht t'
      (received_chunk tid i (piece encoded m i)) i s1 a last L H1 R Hsz Hi Hcar)
      as (a' & R' & Hsz' & Er & H2).
    exists a'. split_and!; [done..|apply deliver_quiet, no_raise_quiet|exact H2]. }
  destruct Hex as (a' & R' & Hsz' & Er & Hok & H2). exists a'. split_and!; [done..| | | |].
  all: pose proof Hs as (_ & _ & _ & _ & _ & HL)%holds_fields; cbn in HL.
  all: pose proof (holds_fields _ _ _ H2) as (Hwf' & _ & _ & _ & _ & HL').
  all: set (X := if is_complete a' then [verdict encoded tid key key] else []).
  all: assert (HX : calls_of tid (exec can_alloc no_raise o (tr_chunks s)).2
                    = calls_of tid (tr_chunks s) ++ X)
         by (rewrite HL, HL'; subst X; destruct (is_complete a'); cbn; by rewrite ?app_nil_r).
  all: pose proof (on_chunks_calls o tid X s Hct HX) as Hoc.
  all: assert (Hr : (on_chunks (exec can_alloc no_raise o) s).1 = Ok tt)
         by (unfold on_chunks; destruct (exec can_alloc no_raise o (tr_chunks s)); exact Hok).
  all: destruct (on_chunks (exec can_alloc no_raise o) s) as [r s1]; cbn in Hoc, Hr; subst r s1.
  all: subst X; unfold verdict in *; rewrite Hv in *.
  all: destruct (is_complete a') eqn:Ec.
  all: try (rewrite (drain_one key v) by (cbn; rewrite lookup_insert_eq, Hq; done)).
  all: try (rewrite drain_nil by done).
  all: cbn; rewrite ?app_nil_r, ?lookup_delete_eq; try done.
Qed.

(** The chunks of a transfer, each once, in any order. *)
Lemma chunks_run subject reply L : ∀ is_ times s a last,
  length times = length is_ →
  holds tid (Some a, Some key, Some key, Some last, L) (tr_chunks s) →
  (∀ t, t ∈ times → (t.1 - STALE_TRANSFER_TTL ≤ last)%Z) →
  (∀ t u, t ∈ times → u ∈ times → (t.1 - STALE_TRANSFER_TTL ≤ u.2)%Z) →
  receiving encoded tid m a → a_chunk_size a = Some m →
  NoDup is_ → is_ ≠ [] → Forall (λ i, (0 ≤ i < n)%Z ∧ i ∉ a_received a) is_ →
  (∀ i, (0 ≤ i < n)%Z → i ∈ is_ ∨ i ∈ a_received a) → tr_queues s !! key = None →
  let s' := receive_all can_alloc key
              (zip times ((λ i, chunk_msg subject reply tid i (piece encoded m i)) <$> is_)) s in
  tr_delivered s' = tr_delivered s ++ [(key, v)] ∧ tr_queues s' !! key = None ∧
  manager_wf (tr_chunks s').
Proof.
  induction is_ as [|i is_ IH]; intros times s a last Hlen Hs Hlast Htimes R Hsz Hnd Hne Hall Hcov Hq; [done|].
  destruct times as [|[t t'] times]; [done|]. injection Hlen as Hlen.
  apply NoDup_cons in Hnd as [Hi Hnd]. apply Forall_cons in Hall as [[Hin Hir] Hall].
  cbn [fmap list_fmap zip_with]. cbn [zip zip_with]. unfold receive_all in *. cbn [foldl].
  destruct (chunk_step t t' subject reply i s a last L Hs) as (a' & R' & Hsz' & Er & Hq' & Hd & Hwf & Hh);
    [cbn; by apply (Hlast (t, t')), list_elem_of_here|done..|].
  set (s1 := (message_handler _ _ _ _ _ s).2) in *. clearbody s1.
  assert (Hc : is_complete a' = bool_decide (is_ = [])).
  { apply eq_bool_prop_intro. rewrite !Is_true_true, bool_decide_eq_true.
    rewrite (complete_iff encoded tid m) by done. rewrite Er. split.
    - intros Hc. destruct is_ as [|j is_]; [done|]. apply Forall_cons in Hall as [[Hj Hjr] _].
      specialize (Hc j Hj). apply not_elem_of_cons in Hi as [Hij _]. set_solver.
    - intros -> j Hj. destruct (Hcov j Hj) as [Hj'|Hj']; [|set_solver].
      apply list_elem_of_singleton in Hj' as ->. set_solver. }
  destruct is_ as [|j is_].
  - rewrite bool_decide_eq_true_2 in Hc by done. rewrite Hc in Hd.
    destruct times; [|done]. cbn. by rewrite Hd.
  - rewrite bool_decide_eq_false_2 in Hc by done. rewrite Hc, app_nil_r in Hd. rewrite <- Hd.
    apply (IH times s1 a' t'); try done.
    + by apply Hh.
    + intros u Hu. apply (Htimes u (t, t')); [by apply list_elem_of_further|apply list_elem_of_here].
    + intros u w Hu Hw. apply Htimes; by apply list_elem_of_further.
    + apply Forall_forall. intros k Hk. rewrite Forall_forall in Hall. destruct (Hall k Hk) as [Hkn Hkr].
      split; [done|]. rewrite Er. intros [Hki%elem_of_singleton|]%elem_of_union; [|done]. by subst k.
    + intros k Hk. rewrite Er. destruct (Hcov k Hk) as [Hk'|Hk']; [|set_solver].
      apply elem_of_cons in Hk' as [->|Hk']; [set_solver|by left].
Qed.
End stream.
End delivery.

(** ** End to end *)

Section publish.
Context {M : MsgPack} {L : MsgPackLaws M}.
Variable can_alloc : Z → bool.

Lemma od_set_nonempty {A} k (x : A) d : ∃ kv d', od_set (K:=string) k x d = kv :: d'.
Proof. destruct d as [|[k' w] d]; cbn; [eauto|]. destruct (decide (k' = k)); eauto. Qed.

(** The headers of a transfer header message. *)
Definition transfer_headers (tid : string) (hdrs : list (string * string)) : list (string * string) :=
  od_set "x-chunk-id" tid (od_set "x-chunked-transfer" "header" hdrs).

Lemma transfer_headers_get tid hdrs subject reply data :
  let m := Msg subject reply (Some (transfer_headers tid hdrs)) data in
  header "x-chunked-transfer" m = Some "header" ∧ header "x-chunk-id" m = Some tid.
Proof.
  unfold header, transfer_headers. cbn [m_headers].
  destruct (od_set_nonempty "x-chunk-id" tid (od_set "x-chunked-transfer" "header" hdrs)) as (kv & d & E).
  rewrite E, <- E. split; [|apply od_get_set]. rewrite od_get_set_ne by done. apply od_get_set.
Qed.

Lemma header_msg_plain tid n total m :
  (0 ≤ n < 2 ^ 64)%Z → (0 ≤ total < 2 ^ 64)%Z → (0 ≤ m < 2 ^ 64)%Z →
  plain (header_msg tid n total m) = true.
Proof.
  intros Hn Ht Hm. unfold header_msg. cbn [plain forallb].
  assert (Hz : ∀ z, (0 ≤ z < 2 ^ 64)%Z → (- 2 ^ 63 <=? z)%Z && (z <? 2 ^ 64)%Z = true).
  { intros z Hz. apply andb_true_iff. split; [apply Z.leb_le|apply Z.ltb_lt]; lia. }
  rewrite !Hz by done. reflexivity.
Qed.

Lemma header_msg_decoded tid n total m b :
  (0 ≤ n < 2 ^ 64)%Z → (0 ≤ total < 2 ^ 64)%Z → (0 ≤ m < 2 ^ 64)%Z →
  encode (header_msg tid n total m) = Ok b →
  decode b = Ok (header_msg tid n total m) ∧
  read_header (header_msg tid n total m) tid = Ok (Some (n, Some total, Some m)).
Proof.
  intros Hn Ht Hm E. split.
  - unfold encode, decode in *. by rewrite (unpack_pack _ ext_hook _ _ (header_msg_plain tid n total m Hn Ht Hm) E).
  - unfold read_header, header_msg. change (dict_get "transferId" _) with (PStr tid).
    cbv iota. by rewrite bool_decide_eq_true_2.
Qed.

Lemma generate_id_nonempty now draws : generate_id now draws None ≠ "".
Proof. unfold generate_id. by destruct (str_int now). Qed.

Lemma total_chunks_le t m : (0 < m)%Z → (0 < t)%Z → (total_chunks_of t m ≤ t)%Z.
Proof. intros. destruct (total_chunks_bounds t m) as (? & ? & ?); [done..|]. nia. Qed.

Lemma imap_chunk_msgs encoded tid m subject reply (k : nat) n :
  imap (λ i c, Msg subject reply (Some [("x-chunked-transfer", "chunk"); ("x-chunk-id", tid);
                                        ("x-chunk-index", str_int (Z.of_nat (k + i)))])
                   (default [] (c_data c)))
       (sent_chunk encoded tid m <$> seqZ (Z.of_nat k) n)
  = (λ i, chunk_msg subject reply tid i (piece encoded m i)) <$> seqZ (Z.of_nat k) n.
Proof.
  apply list_eq. intros i. rewrite list_lookup_imap, !list_lookup_fmap.
  destruct (seqZ (Z.of_nat k) n !! i) as [z|] eqn:E; [|done].
  apply lookup_seqZ in E as [-> _]. cbn. unfold chunk_msg. do 3 f_equal. by rewrite Nat2Z.inj_add.
Qed.

(** What [publish] sends: one message, or a header and the chunks. *)
Lemma publish_messages mp now draws subject v headers reply ms h' :
  (0 < mp)%Z → publish true mp now draws subject v headers reply = (Ok ms, h') →
  ∃ encoded, encode_message v = Ok encoded ∧
    ((zlen encoded ≤ mp)%Z ∧ ms = [Msg subject (default "" reply) headers encoded] ∨
     (mp < zlen encoded)%Z ∧
     let tid := generate_id now draws None in
     let n := total_chunks_of (zlen encoded) mp in
     ∃ hb, encode (header_msg tid n (zlen encoded) mp) = Ok hb ∧
       ms = Msg subject (default "" reply) (Some (transfer_headers tid (headers_or_new headers))) hb ::
            ((λ i, chunk_msg subject (default "" reply) tid i (piece encoded mp i)) <$> seqZ 0 n)).
Proof.
  intros Hmp E. unfold publish in E. cbn [negb] in E.
  destruct (encode_message v) as [encoded|e]; [|done]. exists encoded. split; [done|].
  destruct (_ <=? _)%Z eqn:El; bool_to_prop; [left; by injection E as <- <-|].
  right. split; [lia|]. rewrite (proj2 (Z.eqb_neq _ _)) in E by lia. injection E as E _.
  apply result_bind_ok in E as (hb & Eh & E). exists hb. split; [done|].
  rewrite create_chunks_eq in E by lia. cbn [mbind result_bind] in E. injection E as <-.
  by rewrite <- (imap_chunk_msgs encoded _ mp subject (default "" reply) 0).
Qed.

Lemma header_step key t t' subject reply hdrs hb tid n total m s :
  tid ≠ "" → (0 ≤ n < 2 ^ 64)%Z → (0 ≤ total < 2 ^ 64)%Z → (0 ≤ m < 2 ^ 64)%Z →
  encode (header_msg tid n total m) = Ok hb →
  (message_handler can_alloc key t t' (Msg subject reply (Some (transfer_headers tid hdrs)) hb) s).2
  = (on_chunks (exec can_alloc no_raise
       (OpStart t t' tid n key key (Some total) (Some m))) s).2.
Proof.
  intros Hne Hn Ht Hm Eh. destruct (transfer_headers_get tid hdrs subject reply hb) as [H1 H2].
  destruct (header_msg_decoded tid n total m hb Hn Ht Hm Eh) as [Hd Hr].
  unfold message_handler, try_except. rewrite H1, bool_decide_eq_true_2 by done. rewrite pm_bind_eq. cbn [m_data]. rewrite Hd.
  cbn [lift]. rewrite H2. destruct tid as [|a tid]; [done|]. rewrite pm_bind_eq, Hr. cbn [lift].
  cbn [exec]. by destruct (on_chunks _ s) as [[[]|e] s1].
Qed.

Lemma plain_step key t t' m s v :
  header "x-chunked-transfer" m = None → decode_message (m_data m) = Ok v →
  (message_handler can_alloc key t t' m s).2
  = Transport (tr_chunks s) (tr_queues s) (tr_delivered s ++ [(key, v)]).
Proof.
  intros Hh Hd. unfold message_handler, try_except. rewrite Hh, !bool_decide_eq_false_2 by done. rewrite pm_bind_eq. by rewrite Hd.
Qed.

(** C10. Whatever [publish] sends for a plain value, however large, the
    receiving subscription's handler is called exactly once, with the
    delivered value: when the message fits in one payload, and when it goes
    as a header and chunks, even if the chunks arrive in another order, among
    any other transfers of the receiver, as long as they arrive within thirty
    seconds of each other. *)
Theorem publish_delivered v mp now draws subject headers reply ms h' key s times arrival :
  plain v = true → no_lookalike v = true → (0 < mp)%Z →
  (∀ b, encode_message v = Ok b → zlen b < 2 ^ 63)%Z →
  publish true mp now draws subject v headers reply = (Ok ms, h') →
  od_get "x-chunked-transfer" (headers_or_new headers) = None →
  head arrival = head ms → arrival ≡ₚ ms → length times = length arrival →
  (∀ t u, t ∈ times → u ∈ times → (t.1 - STALE_TRANSFER_TTL ≤ u.2)%Z) →
  manager_wf (tr_chunks s) → tr_queues s !! key = None →
  cm_assemblers (tr_chunks s) !! generate_id now draws None = None →
  let s' := receive_all can_alloc key (zip times arrival) s in
  tr_delivered s' = tr_delivered s ++ [(key, delivered v)] ∧ tr_queues s' !! key = None ∧
  manager_wf (tr_chunks s').
Proof.
  intros Hp Hn Hmp Hlt E Hnh Hhd Hperm Hlen Htimes Hwf Hq Hfree.
  apply publish_messages in E as (encoded & Ee & Hms); [|done].
  specialize (Hlt encoded Ee).
  assert (Hv : decode_message encoded = Ok (delivered v)) by by apply decode_encoded.
  destruct Hms as [[_ ->]|(Hgt & hb & Eh & ->)].
  - apply Permutation_singleton_r in Hperm as ->.
    destruct times as [|[t t'] [|]]; try done. unfold receive_all. cbn [zip zip_with foldl].
    rewrite (plain_step _ _ _ _ _ (delivered v)); [done| |done].
    unfold header. cbn [m_headers]. destruct headers as [[|h headers]|]; [done|exact Hnh|done].
  - set (tid := generate_id now draws None) in *. set (n := total_chunks_of (zlen encoded) mp) in *.
    destruct arrival as [|hd arrival]; [done|]. injection Hhd as ->.
    apply Permutation_cons_inv in Hperm.
    apply Permutation_map_inv in Hperm as (is_ & -> & Hperm).
    destruct times as [|[t t'] times]; [done|]. injection Hlen as Hlen.
    rewrite length_map in Hlen.
    pose proof (total_chunks_le (zlen encoded) mp Hmp ltac:(lia)) as Hnle. fold n in Hnle.
    destruct (total_chunks_bounds (zlen encoded) mp) as (Hn0 & _); [lia..|]. fold n in Hn0.
    unfold receive_all. cbn [zip zip_with foldl].
    rewrite (header_step key t t' _ _ _ hb tid n (zlen encoded) mp); [|apply generate_id_nonempty|lia..|done].
    destruct (start_step can_alloc no_raise encoded tid mp key key Hmp ltac:(lia) no_raise_quiet t t'
      (Some (zlen encoded)) (tr_chunks s) Hwf Hfree ltac:(by right) Hlt)
      as (a & Hs & R & Hsz & Hr0 & _). fold n in Hs.
    rewrite (on_chunks_calls can_alloc _ tid []); [|done|].
    2:{ cbn [exec]. rewrite app_nil_r. apply (holds_fields _ _ _ Hs). }
    set (s1 := Transport _ _ _). change (tr_delivered s) with (tr_delivered s1).
    apply (chunks_run can_alloc encoded tid mp key (delivered v) Hmp ltac:(lia)
      (generate_id_nonempty _ _) Hv subject (default "" reply) (calls_of tid (tr_chunks s))
      is_ times s1 a t'); try done.
    + intros u Hu. apply (Htimes u (t, t')); [by apply list_elem_of_further|apply list_elem_of_here].
    + intros u w Hu Hw. apply Htimes; by apply list_elem_of_further.
    + rewrite <- Hperm. apply NoDup_seqZ.
    + intros ->. apply Permutation_nil_r in Hperm. apply (f_equal length) in Hperm.
      rewrite length_seqZ in Hperm. cbn in Hperm. lia.
    + rewrite <- Hperm. apply Forall_forall. intros i Hi%elem_of_seqZ. fold n. rewrite Hr0.
      split; [lia|set_solver].
    + intros i Hi. left. rewrite <- Hperm. apply elem_of_seqZ. fold n in Hi. lia.
Qed.

(** A message marked as a transfer header never reaches the handler. *)
Lemma header_not_delivered key t t' m s :
  header "x-chunked-transfer" m = Some "header" →
  tr_delivered (message_handler can_alloc key t t' m s).2 = tr_delivered s.
Proof.
  intros Hh. unfold message_handler, try_except. rewrite Hh, bool_decide_eq_true_2 by done. rewrite pm_bind_eq. cbn [lift].
  destruct (decode (m_data m)) as [d|e]; [|done].
  destruct (header "x-chunk-id" m) as [[|a tid]|]; [done| |done].
  rewrite pm_bind_eq. cbn [lift]. destruct (read_header d _) as [[[[n total] csize]|]|e]; [|done..].
  unfold on_chunks. by destruct (start_receiving _ _ _ _ _ _ _ _ _ _ _) as [[[]|e] cm].
Qed.

Lemma encode_message_nonempty v b : encode_message v = Ok b → b ≠ [].
Proof.
  unfold encode_message. destruct (extract_binaries v []) as [t [|s segs]].
  - apply pack_nonempty.
  - intros E. apply result_bind_ok in E as (e & _ & E). apply result_bind_ok in E as (l & _ & E).
    by injection E as <-.
Qed.

(** After a chunked [publish] the caller's own headers dict carries the
    transfer-header marks, and any message later published with that dict,
    however small, is taken for a transfer header and never delivered; a
    message that fits leaves the dict alone. *)
Theorem reused_headers_lost mp now draws subject v h reply ms h' :
  h ≠ [] → (0 < mp)%Z → publish true mp now draws subject v (Some h) reply = (Ok ms, h') →
  (∃ b, encode_message v = Ok b ∧ (zlen b ≤ mp)%Z ∧ h' = Some h) ∨
  (∃ b, encode_message v = Ok b ∧ (mp < zlen b)%Z ∧
     ∀ now2 draws2 subject2 v2 b2 reply2,
       encode_message v2 = Ok b2 → (zlen b2 ≤ mp)%Z →
       ∃ m, publish true mp now2 draws2 subject2 v2 h' reply2 = (Ok [m], h') ∧
         ∀ key t t' s, tr_delivered (message_handler can_alloc key t t' m s).2 = tr_delivered s).
Proof.
  intros Hh Hmp E. pose proof E as E'. apply publish_messages in E' as (b & Eb & _); [|done].
  unfold publish in E. cbn [negb] in E. rewrite Eb in E.
  destruct (_ <=? _)%Z eqn:El; bool_to_prop.
  { left. exists b. by injection E as _ <-. }
  right. exists b. split; [done|]. split; [lia|]. intros now2 draws2 subject2 v2 b2 reply2 Eb2 Hb2.
  rewrite (proj2 (Z.eqb_neq _ _)) in E by lia. injection E as _ <-.
  destruct h as [|kv h]; [done|]. cbn [caller_headers headers_or_new default].
  exists (Msg subject2 (default "" reply2) (Some (transfer_headers (generate_id now draws None) (kv :: h))) b2).
  split.
  - unfold publish. cbn [negb]. rewrite Eb2. by rewrite (proj2 (Z.leb_le _ _)).
  - intros key t t' s. apply header_not_delivered. apply transfer_headers_get.
Qed.

(** [publish] on its error paths: nothing is sent without a connection
    or when the value does not encode, a payload limit of zero divides by
    zero, and none of these touches the caller's headers; with a negative
    limit (a server maximum below the 8 KiB reserve) a message of more than
    one byte goes out as nothing but a header that announces no chunk. *)
Theorem publish_errors now draws subject v headers reply :
  publish false 1 now draws subject v headers reply = (Raise (RuntimeError "Not connected"), headers) ∧
  match encode_message v with
  | Raise e => ∀ mp, publish true mp now draws subject v headers reply = (Raise e, headers)
  | Ok encoded =>
      publish true 0 now draws subject v headers reply = (Raise ZeroDivisionError, headers) ∧
      ∀ mp ms h', (mp < 0)%Z → (1 < zlen encoded)%Z → publish true mp now draws subject v headers reply = (Ok ms, h') →
        ∃ n total hdrs b, (n ≤ 0)%Z ∧ ms = [Msg subject (default "" reply) (Some hdrs) b] ∧
          encode (header_msg (generate_id now draws None) n total mp) = Ok b
  end.
Proof.
  split; [done|]. destruct (encode_message v) as [b|e] eqn:Eb; [|by intros mp; unfold publish; rewrite Eb].
  assert (Hb : (0 < zlen b)%Z).
  { pose proof (encode_message_nonempty v b Eb). unfold zlen. destruct b; [done|cbn; lia]. }
  split.
  - unfold publish. rewrite Eb. cbn [negb]. by rewrite (proj2 (Z.leb_gt _ _)).
  - intros mp ms h' Hmp Hb1 E. unfold publish in E. rewrite Eb in E. cbn [negb] in E.
    rewrite (proj2 (Z.leb_gt _ _)), (proj2 (Z.eqb_neq mp 0)) in E by lia.
    injection E as E _. apply result_bind_ok in E as (hb & Eh & E).
    apply result_bind_ok in E as (cs & Ec & E). injection E as <-.
    assert (Hn : (total_chunks_of (zlen b) mp ≤ 0)%Z).
    { unfold total_chunks_of. pose proof (Z.div_mod (zlen b + mp - 1) mp ltac:(lia)).
      pose proof (Z.mod_neg_bound (zlen b + mp - 1) mp ltac:(lia)). nia. }
    unfold create_chunks in Ec.
    rewrite (proj2 (Z.eqb_neq (zlen b) 0)), (proj2 (Z.eqb_neq mp 0)) in Ec by lia.
    assert (Hs : seqZ 0 (total_chunks_of (zlen b) mp) = []).
    { apply length_zero_iff_nil. rewrite length_seqZ. lia. }
    rewrite Hs in Ec. injection Ec as <-. eexists _, _, _, _. split; [exact Hn|]. split; [done|exact Eh].
Qed.
End publish.

(** ** Witnesses *)

Definition sent (mp : Z) (headers : option (list (string * string))) :=
  publish true mp 1700000000000 [1; 2; 3]%Z "rpc.x" small_value headers (Some "r").
Definition sent_msgs : list msg := match (sent 4 None).1 with Ok ms => ms | Raise _ => [] end.
(** the header, then the three chunks in reverse *)
Definition arrived_msgs : list msg :=
  match sent_msgs with hd :: rest => hd :: reverse rest | [] => [] end.
Definition arrival_times : list (Z * Z) := [(10, 10); (11, 12); (13, 13); (20000, 20001)]%Z.

Lemma publish_delivered_witness :
  let s' := receive_all (λ _, true) 7 (zip arrival_times arrived_msgs) new_transport in
  tr_delivered s' = [(7%Z, small_value)] ∧ tr_queues s' !! 7%Z = None ∧ manager_wf (tr_chunks s').
Proof.
  apply (publish_delivered (λ _, true) small_value 4 1700000000000 [1; 2; 3]%Z "rpc.x" None (Some "r")
           sent_msgs None 7 new_transport arrival_times arrived_msgs).
  - reflexivity.
  - reflexivity.
  - reflexivity.
  - intros b E. assert (b = small_payload) as -> by (unfold small_payload; by rewrite E).
    vm_compute. reflexivity.
  - vm_compute. reflexivity.
  - reflexivity.
  - vm_compute. reflexivity.
  - unfold arrived_msgs. destruct sent_msgs as [|hd rest]; [done|]. by rewrite reverse_Permutation.
  - vm_compute. reflexivity.
  - intros t u Ht Hu. assert (F : Forall (λ t, Forall (λ u, (t.1 - STALE_TRANSFER_TTL ≤ u.2)%Z) arrival_times)
                                      arrival_times) by (apply (bool_decide_unpack _); vm_compute; exact I).
    rewrite Forall_forall in F. specialize (F t Ht). rewrite Forall_forall in F. by apply F.
  - apply wf_new.
  - reflexivity.
  - reflexivity.
Defined.

Definition reused : option (list (string * string)) := (sent 4 (Some [("a", "b")])).2.

Lemma reused_headers_lost_witness :
  (∃ b, encode_message small_value = Ok b ∧ (zlen b ≤ 4)%Z ∧ reused = Some [("a", "b")]) ∨
  (∃ b, encode_message small_value = Ok b ∧ (4 < zlen b)%Z ∧
     ∀ now2 draws2 subject2 v2 b2 reply2,
       encode_message v2 = Ok b2 → (zlen b2 ≤ 4)%Z →
       ∃ m, publish true 4 now2 draws2 subject2 v2 reused reply2 = (Ok [m], reused) ∧
         ∀ key t t' s, tr_delivered (message_handler (λ _, true) key t t' m s).2 = tr_delivered s).
Proof.
  apply (reused_headers_lost (λ _, true) 4 1700000000000 [1; 2; 3]%Z "rpc.x" small_value [("a", "b")]
           (Some "r") (match (sent 4 (Some [("a", "b")])).1 with Ok ms => ms | Raise _ => [] end) reused).
  - discriminate.
  - reflexivity.
  - vm_compute. reflexivity.
Defined.

Lemma publish_errors_witness :
  publish true 0 1700000000000 [1]%Z "rpc.x" small_value None None = (Raise ZeroDivisionError, None) ∧
  ∃ n total hdrs b, (n ≤ 0)%Z ∧
    publish true (-1) 1700000000000 [1]%Z "rpc.x" small_value None None
    = (Ok [Msg "rpc.x" "" (Some hdrs) b], None) ∧
    encode (header_msg "1700000000000-1" n total (-1)) = Ok b.
Proof.
  destruct (publish_errors 1700000000000 [1]%Z "rpc.x" small_value None None) as [_ [H0 H1]].
  split; [exact H0|].
  destruct (publish true (-1) 1700000000000 [1]%Z "rpc.x" small_value None None) as [r h] eqn:E.
  assert (h = None) as -> by (vm_compute in E; by injection E as _ <-).
  destruct r as [ms|e]; [|vm_compute in E; discriminate].
  destruct (H1 (-1)%Z ms None ltac:(reflexivity) ltac:(vm_compute; reflexivity) E)
    as (n & total & hdrs & b & Hn & -> & Hb).
  exists n, total, hdrs, b. split; [exact Hn|]. split; [reflexivity|exact Hb].
Defined.
