(* ===== verification/Calls.v ===== *)
(** * Calls and the muxed reply inbox (client.py)

    Every RPC call of a client shares one reply inbox. The state is the
    client's call bookkeeping: the pending requests, the futures callers
    await, the armed timers, the status handlers and the chunking manager that
    reassembles large responses. The [n]-th call owns future [n] and timer
    [n]. A step is what the event loop runs without interruption: the part of
    [_call_once] before it publishes, one delivered message, one timer, the
    teardown up to the next hook it awaits. *)

From S2P Require Import Prelude Text PyVal Dict Errors MsgPack Codec Chunking ChunkingManager Ids Transport.

Inductive future := FPending | FResult (v : pyval) | FError (e : exn) | FCancelled.

(** An entry of [pending_requests]. Service calls have a cleanup hook and no
    subject. *)
Record pending := Pending {
  p_call : Z;
  p_subject : option string;
  p_cleanup : option string }.

(** An armed [call_later] with what its [handle_timeout] closes over. *)
Record timer := Timer { t_request : string; t_subject : string; t_timeout : Z }.

Record calls := Calls {
  cs_next : Z;
  cs_pending : list (string * pending);
  cs_futures : gmap Z future;
  cs_timers : gmap Z timer;
  cs_status : gmap string Z;
  (** status handlers invoked so far, with their argument *)
  cs_fired : list (Z * exn);
  cs_chunks : manager;
  (** a teardown that waits for the hook of its current request, with the
      requests still to settle *)
  cs_teardown : option (pending * list pending) }.

Definition new_calls : calls := Calls 0 [] ∅ ∅ ∅ [] new_manager None.

Definition upd_pending f (s : calls) : calls :=
  Calls (cs_next s) (f (cs_pending s)) (cs_futures s) (cs_timers s) (cs_status s) (cs_fired s)
        (cs_chunks s) (cs_teardown s).
Definition upd_futures f (s : calls) : calls :=
  Calls (cs_next s) (cs_pending s) (f (cs_futures s)) (cs_timers s) (cs_status s) (cs_fired s)
        (cs_chunks s) (cs_teardown s).
Definition upd_timers f (s : calls) : calls :=
  Calls (cs_next s) (cs_pending s) (cs_futures s) (f (cs_timers s)) (cs_status s) (cs_fired s)
        (cs_chunks s) (cs_teardown s).
Definition upd_status f (s : calls) : calls :=
  Calls (cs_next s) (cs_pending s) (cs_futures s) (cs_timers s) (f (cs_status s)) (cs_fired s)
        (cs_chunks s) (cs_teardown s).
Definition upd_chunks m (s : calls) : calls :=
  Calls (cs_next s) (cs_pending s) (cs_futures s) (cs_timers s) (cs_status s) (cs_fired s)
        m (cs_teardown s).
Definition upd_teardown t (s : calls) : calls :=
  Calls (cs_next s) (cs_pending s) (cs_futures s) (cs_timers s) (cs_status s) (cs_fired s)
        (cs_chunks s) t.
Definition fire h e (s : calls) : calls :=
  Calls (cs_next s) (cs_pending s) (cs_futures s) (cs_timers s) (cs_status s) (cs_fired s ++ [(h, e)])
        (cs_chunks s) (cs_teardown s).

(** ** Futures and timers *)

(** [future.done()] *)
Definition future_done (n : Z) (s : calls) : bool :=
  match cs_futures s !! n with Some FPending => false | _ => true end.

(** [future.set_result]/[set_exception]: [InvalidStateError] when done. *)
Definition settle (n : Z) (o : future) : pm exn calls unit := λ s,
  if future_done n s then (Raise (OtherError "invalid state"), s)
  else (Ok tt, upd_futures <[n := o]> s).

(** [future.cancel()] *)
Definition cancel_future (n : Z) : pm exn calls unit :=
  modify (λ s, if future_done n s then s else upd_futures <[n := FCancelled]> s).

(** [timeout_handle.cancel()] *)
Definition cancel_timer (n : Z) : pm exn calls unit := modify (upd_timers (delete n)).

(** [self.pending_requests.pop(rid, None)] *)
Definition pop_pending (rid : string) : pm exn calls (option pending) := λ s,
  (Ok (od_get rid (cs_pending s)), upd_pending (od_del rid) s).

(** ** Requests *)

(** The message of [_call_once] and the subject its reply comes to. *)
Definition call_message (rid : string) (args : list pyval) (discover : bool) : pyval :=
  PDict ([(PStr "id", PStr rid); (PStr "method", PStr "call"); (PStr "params", PTuple args)]
         ++ (if discover then [(PStr "__discover", PBool true)] else [])).

(** The registration both call paths start with. *)
Definition register_call (rid subject : string) (timeout : Z) (p : Z → pending) : pm exn calls Z := λ s,
  let n := cs_next s in
  (Ok n, Calls (n + 1) (od_set rid (p n) (cs_pending s)) (<[n := FPending]> (cs_futures s))
               (<[n := Timer rid subject timeout]> (cs_timers s)) (cs_status s) (cs_fired s)
               (cs_chunks s) (cs_teardown s)).

(** [_call_once] up to its [publish], for a connected client: the subject
    chooses the muxed or the service path. *)
Definition call_once (rid subject : string) (timeout : Z) : pm exn calls Z :=
  if startswith "rpc." subject
  then register_call rid subject timeout (λ n, Pending n (Some subject) None)
  else register_call rid subject timeout (λ n, Pending n None (Some rid)).

(** An unsettled future of a call that raises has no one left to see it. *)
Definition drop_future (n : Z) : pm exn calls unit :=
  modify (λ s, if future_done n s then s else upd_futures (delete n) s).

(** The [except] of [_call_once] around [publish]. *)
Definition publish_failed (n : Z) (rid : string) : pm exn calls unit :=
  p ← pop_pending rid;
  match p with
  | Some _ => cancel_timer n ≫= λ _, drop_future n
  | None => mret tt
  end.

(** [handle_timeout] of call [n]. *)
Definition timeout_error (t : timer) : exn :=
  TimeoutError ("RPC call to '" +:+ t_subject t +:+ "' timed out after " +:+ str_int (t_timeout t) +:+ "ms").
Definition handle_timeout (n : Z) (t : timer) : pm exn calls unit :=
  p ← pop_pending (t_request t);
  s ← get_state;
  match p with
  | Some _ => if future_done n s then mret tt else settle n (FError (timeout_error t))
  | None => mret tt
  end.

(** The event loop runs the timer of call [n], if it is armed. *)
Definition run_timer (n : Z) : pm exn calls unit :=
  s ← get_state;
  match cs_timers s !! n with
  | None => mret tt
  | Some t => cancel_timer n ≫= λ _, handle_timeout n t
  end.

(** ** Responses *)

(** [if "__methods" in response and isinstance(result, dict): ...] *)
Definition response_result (response : list (pyval * pyval)) : pyval :=
  match dict_lookup "__methods" response, dict_get "result" response with
  | Some ms, PDict result => PDict (dict_set "__methods" ms result)
  | _, result => result
  end.

(** What a response settles its call with; [from_dict] may raise. *)
Definition response_outcome (response : list (pyval * pyval)) : result exn future :=
  match dict_lookup "error" response with
  | Some error => e ← from_dict error; mret (FError (RPCError e))
  | None => Ok (FResult (response_result response))
  end.

(** [_route_mux_response] *)
Definition route_mux_response (data : pyval) : pm exn calls unit :=
  match data with
  | PDict response =>
      let request_id := dict_get "id" response in
      if negb (truthy request_id) then mret tt
      else
        match request_id with
        | PStr rid =>
            p ← pop_pending rid;
            match p with
            | None => mret tt
            | Some p =>
                cancel_timer (p_call p) ≫= λ _,
                s ← get_state;
                if future_done (p_call p) s then mret tt
                else o ← lift (response_outcome response); settle (p_call p) o
            end
        | PList _ | PDict _ | PByteArray _ => raise (TypeError "unhashable type")
        | _ => mret tt
        end
  | _ => mret tt
  end.

Section mux.
Context {M : MsgPack}.
Variable can_alloc : Z → bool.
(** [nats.js.api.Header.STATUS] and [NO_RESPONDERS_STATUS] *)
Variables STATUS NO_RESPONDERS_STATUS : string.

(** An empty message with a 503 status. *)
Definition is_no_responders (m : msg) : bool :=
  bool_decide (m_data m = []) && bool_decide (header STATUS m = Some NO_RESPONDERS_STATUS).

(** The no-responder branch of [_handle_mux_message]. *)
Definition route_status (suffix : string) : pm exn calls unit :=
  s ← get_state;
  match cs_status s !! suffix with
  | Some h => modify (λ s, fire h (NoRespondersError suffix) (upd_status (delete suffix) s))
  | None =>
      p ← pop_pending suffix;
      match p with
      | None => mret tt
      | Some p =>
          cancel_timer (p_call p) ≫= λ _,
          s ← get_state;
          let subject := match p_subject p with Some s => if bool_decide (s = "") then suffix else s
                                              | None => suffix end in
          if future_done (p_call p) s then mret tt
          else settle (p_call p) (FError (NoRespondersError subject))
      end
  end.

(** A call of the chunking manager: what it assembles is routed. An exception
    of the routing ends in [process_chunk]'s handler, which has nothing left
    to clean up. *)
Definition mux_chunks (op : pm exn manager unit) : pm exn calls unit := λ s,
  let '(r, m) := op (cs_chunks s) in
  let new_calls := drop (length (cm_calls (cs_chunks s))) (cm_calls m) in
  let '(_, s) := for_each new_calls
        (λ c, match c with
              | CallComplete _ _ data => try_except (route_mux_response data) (λ _, mret tt)
              | CallError _ _ _ => mret tt
              end) (upd_chunks m s) in
  (r, s).

(** [_handle_mux_message] *)
Definition handle_mux_message (now now' : Z) (m : msg) : pm exn calls unit :=
  if is_no_responders m then route_status (reply_suffix (m_subject m))
  else
    let chunk_type := header "x-chunked-transfer" m in
    if bool_decide (chunk_type = Some "header") then
      decoded ← lift (decode (m_data m));
      match header "x-chunk-id" m with
      | None | Some "" => mret tt
      | Some chunk_id =>
          fields ← lift (read_header decoded chunk_id);
          match fields with
          | None => mret tt
          | Some (total, size, csize) =>
              mux_chunks (start_receiving can_alloc no_raise now now' chunk_id total 0 0 size csize)
          end
      end
    else if bool_decide (chunk_type = Some "chunk") then
      match header "x-chunk-id" m with
      | None | Some "" => mret tt
      | Some chunk_id =>
          index ← lift (chunk_index m);
          mux_chunks (process_chunk no_raise now now' (received_chunk chunk_id index (m_data m)))
      end
    else data ← lift (decode_message (m_data m)); route_mux_response data.

(** ** Service calls *)

(** The part of [unsubscribe_all] before it awaits. *)
Definition unsubscribe_all (rid : string) : pm exn calls unit :=
  s ← get_state;
  match od_get rid (cs_pending s) with
  | Some p => cancel_timer (p_call p) ≫= λ _, modify (upd_pending (od_del rid))
  | None => mret tt
  end.

(** The [except] of [_call_once_service], which raises to the caller. *)
Definition service_failed (n : Z) (rid : string) : pm exn calls unit :=
  unsubscribe_all rid ≫= λ _, drop_future n.

(** [handle_rpc_response] of the service call [rid]. *)
Definition handle_service_response (rid : string) (data : pyval) : pm exn calls unit :=
  match data with
  | PDict response =>
      if is_key rid (dict_get "id" response) then
        s ← get_state;
        match od_get rid (cs_pending s) with
        | Some p =>
            modify (upd_pending (od_del rid)) ≫= λ _,
            cancel_timer (p_call p) ≫= λ _,
            s ← get_state;
            (if future_done (p_call p) s then mret tt
             else o ← lift (response_outcome response); settle (p_call p) o) ≫= λ _,
            unsubscribe_all rid
        | None => mret tt
        end
      else mret tt
  | _ => raise (AttributeError "object has no attribute 'get'")
  end.

(** [request_callback] of service call [n]. *)
Definition request_callback (n : Z) (rid subject : string) (m : msg) : pm exn calls unit :=
  if is_no_responders m then
    s ← get_state;
    (if future_done n s then mret tt else settle n (FError (NoRespondersError subject))) ≫= λ _,
    unsubscribe_all rid
  else mret tt.

(** ** Teardown *)

Definition connection_closed : exn :=
  RPCError (create_error (CodeEnum CONNECTION_CLOSED) "Connection closed" PNone).

(** The end of one round of [_cleanup_pending_requests]. *)
Definition reject (p : pending) : pm exn calls unit :=
  s ← get_state;
  if future_done (p_call p) s then mret tt else settle (p_call p) (FError connection_closed).

(** [_cleanup_pending_requests] over the requests still in its snapshot, up
    to the next hook it awaits; when none is left the dict is cleared, and
    the callers clear the status handlers with it. *)
Fixpoint cleanup_loop (ps : list pending) : pm exn calls unit :=
  match ps with
  | [] => modify (λ s, upd_status (λ _, ∅) (upd_pending (λ _, []) (upd_teardown None s)))
  | p :: ps =>
      cancel_timer (p_call p) ≫= λ _,
      match p_cleanup p with
      | Some rid => unsubscribe_all rid ≫= λ _, modify (upd_teardown (Some (p, ps)))
      | None => reject p ≫= λ _, cleanup_loop ps
      end
  end.
Definition cleanup_pending_requests : pm exn calls unit :=
  s ← get_state; cleanup_loop (cs_pending s).*2.
(** The awaited hook is done. *)
Definition resume_cleanup : pm exn calls unit :=
  s ← get_state;
  match cs_teardown s with
  | Some (p, ps) => reject p ≫= λ _, cleanup_loop ps
  | None => mret tt
  end.

(** ** Steps *)

Inductive event :=
| ECall (rid subject : string) (timeout : Z)
| EPublishFailed (n : Z) (rid : string)
| EMessage (now now' : Z) (m : msg)
| ETimer (n : Z)
(** the task that awaits call [n] is cancelled *)
| ECancel (n : Z)
| EServiceResponse (rid : string) (data : pyval)
| EServiceStatus (n : Z) (rid subject : string) (m : msg)
| EServiceFailed (n : Z) (rid : string)
| EAddStatus (suffix : string) (h : Z)
| EDropStatus (suffix : string)
| ETeardown
| EResume
(** [self.chunking_manager = ChunkingManager()] *)
| EResetChunks.

Definition run_event (e : event) : pm exn calls unit :=
  match e with
  | ECall rid subject timeout => call_once rid subject timeout ≫= λ _, mret tt
  | EPublishFailed n rid => publish_failed n rid
  | EMessage now now' m => handle_mux_message now now' m
  | ETimer n => run_timer n
  | ECancel n => cancel_future n
  | EServiceResponse rid data => handle_service_response rid data
  | EServiceStatus n rid subject m => request_callback n rid subject m
  | EServiceFailed n rid => service_failed n rid
  | EAddStatus suffix h => modify (upd_status <[suffix := h]>)
  | EDropStatus suffix => modify (upd_status (delete suffix))
  | ETeardown => cleanup_pending_requests
  | EResume => resume_cleanup
  | EResetChunks => modify (upd_chunks new_manager)
  end.

(** Exceptions end in the wrapper that prints them, or at the caller. *)
Definition step (s : calls) (e : event) : calls := (run_event e s).2.
Definition run_events (es : list event) (s : calls) : calls := foldl step s es.
End mux.
