(* ===== verification/CallsFrame.v ===== *)
(** * What the call machinery can change

    The operations of [Calls] reach the books only through a few primitives:
    they settle an unsettled future, cancel a timer, remove a request. A
    property that is [stable] under these is preserved by every handler; its
    [Q] names the calls the handlers may touch, [R] what they may settle them
    with, and [C] whether they may touch the chunking manager. *)

From S2P Require Import Prelude Text PyVal Dict Errors MsgPack Codec Chunking ChunkingManager Ids Transport Calls.

Record stable_with (P : calls → Prop) (Q : Z → Prop) (R : future → Prop) (C : Prop) : Prop := {
  st_pending : ∀ s rid p, P s → (rid, p) ∈ cs_pending s → Q (p_call p);
  st_timer : ∀ s n t, P s → cs_timers s !! n = Some t → Q n;
  st_settle : ∀ s n o, P s → Q n → R o → future_done n s = false →
    P (upd_futures <[n := o]> s);
  st_drop : ∀ s n, P s → Q n → future_done n s = false → P (upd_futures (delete n) s);
  st_cancel : ∀ s n, P s → P (upd_timers (delete n) s);
  st_pop : ∀ s rid, P s → P (upd_pending (od_del rid) s);
  st_status : ∀ s f, P s → P (upd_status f s);
  st_chunks : ∀ s m, P s → C → P (upd_chunks m s);
  st_fire : ∀ s h e, P s → P (fire h e s) }.
Abbreviation stable P Q := (stable_with P Q (λ o, o ≠ FPending) True).

Lemma response_outcome_done r o : response_outcome r = Ok o → o ≠ FPending.
Proof.
  unfold response_outcome. destruct (dict_lookup "error" r) as [e|].
  - intros H. apply result_bind_ok in H as (x & _ & H). by injection H as <-.
  - by intros [= <-].
Qed.

Section stable.
Context {M : MsgPack}.
Variable can_alloc : Z → bool.
Variables STATUS NO_RESPONDERS_STATUS : string.
Variables (P : calls → Prop) (Q : Z → Prop) (R : future → Prop) (C : Prop).
Hypothesis St : stable_with P Q R C.
(** What the client itself settles a call with. *)
Hypothesis own_outcomes :
  (∀ t, R (FError (timeout_error t))) ∧ (∀ s, R (FError (NoRespondersError s))) ∧ R (FError connection_closed) ∧
  R FCancelled.
Hypothesis response_outcomes : ∀ r o, response_outcome r = Ok o → R o.

Lemma keeps_settle n o : Q n → R o → keeps P (settle n o).
Proof. intros Hn Ho s Hs. unfold settle. destruct (future_done n s) eqn:E; [done|]. by eapply (st_settle _ _ _ _ St). Qed.

Lemma keeps_cancel n : keeps P (cancel_timer n).
Proof. intros s. by apply (st_cancel _ _ _ _ St). Qed.

Lemma keeps_drop n : Q n → keeps P (drop_future n).
Proof. intros Hn s Hs. cbn. destruct (future_done n s) eqn:E; [done|]. by eapply (st_drop _ _ _ _ St). Qed.

Lemma keeps_pop {A} rid (f : option pending → pm exn calls A) :
  keeps P (f None) → (∀ p, Q (p_call p) → keeps P (f (Some p))) → keeps P (pop_pending rid ≫= f).
Proof.
  intros Hn Hf s Hs. rewrite pm_bind_eq. cbn [pop_pending].
  assert (H : P (upd_pending (od_del rid) s)) by by eapply (st_pop _ _ _ _ St).
  destruct (od_get rid (cs_pending s)) as [p|] eqn:E; [|by apply Hn].
  apply Hf; [|done]. exact (st_pending _ _ _ _ St s rid p Hs (od_get_in _ _ _ E)).
Qed.

Lemma keeps_outcome n r : Q n → keeps P (o ← lift (response_outcome r); settle n o).
Proof.
  intros Hn s Hs. rewrite pm_bind_eq. cbn [lift]. destruct (response_outcome r) as [o|e] eqn:E; [|done].
  apply keeps_settle; [done|by eapply response_outcomes|done].
Qed.

(** Walks through a computation, one primitive or branch at a time. *)
Ltac keeps_step :=
  lazymatch goal with
  | |- keeps _ (match ?x with _ => _ end) => destruct x eqn:?
  | |- keeps _ (get_state ≫= _) => apply keeps_get; intros ? ?
  | |- keeps _ (pop_pending _ ≫= _) => apply keeps_pop; [|intros ? ?]
  | |- keeps _ (lift (response_outcome _) ≫= _) => apply keeps_outcome; done
  | |- keeps _ (_ ≫= _) => apply keeps_bind; [|intros ?]
  | |- keeps _ (try_except _ _) => apply keeps_try; [|intros ?]
  | |- keeps _ (mret _) => apply keeps_ret
  | |- keeps _ (raise _) => apply keeps_raise
  | |- keeps _ (lift _) => apply keeps_lift
  | |- keeps _ (cancel_timer _) => apply keeps_cancel
  | |- keeps _ (settle _ _) => apply keeps_settle; [done|apply own_outcomes]
  | |- keeps _ (drop_future _) => apply keeps_drop; done
  | |- keeps _ (modify _) => apply keeps_modify; intros ? ?;
      first [apply (st_status _ _ _ _ St) | apply (st_fire _ _ _ _ St), (st_status _ _ _ _ St)
            | apply (st_pop _ _ _ _ St)]; assumption
  end.
Ltac keeps_all := repeat keeps_step.

Lemma keeps_route data : keeps P (route_mux_response data).
Proof. unfold route_mux_response. keeps_all. Qed.

Lemma keeps_route_status suffix : keeps P (route_status suffix).
Proof. unfold route_status. keeps_all. Qed.

Lemma keeps_timer n : keeps P (run_timer n).
Proof.
  unfold run_timer, handle_timeout. apply keeps_get. intros s Hs.
  destruct (cs_timers s !! n) as [t|] eqn:Et; [|apply keeps_ret].
  assert (Hn : Q n) by exact (st_timer _ _ _ _ St s n t Hs Et). keeps_all.
Qed.

Lemma keeps_mux_chunks op : C → keeps P (mux_chunks op).
Proof.
  intros HC s Hs. unfold mux_chunks. destruct (op (cs_chunks s)) as [r m].
  assert (Hs1 : P (upd_chunks m s)) by by eapply (st_chunks _ _ _ _ St).
  match goal with |- context [for_each ?l ?f ?s1] => assert (H : keeps P (for_each l f)) end.
  { apply keeps_for_each. intros c _. destruct c; [|apply keeps_ret].
    apply keeps_try; [apply keeps_route|]. intros. apply keeps_ret. }
  specialize (H _ Hs1). by destruct (for_each _ _ _) as [r' s'].
Qed.

Lemma keeps_message now now' m :
  C → keeps P (handle_mux_message can_alloc STATUS NO_RESPONDERS_STATUS now now' m).
Proof.
  intros HC. unfold handle_mux_message. destruct (is_no_responders _ _ m); [apply keeps_route_status|].
  keeps_all; first [by apply keeps_mux_chunks|apply keeps_route].
Qed.

Lemma keeps_unsubscribe rid : keeps P (unsubscribe_all rid).
Proof. unfold unsubscribe_all. keeps_all. Qed.

Lemma keeps_service rid data : keeps P (handle_service_response rid data).
Proof.
  unfold handle_service_response. destruct data; try apply keeps_raise.
  destruct (is_key rid _); [|apply keeps_ret]. apply keeps_get. intros s Hs.
  destruct (od_get rid (cs_pending s)) as [p|] eqn:Ep; [|apply keeps_ret].
  assert (Hq : Q (p_call p)) by exact (st_pending _ _ _ _ St s rid p Hs (od_get_in _ _ _ Ep)). keeps_all. apply keeps_unsubscribe.
Qed.

Lemma keeps_callback n rid subject m :
  Q n → keeps P (request_callback STATUS NO_RESPONDERS_STATUS n rid subject m).
Proof. intros Hn. unfold request_callback. keeps_all; apply keeps_unsubscribe. Qed.

Lemma keeps_publish_failed n rid : Q n → keeps P (publish_failed n rid).
Proof. intros Hn. unfold publish_failed. keeps_all. Qed.

Lemma keeps_service_failed n rid : Q n → keeps P (service_failed n rid).
Proof. intros Hn. unfold service_failed. keeps_all. apply keeps_unsubscribe. Qed.

Lemma keeps_reject p : Q (p_call p) → keeps P (reject p).
Proof. intros Hn. unfold reject. keeps_all. Qed.

(** ** Whole events *)

(** New calls and teardowns too. *)
Definition stable_calls : Prop :=
  ∀ s rid subject timeout f, P s → (∀ n, p_call (f n) = n) → P (register_call rid subject timeout f s).2.
Record stable_teardown : Prop := {
  se_teardown : ∀ s t, P s → (∀ p ps, t = Some (p, ps) → Forall (λ q, Q (p_call q)) (p :: ps)) →
    P (upd_teardown t s);
  se_snapshot : ∀ s p ps, P s → cs_teardown s = Some (p, ps) → Forall (λ q, Q (p_call q)) (p :: ps);
  se_clear : ∀ s, P s → P (upd_pending (λ _, []) s) }.

(** The call an event names directly. *)
Definition event_call (e : event) : option Z :=
  match e with
  | EPublishFailed n _ | EServiceFailed n _ | EServiceStatus n _ _ _ | ECancel n => Some n
  | _ => None
  end.

(** An event that carries no response and makes no call. *)
Definition local_event (e : event) : bool :=
  match e with ECall _ _ _ | EMessage _ _ _ | EServiceResponse _ _ => false | _ => true end.

(** An event of the teardown itself. *)
Definition teardown_event (e : event) : bool := match e with ETeardown | EResume => true | _ => false end.

Lemma keeps_cleanup_loop (Se : stable_teardown) ps : Forall (λ q, Q (p_call q)) ps → keeps P (cleanup_loop ps).
Proof.
  induction ps as [|p ps IH]; intros Hps.
  - intros s Hs. apply (st_status _ _ _ _ St), (se_clear Se), (se_teardown Se); done.
  - pose proof Hps as [Hp Hps']%Forall_cons. cbn [cleanup_loop].
    apply keeps_bind; [apply keeps_cancel|]. intros _. destruct (p_cleanup p) as [rid|].
    + apply keeps_bind; [apply keeps_unsubscribe|]. intros _. apply keeps_modify. intros s Hs.
      apply (se_teardown Se); [done|]. by intros ? ? [= <- <-].
    + apply keeps_bind; [by apply keeps_reject|]. intros _. by apply IH.
Qed.

Lemma keeps_local_event e :
  local_event e = true → (e = EResetChunks → C) → (teardown_event e = true → stable_teardown) → (∀ n, event_call e = Some n → Q n) →
  keeps P (run_event can_alloc STATUS NO_RESPONDERS_STATUS e).
Proof.
  intros Hl Hr Se He. destruct e; try discriminate; cbn [run_event event_call] in *.
  - apply keeps_publish_failed; auto.
  - apply keeps_timer.
  - specialize (He n eq_refl). apply keeps_modify. intros s Hs.
    destruct (future_done n s) eqn:E; [done|]. apply (st_settle _ _ _ _ St); [done|done|apply own_outcomes|done].
  - apply keeps_callback; auto.
  - apply keeps_service_failed; auto.
  - apply keeps_modify. intros s. apply (st_status _ _ _ _ St).
  - apply keeps_modify. intros s. apply (st_status _ _ _ _ St).
  - unfold cleanup_pending_requests. apply keeps_get. intros s Hs. apply (keeps_cleanup_loop (Se eq_refl)).
    apply Forall_forall. intros p Hp. apply list_elem_of_fmap in Hp as ([rid p'] & -> & Hin).
    exact (st_pending _ _ _ _ St s rid p' Hs Hin).
  - unfold resume_cleanup. apply keeps_get. intros s Hs.
    destruct (cs_teardown s) as [[p ps]|] eqn:Et; [|apply keeps_ret].
    pose proof (se_snapshot (Se eq_refl) s p ps Hs Et) as [Hp Hps]%Forall_cons.
    apply keeps_bind; [by apply keeps_reject|]. intros _. by apply (keeps_cleanup_loop (Se eq_refl)).
  - apply keeps_modify. intros s Hs. apply (st_chunks _ _ _ _ St); auto.
Qed.

Lemma keeps_event e :
  stable_calls → stable_teardown → C → (∀ n, event_call e = Some n → Q n) →
  keeps P (run_event can_alloc STATUS NO_RESPONDERS_STATUS e).
Proof.
  intros Sc Se HC He. destruct e; try (by apply keeps_local_event); cbn [run_event].
  - apply keeps_bind; [|intros; apply keeps_ret]. unfold call_once. intros s Hs.
    destruct (startswith _ _); by apply Sc.
  - by apply keeps_message.
  - apply keeps_service.
Qed.
End stable.

(** The weakest such [R]. *)
Lemma own_settled :
  (∀ t, FError (timeout_error t) ≠ FPending) ∧ (∀ s, FError (NoRespondersError s) ≠ FPending) ∧
  FError connection_closed ≠ FPending ∧ FCancelled ≠ FPending.
Proof. done. Qed.
