(* ===== verification/CallsSpec.v ===== *)
(** * The accounting of calls

    The invariant behind the call machinery of [Calls]: every future a caller
    still waits for is reachable from an armed timer and a pending request,
    or is the one a suspended teardown will reject next. *)

From S2P Require Import Prelude Text PyVal Dict Errors MsgPack Codec Chunking ChunkingManager Ids Transport Calls CallsFrame.

(** ** The invariant *)

(** Call [n] is on the books: its timer is armed and its request pending. *)
Definition on_books (n : Z) (s : calls) : Prop :=
  ∃ p t, cs_timers s !! n = Some t ∧ od_get (t_request t) (cs_pending s) = Some p ∧ p_call p = n.

(** The books balance, calls in [X] excepted. *)
Record balanced (X : gset Z) (s : calls) : Prop := {
  bl_wf : od_wf (cs_pending s);
  bl_future : ∀ n, cs_futures s !! n = Some FPending → n ∉ X → on_books n s;
  bl_timer : ∀ n t, cs_timers s !! n = Some t → n ∉ X → on_books n s;
  bl_next : ∀ n, is_Some (cs_futures s !! n) → (n < cs_next s)%Z;
  bl_timer_next : ∀ n, is_Some (cs_timers s !! n) → (n < cs_next s)%Z;
  bl_call_next : ∀ rid p, od_get rid (cs_pending s) = Some p → (p_call p < cs_next s)%Z;
  bl_hook : ∀ rid p hook, od_get rid (cs_pending s) = Some p → p_cleanup p = Some hook → hook = rid;
  bl_inj : ∀ rid rid' p p', od_get rid (cs_pending s) = Some p →
    od_get rid' (cs_pending s) = Some p' → p_call p = p_call p' → rid = rid' }.

(** What a teardown may still leave in the dict it clears at its end. *)
Definition torn (ps : list pending) (s : calls) : Prop :=
  ∀ rid q, od_get rid (cs_pending s) = Some q →
    q ∈ ps ∨ cs_futures s !! p_call q ≠ Some FPending ∧ cs_timers s !! p_call q = None.

(** A hook still to run removes only its own request. *)
Definition hooked (ps : list pending) (s : calls) : Prop :=
  ∀ p rid q, p ∈ ps → p_cleanup p = Some rid → od_get rid (cs_pending s) = Some q → q = p.

Definition calls_inv (s : calls) : Prop :=
  match cs_teardown s with
  | None => balanced ∅ s
  | Some (p, ps) =>
      balanced {[p_call p]} s ∧ torn ps s ∧ hooked ps s ∧ cs_timers s !! p_call p = None
  end.

(** Removing request [rid] with its timer, its future no longer pending (or
    the call excepted). *)
Definition retired (X : gset Z) (rid : string) (n : Z) (s s' : calls) : Prop :=
  cs_next s' = cs_next s ∧ cs_pending s' = od_del rid (cs_pending s) ∧
  cs_timers s' = delete n (cs_timers s) ∧ (n ∈ X ∨ cs_futures s' !! n ≠ Some FPending) ∧
  (∀ j, j ≠ n → cs_futures s' !! j = cs_futures s !! j) ∧
  (is_Some (cs_futures s' !! n) → is_Some (cs_futures s !! n)) ∧
  cs_teardown s' = cs_teardown s.

Lemma retired_balanced X rid p s s' :
  balanced X s → od_get rid (cs_pending s) = Some p → retired X rid (p_call p) s s' → balanced X s'.
Proof.
  intros [H1 H2 H3 H4 H5 H6 Hh H7] Hp (E1 & E2 & E3 & E4 & E5 & E6 & _).
  assert (Hb : ∀ j, j ≠ p_call p → on_books j s → on_books j s').
  { intros j Hj (q & t & Ht & Hq & Hc). exists q, t. rewrite E2, E3, lookup_delete_ne by done.
    split; [done|]. split; [|done]. rewrite od_get_del_ne; [done|].
    intros Hr. rewrite <- Hr in Hq. congruence. }
  split.
  - rewrite E2. by apply od_wf_del.
  - intros j Hj Hx. destruct (decide (j = p_call p)) as [->|Hne]; [by destruct E4|].
    rewrite E5 in Hj by done. apply Hb; auto.
  - intros j t Hj Hx. rewrite E3 in Hj. apply lookup_delete_Some in Hj as [Hne Hj]. apply Hb; eauto.
  - intros j Hj. rewrite E1. apply H4. destruct (decide (j = p_call p)) as [->|Hne]; [auto|].
    by rewrite E5 in Hj.
  - intros j Hj. rewrite E1. apply H5. rewrite E3 in Hj.
    destruct Hj as [t [_ Hj]%lookup_delete_Some]. eauto.
  - intros r q Hq. rewrite E1. apply (H6 r). rewrite E2 in Hq.
    destruct (decide (rid = r)) as [->|]; [by rewrite od_get_del in Hq|by rewrite od_get_del_ne in Hq].
  - intros r q hook Hq Hk. rewrite E2 in Hq.
    destruct (decide (rid = r)) as [->|]; [by rewrite od_get_del in Hq|].
    rewrite od_get_del_ne in Hq by done. eauto.
  - intros r r' q q' Hq Hq'. rewrite E2 in Hq, Hq'.
    destruct (decide (rid = r)) as [->|]; [by rewrite od_get_del in Hq|].
    destruct (decide (rid = r')) as [->|]; [by rewrite od_get_del in Hq'|].
    rewrite od_get_del_ne in Hq, Hq' by done. eauto.
Qed.

(** ** Losing ground

    Everything but a new call only removes requests and timers and settles
    futures. *)
Record shrinks (s s' : calls) : Prop := {
  sh_next : cs_next s' = cs_next s;
  sh_pending : ∀ rid q, od_get rid (cs_pending s') = Some q → od_get rid (cs_pending s) = Some q;
  sh_future : ∀ n, cs_futures s' !! n = Some FPending → cs_futures s !! n = Some FPending;
  sh_timer : ∀ n t, cs_timers s' !! n = Some t → cs_timers s !! n = Some t;
  sh_teardown : cs_teardown s' = cs_teardown s }.

Lemma shrinks_refl s : shrinks s s.
Proof. by split. Qed.

Lemma shrinks_trans s1 s2 s3 : shrinks s1 s2 → shrinks s2 s3 → shrinks s1 s3.
Proof.
  intros [? ? ? ? ?] [? ? ? ? ?]. split; auto; congruence.
Qed.

Lemma shrinks_torn ps s s' : shrinks s s' → torn ps s → torn ps s'.
Proof.
  intros [_ Hp Hf Ht _] H rid q Hq. destruct (H rid q (Hp _ _ Hq)) as [|[H1 H2]]; [auto|right].
  split; [auto|]. destruct (cs_timers s' !! p_call q) as [t|] eqn:E; [|done]. apply Ht in E. congruence.
Qed.

(** The state is one that [s0] shrinks to. *)
Definition from (s0 : calls) : calls → Prop := shrinks s0.

Lemma del_pending_shrinks rid s : shrinks s (upd_pending (od_del rid) s).
Proof.
  split; try done. cbn. intros r q Hq. destruct (decide (rid = r)) as [->|].
  - by rewrite od_get_del in Hq.
  - by rewrite od_get_del_ne in Hq.
Qed.

Lemma cancel_shrinks n s : shrinks s (upd_timers (delete n) s).
Proof. split; try done. cbn. intros j t. rewrite lookup_delete_Some. by intros [_ ?]. Qed.

Lemma stable_from s0 : stable (from s0) (λ _, True).
Proof.
  split; try done; intros s.
  - intros n o Hs _ Ho _. eapply shrinks_trans; [exact Hs|]. split; try done. cbn. intros j.
    destruct (decide (n = j)) as [<-|]; [rewrite lookup_insert_eq; congruence|by rewrite lookup_insert_ne].
  - intros n Hs _ _. eapply shrinks_trans; [exact Hs|]. split; try done. cbn. intros j.
    rewrite lookup_delete_Some. by intros [_ ?].
  - intros n Hs. eapply shrinks_trans; [exact Hs|apply cancel_shrinks].
  - intros rid Hs. eapply shrinks_trans; [exact Hs|apply del_pending_shrinks].
  - intros f Hs. eapply shrinks_trans; [exact Hs|by split].
  - intros m Hs _. eapply shrinks_trans; [exact Hs|by split].
  - intros h e Hs. eapply shrinks_trans; [exact Hs|by split].
Qed.

(** A modification of the status handlers, the log or the chunk manager. *)
Definition same_books (s s' : calls) : Prop :=
  cs_next s' = cs_next s ∧ cs_pending s' = cs_pending s ∧ cs_futures s' = cs_futures s ∧
  cs_timers s' = cs_timers s ∧ cs_teardown s' = cs_teardown s.

Lemma same_books_shrinks s s' : same_books s s' → shrinks s s'.
Proof. intros (E1 & E2 & E3 & E4 & E5). split; rewrite ?E2, ?E3, ?E4; auto. Qed.

Lemma same_books_balanced X s s' : same_books s s' → balanced X s → balanced X s'.
Proof.
  intros (E1 & E2 & E3 & E4 & E5) [? H2 H3 ? ? ? ? ?].
  assert (Hb : ∀ n, on_books n s → on_books n s').
  { intros n (p & t & ?). exists p, t. by rewrite E4, E2. }
  split; rewrite ?E1, ?E2, ?E3, ?E4; try done; eauto.
Qed.

Section spec.
Context {M : MsgPack}.
Variable can_alloc : Z → bool.
Variables STATUS NO_RESPONDERS_STATUS : string.
Abbreviation step := (Calls.step can_alloc STATUS NO_RESPONDERS_STATUS).
Abbreviation run_event := (Calls.run_event can_alloc STATUS NO_RESPONDERS_STATUS).
Abbreviation run_events := (Calls.run_events can_alloc STATUS NO_RESPONDERS_STATUS).

(** ** Operations keep the books balanced *)

Definition wf_response (data : pyval) : bool :=
  match data with
  | PDict r => match dict_lookup "error" r with Some e => is_ok (from_dict e) | None => true end
  | _ => true
  end.

Lemma wf_response_outcome r : wf_response (PDict r) = true → ∃ o, response_outcome r = Ok o.
Proof.
  unfold wf_response, response_outcome. destruct (dict_lookup "error" r) as [e|]; [|eauto].
  destruct (from_dict e) as [x|x]; [eauto|done].
Qed.

Lemma not_done n s : future_done n s = false → cs_futures s !! n = Some FPending.
Proof. unfold future_done. destruct (cs_futures s !! n) as [[]|]; done. Qed.
Lemma done_not_pending n s : future_done n s = true → cs_futures s !! n ≠ Some FPending.
Proof. unfold future_done. by destruct (cs_futures s !! n) as [[]|]. Qed.

(** The state after popping [rid] and cancelling its timer. *)
Definition popped (rid : string) (n : Z) (s : calls) : calls :=
  upd_timers (delete n) (upd_pending (od_del rid) s).

Lemma popped_done X rid n s : future_done n s = true → retired X rid n s (popped rid n s).
Proof. intros H. split_and!; try done. right. by apply done_not_pending. Qed.

Lemma popped_settled X rid n s o :
  future_done n s = false → o ≠ FPending →
  settle n o (popped rid n s) = (Ok tt, upd_futures <[n := o]> (popped rid n s)) ∧
  retired X rid n s (upd_futures <[n := o]> (popped rid n s)).
Proof.
  intros Hd Ho. split.
  - unfold settle. change (future_done n (popped rid n s)) with (future_done n s). by rewrite Hd.
  - split_and!; try done; cbn.
    + right. rewrite lookup_insert_eq. congruence.
    + intros j Hj. by rewrite lookup_insert_ne.
    + intros _. rewrite (not_done n s Hd). eauto.
Qed.

(** [if future.done(): ... else: future.set_...(o)] after the removal. *)
Lemma popped_balanced X rid p s (k : pm exn calls unit) :
  balanced X s → od_get rid (cs_pending s) = Some p →
  (future_done (p_call p) s = true → k (popped rid (p_call p) s) = (Ok tt, popped rid (p_call p) s)) →
  (future_done (p_call p) s = false → ∃ o, o ≠ FPending ∧
     k (popped rid (p_call p) s) = settle (p_call p) o (popped rid (p_call p) s)) →
  balanced X (k (popped rid (p_call p) s)).2.
Proof.
  intros Hb Hp Hdone Hset. destruct (future_done (p_call p) s) eqn:Ed.
  - rewrite Hdone by done. eapply retired_balanced; [exact Hb|exact Hp|]. by apply popped_done.
  - destruct (Hset eq_refl) as (o & Ho & ->). destruct (popped_settled X rid (p_call p) s o Ed Ho) as [-> Hr].
    by eapply retired_balanced.
Qed.

Lemma od_del_absent {A} k (d : list (string * A)) : od_get k d = None → od_del k d = d.
Proof.
  induction d as [|[j w] d IH]; [done|]. cbn. destruct (decide (j = k)); [done|].
  intros H. rewrite od_del_cons, decide_False by done. by rewrite IH.
Qed.

Lemma upd_pending_absent rid s : od_get rid (cs_pending s) = None → upd_pending (od_del rid) s = s.
Proof. intros H. destruct s. unfold upd_pending. cbn in *. by rewrite od_del_absent. Qed.

Lemma route_eq data s :
  route_mux_response data s =
    match data with
    | PDict r =>
        if negb (truthy (dict_get "id" r)) then (Ok tt, s)
        else
          match dict_get "id" r with
          | PStr rid =>
              match od_get rid (cs_pending s) with
              | None => (Ok tt, s)
              | Some p =>
                  (if future_done (p_call p) s then mret tt
                   else o ← lift (response_outcome r); settle (p_call p) o) (popped rid (p_call p) s)
              end
          | PList _ | PDict _ | PByteArray _ => (Raise (TypeError "unhashable type"), s)
          | _ => (Ok tt, s)
          end
    | _ => (Ok tt, s)
    end.
Proof.
  destruct data; try done. cbn. destruct (negb _); [done|]. destruct (dict_get "id" kvs); try done.
  rewrite pm_bind_eq. cbn. destruct (od_get s0 (cs_pending s)) as [p|] eqn:Ep; [|by rewrite upd_pending_absent].
  rewrite pm_bind_eq. cbn. rewrite pm_bind_eq. cbn [get_state].
  change (future_done (p_call p) (upd_timers _ _)) with (future_done (p_call p) s).
  by destruct (future_done (p_call p) s).
Qed.

(** A response settles the call it names, if that still waits. *)
Lemma route_settles response rid p o s :
  dict_get "id" response = PStr rid → rid ≠ "" → response_outcome response = Ok o →
  od_get rid (cs_pending s) = Some p → cs_futures s !! p_call p = Some FPending →
  cs_futures (route_mux_response (PDict response) s).2 !! p_call p = Some o.
Proof.
  intros Hid Hr Ho Hp Hf. rewrite route_eq, Hid. cbn [truthy].
  rewrite bool_decide_eq_false_2 by done. cbn [negb]. rewrite Hp.
  assert (Hd : future_done (p_call p) s = false) by (unfold future_done; by rewrite Hf).
  rewrite Hd, pm_bind_eq, Ho. cbn [lift].
  destruct (popped_settled ∅ rid (p_call p) s o Hd (response_outcome_done _ _ Ho)) as [-> _]. apply lookup_insert_eq.
Qed.

(** A message that is no part of a transfer is routed as it decodes. *)
Lemma plain_message now now' m s data :
  m_headers m = None → decode_message (m_data m) = Ok data →
  step s (EMessage now now' m) = (route_mux_response data s).2.
Proof.
  intros Hh Hd. unfold Calls.step. cbn [Calls.run_event]. unfold handle_mux_message, is_no_responders, header.
  rewrite Hh, andb_comm, bool_decide_eq_false_2 by done. cbn [andb].
  rewrite !bool_decide_eq_false_2 by done. by rewrite pm_bind_eq, Hd.
Qed.

Lemma route_balanced X s data :
  balanced X s → wf_response data = true → balanced X (route_mux_response data s).2.
Proof.
  intros Hb Hw. rewrite route_eq. destruct data; try done. destruct (negb _); [done|].
  destruct (dict_get "id" kvs); try done. destruct (od_get s0 (cs_pending s)) as [p|] eqn:Ep; [|done].
  apply popped_balanced; [done|done| |].
  - by intros ->.
  - intros ->. destruct (wf_response_outcome kvs Hw) as [o Eo].
    exists o. split; [by eapply response_outcome_done|]. by rewrite Eo.
Qed.

Lemma route_status_balanced X s suffix : balanced X s → balanced X (route_status suffix s).2.
Proof.
  intros Hb. unfold route_status. rewrite pm_bind_eq. cbn [get_state].
  destruct (cs_status s !! suffix); [by eapply same_books_balanced; [|exact Hb]|].
  rewrite pm_bind_eq. cbn. destruct (od_get suffix (cs_pending s)) as [p|] eqn:Ep;
    [|by rewrite upd_pending_absent].
  rewrite pm_bind_eq. cbn. rewrite pm_bind_eq. cbn [get_state].
  apply popped_balanced; [done|done| |].
  - change (future_done (p_call p) (upd_timers _ _)) with (future_done (p_call p) s). by intros ->.
  - change (future_done (p_call p) (upd_timers _ _)) with (future_done (p_call p) s). intros ->.
    eexists. split; [|reflexivity]. done.
Qed.

Lemma mux_chunks_balanced X s op :
  balanced X s →
  (let m := (op (cs_chunks s)).2 in
   Forall (λ c, match c with CallComplete _ _ d => wf_response d = true | _ => True end)
          (drop (length (cm_calls (cs_chunks s))) (cm_calls m))) →
  balanced X (mux_chunks op s).2.
Proof.
  intros Hb Hw. unfold mux_chunks. destruct (op (cs_chunks s)) as [r m]. cbn in Hw.
  assert (Hb1 : balanced X (upd_chunks m s)).
  { eapply same_books_balanced; [|exact Hb]. by repeat split. }
  generalize dependent (upd_chunks m s). intros s1 Hb1. clear Hb.
  match goal with |- balanced X (let '(_, _) := for_each ?cs ?f _ in _).2 =>
    enough (H : balanced X (for_each cs f s1).2) by (destruct (for_each cs f s1); exact H) end.
  revert s1 Hb1. induction Hw as [|c l Hc _ IH]; intros s1 Hb1; [exact Hb1|].
  cbn [for_each]. rewrite pm_bind_eq. destruct c as [t cb d|t cb e]; [|by apply IH].
  unfold try_except. pose proof (route_balanced X s1 d Hb1 Hc) as H2.
  destruct (route_mux_response d s1) as [[[]|e] s2]; cbn; by apply IH.
Qed.

Lemma unsubscribe_eq rid s :
  unsubscribe_all rid s =
    (Ok tt, match od_get rid (cs_pending s) with Some p => popped rid (p_call p) s | None => s end).
Proof. unfold unsubscribe_all. rewrite pm_bind_eq. cbn [get_state]. by destruct (od_get rid _). Qed.

Lemma settle_balanced X n o s : o ≠ FPending → balanced X s → balanced X (settle n o s).2.
Proof.
  intros Ho [H1 H2 H3 H4 H5 H6 Hh H7]. unfold settle. destruct (future_done n s) eqn:Ed; [by split|].
  split; try done; cbn.
  - intros j Hj Hx. destruct (decide (n = j)) as [<-|]; [rewrite lookup_insert_eq in Hj; congruence|].
    rewrite lookup_insert_ne in Hj by done. by apply H2.
  - intros j Hj. apply H4. destruct (decide (n = j)) as [<-|]; [rewrite (not_done n s Ed); eauto|].
    by rewrite lookup_insert_ne in Hj.
Qed.

Lemma drop_balanced X n s : balanced X s → balanced X (drop_future n s).2.
Proof.
  intros [H1 H2 H3 H4 H5 H6 Hh H7]. cbn. destruct (future_done n s); [by split|].
  split; try done; cbn.
  - intros j [_ Hj]%lookup_delete_Some. by apply H2.
  - intros j [o [_ Hj]%lookup_delete_Some]. apply H4. eauto.
Qed.

Lemma timer_balanced X n s :
  balanced X s → (n ∈ X → cs_timers s !! n = None) → balanced X (run_timer n s).2.
Proof.
  intros Hb Hx. unfold run_timer. rewrite pm_bind_eq. cbn [get_state].
  destruct (cs_timers s !! n) as [t|] eqn:Et; [|done].
  destruct (bl_timer X s Hb n t Et) as (p & t' & Et' & Hp & <-);
    [intros Hn; specialize (Hx Hn); congruence|].
  rewrite Et in Et'. injection Et' as <-. rewrite pm_bind_eq. cbn. unfold handle_timeout.
  rewrite pm_bind_eq. cbn. rewrite Hp, pm_bind_eq. cbn [get_state].
  change (upd_pending _ (upd_timers _ s)) with (popped (t_request t) (p_call p) s).
  change (future_done (p_call p) (popped _ _ s)) with (future_done (p_call p) s).
  apply (popped_balanced X _ p s (if future_done (p_call p) s then mret tt else _)); [done|done| |].
  - by intros ->.
  - intros ->. eexists. split; [|reflexivity]. done.
Qed.

(** A response to a service call, on every branch. *)
Lemma service_response_eq rid data s :
  handle_service_response rid data s =
    match data with
    | PDict r =>
        if is_key rid (dict_get "id" r) then
          match od_get rid (cs_pending s) with
          | None => (Ok tt, s)
          | Some p =>
              let s' := popped rid (p_call p) s in
              if future_done (p_call p) s then (Ok tt, s')
              else match response_outcome r with
                   | Ok o => (Ok tt, upd_futures <[p_call p := o]> s')
                   | Raise e => (Raise e, s')
                   end
          end
        else (Ok tt, s)
    | _ => (Raise (AttributeError "object has no attribute 'get'"), s)
    end.
Proof.
  unfold handle_service_response. destruct data; try done. destruct (is_key rid _); [|done].
  rewrite pm_bind_eq. cbn [get_state]. destruct (od_get rid (cs_pending s)) as [p|] eqn:Ep; [|done].
  rewrite pm_bind_eq. cbn. rewrite pm_bind_eq. cbn. rewrite pm_bind_eq. cbn [get_state].
  change (upd_timers _ (upd_pending _ s)) with (popped rid (p_call p) s).
  change (future_done (p_call p) (popped _ _ s)) with (future_done (p_call p) s).
  destruct (future_done (p_call p) s) eqn:Ed.
  - rewrite pm_bind_eq. cbn [mret pm_ret]. rewrite unsubscribe_eq.
    replace (od_get rid (cs_pending (popped rid (p_call p) s))) with (@None pending); [done|].
    symmetry. apply od_get_del.
  - rewrite pm_bind_eq, (pm_bind_eq (lift _)). cbn [lift]. destruct (response_outcome kvs) as [o|e]; [|done].
    unfold settle. change (future_done (p_call p) (popped _ _ s)) with (future_done (p_call p) s). rewrite Ed, unsubscribe_eq.
    replace (od_get rid _) with (@None pending); [done|]. symmetry. apply od_get_del.
Qed.

Lemma service_balanced X rid data s :
  balanced X s → wf_response data = true → balanced X (handle_service_response rid data s).2.
Proof.
  intros Hb Hw. rewrite service_response_eq. destruct data; try done. destruct (is_key rid _); [|done].
  destruct (od_get rid (cs_pending s)) as [p|] eqn:Ep; [|done].
  destruct (wf_response_outcome kvs Hw) as [o Eo]. rewrite Eo. cbn zeta.
  destruct (future_done (p_call p) s) eqn:Ed; (eapply retired_balanced; [exact Hb|exact Ep|]).
  - by apply popped_done.
  - by apply popped_settled, (response_outcome_done kvs).
Qed.

Lemma unsubscribe_balanced X rid s :
  balanced X s →
  (∀ p, od_get rid (cs_pending s) = Some p → cs_futures s !! p_call p ≠ Some FPending) →
  balanced X (unsubscribe_all rid s).2.
Proof.
  intros Hb Hp. rewrite unsubscribe_eq. cbn. destruct (od_get rid (cs_pending s)) as [p|] eqn:Ep; [|done].
  eapply retired_balanced; [exact Hb|exact Ep|]. apply popped_done. unfold future_done.
  specialize (Hp p eq_refl). by destruct (cs_futures s !! p_call p) as [[]|].
Qed.

Lemma callback_balanced X n rid subject m s :
  balanced X s → (∀ p, od_get rid (cs_pending s) = Some p → p_call p = n) →
  balanced X (request_callback STATUS NO_RESPONDERS_STATUS n rid subject m s).2.
Proof.
  intros Hb Hp. unfold request_callback. destruct (is_no_responders _ _ m); [|done].
  rewrite pm_bind_eq. cbn [get_state]. rewrite pm_bind_eq.
  destruct (future_done n s) eqn:Ed; cbn.
  - apply unsubscribe_balanced; [done|]. intros p Hq. rewrite (Hp p Hq). by apply done_not_pending.
  - unfold settle at 1. rewrite Ed.
    pose proof (settle_balanced X n (FError (NoRespondersError subject)) s ltac:(done) Hb) as H1.
    unfold settle in H1. rewrite Ed in H1. cbn in H1. apply unsubscribe_balanced; [done|].
    intros p Hq. rewrite (Hp p Hq). cbn. rewrite lookup_insert_eq. congruence.
Qed.

Lemma failed_balanced X n rid s :
  balanced X s → (∀ p, od_get rid (cs_pending s) = Some p → p_call p = n) →
  balanced X (drop_future n (match od_get rid (cs_pending s) with
                             | Some p => popped rid (p_call p) s | None => s end)).2.
Proof.
  intros Hb Hp. destruct (od_get rid (cs_pending s)) as [p|] eqn:Ep; [|by apply drop_balanced].
  specialize (Hp p eq_refl). subst n. eapply retired_balanced; [exact Hb|exact Ep|].
  cbn. change (future_done (p_call p) (popped _ _ s)) with (future_done (p_call p) s).
  destruct (future_done (p_call p) s) eqn:Ed; [by apply popped_done|]. split_and!; try done; cbn.
  - right. by rewrite lookup_delete_eq.
  - intros j Hj. by rewrite lookup_delete_ne.
  - rewrite lookup_delete_eq. by intros [? ?].
Qed.

(** ** Teardown *)

Lemma reject_eq p s :
  reject p s = (Ok tt, if future_done (p_call p) s then s
                       else upd_futures <[p_call p := FError connection_closed]> s).
Proof.
  unfold reject. rewrite pm_bind_eq. cbn [get_state]. unfold settle.
  destruct (future_done (p_call p) s) eqn:E; [done|]. by rewrite E.
Qed.

Lemma reject_facts X p s :
  balanced X s → cs_timers s !! p_call p = None →
  let s' := (reject p s).2 in
  balanced (X ∖ {[p_call p]}) s' ∧ shrinks s s' ∧ cs_futures s' !! p_call p ≠ Some FPending ∧
  cs_timers s' !! p_call p = None.
Proof.
  intros Hb Ht. rewrite reject_eq. cbv zeta. cbn [snd].
  set (s' := if future_done (p_call p) s then s else _).
  assert (E : cs_pending s' = cs_pending s ∧ cs_timers s' = cs_timers s ∧ cs_next s' = cs_next s ∧
              cs_teardown s' = cs_teardown s ∧ cs_futures s' !! p_call p ≠ Some FPending ∧
              (is_Some (cs_futures s' !! p_call p) → is_Some (cs_futures s !! p_call p)) ∧
              ∀ j, j ≠ p_call p → cs_futures s' !! j = cs_futures s !! j).
  { subst s'. destruct (future_done (p_call p) s) eqn:Ed; [split_and!; try done; by apply done_not_pending|].
    split_and!; try done; cbn.
    - rewrite lookup_insert_eq. congruence.
    - intros _. rewrite (not_done _ _ Ed). eauto.
    - intros j Hj. by rewrite lookup_insert_ne. }
  clearbody s'. destruct E as (E1 & E2 & E3 & E4 & E5 & E6 & E7).
  destruct Hb as [H1 H2 H3 H4 H5 H6 Hh H7].
  assert (Hob : ∀ n, on_books n s → on_books n s').
  { intros n (q & t & Hq). exists q, t. by rewrite E1, E2. }
  split_and!; [split|split|done|by rewrite E2]; rewrite ?E1, ?E2, ?E3; try done.
  - intros n Hn Hx. destruct (decide (n = p_call p)) as [->|Hne]; [done|].
    rewrite E7 in Hn by done. apply Hob, H2; [done|]. set_solver.
  - intros n t Hn Hx. destruct (decide (n = p_call p)) as [->|Hne]; [congruence|].
    apply Hob. eapply H3; [done|]. set_solver.
  - intros n Hn. apply H4. destruct (decide (n = p_call p)) as [->|Hne]; [auto|]. by rewrite <- E7.
  - intros n Hn. destruct (decide (n = p_call p)) as [->|Hne]; [done|]. by rewrite <- E7.
Qed.

Lemma hooked_shrinks ps s s' : shrinks s s' → hooked ps s → hooked ps s'.
Proof. intros Hs H p rid q Hp Hr Hq. eapply H; [done..|]. by apply Hs. Qed.

Lemma cancel_facts X n s :
  balanced X s →
  let s' := upd_timers (delete n) s in
  balanced ({[n]} ∪ X) s' ∧ shrinks s s' ∧ cs_timers s' !! n = None.
Proof.
  intros [H1 H2 H3 H4 H5 H6 Hh H7]. cbn.
  assert (Hob : ∀ j, j ≠ n → on_books j s → on_books j (upd_timers (delete n) s)).
  { intros j Hj (q & t & Ht & Hq). exists q, t. cbn. by rewrite lookup_delete_ne. }
  split_and!; [split|split|by rewrite lookup_delete_eq]; try done; cbn.
  - intros j Hj Hx. apply Hob; [set_solver|]. apply H2; [done|set_solver].
  - intros j t [Hne Hj]%lookup_delete_Some Hx. apply Hob; [done|]. eapply H3; [done|set_solver].
  - intros j [t [_ Hj]%lookup_delete_Some]. eauto.
  - intros j t. rewrite lookup_delete_Some. by intros [_ ?].
Qed.

Lemma torn_step p ps s s' :
  torn (p :: ps) s → shrinks s s' →
  (∀ rid, od_get rid (cs_pending s') = Some p →
     cs_futures s' !! p_call p ≠ Some FPending ∧ cs_timers s' !! p_call p = None) →
  torn ps s'.
Proof.
  intros Ht Hs Hp rid q Hq.
  destruct (shrinks_torn _ _ _ Hs Ht rid q Hq) as [[->|Hin]%elem_of_cons|H]; eauto.
Qed.

Lemma hooked_cons p ps s : hooked (p :: ps) s → hooked ps s.
Proof. intros H q rid r Hq. apply H. by apply list_elem_of_further. Qed.

Lemma balanced_teardown X s t : balanced X s → balanced X (upd_teardown t s).
Proof. intros [? ? ? ? ? ? ? ?]. by split. Qed.

(** The end of a teardown: everything is settled. *)
Definition all_settled (s : calls) : Prop :=
  cs_pending s = [] ∧ cs_timers s = ∅ ∧ cs_status s = ∅ ∧
  ∀ n, cs_futures s !! n ≠ Some FPending.

Lemma cleanup_inv ps : ∀ s,
  balanced ∅ s → torn ps s → hooked ps s →
  let s' := (cleanup_loop ps s).2 in
  calls_inv s' ∧ (cs_teardown s' = None → all_settled s') ∧
  cs_next s' = cs_next s.
Proof.
  induction ps as [|p ps IH]; intros s Hb Ht Hk.
  - cbn. set (s' := upd_status _ _).
    assert (Hf : ∀ n, cs_futures s !! n ≠ Some FPending).
    { intros n Hn. destruct (bl_future _ _ Hb n Hn ltac:(set_solver)) as (p & t & _ & Hp & <-).
      destruct (Ht _ _ Hp) as [[]%elem_of_nil|[? _]]; done. }
    assert (Htm : ∀ n, cs_timers s !! n = None).
    { intros n. destruct (cs_timers s !! n) as [t|] eqn:En; [|done].
      destruct (bl_timer _ _ Hb n t En ltac:(set_solver)) as (p & t' & _ & Hp & <-).
      destruct (Ht _ _ Hp) as [[]%elem_of_nil|[_ ?]]; congruence. }
    assert (Hs : all_settled s').
    { split_and!; try done. apply map_eq. intros n. cbn. by rewrite Htm, lookup_empty. }
    split_and!; [|done..]. unfold calls_inv. cbn. destruct Hb as [H1 H2 H3 H4 H5 H6 Hh H7].
    split; cbn; try done; try constructor.
    + intros n Hn. by destruct (Hf n).
    + intros n t Hn. rewrite Htm in Hn. done.
  - cbn [cleanup_loop]. rewrite pm_bind_eq. cbn [cancel_timer modify].
    destruct (cancel_facts ∅ (p_call p) s Hb) as (Hb1 & Hs1 & Ht1).
    set (s1 := upd_timers _ s) in *. rewrite union_empty_r_L in Hb1.
    destruct (p_cleanup p) as [rid|] eqn:Ec.
    + rewrite pm_bind_eq, unsubscribe_eq. cbn [modify].
      set (s2 := match od_get rid (cs_pending s1) with Some _ => _ | None => _ end).
      assert (H2 : balanced {[p_call p]} s2 ∧ shrinks s1 s2 ∧ cs_timers s2 !! p_call p = None ∧
                   od_get rid (cs_pending s2) = None).
      { subst s2. destruct (od_get rid (cs_pending s1)) as [q|] eqn:Eq.
        - assert (q = p) as -> by (eapply Hk; [apply list_elem_of_here|exact Ec|exact Eq]).
          split_and!; [| |cbn; apply lookup_delete_eq|apply od_get_del].
          + eapply retired_balanced; [exact Hb1|exact Eq|]. split_and!; try done. left. set_solver.
          + eapply shrinks_trans; [apply (del_pending_shrinks rid)|apply cancel_shrinks].
        - split_and!; [done|apply shrinks_refl|done|done]. }
      clearbody s2. destruct H2 as (Hb2 & Hs2 & Ht2 & Hr2).
      assert (Hs : shrinks s s2) by by eapply shrinks_trans.
      split_and!; [|done|by rewrite <- (sh_next _ _ Hs)]. unfold calls_inv. cbn. split_and!.
      * eapply balanced_teardown, Hb2.
      * eapply (torn_step p) in Hs; [exact Hs|exact Ht|]. intros r Hr.
        assert (rid = r) as ->; [|congruence]. eapply (bl_hook _ _ Hb); [|exact Ec]. by apply Hs.
      * by apply (hooked_shrinks ps s s2), hooked_cons with p.
      * done.
    + rewrite pm_bind_eq. pose proof (reject_facts {[p_call p]} p s1 Hb1 Ht1) as (Hb2 & Hs2 & Hf2 & Ht2).
      rewrite reject_eq in *. cbn [snd] in *. set (s2 := if future_done (p_call p) s1 then _ else _) in *.
      clearbody s2. rewrite difference_diag_L in Hb2.
      assert (Hs : shrinks s s2) by by eapply shrinks_trans.
      destruct (IH s2 Hb2) as (Hi & Hn & Hx).
      * by apply (torn_step p ps s).
      * by apply (hooked_shrinks ps s s2), hooked_cons with p.
      * split_and!; [done|done|]. rewrite Hx. apply Hs.
Qed.

Lemma cleanup_start s :
  balanced ∅ s →
  let s' := (cleanup_loop (cs_pending s).*2 s).2 in
  calls_inv s' ∧ (cs_teardown s' = None → all_settled s').
Proof.
  intros Hb. destruct (cleanup_inv (cs_pending s).*2 s Hb) as (H1 & H2 & _); [| |done].
  - intros rid q Hq. left. apply od_get_in in Hq. apply list_elem_of_fmap. by exists (rid, q).
  - intros p rid q Hp Hc Hq. apply list_elem_of_fmap in Hp as ([rid' p'] & -> & Hin). cbn in Hc.
    apply od_in_get in Hin; [|apply Hb]. assert (rid = rid') as -> by by eapply (bl_hook _ _ Hb).
    cbn. congruence.
Qed.

Lemma resume_inv p ps s :
  balanced {[p_call p]} s ∧ torn ps s ∧ hooked ps s ∧ cs_timers s !! p_call p = None →
  let s' := ((reject p ≫= λ _, cleanup_loop ps) s).2 in
  calls_inv s' ∧ (cs_teardown s' = None → all_settled s').
Proof.
  intros (Hb & Ht & Hk & Htm). rewrite pm_bind_eq.
  pose proof (reject_facts _ p s Hb Htm) as (Hb2 & Hs2 & _). rewrite reject_eq in *. cbn [snd] in *.
  set (s2 := if future_done (p_call p) s then _ else _) in *. clearbody s2.
  rewrite difference_diag_L in Hb2.
  destruct (cleanup_inv ps s2 Hb2) as (H1 & H2 & _); [by eapply shrinks_torn|by eapply hooked_shrinks|done].
Qed.

(** ** The invariant along admissible events *)

(** The payloads whose transfer ended between two states. *)
Definition completions (s s' : calls) : list pyval :=
  omap (λ c, match c with CallComplete _ _ d => Some d | CallError _ _ _ => None end)
       (drop (length (cm_calls (cs_chunks s))) (cm_calls (cs_chunks s'))).

(** The responses a message makes the mux route. *)
Definition routed (now now' : Z) (m : msg) (s : calls) : list pyval :=
  if is_no_responders STATUS NO_RESPONDERS_STATUS m then []
  else
    if bool_decide (header "x-chunked-transfer" m ∈ [Some "header"; Some "chunk"]) then
      completions s (handle_mux_message can_alloc STATUS NO_RESPONDERS_STATUS now now' m s).2
    else match decode_message (m_data m) with Ok d => [d] | Raise _ => [] end.

(** What the invariant asks of the environment: request ids are fresh, no call
    starts while a teardown waits for a hook, a call's own failure names its
    own request, and responses are well formed. *)
Definition admissible (s : calls) (e : event) : Prop :=
  match e with
  | ECall rid _ _ => od_get rid (cs_pending s) = None ∧ cs_teardown s = None
  | EPublishFailed n rid | EServiceFailed n rid | EServiceStatus n rid _ _ =>
      ∀ p, od_get rid (cs_pending s) = Some p → p_call p = n
  | EMessage now now' m => Forall (λ d, wf_response d = true) (routed now now' m s)
  | EServiceResponse _ data => wf_response data = true
  | ETeardown => cs_teardown s = None
  | _ => True
  end.

Fixpoint admissible_run (s : calls) (es : list event) : Prop :=
  match es with [] => True | e :: es => admissible s e ∧ admissible_run (step s e) es end.

Lemma register_balanced rid subject timeout f s :
  balanced ∅ s → od_get rid (cs_pending s) = None →
  (∀ n, p_call (f n) = n) → (∀ n hook, p_cleanup (f n) = Some hook → hook = rid) →
  balanced ∅ (register_call rid subject timeout f s).2.
Proof.
  intros [H1 H2 H3 H4 H5 H6 Hh H7] Hr Hf Hf'. unfold register_call. cbv zeta. cbn [snd].
  set (n := cs_next s) in *. set (s' := Calls _ _ _ _ _ _ _ _).
  assert (Hn : on_books n s').
  { exists (f n), (Timer rid subject timeout). cbn. by rewrite lookup_insert_eq, od_get_set. }
  assert (Hob : ∀ j, j ≠ n → on_books j s → on_books j s').
  { intros j Hj (q & t & Ht & Hq & Hc). exists q, t. cbn. rewrite lookup_insert_ne by done.
    split; [done|]. rewrite od_get_set_ne; [done|]. intros E. rewrite <- E in Hq. congruence. }
  assert (Hnew : ∀ r q, od_get r (cs_pending s') = Some q → q = f n ∧ r = rid ∨
                 r ≠ rid ∧ od_get r (cs_pending s) = Some q).
  { intros r q. cbn. destruct (decide (rid = r)) as [<-|Hne].
    - rewrite od_get_set. intros [= <-]. by left.
    - rewrite od_get_set_ne by done. intros Hq. right. done. }
  assert (Hlt : ∀ r q, r ≠ rid → od_get r (cs_pending s) = Some q → p_call q ≠ n).
  { intros r q _ Hq E. specialize (H6 _ _ Hq). lia. }
  split.
  - by apply od_wf_set.
  - intros j Hj Hx. destruct (decide (j = n)) as [->|Hne]; [done|].
    apply Hob; [done|]. apply H2; [|done]. cbn in Hj. by rewrite lookup_insert_ne in Hj.
  - intros j t Hj Hx. destruct (decide (j = n)) as [->|Hne]; [done|].
    apply Hob; [done|]. eapply H3; [|done]. cbn in Hj. by rewrite lookup_insert_ne in Hj.
  - intros j Hj. cbn in *. destruct (decide (n = j)) as [<-|Hne]; [lia|].
    rewrite lookup_insert_ne in Hj by done. specialize (H4 _ Hj). lia.
  - intros j Hj. cbn in *. destruct (decide (n = j)) as [<-|Hne]; [lia|].
    rewrite lookup_insert_ne in Hj by done. specialize (H5 _ Hj). lia.
  - intros r q [[-> ->]|[_ Hq]]%Hnew; cbn; [rewrite Hf; lia|]. specialize (H6 _ _ Hq). lia.
  - intros r q hook [[-> ->]|[_ Hq]]%Hnew Hk; eauto.
  - intros r r' q q' [[-> ->]|[Hn1 Hq]]%Hnew [[-> ->]|[Hn2 Hq']]%Hnew E; [done| | |eauto];
      rewrite Hf in E; [symmetry in E|]; exfalso; eapply Hlt; [| |exact E| | |exact E]; done.
Qed.

Lemma inv_shrinks s s' :
  shrinks s s' →
  (∀ X, (∀ n, n ∈ X → cs_timers s !! n = None) → balanced X s → balanced X s') →
  calls_inv s → calls_inv s'.
Proof.
  intros Hs Hb Hi. unfold calls_inv in *. rewrite (sh_teardown _ _ Hs).
  destruct (cs_teardown s) as [[p ps]|]; [|by apply Hb; [set_solver|]].
  destruct Hi as (H1 & H2 & H3 & H4). split_and!.
  - apply Hb; [|done]. intros n ->%elem_of_singleton. done.
  - by eapply shrinks_torn.
  - by eapply hooked_shrinks.
  - destruct (cs_timers s' !! p_call p) as [t|] eqn:E; [|done]. apply Hs in E. congruence.
Qed.

Lemma keeps_from_shrinks {A} (m : pm exn calls A) s :
  (∀ P Q, stable P Q → (∀ n, Q n) → keeps P m) → shrinks s (m s).2.
Proof. intros H. by apply (H (from s) (λ _, True) (stable_from s)), shrinks_refl. Qed.

Lemma settle_chunks n o s : cs_chunks (settle n o s).2 = cs_chunks s.
Proof. unfold settle. by destruct (future_done n s). Qed.

Lemma route_chunks d s : cs_chunks (route_mux_response d s).2 = cs_chunks s.
Proof.
  rewrite route_eq. destruct d; try done. destruct (negb _); [done|].
  destruct (dict_get "id" kvs); try done. destruct (od_get s0 (cs_pending s)) as [p|]; [|done].
  destruct (future_done (p_call p) s); [done|]. rewrite pm_bind_eq. cbn [lift].
  destruct (response_outcome kvs); [|done]. by rewrite settle_chunks.
Qed.

Lemma mux_chunks_chunks op s : cs_chunks (mux_chunks op s).2 = (op (cs_chunks s)).2.
Proof.
  unfold mux_chunks. destruct (op (cs_chunks s)) as [r m]. cbn [snd].
  assert (H : cs_chunks (upd_chunks m s) = m) by done. revert H. generalize (upd_chunks m s).
  induction (drop _ _) as [|c l IH]; intros s1 H; [exact H|]. cbn [for_each]. rewrite pm_bind_eq.
  destruct c as [t cb d|]; [|by apply IH]. unfold try_except.
  pose proof (route_chunks d s1) as Hd. rewrite H in Hd.
  destruct (route_mux_response d s1) as [[[]|e] s2]; by apply IH.
Qed.

Lemma Forall_completions (P : pyval → Prop) (cs : list callback_call) :
  Forall P (omap (λ c, match c with CallComplete _ _ d => Some d | CallError _ _ _ => None end) cs) →
  Forall (λ c, match c with CallComplete _ _ d => P d | _ => True end) cs.
Proof.
  induction cs as [|c cs IH]; [constructor|]. destruct c; cbn; [|by constructor; auto].
  intros [? ?]%Forall_cons. by constructor; auto.
Qed.

Lemma mux_op_balanced X op s :
  balanced X s → Forall (λ d, wf_response d = true) (completions s (mux_chunks op s).2) →
  balanced X (mux_chunks op s).2.
Proof.
  intros Hb H. apply mux_chunks_balanced; [done|]. unfold completions in H.
  rewrite mux_chunks_chunks in H. by apply (Forall_completions (λ d, wf_response d = true)).
Qed.

Lemma message_balanced X now now' m s :
  balanced X s → Forall (λ d, wf_response d = true) (routed now now' m s) →
  balanced X (handle_mux_message can_alloc STATUS NO_RESPONDERS_STATUS now now' m s).2.
Proof.
  intros Hb Hw. unfold routed in Hw. unfold handle_mux_message in *.
  destruct (is_no_responders _ _ m); [by apply route_status_balanced|].
  destruct (bool_decide (_ ∈ _)) eqn:Eh; bool_to_prop.
  - destruct (bool_decide (_ = Some "header")) eqn:E1; bool_to_prop.
    + rewrite pm_bind_eq in *. cbn [lift] in *. destruct (decode (m_data m)) as [d|e]; [|done].
      destruct (header "x-chunk-id" m) as [[|a tid]|]; [done| |done].
      rewrite pm_bind_eq in *. cbn [lift] in *.
      destruct (read_header d _) as [[[[n total] csize]|]|e]; [|done..]. by apply mux_op_balanced.
    + rewrite bool_decide_eq_true_2 in *.
      2-3: by repeat (apply elem_of_cons in Eh as [Eh|Eh]; [try done|]); apply elem_of_nil in Eh.
      destruct (header "x-chunk-id" m) as [[|a tid]|]; [done| |done].
      rewrite pm_bind_eq in *. cbn [lift] in *. destruct (chunk_index m); [|done].
      by apply mux_op_balanced.
  - rewrite !bool_decide_eq_false_2 by (intros E; apply Eh; rewrite E; set_solver).
    rewrite pm_bind_eq. cbn [lift]. destruct (decode_message (m_data m)) as [d|e]; [|done].
    apply Forall_cons in Hw as [Hw _]. by apply route_balanced.
Qed.

(** The calls when the teardown gets past its last hook. *)
Lemma teardown_done s e :
  calls_inv s → e = ETeardown ∧ cs_teardown s = None ∨ e = EResume ∧ cs_teardown s ≠ None →
  cs_teardown (step s e) = None → all_settled (step s e).
Proof.
  intros Hi He Hend. unfold calls_inv in Hi. unfold Calls.step in *.
  destruct He as [[-> Ht]|[-> Ht]]; cbn [Calls.run_event] in *.
  - rewrite Ht in Hi. unfold cleanup_pending_requests in *. rewrite pm_bind_eq in *. cbn [get_state] in *.
    by apply (cleanup_start s Hi).
  - destruct (cs_teardown s) as [[p ps]|] eqn:Et; [|done]. unfold resume_cleanup in *.
    rewrite pm_bind_eq in *. cbn [get_state] in *. rewrite Et in *. by apply (resume_inv p ps s Hi).
Qed.

Lemma inv_step s e : calls_inv s → admissible s e → calls_inv (step s e).
Proof.
  intros Hi Ha. unfold Calls.step. destruct e; cbn [Calls.run_event admissible] in *.
  - destruct Ha as [Hr Ht]. unfold calls_inv in Hi. rewrite Ht in Hi. unfold call_once.
    assert (H : ∀ f, (∀ n, p_call (f n) = n) → (∀ n hook, p_cleanup (f n) = Some hook → hook = rid) →
              calls_inv (register_call rid subject timeout f s).2).
    { intros f Hf Hf'. pose proof (register_balanced rid subject timeout f s Hi Hr Hf Hf') as Hb.
      assert (E : cs_teardown (register_call rid subject timeout f s).2 = None) by exact Ht.
      destruct (register_call rid subject timeout f s) as [r s']. unfold calls_inv. cbn in *. by rewrite E. }
    destruct (startswith "rpc." subject); rewrite pm_bind_eq; apply H; try done. by intros ? ? [= <-].
  - apply (inv_shrinks s); [|intros X HX Hb|done].
    + apply keeps_from_shrinks. intros P Q St Hq. by apply (keeps_publish_failed P Q _ _ St).
    + unfold publish_failed. rewrite pm_bind_eq. cbn [pop_pending].
      pose proof (failed_balanced X n rid s Hb Ha) as H1.
      destruct (od_get rid (cs_pending s)) as [p|] eqn:Ep.
      * rewrite <- (Ha p eq_refl) in *. exact H1.
      * cbn. by rewrite upd_pending_absent.
  - apply (inv_shrinks s); [|intros X HX Hb|done].
    + apply keeps_from_shrinks. intros P Q St Hq. by apply (keeps_message _ _ _ P Q _ _ St own_settled response_outcome_done).
    + by apply message_balanced.
  - apply (inv_shrinks s); [|intros X HX Hb|done].
    + apply keeps_from_shrinks. intros P Q St Hq. by apply (keeps_timer P Q _ _ St own_settled).
    + apply timer_balanced; auto.
  - pose proof (keeps_from_shrinks (settle n FCancelled) s
        ltac:(intros P Q St Hq; by apply (keeps_settle P Q _ _ St))) as H1.
    pose proof (λ X, settle_balanced X n FCancelled s ltac:(done)) as H2.
    unfold settle in *. cbn. destruct (future_done n s); [done|].
    apply (inv_shrinks s); [exact H1|intros X HX Hb; by apply H2|done].
  - apply (inv_shrinks s); [|intros X HX Hb|done].
    + apply keeps_from_shrinks. intros P Q St Hq. by apply (keeps_service P Q _ _ St response_outcome_done).
    + by apply service_balanced.
  - apply (inv_shrinks s); [|intros X HX Hb|done].
    + apply keeps_from_shrinks. intros P Q St Hq. by apply (keeps_callback _ _ P Q _ _ St own_settled).
    + by apply callback_balanced.
  - apply (inv_shrinks s); [|intros X HX Hb|done].
    + apply keeps_from_shrinks. intros P Q St Hq. by apply (keeps_service_failed P Q _ _ St).
    + unfold service_failed. rewrite pm_bind_eq, unsubscribe_eq. by apply failed_balanced.
  - apply (inv_shrinks s); [by apply same_books_shrinks|intros X HX Hb|done].
    by eapply same_books_balanced; [|exact Hb].
  - apply (inv_shrinks s); [by apply same_books_shrinks|intros X HX Hb|done].
    by eapply same_books_balanced; [|exact Hb].
  - unfold calls_inv in Hi. rewrite Ha in Hi. unfold cleanup_pending_requests.
    rewrite pm_bind_eq. cbn [get_state]. by apply cleanup_start.
  - unfold calls_inv in Hi. unfold resume_cleanup. rewrite pm_bind_eq. cbn [get_state].
    destruct (cs_teardown s) as [[p ps]|] eqn:Et; [|by unfold calls_inv; cbn; rewrite Et].
    by apply resume_inv.
  - apply (inv_shrinks s); [by apply same_books_shrinks|intros X HX Hb|done].
    by eapply same_books_balanced; [|exact Hb].
Qed.

Lemma inv_run es s : calls_inv s → admissible_run s es → calls_inv (run_events es s).
Proof.
  unfold Calls.run_events. revert s. induction es as [|e es IH]; intros s Hi Ha; [done|].
  destruct Ha as [Ha Has]. cbn. apply IH; [by apply inv_step|done].
Qed.

Lemma inv_new : calls_inv new_calls.
Proof.
  unfold calls_inv. cbn. split; cbn; try done; try constructor; try (intros n; rewrite lookup_empty; try done; by intros [? ?]).
Qed.
End spec.
