(* ===== verification/CallsProps.v ===== *)
(** * What the call machinery guarantees

    Calls are settled at most once, never lost while the environment behaves,
    all settled by a teardown, and routed by id; and the two situations in
    which a call is lost for good. *)

From S2P Require Import Prelude Text PyVal Dict Errors MsgPack Codec Chunking ChunkingManager Ids Transport Calls CallsFrame CallsSpec.

(** ** Stable facts *)

(** Call [n] exists, and later calls get other numbers. *)
Definition frozen (n : Z) (o : future) (s : calls) : Prop :=
  cs_futures s !! n = Some o ∧ (n < cs_next s)%Z.

Lemma frozen_stable n o : o ≠ FPending → stable (frozen n o) (λ _, True).
Proof.
  intros Ho. split; try done; unfold frozen; cbn; intros s.
  - intros j o' [H1 H2] _ _ Hd. rewrite lookup_insert_ne; [done|]. intros ->.
    unfold future_done in Hd. rewrite H1 in Hd. by destruct o.
  - intros j [H1 H2] _ Hd. rewrite lookup_delete_ne; [done|]. intros ->.
    unfold future_done in Hd. rewrite H1 in Hd. by destruct o.
Qed.

Lemma frozen_events n o : stable_calls (frozen n o) ∧ stable_teardown (frozen n o) (λ _, True).
Proof.
  split; [|split; try done; intros; by apply Forall_true].
  unfold stable_calls, frozen; cbn. intros s rid subject timeout f [H1 H2] _. rewrite lookup_insert_ne by lia. split; [done|lia].
Qed.

Definition known (s : calls) : Prop := ∀ n, is_Some (cs_futures s !! n) → (n < cs_next s)%Z.

Lemma known_stable : stable known (λ _, True).
Proof.
  split; try done; unfold known; cbn; intros s.
  - intros j o H _ _ Hd n Hn. apply H. destruct (decide (j = n)) as [<-|].
    + rewrite (not_done j s Hd). eauto.
    + by rewrite lookup_insert_ne in Hn.
  - intros j H _ _ n [o [_ Hn]%lookup_delete_Some]. eauto.
Qed.

Lemma known_events : stable_calls known ∧ stable_teardown known (λ _, True).
Proof.
  split; [|split; try done; intros; by apply Forall_true].
  unfold stable_calls, known; cbn. intros s rid subject timeout f H _ n Hn. destruct (decide (cs_next s = n)) as [<-|]; [lia|].
  rewrite lookup_insert_ne in Hn by done. specialize (H n Hn). lia.
Qed.

(** No timer, request or teardown leads to the unsettled call [n]. *)
Definition lost (n : Z) (s : calls) : Prop :=
  cs_futures s !! n = Some FPending ∧ (n < cs_next s)%Z ∧ cs_timers s !! n = None ∧
  (∀ rid p, (rid, p) ∈ cs_pending s → p_call p ≠ n) ∧
  (∀ p ps, cs_teardown s = Some (p, ps) → Forall (λ q, p_call q ≠ n) (p :: ps)).

Lemma lost_stable n : stable (lost n) (λ j, j ≠ n).
Proof.
  split; unfold lost; cbn; try done; try (intros; decompose_hyps; split_and!; done).
  - intros s rid p (_ & _ & _ & H & _). eauto.
  - intros s j t (_ & _ & H & _) Ht ->. congruence.
  - intros s j o (H1 & H2) Hj _ _. rewrite lookup_insert_ne by done. done.
  - intros s j (H1 & H2) Hj _. rewrite lookup_delete_ne by done. done.
  - intros s j (H1 & H2 & H3 & H4). split_and!; try done; [|apply H4..].
    apply lookup_delete_None. auto.
  - intros s rid (H1 & H2 & H3 & H4 & H5). split_and!; try done.
    intros r p [_ Hp]%od_elem_del. eauto.
Qed.

Lemma lost_events n : stable_calls (lost n) ∧ stable_teardown (lost n) (λ j, j ≠ n).
Proof.
  split; [|split]; unfold stable_calls, lost; cbn.
  - intros s rid subject timeout f (H1 & H2 & H3 & H4 & H5) Hf.
    rewrite !lookup_insert_ne by lia. split_and!; try done; [lia|].
    intros r p [[= -> ->]|Hp]%od_set_elem; [rewrite Hf; lia|eauto].
  - intros s t (H1 & H2 & H3 & H4 & H5) Ht. split_and!; try done.
  - intros s p ps (_ & _ & _ & _ & H) Ht. by apply H.
  - intros s (H1 & H2 & H3 & H4 & H5). split_and!; try done. by intros rid p H%elem_of_nil.
Qed.

Section props.
Context {M : MsgPack}.
Variable can_alloc : Z → bool.
Variables STATUS NO_RESPONDERS_STATUS : string.
Abbreviation step := (Calls.step can_alloc STATUS NO_RESPONDERS_STATUS).
Abbreviation run_events := (Calls.run_events can_alloc STATUS NO_RESPONDERS_STATUS).

Lemma keeps_run_events P Q es s :
  stable P Q → stable_calls P ∧ stable_teardown P Q →
  Forall (λ e, ∀ n, event_call e = Some n → Q n) es → P s → P (run_events es s).
Proof.
  intros St [Sc Se] Hes. unfold Calls.run_events. revert s. induction Hes as [|e es He _ IH]; intros s Hs; [done|].
  cbn. apply IH. by apply (keeps_event can_alloc STATUS NO_RESPONDERS_STATUS P Q _ _ St own_settled response_outcome_done e Sc Se I He).
Qed.

Lemma Forall_event_true es : Forall (λ e, ∀ n, event_call e = Some n → True) es.
Proof. by apply Forall_true. Qed.

(** Once a call's future is settled, by a result, an error or the
    cancellation of its caller, no later event changes it. *)
Theorem settled_once es1 es2 n o :
  o ≠ FPending → cs_futures (run_events es1 new_calls) !! n = Some o →
  cs_futures (run_events (es1 ++ es2) new_calls) !! n = Some o.
Proof.
  intros Ho Hn. unfold Calls.run_events. rewrite foldl_app.
  assert (Hk : known (run_events es1 new_calls)).
  { apply (keeps_run_events known (λ _, True)); auto using known_stable, known_events, Forall_event_true.
    intros j [x Hj]. cbn in Hj. by rewrite lookup_empty in Hj. }
  assert (Hf : frozen n o (run_events es1 new_calls)) by (split; [done|apply Hk; eauto]).
  apply (keeps_run_events (frozen n o) (λ _, True) es2) in Hf;
    auto using frozen_stable, frozen_events, Forall_event_true. apply Hf.
Qed.


(** A teardown leaves nothing behind: after any admissible run, when
    [_cleanup_pending_requests] has run to its end, at once or after the hooks
    of service calls, no request, timer or status handler is left and every
    future is settled. *)
Theorem teardown_settles es e :
  admissible_run can_alloc STATUS NO_RESPONDERS_STATUS new_calls es →
  let s := run_events es new_calls in
  e = ETeardown ∧ cs_teardown s = None ∨ e = EResume ∧ cs_teardown s ≠ None →
  cs_teardown (step s e) = None → all_settled (step s e).
Proof.
  intros Ha s He Hend. pose proof (inv_run can_alloc STATUS NO_RESPONDERS_STATUS es new_calls inv_new Ha) as Hi.
  by apply teardown_done.
Qed.

(** C30. A response reaches exactly the call it names: with a pending request
    of that id it settles that call's future with the error or the result
    (and the [__methods] list a dict result gets), removes its request and
    its timer, and leaves every other call alone; with any other id, or none,
    it changes nothing. *)
Theorem response_routed now now' m response s :
  is_no_responders STATUS NO_RESPONDERS_STATUS m = false →
  header "x-chunked-transfer" m = None →
  decode_message (m_data m) = Ok (PDict response) →
  wf_response (PDict response) = true →
  let s' := step s (EMessage now now' m) in
  match dict_get "id" response with
  | PStr rid =>
      match od_get rid (cs_pending s) with
      | Some p =>
          if bool_decide (rid = "") then s' = s
          else
            cs_pending s' = od_del rid (cs_pending s) ∧
            cs_timers s' = delete (p_call p) (cs_timers s) ∧
            (∀ j, j ≠ p_call p → cs_futures s' !! j = cs_futures s !! j) ∧
            (cs_futures s !! p_call p = Some FPending →
             ∃ o, response_outcome response = Ok o ∧ cs_futures s' !! p_call p = Some o) ∧
            (cs_futures s !! p_call p ≠ Some FPending → cs_futures s' = cs_futures s)
      | None => s' = s
      end
  | _ => s' = s
  end.
Proof.
  intros Hnr Hh Hd Hw. cbv zeta. unfold Calls.step. cbn [Calls.run_event]. unfold handle_mux_message.
  rewrite Hnr, Hh, !bool_decide_eq_false_2 by done. rewrite pm_bind_eq, Hd. cbn [lift]. rewrite route_eq.
  destruct (dict_get "id" response) as [| | | |rid| | | | | | | | | | | |]; cbn [truthy];
    try (by destruct (negb _)); try done.
  destruct (od_get rid (cs_pending s)) as [p|] eqn:Ep; [|by destruct (negb _)].
  destruct (bool_decide (rid = "")); [done|]. cbn [negb].
  destruct (future_done (p_call p) s) eqn:Ed.
  - split_and!; try done. intros Hp. by apply done_not_pending in Ed.
  - destruct (wf_response_outcome response Hw) as [o Eo]. rewrite Eo.
    destruct (popped_settled ∅ rid (p_call p) s o Ed ltac:(by eapply response_outcome_done)) as [E Hr].
    rewrite pm_bind_eq. cbn [lift]. rewrite E. cbn [snd]. clear E.
    split_and!; try apply Hr; [intros _; exists o; split; [done|apply lookup_insert_eq]|].
    intros Hp. by destruct (Hp (not_done _ _ Ed)).
Qed.

(** C40. A response whose error is malformed (no [code] or no [message]) loses
    its call for good: the request and its timer are gone, the future is
    unsettled, and no later event but the cancellation of the caller ever
    settles it. *)
Theorem malformed_error_hangs now now' m response rid p e s es :
  balanced ∅ s → cs_teardown s = None →
  is_no_responders STATUS NO_RESPONDERS_STATUS m = false →
  header "x-chunked-transfer" m = None →
  decode_message (m_data m) = Ok (PDict response) →
  dict_get "id" response = PStr rid → rid ≠ "" → response_outcome response = Raise e →
  od_get rid (cs_pending s) = Some p → cs_futures s !! p_call p = Some FPending →
  Forall (λ e, event_call e ≠ Some (p_call p)) es →
  let s' := run_events es (step s (EMessage now now' m)) in
  cs_futures s' !! p_call p = Some FPending ∧ cs_timers s' !! p_call p = None ∧
  ∀ rid q, (rid, q) ∈ cs_pending s' → p_call q ≠ p_call p.
Proof.
  intros Hb Htd Hnr Hh Hd Hid Hne He Hp Hf Hes s'.
  assert (Hl : lost (p_call p) (step s (EMessage now now' m))).
  { unfold Calls.step. cbn [Calls.run_event]. unfold handle_mux_message.
    rewrite Hnr, Hh, !bool_decide_eq_false_2 by done. rewrite pm_bind_eq, Hd. cbn [lift].
    rewrite route_eq, Hid. cbn [truthy]. rewrite bool_decide_eq_false_2 by done. cbn [negb].
    rewrite Hp. assert (Hdn : future_done (p_call p) s = false) by (unfold future_done; by rewrite Hf).
    rewrite Hdn, He. unfold mbind, pm_bind. cbn [lift snd].
    split_and!; [done|apply (bl_next _ _ Hb); eauto|apply lookup_delete_eq| |].
    - intros r q [Hr Hq]%od_elem_del Hc. apply Hr. apply od_in_get in Hq; [|apply Hb].
      by apply (bl_inj _ _ Hb r rid q p).
    - intros q qs Hq. cbn in Hq. congruence. }
  assert (H : lost (p_call p) s').
  { apply (keeps_run_events (lost (p_call p)) (λ j, j ≠ p_call p) es); auto using lost_stable, lost_events.
    eapply Forall_impl; [exact Hes|]. cbn. intros x Hx n Hn ->. by apply Hx. }
  destruct H as (H1 & _ & H2 & H3 & _). by split.
Qed.

(** A no-responder status on [rpc.reply.<suffix>] fires the status
    handler of that suffix, once; without one it fails the pending call of
    that id with the call's subject; otherwise nothing happens. *)
Theorem status_routed now now' m suffix s :
  is_no_responders STATUS NO_RESPONDERS_STATUS m = true →
  m_subject m = reply_subject suffix →
  let s' := step s (EMessage now now' m) in
  match cs_status s !! suffix with
  | Some h =>
      cs_fired s' = cs_fired s ++ [(h, NoRespondersError suffix)] ∧
      cs_status s' = delete suffix (cs_status s) ∧ same_books s s'
  | None =>
      match od_get suffix (cs_pending s) with
      | Some p =>
          cs_pending s' = od_del suffix (cs_pending s) ∧
          cs_timers s' = delete (p_call p) (cs_timers s) ∧ cs_fired s' = cs_fired s ∧
          cs_futures s' =
            if future_done (p_call p) s then cs_futures s
            else <[p_call p := FError (NoRespondersError
                     (match p_subject p with Some subj => if bool_decide (subj = "") then suffix else subj
                                        | None => suffix end))]> (cs_futures s)
      | None => s' = s
      end
  end.
Proof.
  intros Hnr Hsub. cbv zeta. unfold Calls.step. cbn [Calls.run_event]. unfold handle_mux_message.
  rewrite Hnr, Hsub. unfold reply_suffix, reply_subject. rewrite str_drop_app.
  unfold route_status. rewrite pm_bind_eq. cbn [get_state].
  destruct (cs_status s !! suffix) as [h|]; [by repeat split|].
  rewrite pm_bind_eq. cbn. destruct (od_get suffix (cs_pending s)) as [p|] eqn:Ep;
    [|by rewrite upd_pending_absent].
  rewrite pm_bind_eq. cbn. rewrite pm_bind_eq. cbn [get_state].
  change (upd_timers _ (upd_pending _ s)) with (popped suffix (p_call p) s).
  change (future_done (p_call p) (popped _ _ s)) with (future_done (p_call p) s).
  destruct (future_done (p_call p) s) eqn:Ed; [done|].
  by rewrite (proj1 (popped_settled ∅ suffix (p_call p) s (FError (NoRespondersError _)) Ed ltac:(done))).
Qed.
End props.

(** ** Witnesses *)

Definition allocates (_ : Z) : bool := true.
Definition reply (data : pyval) : msg :=
  Msg "rpc.reply.c.1" "" None (match encode_message data with Ok b => b | Raise _ => [] end).
Definition result_of (rid : string) (v : pyval) : pyval :=
  PDict [(PStr "id", PStr rid); (PStr "result", v)].

(** Two calls; the second one is answered. *)
Definition two_calls : list event :=
  [ECall "c.1" "rpc.a" 30000; ECall "c.2" "rpc.b" 30000;
   EMessage 0 0 (reply (result_of "c.2" (PInt 5)))].
Definition status_msg : msg := Msg "rpc.reply.c.1" "" (Some [("Status", "503")]) [].
Abbreviation run1 := (run_events allocates "Status" "503").
Abbreviation step1 := (step allocates "Status" "503").

Lemma two_calls_admissible : admissible_run allocates "Status" "503" new_calls two_calls.
Proof. vm_compute. repeat split; repeat constructor. Qed.

Lemma settled_once_witness :
  cs_futures (run1 (two_calls ++ [ETimer 1; ETeardown]) new_calls) !! 1%Z = Some (FResult (PInt 5)).
Proof.
  apply (settled_once allocates "Status" "503" two_calls [ETimer 1; ETeardown] 1 (FResult (PInt 5)));
    [discriminate|vm_compute; reflexivity].
Defined.


Lemma teardown_settles_witness : all_settled (step1 (run1 two_calls new_calls) ETeardown).
Proof.
  apply (teardown_settles allocates "Status" "503" two_calls ETeardown);
    [apply two_calls_admissible|left; split; vm_compute; reflexivity|vm_compute; reflexivity].
Defined.

Lemma response_routed_witness :
  let s := run1 two_calls new_calls in
  let m := reply (result_of "c.1" (PDict [])) in
  let s' := step1 s (EMessage 0 0 m) in
  cs_pending s' = [] ∧ cs_futures s' !! 0%Z = Some (FResult (PDict [])).
Proof.
  intros s m s'.
  destruct (response_routed allocates "Status" "503" 0 0 m
      [(PStr "id", PStr "c.1"); (PStr "result", PDict [])] s) as (H1 & _ & _ & H2 & _);
    [vm_compute; reflexivity..|].
  split; [exact H1|]. destruct H2 as (o & Ho & H2); [vm_compute; reflexivity|].
  etransitivity; [exact H2|]. vm_compute in Ho. by injection Ho as <-.
Defined.

Lemma status_routed_witness :
  let s := run1 two_calls new_calls in
  let s' := step1 s (EMessage 0 0 status_msg) in
  cs_pending s' = [] ∧
  cs_futures s' = <[0%Z := FError (NoRespondersError "rpc.a")]> (cs_futures s).
Proof.
  intros s s'. destruct (status_routed allocates "Status" "503" 0 0 status_msg "c.1" s) as (H1 & _ & _ & H2);
    [vm_compute; reflexivity..|]. split; [exact H1|exact H2].
Defined.

(** An error without a message. *)
Definition malformed : list (pyval * pyval) :=
  [(PStr "id", PStr "c.1"); (PStr "error", PDict [(PStr "code", PStr "X")])].

Lemma malformed_error_hangs_witness :
  let s' := run1 [ETimer 0; ETeardown; EResetChunks]
              (step1 (run1 two_calls new_calls) (EMessage 0 0 (reply (PDict malformed)))) in
  cs_futures s' !! 0%Z = Some FPending ∧ cs_timers s' !! 0%Z = None ∧
  ∀ rid q, (rid, q) ∈ cs_pending s' → p_call q ≠ 0%Z.
Proof.
  apply (malformed_error_hangs allocates "Status" "503" 0 0 (reply (PDict malformed)) malformed "c.1"
           (Pending 0 (Some "rpc.a") None) (KeyError "message")).
  - apply (inv_run allocates "Status" "503" two_calls new_calls inv_new two_calls_admissible).
  - vm_compute. reflexivity.
  - vm_compute. reflexivity.
  - vm_compute. reflexivity.
  - vm_compute. reflexivity.
  - reflexivity.
  - discriminate.
  - vm_compute. reflexivity.
  - vm_compute. reflexivity.
  - vm_compute. reflexivity.
  - repeat constructor; discriminate.
Defined.

(** A call made while a teardown waits for the hook of a service call is
    lost: the end of the teardown drops its request unsettled, and its timer
    finds nothing to reject. *)
Theorem teardown_race :
  let s := run1 [ECall "s.1" "svc.a" 30000; ETeardown; ECall "c.1" "rpc.b" 30000; EResume; ETimer 1]
                new_calls in
  cs_futures s !! 0%Z = Some (FError connection_closed) ∧
  cs_futures s !! 1%Z = Some FPending ∧ cs_pending s = [] ∧ cs_timers s = ∅ ∧ cs_teardown s = None.
Proof. vm_compute. done. Qed.
