(* ===== verification/Inbox.v ===== *)
(** * Responses of any size in the muxed inbox (client.py)

    A response that does not fit one payload is published as a transfer
    header and chunks. The muxed inbox has its own path for them, through the
    client's chunking manager: here that path meets the publisher's. *)

From S2P Require Import Prelude Text PyVal Dict Errors MsgPack Codec CodecRoundtrip Chunking ChunkingSpec ChunkingManager ChunkTransfer Ids Transport TransportSpec Calls CallsFrame CallsSpec.

(** ** The inbox as a client of the chunking manager *)

Section inbox.
Context {M : MsgPack}.
Variable can_alloc : Z → bool.
Variables STATUS NO_RESPONDERS_STATUS : string.
Abbreviation step := (Calls.step can_alloc STATUS NO_RESPONDERS_STATUS).
Abbreviation run_events := (Calls.run_events can_alloc STATUS NO_RESPONDERS_STATUS).
Abbreviation exec := (ChunkingManager.exec can_alloc no_raise).

(** The operation an event asks of the chunking manager. *)
Definition mux_op (e : event) : option operation :=
  match e with
  | EMessage now now' m =>
      if is_no_responders STATUS NO_RESPONDERS_STATUS m then None
      else
        match header "x-chunked-transfer" m, header "x-chunk-id" m with
        | Some kind, Some (String _ _ as id) =>
            if bool_decide (kind = "header") then
              match decoded ← decode (m_data m); read_header decoded id with
              | Ok (Some (total, size, csize)) => Some (OpStart now now' id total 0 0 size csize)
              | _ => None
              end
            else if bool_decide (kind = "chunk") then
              match chunk_index m with
              | Ok i => Some (OpChunk now now' (received_chunk id i (m_data m)))
              | Raise _ => None
              end
            else None
        | _, _ => None
        end
  | _ => None
  end.

(** An event with an operation is that operation. *)
Lemma op_step e o s : mux_op e = Some o → step s e = (mux_chunks (exec o) s).2.
Proof.
  destruct e as [| |now now' m| | | | | | | | | |]; try done. cbn [mux_op]. unfold Calls.step. cbn [run_event].
  unfold handle_mux_message. destruct (is_no_responders _ _ m); [done|].
  destruct (header "x-chunked-transfer" m) as [kind|]; [|done].
  destruct (header "x-chunk-id" m) as [[|a id]|]; [done| |done].
  rewrite (bool_decide_ext (Some kind = Some "header") (kind = "header")) by (split; congruence).
  rewrite (bool_decide_ext (Some kind = Some "chunk") (kind = "chunk")) by (split; congruence).
  destruct (bool_decide (kind = "header")).
  - rewrite pm_bind_eq. destruct (decode (m_data m)) as [d|]; [|done]. cbn [mbind result_bind lift].
    rewrite pm_bind_eq. by destruct (read_header d _) as [[[[total size] csize]|]|]; [intros [= <-]|..].
  - destruct (bool_decide (kind = "chunk")); [|done]. rewrite pm_bind_eq.
    by destruct (chunk_index m); [intros [= <-]|].
Qed.

(** Nothing else reaches the manager. *)
Definition same_chunks (m : manager) (s : calls) : Prop := cs_chunks s = m.

Lemma same_chunks_stable m : stable_with (same_chunks m) (λ _, True) (λ _, True) False.
Proof. split; done. Qed.
Lemma same_chunks_teardown m : stable_teardown (same_chunks m) (λ _, True).
Proof. split; try done. intros s p ps _ _. by apply Forall_true. Qed.

Lemma quiet_step e s : mux_op e = None → e ≠ EResetChunks → cs_chunks (step s e) = cs_chunks s.
Proof.
  intros Ho He. pose proof (same_chunks_stable (cs_chunks s)) as St.
  assert (Hown : (timer → True) ∧ (string → True) ∧ True ∧ True) by done.
  unfold Calls.step. destruct (local_event e) eqn:El.
  { apply (keeps_local_event can_alloc STATUS NO_RESPONDERS_STATUS _ _ _ _ St Hown); try done.
    intros _. apply same_chunks_teardown. }
  destruct e as [| |now now' m| | |rid data| | | | | | |]; try done; cbn [run_event].
  - rewrite pm_bind_eq. unfold call_once. by destruct (startswith _ _).
  - revert Ho. cbn [mux_op]. unfold handle_mux_message.
    destruct (is_no_responders _ _ m); [intros _; by apply (keeps_route_status _ _ _ _ St Hown)|].
    destruct (header "x-chunked-transfer" m) as [kind|].
    2: { rewrite !bool_decide_eq_false_2 by done. intros _. rewrite pm_bind_eq. cbn [lift].
         destruct (decode_message _); [|done]. by apply (keeps_route _ _ _ _ St). }
    rewrite (bool_decide_ext (Some kind = Some "header") (kind = "header")) by (split; congruence).
    rewrite (bool_decide_ext (Some kind = Some "chunk") (kind = "chunk")) by (split; congruence).
    destruct (bool_decide (kind = "header")); [|destruct (bool_decide (kind = "chunk"))].
    + rewrite pm_bind_eq. cbn [lift]. destruct (decode (m_data m)) as [d|]; [|done]. cbn [mbind result_bind].
      destruct (header "x-chunk-id" m) as [[|a id]|]; [done| |done]. rewrite pm_bind_eq. cbn [lift].
      by destruct (read_header d _) as [[[[total size] csize]|]|].
    + destruct (header "x-chunk-id" m) as [[|a id]|]; [done| |done]. rewrite pm_bind_eq. cbn [lift].
      by destruct (chunk_index m).
    + intros _. rewrite pm_bind_eq. cbn [lift]. destruct (decode_message _); [|done].
      by apply (keeps_route _ _ _ _ St).
  - by apply (keeps_service _ _ _ _ St).
Qed.

(** The manager has run the operations of the events. *)
Lemma run_chunks es s :
  Forall (λ e, e ≠ EResetChunks) es →
  cs_chunks (run_events es s) = ChunkingManager.run can_alloc no_raise (omap mux_op es) (cs_chunks s).
Proof.
  intros Hes. unfold Calls.run_events. revert s. induction Hes as [|e es He _ IH]; intros s; [done|].
  cbn [foldl omap list_omap]. rewrite IH. destruct (mux_op e) as [o|] eqn:Eo; [|by rewrite quiet_step].
  rewrite (op_step e o s Eo). cbn [ChunkingManager.run]. f_equal. unfold mux_chunks.
  destruct (exec o (cs_chunks s)) as [r m]. cbn [snd].
  match goal with |- context [for_each ?l ?f ?s1] =>
    assert (H : same_chunks m (for_each l f s1).2) end.
  { apply keeps_for_each; [|done]. intros c _. destruct c; [|apply keeps_ret].
    apply keeps_try; [|intros; apply keeps_ret]. apply (keeps_route _ _ _ _ (same_chunks_stable m)). done. }
  by destruct (for_each _ _ _).
Qed.

(** What an operation completes is routed. *)
Lemma route_completions calls s :
  let f := λ c, match c with
                | CallComplete _ _ data => try_except (route_mux_response data) (λ _, mret tt)
                | CallError _ _ _ => mret tt
                end in
  for_each calls f s = for_each (filter (λ c, is_completion c = true) calls) f s.
Proof.
  cbv zeta. revert s. induction calls as [|c calls IH]; intros s; [done|]. rewrite filter_cons.
  destruct c as [tid cb d|tid cb e]; cbn [is_completion]; [|rewrite decide_False by done; by rewrite <- IH].
  rewrite decide_True by done. cbn [for_each]. rewrite !pm_bind_eq. unfold try_except.
  by destruct (route_mux_response d s) as [[[]|e] s']; cbn [mret pm_ret].
Qed.

Lemma mux_calls o tid X s :
  op_tid o = Some tid →
  calls_of tid (exec o (cs_chunks s)).2 = calls_of tid (cs_chunks s) ++ X →
  let s' := upd_chunks (exec o (cs_chunks s)).2 s in
  (mux_chunks (exec o) s).2 =
    match X with [] => s' | [CallComplete _ _ v] => (route_mux_response v s').2 | _ => (mux_chunks (exec o) s).2 end.
Proof.
  intros Ho HX s'. unfold mux_chunks.
  pose proof (keeps_grown_exec can_alloc no_raise (cm_calls (cs_chunks s)) o (cs_chunks s)
                (grown_refl _ _)) as (new & E & Hn).
  subst s'. destruct (exec o (cs_chunks s)) as [r m]. cbn [fst snd] in *.
  unfold calls_of in HX. rewrite E in *. rewrite drop_app_length, route_completions.
  rewrite filter_app in HX. apply app_inv_head in HX. rewrite Ho in Hn.
  rewrite (completions_of tid), HX by done. destruct X as [|[t cb v|] [|]]; try done.
  rewrite filter_cons, decide_True, filter_nil by done. cbn [for_each]. rewrite pm_bind_eq. unfold try_except.
  by destruct (route_mux_response v _) as [[[]|e] s'].
Qed.

(** ** One large response *)

Section transfer.
Variables (encoded : list byte) (tid : string) (mp : Z) (v : pyval) (subject reply : string).
Hypothesis Hm : (0 < mp)%Z.
Hypothesis Ht : (0 < zlen encoded < 2 ^ 63)%Z.
Hypothesis Htid : tid ≠ "".
Hypothesis Hv : decode_message encoded = Ok v.
Let n := total_chunks_of (zlen encoded) mp.
Definition sent_piece (i : Z) : msg := chunk_msg subject reply tid i (piece encoded mp i).

(** The events beside it bring its own chunks only. *)
Definition beside (e : event) : Prop :=
  e ≠ EResetChunks ∧
  ∀ t t' m, e = EMessage t t' m → header "x-chunk-id" m = Some tid → ∃ i, (0 ≤ i < n)%Z ∧ m = sent_piece i.

(** The readings of the inbox's clock are within thirty seconds. *)
Definition prompt (start : Z) (es : list event) : Prop :=
  ∀ t t' m, EMessage t t' m ∈ es → (t - STALE_TRANSFER_TTL ≤ start)%Z ∧
    ∀ u u' m', EMessage u u' m' ∈ es → (t - STALE_TRANSFER_TTL ≤ u')%Z.

Definition arrived_all (es : list event) : Prop :=
  ∀ i, (0 ≤ i < n)%Z → ∃ t t', EMessage t t' (sent_piece i) ∈ es.

Lemma piece_op t t' i :
  (0 ≤ i < n)%Z →
  mux_op (EMessage t t' (sent_piece i)) = Some (OpChunk t t' (received_chunk tid i (piece encoded mp i))).
Proof.
  intros Hi. cbn [mux_op]. unfold is_no_responders.
  assert (Hd : m_data (sent_piece i) ≠ []).
  { change (piece encoded mp i ≠ []). intros E. pose proof (index_in_range encoded mp Hm ltac:(lia) i Hi) as Hr.
    pose proof (piece_length encoded mp i Hm ltac:(lia) ltac:(lia)) as Hl. rewrite E, zlen_nil in Hl. lia. }
  rewrite (bool_decide_eq_false_2 _ Hd). cbn [andb].
  change (header "x-chunked-transfer" _) with (Some "chunk"). change (header "x-chunk-id" _) with (Some tid).
  cbv iota. destruct tid as [|a id]; [done|]. rewrite bool_decide_eq_false_2, bool_decide_eq_true_2 by done.
  unfold chunk_index. change (header "x-chunk-index" _) with (Some (str_int i)).
  change (default "0" (Some (str_int i))) with (str_int i). by rewrite int_of_str_int.
Qed.

Lemma op_message e o :
  mux_op e = Some o → ∃ t t' m id, e = EMessage t t' m ∧ header "x-chunk-id" m = Some id ∧ op_tid o = Some id ∧
    op_sweep o = Some t ∧ match o with OpChunk _ u _ => u = t' | OpStart _ _ _ _ _ _ _ _ => True | OpCancel _ => False end.
Proof.
  destruct e as [| |t t' m| | | | | | | | | |]; try done. cbn [mux_op].
  destruct (is_no_responders _ _ m); [done|]. destruct (header "x-chunked-transfer" m) as [kind|]; [|done].
  destruct (header "x-chunk-id" m) as [[|a id]|] eqn:Eid; try done.
  destruct (bool_decide _).
  - destruct (decoded ← decode (m_data m); _) as [[[[total size] csize]|]|]; try done.
    intros [= <-]. by exists t, t', m, (String a id).
  - destruct (bool_decide _); [|done]. destruct (chunk_index m) as [i|]; [|done].
    intros [= <-]. exists t, t', m, (String a id). split_and!; done.
Qed.

(** The operation of an event beside the transfer. *)
Lemma beside_op e o :
  beside e → mux_op e = Some o →
  well_behaved encoded tid mp o ∧
  ∀ i, op_index tid o = Some i ↔ ∃ t t', (0 ≤ i < n)%Z ∧ e = EMessage t t' (sent_piece i).
Proof.
  intros [_ Hb] Ho. destruct (op_message e o Ho) as (t & t' & m & id & -> & Hid & Hot & _ & Hk).
  destruct (decide (id = tid)) as [->|Hne].
  - destruct (Hb t t' m eq_refl Hid) as (i & Hi & ->). rewrite piece_op in Ho by done. injection Ho as <-.
    destruct (carries_received encoded tid mp Htid i) as [Hct Hcar]. split.
    + intros _. by exists i.
    + intros j. cbn [op_index]. rewrite bool_decide_eq_true_2 by done. rewrite (proj1 (proj2 Hcar)). split.
      * intros [= ->]. by exists t, t'.
      * intros (u & u' & Hj & [= _ _ E _]). apply (f_equal int_of_str) in E.
        rewrite !int_of_str_int in E. congruence.
  - split.
    + destruct o; cbn in *; [congruence| |done]. intros E. congruence.
    + intros i. split.
      * destruct o; cbn in *; [done| |done]. rewrite bool_decide_eq_false_2; [done|]. congruence.
      * intros (u & u' & Hi & [= -> -> ->]). by injection Hid.
Qed.

Lemma beside_ops es :
  Forall beside es →
  Forall (well_behaved encoded tid mp) (omap mux_op es) ∧
  (all_received encoded mp (list_to_set (omap (op_index tid) (omap mux_op es))) ↔ arrived_all es).
Proof.
  intros Hes. rewrite Forall_forall in Hes. split.
  - apply Forall_forall. intros o (e & He & Ho)%list_elem_of_omap. by apply (beside_op e o (Hes e He)).
  - unfold all_received, arrived_all. rewrite Forall_forall. split.
    + intros H i Hi. specialize (H i ltac:(apply elem_of_seqZ; fold n; lia)).
      apply elem_of_list_to_set, list_elem_of_omap in H as (o & (e & He & Ho)%list_elem_of_omap & Hidx).
      destruct (beside_op e o (Hes e He) Ho) as [_ Hop]. apply Hop in Hidx as (t & t' & _ & ->). eauto.
    + intros H i Hi%elem_of_seqZ. destruct (H i ltac:(fold n in Hi; lia)) as (t & t' & He).
      apply elem_of_list_to_set, list_elem_of_omap.
      pose proof (piece_op t t' i ltac:(fold n in Hi; lia)) as Ho. eexists. split; [apply list_elem_of_omap; eauto|].
      apply (beside_op _ _ (Hes _ He) Ho). exists t, t'. split; [fold n in Hi; lia|done].
Qed.

(** A list of operations that is never late. *)
Lemma prompt_tended ops : ∀ start,
  (∀ o t, o ∈ ops → op_sweep o = Some t → (t - STALE_TRANSFER_TTL ≤ start)%Z ∧
     ∀ u u' c, OpChunk u u' c ∈ ops → (t - STALE_TRANSFER_TTL ≤ u')%Z) →
  tended tid start ops.
Proof.
  induction ops as [|o ops IH]; intros start H; [done|]. split.
  - unfold spared_by. destruct (op_sweep o) as [t|] eqn:Et; [|done].
    by apply (H o t (list_elem_of_here _ _)).
  - apply IH. intros o' t Ho' Et. destruct (H o' t (list_elem_of_further _ _ _ Ho') Et) as [H1 H2]. split.
    + destruct o; try done. case_bool_decide; [|done]. by eapply H2, list_elem_of_here.
    + intros u u' c Hc. by eapply H2, list_elem_of_further.
Qed.

Lemma prompt_ops start es : prompt start es → tended tid start (omap mux_op es).
Proof.
  intros Hp. apply prompt_tended. intros o t (e & He & Ho)%list_elem_of_omap Et.
  destruct (op_message e o Ho) as (u & u' & m & id & -> & _ & _ & Es & _). rewrite Es in Et. injection Et as ->.
  destruct (Hp t u' m He) as [H1 H2]. split; [done|]. intros x x' c (e' & He' & Ho')%list_elem_of_omap.
  destruct (op_message e' _ Ho') as (y & y' & m' & id' & -> & _ & _ & _ & Hk). subst x'. by eapply H2.
Qed.

Lemma prompt_prefix start es es' : prompt start (es ++ es') → prompt start es.
Proof.
  intros Hp t t' m He. destruct (Hp t t' m ltac:(apply elem_of_app; by left)) as [H1 H2]. split; [done|].
  intros u u' m' He'. eapply H2, elem_of_app. by left.
Qed.

(** Calls made for the transfer after its header and the events [es]. *)
Lemma transfer_calls s hd h h' es :
  manager_wf (cs_chunks s) → cm_assemblers (cs_chunks s) !! tid = None →
  mux_op (EMessage h h' hd) = Some (OpStart h h' tid n 0 0 (Some (zlen encoded)) (Some mp)) →
  Forall beside es → prompt h' es →
  ∃ L, L = calls_of tid (cs_chunks s) ∧
    (arrived_all es → calls_of tid (cs_chunks (run_events (EMessage h h' hd :: es) s)) = L ++ [CallComplete tid 0 v]) ∧
    (¬ arrived_all es → calls_of tid (cs_chunks (run_events (EMessage h h' hd :: es) s)) = L).
Proof.
  intros Hwf Ha Ho Hes Hp. eexists. split; [done|]. destruct (beside_ops es Hes) as [Hb Hiff].
  rewrite run_chunks.
  2: { apply Forall_cons. split; [done|]. eapply Forall_impl; [exact Hes|]. by intros e []. }
  cbn [omap list_omap]. rewrite Ho.
  pose proof (transfer_run can_alloc no_raise encoded tid mp 0 0 Hm ltac:(lia) no_raise_quiet h h'
    (Some (zlen encoded)) (omap mux_op es) (cs_chunks s) Hwf Ha ltac:(by right) ltac:(lia) Hb (prompt_ops _ _ Hp)) as E.
  fold n in E. rewrite E. unfold verdict. rewrite Hv. split; intros H.
  - by rewrite decide_True by by apply Hiff.
  - rewrite decide_False by (intros ?; by apply H, Hiff). by rewrite app_nil_r.
Qed.

(** A piece that comes in routes the response when it is the last one. *)
Lemma piece_step s hd h h' es t t' i :
  manager_wf (cs_chunks s) → cm_assemblers (cs_chunks s) !! tid = None →
  mux_op (EMessage h h' hd) = Some (OpStart h h' tid n 0 0 (Some (zlen encoded)) (Some mp)) →
  (0 ≤ i < n)%Z → let e := EMessage t t' (sent_piece i) in
  Forall beside (es ++ [e]) → prompt h' (es ++ [e]) →
  let s1 := run_events (EMessage h h' hd :: es) s in
  let s2 := upd_chunks (cs_chunks (step s1 e)) s1 in
  (¬ arrived_all (es ++ [e]) ∨ arrived_all es → step s1 e = s2) ∧
  (arrived_all (es ++ [e]) ∧ ¬ arrived_all es → step s1 e = (route_mux_response v s2).2).
Proof.
  intros Hwf Ha Ho Hi e Hes Hp s1 s2. pose proof (piece_op t t' i Hi) as Hoe. fold e in Hoe.
  set (o := OpChunk t t' (received_chunk tid i (piece encoded mp i))) in Hoe.
  destruct (carries_received encoded tid mp Htid i) as [Hct _].
  assert (Hrun : cs_chunks (step s1 e) = (exec o (cs_chunks s1)).2).
  { change (step s1 e) with (run_events [e] s1). rewrite run_chunks by by apply Forall_singleton.
    cbn [omap list_omap]. by rewrite Hoe. }
  destruct (transfer_calls s hd h h' es Hwf Ha Ho ltac:(by apply Forall_app in Hes as []) (prompt_prefix _ _ _ Hp))
    as (L & HL & H1 & H2).
  destruct (transfer_calls s hd h h' (es ++ [e]) Hwf Ha Ho Hes Hp) as (L' & HL' & H1' & H2'). subst L L'.
  assert (E : run_events (EMessage h h' hd :: es ++ [e]) s = step s1 e).
  { unfold s1, Calls.run_events. cbn [foldl]. by rewrite foldl_app. }
  fold s1 in H1, H2. rewrite E, Hrun in H1', H2'.
  assert (Hmono : arrived_all es → arrived_all (es ++ [e])).
  { intros H j Hj. destruct (H j Hj) as (u & u' & He). exists u, u'. apply elem_of_app. by left. }
  pose proof (mux_calls o tid [] s1 Hct) as Hnone.
  pose proof (mux_calls o tid [CallComplete tid 0 v] s1 Hct) as Hone. cbv zeta iota in Hnone, Hone.
  rewrite app_nil_r, <- (op_step e o s1 Hoe) in Hnone. rewrite <- (op_step e o s1 Hoe) in Hone.
  assert (Es : upd_chunks (exec o (cs_chunks s1)).2 s1 = s2) by (unfold s2; by rewrite Hrun).
  rewrite Es in Hnone, Hone. split.
  - intros [Hn|Hy]; apply Hnone; [rewrite H2', H2 by tauto|rewrite H1', H1 by tauto]; done.
  - intros [Hy Hn]. apply Hone. by rewrite H1', H2 by tauto.
Qed.
End transfer.

(** ** From the publisher to the call *)

(** The events have brought every one of these messages. *)
Definition brought (ms : list msg) (es : list event) : Prop := ∀ m, m ∈ ms → ∃ t t', EMessage t t' m ∈ es.
(** The only messages of the transfer [id] that they bring. *)
Definition only_brings (id : string) (ms : list msg) (es : list event) : Prop :=
  ∀ e, e ∈ es → e ≠ EResetChunks ∧
    ∀ t t' m, e = EMessage t t' m → header "x-chunk-id" m = Some id → m ∈ ms.

Context {laws : MsgPackLaws M}.

Lemma header_op t t' subject reply tid n total mp hb :
  tid ≠ "" → (0 ≤ n < 2 ^ 64)%Z → (0 ≤ total < 2 ^ 64)%Z → (0 ≤ mp < 2 ^ 64)%Z →
  encode (header_msg tid n total mp) = Ok hb →
  mux_op (EMessage t t' (Msg subject reply (Some (transfer_headers tid [])) hb)) =
    Some (OpStart t t' tid n 0 0 (Some total) (Some mp)).
Proof.
  intros Hne Hn Ht Hm Eh. destruct (transfer_headers_get tid [] subject reply hb) as [H1 H2].
  destruct (header_msg_decoded tid n total mp hb Hn Ht Hm Eh) as [Hd Hr]. cbn [mux_op].
  unfold is_no_responders. rewrite bool_decide_eq_false_2 by (by eapply pack_nonempty). cbn [andb].
  rewrite H1, H2. destruct tid as [|a id]; [done|]. rewrite bool_decide_eq_true_2 by done. cbn [m_data].
  rewrite Hd. cbn [mbind result_bind]. by rewrite Hr.
Qed.

(** C9. A response of any size settles its call. Published as a header and
    chunks, its chunks may come in any order, repeated, and among any other
    events of the client, within thirty seconds of each other: every chunk
    but the last one to come in changes nothing but the chunking manager, and
    that one routes the response, once: the call it names, if it still waits,
    is settled with the outcome the response carries. *)
Theorem large_response_settles v mp now draws subject reply hd chunks hdrs s h h' es t t' m :
  plain v = true → no_lookalike v = true → (0 < mp)%Z →
  (∀ b, encode_message v = Ok b → mp < zlen b < 2 ^ 63)%Z →
  publish true mp now draws subject v None reply = (Ok (hd :: chunks), hdrs) →
  manager_wf (cs_chunks s) → cm_assemblers (cs_chunks s) !! generate_id now draws None = None →
  m ∈ chunks → let e := EMessage t t' m in
  only_brings (generate_id now draws None) chunks (es ++ [e]) → prompt h' (es ++ [e]) →
  let s1 := run_events (EMessage h h' hd :: es) s in
  let s2 := upd_chunks (cs_chunks (step s1 e)) s1 in
  (¬ brought chunks (es ++ [e]) ∨ brought chunks es → step s1 e = s2) ∧
  (brought chunks (es ++ [e]) ∧ ¬ brought chunks es →
   step s1 e = (route_mux_response (delivered v) s2).2 ∧
   ∀ response rid p o, delivered v = PDict response → dict_get "id" response = PStr rid → rid ≠ "" →
     od_get rid (cs_pending s1) = Some p → cs_futures s1 !! p_call p = Some FPending →
     response_outcome response = Ok o → cs_futures (step s1 e) !! p_call p = Some o).
Proof.
  intros Hp Hn Hmp Hlt E Hwf Hfree Hm e Hes Hpr s1 s2.
  apply publish_messages in E as (encoded & Ee & [[Hle _]|(Hgt & hb & Eh & Ems)]); [specialize (Hlt _ Ee); lia| |done].
  specialize (Hlt encoded Ee). assert (Hv : decode_message encoded = Ok (delivered v)) by (apply decode_encoded; auto; lia).
  pose proof (generate_id_nonempty now draws) as Htid.
  set (tid := generate_id now draws None) in *. set (n := total_chunks_of (zlen encoded) mp) in *.
  clearbody tid. injection Ems as -> ->.
  pose proof (total_chunks_le (zlen encoded) mp Hmp ltac:(lia)) as Hnle. fold n in Hnle.
  destruct (total_chunks_bounds (zlen encoded) mp) as (Hn0 & _); [lia..|]. fold n in Hn0.
  apply list_elem_of_fmap in Hm as (i & -> & Hi%elem_of_seqZ).
  assert (Hiff : ∀ es, brought ((λ i, chunk_msg subject (default "" reply) tid i (piece encoded mp i)) <$> seqZ 0 n) es ↔
            arrived_all encoded tid mp subject (default "" reply) es).
  { intros l. unfold brought, arrived_all. split.
    - intros H j Hj. apply H, list_elem_of_fmap. exists j. split; [done|]. apply elem_of_seqZ. fold n in Hj. lia.
    - intros H x (j & -> & Hj%elem_of_seqZ)%list_elem_of_fmap. apply H. fold n. lia. }
  destruct (piece_step encoded tid mp (delivered v) subject (default "" reply) Hmp ltac:(lia) Htid Hv s
    (Msg subject (default "" reply) (Some (transfer_headers tid (headers_or_new None))) hb) h h' es t t' i)
    as [H1 H2]; [done|done|by apply header_op; [|lia..|]|fold n; lia| |done|].
  { apply Forall_forall. intros x Hx. destruct (Hes x Hx) as [Hr Hb]. split; [done|]. intros u u' y -> Hy.
    specialize (Hb u u' y eq_refl Hy). apply list_elem_of_fmap in Hb as (j & -> & Hj%elem_of_seqZ).
    exists j. split; [fold n; lia|done]. }
  fold s1 in H1, H2. split; [by rewrite !Hiff|]. rewrite !Hiff. intros H. specialize (H2 H). split; [exact H2|].
  intros response rid p o Ed Ei Hr Hpend Hfut Ho.
  etransitivity; [exact (f_equal (λ x, cs_futures x !! p_call p) H2)|]. rewrite Ed.
  by apply (route_settles response rid p o).
Qed.
End inbox.

(** ** Witness *)

#[export] Instance msg_eq_dec : EqDecision msg.
Proof. solve_decision. Defined.

(** Events that are messages, all at the same time. *)
Definition messages (ms : list msg) : list event := EMessage 5 5 <$> ms.

Lemma brought_messages ms ms' : brought ms (messages ms') ↔ ms ⊆ ms'.
Proof.
  unfold brought, messages. split.
  - intros H m Hm. destruct (H m Hm) as (t & t' & (x & [= -> -> ->] & Hx)%list_elem_of_fmap). done.
  - intros H m Hm. exists 5%Z, 5%Z. apply list_elem_of_fmap. eauto.
Qed.

Definition waiting_call : calls := (call_once "c.1" "rpc.cam.echo" 30000 new_calls).2.
Definition large_response : list (pyval * pyval) := [(PStr "id", PStr "c.1"); (PStr "result", PInt 5)].
Definition large_published := publish true 16 7 [1]%Z "rpc.reply.c.1" (PDict large_response) None None.
Definition large_msgs : list msg := match large_published.1 with Ok ms => ms | Raise _ => [] end.
Definition large_header : msg := match large_msgs with hd :: _ => hd | [] => Msg "" "" None [] end.
Definition large_chunks : list msg := drop 1 large_msgs.
(** The last chunk comes first, twice; the first one last. *)
Definition early_chunks : list msg := reverse (drop 1 large_chunks) ++ reverse (drop 1 large_chunks).
Definition first_chunk : msg := match large_chunks with c :: _ => c | [] => large_header end.

Lemma large_response_settles_witness :
  cs_futures (Calls.step (λ _, true) "Status" "503"
      (Calls.run_events (λ _, true) "Status" "503" (EMessage 5 5 large_header :: messages early_chunks) waiting_call)
      (EMessage 5 5 first_chunk)) !! 0%Z = Some (FResult (PInt 5)).
Proof.
  assert (Happ : messages early_chunks ++ [EMessage 5 5 first_chunk] = messages (early_chunks ++ [first_chunk]))
    by (unfold messages; by rewrite fmap_app).
  assert (Hsub : early_chunks ++ [first_chunk] ⊆ large_chunks).
  { intros m. assert (F : Forall (λ m, m ∈ large_chunks) (early_chunks ++ [first_chunk]))
      by (apply (bool_decide_unpack _); vm_compute; exact I). rewrite Forall_forall in F. apply F. }
  destruct (large_response_settles (λ _, true) "Status" "503" (PDict large_response) 16 7 [1]%Z "rpc.reply.c.1" None
    large_header large_chunks None waiting_call 5 5 (messages early_chunks) 5 5 first_chunk) as [_ H].
  - reflexivity.
  - reflexivity.
  - reflexivity.
  - intros b E. vm_compute in E. injection E as <-. vm_compute. split; reflexivity.
  - vm_compute. reflexivity.
  - apply wf_new.
  - reflexivity.
  - apply (bool_decide_unpack _); vm_compute; exact I.
  - rewrite Happ. intros e (x & -> & Hx)%list_elem_of_fmap. split; [done|].
    intros t t' m [= _ _ <-] _. by apply Hsub.
  - rewrite Happ. intros t t' m (x & [= -> -> ->] & Hx)%list_elem_of_fmap. split; [done|].
    intros u u' m' (y & [= -> -> ->] & Hy)%list_elem_of_fmap. done.
  - destruct H as [_ H].
    + rewrite Happ, !brought_messages. split.
      * intros m. assert (F : Forall (λ m, m ∈ early_chunks ++ [first_chunk]) large_chunks)
          by (apply (bool_decide_unpack _); vm_compute; exact I). rewrite Forall_forall in F. apply F.
      * intros Hall. assert (Hin : first_chunk ∈ early_chunks)
          by (apply Hall; apply (bool_decide_unpack _); vm_compute; exact I).
        revert Hin. apply (bool_decide_unpack _). vm_compute. exact I.
    + apply (H large_response "c.1" (Pending 0 (Some "rpc.cam.echo") None)); try reflexivity. discriminate.
Defined.
