(* ===== verification/Retry.v ===== *)
(** * No-responder retries and native requests (client.py)

    [_with_no_responder_retry], the retry loop of [call_stream], and
    [request]. What one attempt does is an argument: the outcome of the [i]-th
    attempt, and whether the client was closed when it failed. Delays are in
    milliseconds. *)

From S2P Require Import Prelude Text PyVal Dict Errors MsgPack Codec Ids Transport.

(** [NoResponderRetryOptions] *)
Record retry_options := RetryOptions { ro_max_retries : option Z; ro_delays : option (list Z) }.

(** [override if override is not None else options.get("no_responder_retry", {}) or {}] *)
Definition retry_source (override configured : option retry_options) : retry_options :=
  match override with
  | Some o => o
  | None => default (RetryOptions None None) configured
  end.
Definition max_retries (o : retry_options) : Z := default 3%Z (ro_max_retries o).
Definition delays (o : retry_options) : list Z := default [500; 1000; 2000]%Z (ro_delays o).

(** [delays[min(attempt, len(delays) - 1)]] *)
Definition retry_delay (ds : list Z) (attempt : Z) : result exn Z :=
  let i := Z.min attempt (zlen ds - 1) in
  match (if (i <? 0)%Z then last ds else ds !! Z.to_nat i) with
  | Some d => Ok d
  | None => Raise IndexError
  end.

Section retry.
Variable py_str : pyval → string.

Definition is_no_responder (e : exn) : bool :=
  match e with NoRespondersError _ => true | _ => false end
  || contains "no responders" (lower (exn_str py_str e))
  || match e with RPCError x => is_key "503" (rx_code x) | _ => false end.

(** [not is_no_responder or attempt >= max_retries or self._closed] *)
Definition gives_up (opts : retry_options) (e : exn) (attempt : Z) (closed : bool) : bool :=
  negb (is_no_responder e) || (attempt >=? max_retries opts)%Z || closed.

Section loop.
Context {A : Type}.
Variable attempt_result : Z → result exn A.
Variable closed_at : Z → bool.
Variable opts : retry_options.

(** The [for attempt in range(...)] loop from [attempt] on, [n] rounds; the
    sleeps so far. *)
Fixpoint retry_loop (n : nat) (attempt : Z) (slept : list Z) : result exn A * list Z :=
  match n with
  | O => (Raise (RuntimeError "Retry loop exhausted"), slept)
  | S n =>
      match attempt_result attempt with
      | Ok a => (Ok a, slept)
      | Raise e =>
          if gives_up opts e attempt (closed_at attempt)
          then (Raise e, slept)
          else
            match retry_delay (delays opts) attempt with
            | Raise e => (Raise e, slept)
            | Ok d => retry_loop n (attempt + 1) (slept ++ [d])
            end
      end
  end.

(** [_with_no_responder_retry] *)
Definition with_no_responder_retry : result exn A * list Z :=
  retry_loop (Z.to_nat (max_retries opts + 1)) 0 [].
End loop.

(** [call_stream]: an attempt yields values and then ends or raises; what the
    caller receives, how the stream ends, and the sleeps. *)
Section stream.
Context {A : Type}.
Variable attempt_stream : Z → list A * option exn.
Variable closed_at : Z → bool.
Variable opts : retry_options.

Fixpoint stream_loop (n : nat) (attempt : Z) (slept : list Z) : list A * option exn * list Z :=
  match n with
  | O => ([], None, slept)
  | S n =>
      let '(values, ended) := attempt_stream attempt in
      match ended with
      | None => (values, None, slept)
      | Some e =>
          if gives_up opts e attempt (closed_at attempt)
          then (values, Some e, slept)
          else
            match retry_delay (delays opts) attempt with
            | Raise e => (values, Some e, slept)
            | Ok d =>
                let '(more, ended, slept) := stream_loop n (attempt + 1) (slept ++ [d]) in
                (values ++ more, ended, slept)
            end
      end
  end.
Definition call_stream : list A * option exn * list Z :=
  stream_loop (Z.to_nat (max_retries opts + 1)) 0 [].
End stream.

(** ** Native requests *)

Definition request_timeout (timeout : option Z) : Z :=
  match timeout with None => 5000 | Some t => if (t =? 0)%Z then 5000 else t end.

Section request.
Context {M : MsgPack}.

(** The NATS service error headers of a reply: a code that is not empty. *)
Definition service_error (m : msg) : option rpc_exception :=
  match header "Nats-Service-Error-Code" m with
  | None | Some "" => None
  | Some code =>
      let error_msg := default "Service error" (header "Nats-Service-Error" m) in
      let error_data := if bool_decide (m_data m = []) then PNone
                        else match decode_message (m_data m) with Ok d => d | Raise _ => PNone end in
      Some (create_error (CodeStr code) error_msg error_data)
  end.

(** An [error] field in a decoded reply. *)
Definition check_reply (decoded : pyval) : result exn pyval :=
  match decoded with
  | PDict kvs =>
      if dict_has "error" kvs then
        Raise (RPCError (RPCException
          (default (PStr (code_value INTERNAL_ERROR)) (dict_lookup "code" kvs))
          (default (PStr "Unknown error") (dict_lookup "error" kvs)) decoded))
      else Ok decoded
  | _ => Ok decoded
  end.

(** The body of the [try] of [_request_once] after [nc.request] returned. *)
Definition read_reply (m : msg) : result exn pyval :=
  match service_error m with
  | Some e => Raise (RPCError e)
  | None => decoded ← decode_message (m_data m); check_reply decoded
  end.

(** The [except] clauses of [_request_once]. *)
Definition translate_error (subject : string) (timeout : option Z) (e : exn) : exn :=
  match e with
  | TimeoutError _ =>
      RPCError (create_error (CodeEnum TIMEOUT)
        ("Request to '" +:+ subject +:+ "' timed out after " +:+ str_int (request_timeout timeout) +:+ "ms") PNone)
  | _ =>
      if contains "no responders" (lower (exn_str py_str e))
      then RPCError (create_error (CodeEnum NOT_FOUND) "No responders available" PNone)
      else e
  end.

(** [_request_once]; [reply] is what [nc.request] returns or raises. *)
Definition request_once (connected : bool) (subject : string) (data : pyval) (timeout : option Z)
    (reply : result exn msg) : result exn pyval :=
  if negb connected then Raise (RuntimeError "Not connected")
  else
    encoded ← encode_message data;
    match m ← reply; read_reply m with
    | Ok v => Ok v
    | Raise e => Raise (translate_error subject timeout e)
    end.

(** [request] *)
Definition request (connected : bool) (subject : string) (data : pyval) (timeout : option Z)
    (replies : Z → result exn msg) (closed_at : Z → bool) (opts : retry_options) :
    result exn pyval * list Z :=
  with_no_responder_retry (λ i, request_once connected subject data timeout (replies i)) closed_at opts.
End request.
End retry.
