(* ===== verification/RetryProps.v ===== *)
(** * What the retry loops guarantee

    The attempts a retried call makes, the sleeps between them and the result
    it ends with; what one native request turns a reply into. *)

From S2P Require Import Prelude Text PyVal Dict Errors MsgPack Codec Ids Transport Retry.

Section delays.
Implicit Types (ds : list Z) (i : Z).

Lemma retry_delay_ok ds i :
  ds ≠ [] → (0 ≤ i)%Z → ∃ d, retry_delay ds i = Ok d ∧ ds !! Z.to_nat (Z.min i (zlen ds - 1)) = Some d.
Proof.
  intros Hds Hi. assert (0 < length ds) by (destruct ds; [done|cbn; lia]).
  unfold retry_delay. rewrite (proj2 (Z.ltb_ge (Z.min i (zlen ds - 1)) 0)) by (unfold zlen; lia).
  destruct (lookup_lt_is_Some_2 ds (Z.to_nat (Z.min i (zlen ds - 1)))) as [d Hd]; [unfold zlen; lia|].
  rewrite Hd. by exists d.
Qed.

Lemma retry_delay_nil i : (0 ≤ i)%Z → retry_delay [] i = Raise IndexError.
Proof. intros. unfold retry_delay. rewrite zlen_nil, Z.min_r by lia. done. Qed.
End delays.

(** The sleeps before attempt [k], when the attempts start at [0]. *)
Definition slept_until (ds : list Z) (k : Z) : list Z :=
  omap (λ i, ds !! Z.to_nat (Z.min i (zlen ds - 1))) (seqZ 0 k).

Lemma slept_until_next ds k d :
  (0 ≤ k)%Z → ds !! Z.to_nat (Z.min k (zlen ds - 1)) = Some d →
  slept_until ds (k + 1) = slept_until ds k ++ [d].
Proof.
  intros Hk Hd. unfold slept_until. rewrite seqZ_app by lia. rewrite omap_app.
  f_equal. change (seqZ (0 + k) 1) with [(0 + k)%Z]. cbn. by rewrite Z.add_0_l, Hd.
Qed.

Section retry.
Variable py_str : pyval → string.

Section loop.
Context {A : Type}.
Variable attempt_result : Z → result exn A.
Variable closed_at : Z → bool.
Variable opts : retry_options.

(** The loop goes on after attempt [i]. *)
Definition retried (i : Z) : Prop :=
  ∃ e, attempt_result i = Raise e ∧ is_no_responder py_str e = true ∧ closed_at i = false.

Lemma gives_up_true e i :
  attempt_result i = Raise e → (i ≤ max_retries opts)%Z →
  gives_up py_str opts e i (closed_at i) = true → i = max_retries opts ∨ ¬ retried i.
Proof.
  unfold gives_up. rewrite Z.geb_leb. intros E Hi. unfold retried. rewrite E.
  destruct (is_no_responder py_str e) eqn:?; [|right; intros (e' & [= <-] & ? & ?); congruence].
  destruct (closed_at i) eqn:?; [right; intros (e' & [= <-] & ? & ?); congruence|].
  intros [[|H]%orb_true_iff|]%orb_true_iff; [done|bool_to_prop; left; lia|done].
Qed.

Lemma gives_up_false e i :
  attempt_result i = Raise e → gives_up py_str opts e i (closed_at i) = false →
  (i < max_retries opts)%Z ∧ retried i.
Proof.
  unfold gives_up. rewrite Z.geb_leb. intros E H. bool_to_prop. split; [lia|by exists e].
Qed.

Lemma retry_loop_spec n k :
  delays opts ≠ [] → (0 ≤ k)%Z → (max_retries opts + 1 = k + Z.of_nat n)%Z → 0 < n →
  ∃ j, (k ≤ j ≤ max_retries opts)%Z ∧ (∀ i, k ≤ i < j → retried i)%Z ∧
    (j = max_retries opts ∨ ¬ retried j) ∧
    retry_loop py_str attempt_result closed_at opts n k (slept_until (delays opts) k)
      = (attempt_result j, slept_until (delays opts) j).
Proof.
  intros Hds. revert k. induction n as [|n IH]; intros k Hk Hmax Hn; [lia|]. cbn [retry_loop].
  destruct (attempt_result k) as [a|e] eqn:E.
  { exists k. rewrite E. split; [lia|]. split; [lia|]. split; [right; intros (e & H & _); congruence|done]. }
  destruct (gives_up py_str opts e k (closed_at k)) eqn:G.
  { exists k. rewrite E. split; [lia|]. split; [lia|]. split; [|done]. apply (gives_up_true e); auto with lia. }
  apply (gives_up_false e) in G as [Hlt Hret]; [|done].
  destruct (retry_delay_ok (delays opts) k Hds Hk) as (d & -> & Hd).
  rewrite <- (slept_until_next _ _ _ Hk Hd).
  destruct (IH (k + 1)%Z) as (j & Hj & Hr & Hend & ->); [lia..|].
  exists j. split; [lia|]. split; [|done]. intros i Hi.
  destruct (decide (i = k)) as [->|]; [done|apply Hr; lia].
Qed.

(** C31. A retried call makes the attempts [0..k] with [k ≤ max_retries] and
    ends with the result of attempt [k]: each earlier attempt failed for want
    of a responder while the client was open, and [k] is the last attempt
    allowed or one that is not retried. Before attempt [i+1] it slept
    [delays[min(i, len(delays) - 1)]]. *)
Theorem retry_outcome :
  (0 ≤ max_retries opts)%Z → delays opts ≠ [] →
  ∃ k, (0 ≤ k ≤ max_retries opts)%Z ∧ (∀ i, 0 ≤ i < k → retried i)%Z ∧
    (k = max_retries opts ∨ ¬ retried k) ∧
    with_no_responder_retry py_str attempt_result closed_at opts
      = (attempt_result k, slept_until (delays opts) k).
Proof. intros Hmax Hds. apply retry_loop_spec; [done|lia..]. Qed.

(** Configured with no delays, a call fails with [IndexError] in place of
    its own error as soon as it has to retry; with a negative retry count it
    fails without making an attempt. *)
Theorem retry_misconfigured e :
  (attempt_result 0 = Raise e → is_no_responder py_str e = true → closed_at 0 = false →
   (0 < max_retries opts)%Z → delays opts = [] →
   with_no_responder_retry py_str attempt_result closed_at opts = (Raise IndexError, [])) ∧
  ((max_retries opts < 0)%Z →
   with_no_responder_retry py_str attempt_result closed_at opts
     = (Raise (RuntimeError "Retry loop exhausted"), [])).
Proof.
  unfold with_no_responder_retry. split.
  - intros H He Hc Hm Hd. destruct (Z.to_nat (max_retries opts + 1)) eqn:?; [lia|].
    cbn [retry_loop]. rewrite H. unfold gives_up. rewrite He, Hc, Z.geb_leb, (proj2 (Z.leb_gt _ _) Hm).
    by rewrite Hd, retry_delay_nil.
  - intros Hm. by replace (Z.to_nat (max_retries opts + 1)) with O by lia.
Qed.
End loop.

Section stream.
Context {A : Type}.
Variable attempt_stream : Z → list A * option exn.
Variable closed_at : Z → bool.
Variable opts : retry_options.

(** An attempt as the retry loop of a call sees it. *)
Definition stream_result (i : Z) : result exn unit :=
  match (attempt_stream i).2 with None => Ok tt | Some e => Raise e end.

Lemma stream_loop_spec n k :
  delays opts ≠ [] → (0 ≤ k)%Z → (max_retries opts + 1 = k + Z.of_nat n)%Z → 0 < n →
  ∃ j, (k ≤ j ≤ max_retries opts)%Z ∧ (∀ i, k ≤ i < j → retried stream_result closed_at i)%Z ∧
    (j = max_retries opts ∨ ¬ retried stream_result closed_at j) ∧
    stream_loop py_str attempt_stream closed_at opts n k (slept_until (delays opts) k)
      = (mjoin (fst ∘ attempt_stream <$> seqZ k (j + 1 - k)), (attempt_stream j).2,
         slept_until (delays opts) j).
Proof.
  intros Hds. revert k. induction n as [|n IH]; intros k Hk Hmax Hn; [lia|]. cbn [stream_loop].
  assert (Hone : mjoin (fst ∘ attempt_stream <$> seqZ k (k + 1 - k)) = (attempt_stream k).1).
  { replace (k + 1 - k)%Z with 1%Z by lia. rewrite (seqZ_cons k 1), fmap_cons, mjoin_cons by lia.
    cbn. by rewrite app_nil_r. }
  destruct (attempt_stream k) as [vs [e|]] eqn:E; cbn [fst] in Hone.
  2: { exists k. rewrite E, Hone. split; [lia|]. split; [lia|]. split; [right|done].
       intros (e & H & _). unfold stream_result in H. by rewrite E in H. }
  assert (E' : stream_result k = Raise e) by (unfold stream_result; by rewrite E).
  destruct (gives_up py_str opts e k (closed_at k)) eqn:G.
  { exists k. rewrite E, Hone. split; [lia|]. split; [lia|]. split; [|done].
    apply (gives_up_true _ _ _ e); auto with lia. }
  apply (gives_up_false stream_result _ _ e) in G as [Hlt Hret]; [|done].
  destruct (retry_delay_ok (delays opts) k Hds Hk) as (d & -> & Hd).
  rewrite <- (slept_until_next _ _ _ Hk Hd).
  destruct (IH (k + 1)%Z) as (j & Hj & Hr & Hend & ->); [lia..|].
  exists j. split; [lia|]. split.
  - intros i Hi. destruct (decide (i = k)) as [->|]; [done|apply Hr; lia].
  - split; [done|]. rewrite (seqZ_cons k (j + 1 - k)), fmap_cons, mjoin_cons by lia.
    cbn [compose fst]. rewrite E. cbn [fst]. replace (Z.succ k) with (k + 1)%Z by lia.
    by replace (Z.pred (j + 1 - k)) with (j + 1 - (k + 1))%Z by lia.
Qed.

(** A retried stream delivers, in order, everything that each of its
    attempts [0..k] yielded, and ends as attempt [k] does: an attempt that
    fails for want of a responder after it yielded values is repeated from
    the start, with its values already delivered. *)
Theorem stream_outcome :
  (0 ≤ max_retries opts)%Z → delays opts ≠ [] →
  ∃ k, (0 ≤ k ≤ max_retries opts)%Z ∧ (∀ i, 0 ≤ i < k → retried stream_result closed_at i)%Z ∧
    (k = max_retries opts ∨ ¬ retried stream_result closed_at k) ∧
    call_stream py_str attempt_stream closed_at opts
      = (mjoin (fst ∘ attempt_stream <$> seqZ 0 (k + 1)), (attempt_stream k).2,
         slept_until (delays opts) k).
Proof.
  intros Hmax Hds. destruct (stream_loop_spec (Z.to_nat (max_retries opts + 1)) 0) as (k & H); [done|lia..|].
  exists k. by rewrite Z.sub_0_r in H.
Qed.
End stream.
End retry.

(** ** Native requests *)

Section request.
Context {M : MsgPack}.
Variable py_str : pyval → string.

(** A decoded reply that reports an error. *)
Definition error_reply (v : pyval) : bool :=
  match v with PDict kvs => dict_has "error" kvs | _ => false end.

Lemma check_reply_ok d v : check_reply d = Ok v ↔ d = v ∧ error_reply v = false.
Proof.
  unfold check_reply, error_reply. split.
  - intros H. destruct d; try by injection H as <-. by destruct (dict_has "error" kvs) eqn:?; simplify_eq.
  - intros [-> H]. destruct v; try done. by rewrite H.
Qed.

(** A native request returns a value exactly when the client is
    connected, its data encodes, and the reply carries no service error,
    decodes to that value and is not an error object. *)
Theorem request_once_ok connected subject data timeout reply v :
  request_once py_str connected subject data timeout reply = Ok v ↔
  connected = true ∧ is_ok (encode_message data) = true ∧
  ∃ m, reply = Ok m ∧ service_error m = None ∧ decode_message (m_data m) = Ok v ∧
       error_reply v = false.
Proof.
  unfold request_once. destruct connected; cbn [negb]; [|split; [done|by intros []]].
  destruct (encode_message data) as [b|e]; cbn [mbind result_bind is_ok]; [|split; [done|by intros (_ & [=] & _)]].
  destruct reply as [m|e]; cbn [mbind result_bind]; [|split; [done|by intros (_ & _ & m & [=] & _)]].
  unfold read_reply. destruct (service_error m) eqn:Es.
  { split; [done|]. intros (_ & _ & m' & [= <-] & Hs & _). congruence. }
  destruct (decode_message (m_data m)) as [d|e] eqn:Ed; cbn [mbind result_bind].
  2: { split; [done|]. intros (_ & _ & m' & [= <-] & _ & Hd & _). congruence. }
  destruct (check_reply d) as [w|e] eqn:Ec.
  - pose proof Ec as (-> & Hw)%check_reply_ok. split.
    + intros [= ->]. split_and!; [done..|]. by exists m.
    + intros (_ & _ & m' & [= <-] & _ & Hd & _). congruence.
  - split; [done|]. intros (_ & _ & m' & [= <-] & _ & Hd & He).
    rewrite Ed in Hd. injection Hd as ->. by rewrite (proj2 (check_reply_ok v v)) in Ec.
Qed.

(** When no attempt finds a responder, a request of an open client makes
    all [max_retries + 1] attempts with the configured sleeps in between, and
    ends with the RPC error [NOT_FOUND]: the translated error is still
    recognised as retryable. *)
Theorem request_no_responders subject data timeout b replies closed_at opts :
  encode_message data = Ok b →
  (∀ i, ∃ s, replies i = Raise (NoRespondersError s)) → (∀ i, closed_at i = false) →
  (0 ≤ max_retries opts)%Z → delays opts ≠ [] →
  request py_str true subject data timeout replies closed_at opts
    = (Raise (RPCError (create_error (CodeEnum NOT_FOUND) "No responders available" PNone)),
       slept_until (delays opts) (max_retries opts)).
Proof.
  intros Hb Hr Hc Hm Hd. unfold request.
  assert (Honce : ∀ i, request_once py_str true subject data timeout (replies i)
    = Raise (RPCError (create_error (CodeEnum NOT_FOUND) "No responders available" PNone))).
  { intros i. destruct (Hr i) as [s ->]. unfold request_once. cbn [negb]. by rewrite Hb. }
  destruct (retry_loop_spec py_str
    (λ i, request_once py_str true subject data timeout (replies i)) closed_at opts
    (Z.to_nat (max_retries opts + 1)) 0) as (k & Hk & _ & [->|Hend] & H); [done|lia..| |].
  - etransitivity; [exact H|]. by rewrite Honce.
  - destruct Hend. eexists. split; [apply Honce|]. split; [|apply Hc]. by vm_compute.
Qed.
End request.

(** ** Witnesses *)

Definition quiet (_ : pyval) : string := "".
Definition flaky (i : Z) : result exn Z :=
  if (i <? 2)%Z then Raise (NoRespondersError "cam") else Ok i.
Definition flaky_stream (i : Z) : list Z * option exn :=
  if (i <? 1)%Z then ([i], Some (NoRespondersError "cam")) else ([10; 11]%Z, None).
Definition default_options : retry_options := RetryOptions None None.
Definition no_delays : retry_options := RetryOptions (Some 2%Z) (Some []).

Example flaky_call :
  with_no_responder_retry quiet flaky (λ _, false) default_options = (Ok 2%Z, [500; 1000]%Z).
Proof. reflexivity. Qed.
Example flaky_replayed :
  call_stream quiet flaky_stream (λ _, false) default_options = ([0; 10; 11]%Z, None, [500]%Z).
Proof. reflexivity. Qed.

Lemma retry_outcome_witness :
  ∃ k, (0 ≤ k ≤ 3)%Z ∧ (∀ i, 0 ≤ i < k → retried quiet flaky (λ _, false) i)%Z ∧
    (k = 3%Z ∨ ¬ retried quiet flaky (λ _, false) k) ∧
    with_no_responder_retry quiet flaky (λ _, false) default_options
      = (flaky k, slept_until [500; 1000; 2000]%Z k).
Proof. apply (retry_outcome quiet flaky (λ _, false) default_options); [by vm_compute|done]. Defined.

Lemma stream_outcome_witness :
  ∃ k, (0 ≤ k ≤ 3)%Z ∧ (∀ i, 0 ≤ i < k → retried quiet (stream_result flaky_stream) (λ _, false) i)%Z ∧
    (k = 3%Z ∨ ¬ retried quiet (stream_result flaky_stream) (λ _, false) k) ∧
    call_stream quiet flaky_stream (λ _, false) default_options
      = (mjoin (fst ∘ flaky_stream <$> seqZ 0 (k + 1)), (flaky_stream k).2,
         slept_until [500; 1000; 2000]%Z k).
Proof. apply (stream_outcome quiet flaky_stream (λ _, false) default_options); [by vm_compute|done]. Defined.

Lemma retry_misconfigured_witness :
  with_no_responder_retry quiet flaky (λ _, false) no_delays = (Raise IndexError, []).
Proof.
  apply (retry_misconfigured quiet flaky (λ _, false) no_delays (NoRespondersError "cam")); by vm_compute.
Defined.

Lemma request_no_responders_witness :
  request (M := reference_msgpack) quiet true "cam" PNone None (λ _, Raise (NoRespondersError "cam"))
      (λ _, false) default_options
    = (Raise (RPCError (create_error (CodeEnum NOT_FOUND) "No responders available" PNone)),
       slept_until [500; 1000; 2000]%Z 3).
Proof.
  apply (request_no_responders (M := reference_msgpack) quiet "cam" PNone None
           (match encode_message (M := reference_msgpack) PNone with Ok b => b | Raise _ => [] end));
    [by vm_compute|by intros; eexists|done|by vm_compute|done].
Defined.
