(* ===== verification/Options.v ===== *)
(** * The options of a client and what the transport gets of them (client.py)

    [RPCClient.__init__] picks the reply prefix; [_connect] translates the
    client's options into the arguments of nats-py's [connect];
    [_make_error_cb] wraps the user's error callback. Whether a certificate
    loads is up to the [ssl] module, hence an argument. *)

From S2P Require Import Prelude Text Ids Errors Retry.

(** [RPCAuthOptions] and [RPCClientOptions]; an option that may be missing is
    an [option]. Callbacks are given by identity. *)
Record auth_options := AuthOptions { au_user : string; au_password : string }.

(** [tls]: the dict of paths, or a ready context, by identity. *)
Inductive tls_options :=
| TlsDict (ca cert key : option string)
| TlsContext (context : Z).

Record client_options := ClientOptions {
  op_servers : list string;
  op_name : string;
  op_conn_id : option string;
  op_auth : option auth_options;
  op_timeout : option Z;
  op_reconnect : option bool;
  op_max_reconnect_attempts : option Z;
  op_reconnect_time_wait : option Z;
  op_connect_timeout : option Z;
  op_tls : option tls_options;
  (** no code reads these two *)
  op_max_payload_size : option Z;
  op_wait_on_first_connect : option bool;
  op_disconnect_timeout : option Z;
  op_no_responder_retry : option retry_options;
  op_error_cb : option Z;
  op_reconnected_cb : option Z }.

(** An SSL context: the caller's, or one made for the server's
    authentication that has loaded these files. *)
Inductive ssl_context :=
| GivenContext (context : Z)
| ServerAuth (ca : option string) (chain : option (string * string)).

(** The keyword arguments of [nats.connect]. *)
Record connect_options := ConnectOptions {
  co_servers : list string;
  co_name : string;
  co_allow_reconnect : bool;
  co_max_reconnect_attempts : Z;
  co_reconnect_time_wait : Z;
  co_connect_timeout : Z;
  co_pending_size : Z;
  co_reconnected_cb : option Z;
  co_auth : option (string * string);
  co_tls : option ssl_context }.

(** [d.get(k)] in a condition: absent, and empty strings, are false. *)
Definition truthy_str (o : option string) : option string :=
  s ← o; if bool_decide (s = "") then None else Some s.

(** [self._reply_prefix]; [random] is what [secrets.randbits(48)] draws. *)
Definition reply_prefix (o : client_options) (random : Z) : string :=
  default (generate_reply_prefix random) (truthy_str (op_conn_id o)).

(** [int(ms / 1000)]: the quotient is a double, whose error is below the
    distance to the next integer up to 2^53; [int] truncates. *)
Definition seconds (ms : Z) : Z := Z.quot ms 1000.

(** [_error_cb] on a transport error, given [self._closed]: the callback it
    awaits with the error. *)
Definition error_cb (o : client_options) (closed : bool) : option Z :=
  if closed then None else op_error_cb o.

Section Connect.
Context {E : Type}.
(** [load_verify_locations] and [load_cert_chain] of the [ssl] module *)
Context (load_ca : string → result E unit).
Context (load_chain : string → string → result E unit).

(** The [else] branch of the TLS options: a default context, the authority and
    the chain. *)
Definition build_context (ca cert key : option string) : result E ssl_context :=
  ca' ← match truthy_str ca with
        | Some path => _ ← load_ca path; Ok (Some path)
        | None => Ok None
        end;
  chain ← match truthy_str cert, truthy_str key with
          | Some c, Some k => _ ← load_chain c k; Ok (Some (c, k))
          | _, _ => Ok None
          end;
  Ok (ServerAuth ca' chain).

(** [if tls := self.options.get("tls")]: an empty dict is false. *)
Definition tls_context (tls : option tls_options) : result E (option ssl_context) :=
  match tls with
  | None | Some (TlsDict None None None) => Ok None
  | Some (TlsContext c) => Ok (Some (GivenContext c))
  | Some (TlsDict ca cert key) => context ← build_context ca cert key; Ok (Some context)
  end.

Definition connect_opts (o : client_options) : result E connect_options :=
  tls ← tls_context (op_tls o);
  Ok {| co_servers := op_servers o;
        co_name := op_name o;
        co_allow_reconnect := default true (op_reconnect o);
        co_max_reconnect_attempts := default (-1)%Z (op_max_reconnect_attempts o);
        co_reconnect_time_wait := seconds (default 2000%Z (op_reconnect_time_wait o));
        co_connect_timeout := seconds (default 10000%Z (op_connect_timeout o));
        co_pending_size := (6 * 1024 * 1024)%Z;
        co_reconnected_cb := op_reconnected_cb o;
        co_auth := (λ a, (au_user a, au_password a)) <$> op_auth o;
        co_tls := tls |}.

(** ** What the translation keeps *)

Lemma build_context_ok ca cert key c :
  build_context ca cert key = Ok c ↔
    c = ServerAuth (truthy_str ca)
          (cert ← truthy_str cert; key ← truthy_str key; Some (cert, key)) ∧
    (∀ path, truthy_str ca = Some path → load_ca path = Ok tt) ∧
    (∀ f k, truthy_str cert = Some f → truthy_str key = Some k → load_chain f k = Ok tt).
Proof.
  unfold build_context.
  destruct (truthy_str ca) as [path|], (truthy_str cert) as [f|], (truthy_str key) as [k|];
    cbn; try destruct (load_ca path) as [[]|e] eqn:Ha; try destruct (load_chain f k) as [[]|e'] eqn:Hc; cbn;
    naive_solver congruence.
Qed.

(** TLS that was asked for is never dropped: either the transport is given a
    context, or the connection attempt fails. The context has the authority
    that was configured, and it has loaded it. *)
Theorem tls_not_dropped o tls co :
  op_tls o = Some tls → tls ≠ TlsDict None None None → connect_opts o = Ok co →
  ∃ context, co_tls co = Some context ∧
    match tls, context with
    | TlsContext c, GivenContext c' => c' = c
    | TlsDict ca cert key, ServerAuth ca' chain =>
        ca' = truthy_str ca ∧ (∀ path, ca' = Some path → load_ca path = Ok tt) ∧
        (∀ f k, chain = Some (f, k) ↔ truthy_str cert = Some f ∧ truthy_str key = Some k)
    | _, _ => False
    end.
Proof.
  unfold connect_opts. intros -> Htls (context & Hc & Hco)%result_bind_ok. injection Hco as <-.
  cbn [co_tls]. destruct tls as [ca cert key|c]; [|cbn in Hc; simplify_eq; by eexists].
  assert ((context ← build_context ca cert key; Ok (Some context)) = Ok context) as Hb.
  { rewrite <- Hc. by destruct ca, cert, key. }
  destruct (build_context ca cert key) as [ctx|e] eqn:Hbc; [|done]. cbn in Hb. injection Hb as <-.
  apply build_context_ok in Hbc as (-> & Hca & _). eexists. split; [done|]. cbn.
  split_and!; [done|done|]. intros f k.
  destruct (truthy_str cert), (truthy_str key); cbn; naive_solver.
Qed.

(** The waits are configured in milliseconds and handed on in whole seconds,
    rounded down; in particular a wait below a second becomes none. *)
Theorem waits_in_seconds o co :
  connect_opts o = Ok co →
  (0 ≤ default 2000 (op_reconnect_time_wait o))%Z → (0 ≤ default 10000 (op_connect_timeout o))%Z →
  (1000 * co_reconnect_time_wait co ≤ default 2000 (op_reconnect_time_wait o)
     < 1000 * (co_reconnect_time_wait co + 1))%Z ∧
  (1000 * co_connect_timeout co ≤ default 10000 (op_connect_timeout o)
     < 1000 * (co_connect_timeout co + 1))%Z.
Proof.
  unfold connect_opts. intros (tls & _ & H)%result_bind_ok Hr Ht. injection H as <-.
  cbn [co_reconnect_time_wait co_connect_timeout]. unfold seconds.
  rewrite !Z.quot_div_nonneg by lia.
  split; (split; [apply Z.mul_div_le; lia|]);
    (rewrite Z.add_1_r; apply Z.mul_succ_div_gt; lia).
Qed.

End Connect.

(** ** Concrete options *)

Definition plain_options (wait : option Z) (tls : option tls_options) : client_options :=
  ClientOptions ["nats://host:4222"] "client" None None None None None wait None tls
    None None None None None None.

(** Half a second between attempts becomes no wait at all. *)
Example short_wait_lost :
  co_reconnect_time_wait <$> (match connect_opts (E := exn) (λ _, Ok tt) (λ _ _, Ok tt) (plain_options (Some 500%Z) None)
                              with Ok co => Some co | Raise _ => None end) = Some 0%Z.
Proof. reflexivity. Qed.

(** A certificate without its key is left out of the context. *)
Example certificate_without_key :
  co_tls <$> (match connect_opts (E := exn) (λ _, Ok tt) (λ _ _, Ok tt)
                      (plain_options None (Some (TlsDict (Some "ca.pem") (Some "cert.pem") None)))
              with Ok co => Some co | Raise _ => None end)
  = Some (Some (ServerAuth (Some "ca.pem") None)).
Proof. reflexivity. Qed.
