(* ===== verification/Executor.v ===== *)
(** * The shared thread pool (executor.py)

    A pool for synchronous handlers, made on first use and shared by every
    client of the process. A client keeps the pool it got when it was made
    ([self.io_pool]). Pools are given by identity; submitting to one that was
    shut down raises. *)

From S2P Require Import Prelude.

(** [_executor], the pools that accept work, and the identity of the next. *)
Record pools := Pools {
  po_executor : option Z;
  po_open : gset Z;
  po_next : Z }.

Definition no_pools : pools := Pools None ∅ 0.

Definition get_executor : pools → Z * pools := λ s,
  match po_executor s with
  | Some pool => (pool, s)
  | None => (po_next s, Pools (Some (po_next s)) ({[po_next s]} ∪ po_open s) (po_next s + 1))
  end.

(** [_executor.shutdown(wait=False)] lets what runs finish and takes no more. *)
Definition shutdown_executor (s : pools) : pools :=
  match po_executor s with
  | Some pool => Pools None (po_open s ∖ {[pool]}) (po_next s)
  | None => s
  end.

(** A history of the process: clients made and shutdowns. *)
Inductive pool_event := MakeClient | Shutdown.

Definition pool_step (s : pools) (e : pool_event) : pools :=
  match e with MakeClient => (get_executor s).2 | Shutdown => shutdown_executor s end.

Definition run_pools (es : list pool_event) (s : pools) : pools := foldl pool_step s es.

(** ** There is at most one open pool, the one that is handed out *)

Definition pools_ok (s : pools) : Prop :=
  po_open s = match po_executor s with Some pool => {[pool]} | None => ∅ end ∧
  ∀ pool, po_executor s = Some pool → (pool < po_next s)%Z.

Lemma pool_step_ok s e : pools_ok s → pools_ok (pool_step s e).
Proof.
  destruct s as [[pool|] open next], e; intros [Ho Hn]; cbn in *; subst; split; cbn;
    try set_solver; naive_solver lia.
Qed.

Lemma run_pools_ok es s : pools_ok s → pools_ok (run_pools es s).
Proof. revert s. induction es as [|e es IH]; intros s Hs; [done|]. apply IH, pool_step_ok, Hs. Qed.

Lemma run_pools_next es s : (po_next s ≤ po_next (run_pools es s))%Z.
Proof.
  revert s. induction es as [|e es IH]; intros s; [done|]. cbn. etrans; [|apply IH].
  destruct s as [[pool|] open next], e; cbn; lia.
Qed.

(** A pool that was replaced never comes back. *)
Lemma closed_stays_closed es s pool :
  pools_ok s → (pool < po_next s)%Z → pool ∉ po_open s → pool ∉ po_open (run_pools es s).
Proof.
  revert s. induction es as [|e es IH]; intros s Hs Hlt Hn; [done|]. cbn.
  apply IH; [by apply pool_step_ok| |].
  - destruct s as [[p|] open next], e; cbn in *; lia.
  - destruct s as [[p|] open next], e; cbn in *; set_solver by lia.
Qed.

(** A client's pool accepts work exactly until the first shutdown after the
    client was made, and until then every client that is made shares it. *)
Theorem io_pool_lifetime before es :
  let s := run_pools before no_pools in
  let '(pool, s1) := get_executor s in
  (pool ∈ po_open (run_pools es s1) ↔ Shutdown ∉ es) ∧
  (Shutdown ∉ es → (get_executor (run_pools es s1)).1 = pool).
Proof.
  intros s. assert (pools_ok s) as Hs by (apply run_pools_ok; split; naive_solver).
  destruct (get_executor s) as [pool s1] eqn:Hg.
  assert (pools_ok s1 ∧ po_executor s1 = Some pool) as [H1 He].
  { split.
    - change s1 with (pool, s1).2. rewrite <- Hg. apply (pool_step_ok _ MakeClient), Hs.
    - unfold get_executor in Hg. destruct (po_executor s) eqn:He; simplify_eq; done. }
  clear Hg Hs. clearbody s. clear s before. revert s1 H1 He.
  induction es as [|e es IH]; intros s1 H1 He.
  - destruct H1 as [Ho _]. rewrite He in Ho. cbn. rewrite Ho. unfold get_executor. rewrite He.
    split; [set_solver|done].
  - destruct e.
    + assert (run_pools (MakeClient :: es) s1 = run_pools es s1) as ->.
      { unfold run_pools. cbn. unfold get_executor. by rewrite He. }
      destruct (IH s1 H1 He) as [IH1 IH2]. split; [rewrite IH1; set_solver|].
      intros Hn. apply IH2. set_solver.
    + split; [|set_solver]. split; [|set_solver]. intros Hin. exfalso. revert Hin.
      apply (closed_stays_closed es (shutdown_executor s1)); [by apply (pool_step_ok _ Shutdown)| |];
        destruct H1 as [Ho Hn]; specialize (Hn _ He); unfold shutdown_executor; rewrite He; cbn;
        [done|set_solver].
Qed.
