(* ===== verification/Handlers.v ===== *)
(** * Serving calls (handler.py)

    What runs on the responder's side of one call: finding the generator a
    handler produces, the streaming loop, the pull iterator with and without
    callbacks, and the callback subscription. The world is given by its
    answers at each tick of a session clock, which advances with every publish
    and every value awaited. A session's visible actions are logged in order. *)

From S2P Require Import Prelude Text PyVal Errors.

(** ** Generators and the objects handlers return *)

(** One [__anext__]: a value, [StopAsyncIteration], or another exception. *)
Inductive gen_step := Yield (v : pyval) | Stop | Throw (e : exn).

(** An async iterable: what its successive [__anext__] do, whether it has
    [__anext__] itself, and its [aclose] with the outcome, if it has one. *)
Record source := Source {
  s_step : nat → gen_step;
  s_has_anext : bool;
  s_aclose : option (option exn) }.

(** The steps of a finite sequence. *)
Definition steps_of (vs : list pyval) (fin : gen_step) (i : nat) : gen_step :=
  match vs !! i with Some v => Yield v | None => fin end.

(** What a call returns: an object with [__aiter__], one with [__iter__] only,
    a coroutine and what awaiting it gives, or a plain value. *)
#[warnings="-register-all"]
Inductive pyobj :=
| OAsyncIter (g : source)
| OIter (steps : nat → gen_step)
| OCoroutine (r : result exn pyobj)
| OValue (v : pyval).

(** [iter(v)] for the plain values that have [__iter__]. *)
Definition value_items (v : pyval) : option (list pyval) :=
  match v with
  | PList vs | PTuple vs => Some vs
  | PDict kvs => Some kvs.*1
  | PStr s => Some ((λ c, PStr (String c "")) <$> String.list_ascii_of_string s)
  | PBytes bs | PByteArray bs | PMemView _ bs => Some ((λ b, PInt (Z_of_byte b)) <$> bs)
  | _ => None
  end.

(** A handler: what [inspect] says of it and what calling it does. *)
Record handler := Handler {
  h_asyncgenfunction : bool;
  (** the return annotation's origin is [AsyncGenerator] *)
  h_annotated : bool;
  h_generatorfunction : bool;
  h_coroutinefunction : bool;
  h_call : list pyval → result exn pyobj }.

Definition is_async_generator (h : handler) : bool := h_asyncgenfunction h || h_annotated h.
Definition is_sync_generator (h : handler) : bool := h_generatorfunction h.
Definition is_generator (h : handler) : bool := is_sync_generator h || is_async_generator h.
Definition is_async_function (h : handler) : bool := h_coroutinefunction h.

(** [async_wrapper]: an async generator over a sync iterable. *)
Definition async_wrapper (steps : nat → gen_step) : source := Source steps true (Some None).
Definition not_iterable : nat → gen_step := λ _, Throw (TypeError "object is not iterable").
Definition iter_steps (o : pyobj) : nat → gen_step :=
  match o with
  | OIter steps => steps
  | OValue v => match value_items v with Some vs => steps_of vs Stop | None => not_iterable end
  | OAsyncIter _ | OCoroutine _ => not_iterable
  end.

(** [await o] *)
Definition await (o : pyobj) : result exn pyobj :=
  match o with OCoroutine r => r | _ => Raise (TypeError "object can't be used in 'await' expression") end.

(** [hasattr(result, "__aiter__")], then [hasattr(result, "__iter__")]. *)
Definition result_generator (what : string) (o : pyobj) : result exn source :=
  match o with
  | OAsyncIter g => Ok g
  | OIter steps => Ok (async_wrapper steps)
  | OValue v =>
      match value_items v with
      | Some vs => Ok (async_wrapper (steps_of vs Stop))
      | None => Raise (RPCError (create_error (CodeEnum INTERNAL_ERROR)
                  ("Handler must return a generator for " +:+ what) PNone))
      end
  | OCoroutine _ => Raise (RPCError (create_error (CodeEnum INTERNAL_ERROR)
                  ("Handler must return a generator for " +:+ what) PNone))
  end.

(** The generator selection the three entry points share; [what] ends their
    error message. *)
Definition get_generator (what : string) (h : handler) (args : list pyval) : result exn source :=
  if is_async_generator h then
    o ← h_call h args;
    match o with
    | OAsyncIter g => Ok g
    | _ => Raise (RPCError (create_error (CodeEnum INTERNAL_ERROR)
             "Failed to create async generator from handler" PNone))
    end
  else if is_sync_generator h then
    o ← h_call h args; mret (async_wrapper (iter_steps o))
  else if is_async_function h then
    o ← h_call h args; r ← await o; result_generator what r
  else
    o ← h_call h args; result_generator what o.

(** [handle_normal_rpc]: the parameters as a list, and the handler's value. *)
Definition params_list (params : pyval) : list pyval :=
  match params with PList vs => vs | PNone => [] | v => [v] end.
Definition handle_normal_rpc (h : handler) (params : pyval) (handler_is_async : option bool) :
    result exn pyobj :=
  let handler_is_async := default (is_async_function h) handler_is_async in
  o ← h_call h (params_list params);
  if handler_is_async then await o else mret o.

(** ** The session's actions and its world *)

Inductive action :=
| Subscribed (subject : string)
| Unsubscribed (subject : string)
| Published (subject : string) (v : pyval)
| GeneratorClosed
| OnFinished
| UnsubScheduled
| HandlerCleanup.

Record world := World {
  connected_at : nat → bool;
  (** when the cancel message is handled, if it ever is *)
  cancel_at : option nat;
  publish_at : nat → option exn }.

Definition cancelled_at (w : world) (t : nat) : bool :=
  match cancel_at w with Some c => bool_decide (c ≤ t) | None => false end.
(** [not cancelled and client.is_connected] *)
Definition open_at (w : world) (t : nat) : bool := negb (cancelled_at w t) && connected_at w t.

(** ** Streaming *)

Record session := Session { ss_time : nat; ss_log : list action }.
Definition act (a : action) : pm exn session unit := modify (λ s, Session (ss_time s) (ss_log s ++ [a])).
Definition tick : pm exn session unit := modify (λ s, Session (S (ss_time s)) (ss_log s)).

Definition data_msg (id : string) (v : pyval) : pyval :=
  PDict [(PStr "id", PStr id); (PStr "type", PStr "data"); (PStr "data", v)].
Definition end_msg (id : string) : pyval :=
  PDict [(PStr "id", PStr id); (PStr "type", PStr "end")].
Definition error_msg (id : string) (error : pyval) : pyval :=
  PDict [(PStr "id", PStr id); (PStr "type", PStr "error"); (PStr "error", error)].

Section stream.
Variable py_str : pyval → string.
Variable w : world.
Variables (subject id : string).
Variable g : source.

(** [await client.publish(subject, v)] *)
Definition publish_value (v : pyval) : pm exn session unit :=
  s ← get_state;
  tick ≫= λ _,
  match publish_at w (ss_time s) with
  | Some e => raise e
  | None => act (Published subject v)
  end.

Definition stream_error (e : exn) : pyval :=
  match e with
  | RPCError x => to_dict x
  | _ => PDict [(PStr "code", PStr (code_value STREAM_ERROR)); (PStr "message", PStr (exn_str py_str e))]
  end.

(** [async for value in generator: ...] from the [i]-th value on, at most
    [fuel] rounds; [false] when it has not finished by then. *)
Fixpoint stream_loop (fuel i : nat) : pm exn session bool :=
  match fuel with
  | O => mret false
  | S fuel =>
      tick ≫= λ _,
      match s_step g i with
      | Stop => mret true
      | Throw e => raise e
      | Yield v =>
          s ← get_state;
          if open_at w (ss_time s) then publish_value (data_msg id v) ≫= λ _, stream_loop fuel (S i)
          else mret true
      end
  end.

(** The [try] body: the loop and the end message. *)
Definition stream_body (fuel : nat) : pm exn session bool :=
  fin ← stream_loop fuel 0;
  s ← get_state;
  (if fin && open_at w (ss_time s) then publish_value (end_msg id) else mret tt) ≫= λ _,
  mret fin.

(** The [except] clause. *)
Definition report_error (e : exn) : pm exn session bool :=
  s ← get_state;
  (if open_at w (ss_time s)
   then try_except (publish_value (error_msg id (stream_error e))) (λ _, mret tt)
   else mret tt) ≫= λ _,
  mret true.

Definition close_generator : pm exn session unit :=
  match s_aclose g with Some _ => act GeneratorClosed | None => mret tt end.

(** [handle_stream_request] from the subscription on; whether it finished
    within the fuel. *)
Definition stream_values (fuel : nat) : pm exn session bool :=
  act (Subscribed (subject +:+ ".cancel")) ≫= λ _,
  fin ← try_except (stream_body fuel) report_error;
  (if (fin : bool) then act (Unsubscribed (subject +:+ ".cancel")) ≫= λ _, close_generator else mret tt) ≫= λ _,
  mret fin.
End stream.

Definition handle_stream_request (py_str : pyval → string) (w : world) (h : handler) (args : list pyval)
    (stream_subject request_id : string) (fuel : nat) : pm exn session bool :=
  g ← lift (get_generator "stream" h args);
  stream_values py_str w stream_subject request_id g fuel.

(** ** Pull iterators

    One session serves [next] and [cancel] requests in the order of their
    subscription. A [next] suspends while it awaits the generator; a cleanup
    may run meanwhile, and its unsubscription cancels the suspended request.
    The pull-callback session is the same code with a [CallbackInvoker]. *)

Record pull := Pull {
  p_active : bool;
  p_finished : bool;
  (** the invoker's [active], for pull-callback sessions *)
  p_invoker : option bool;
  (** [unsub_func] is set *)
  p_unsub : bool;
  (** a [next] awaits the generator *)
  p_busy : bool;
  p_pos : nat;
  p_time : nat;
  p_log : list action }.

Definition set_active b (s : pull) : pull :=
  Pull b (p_finished s) (p_invoker s) (p_unsub s) (p_busy s) (p_pos s) (p_time s) (p_log s).
Definition set_finished (s : pull) : pull :=
  Pull (p_active s) true (p_invoker s) (p_unsub s) (p_busy s) (p_pos s) (p_time s) (p_log s).
(** [invoker.active = False] *)
Definition stop_invoker (s : pull) : pull :=
  Pull (p_active s) (p_finished s) ((λ _, false) <$> p_invoker s) (p_unsub s) (p_busy s) (p_pos s)
       (p_time s) (p_log s).
Definition set_busy b (s : pull) : pull :=
  Pull (p_active s) (p_finished s) (p_invoker s) (p_unsub s) b (p_pos s) (p_time s) (p_log s).
Definition next_pos (s : pull) : pull :=
  Pull (p_active s) (p_finished s) (p_invoker s) (p_unsub s) (p_busy s) (S (p_pos s)) (p_time s) (p_log s).
Definition pull_tick (s : pull) : pull :=
  Pull (p_active s) (p_finished s) (p_invoker s) (p_unsub s) (p_busy s) (p_pos s) (S (p_time s)) (p_log s).
Definition pull_act a (s : pull) : pull :=
  Pull (p_active s) (p_finished s) (p_invoker s) (p_unsub s) (p_busy s) (p_pos s) (p_time s) (p_log s ++ [a]).

Definition request_subject (id : string) : string := "_rpc.iterator." +:+ id +:+ ".request".
Definition response_subject (id : string) : string := "_rpc.iterator." +:+ id +:+ ".response".

(** The state in which both entry points return, subscribed and idle. *)
Definition start_pull (id : string) (invoker : option bool) : pull :=
  Pull true false invoker true false 0 0 [Subscribed (request_subject id)].

Definition done_response (id : string) : pyval :=
  PDict [(PStr "id", PStr id); (PStr "type", PStr "done")].
Definition error_response (id : string) (error : pyval) : pyval :=
  PDict [(PStr "id", PStr id); (PStr "type", PStr "error"); (PStr "error", error)].
(** A batch boundary carries no value. *)
Definition next_response (id : string) (with_value : bool) (v : pyval) : pyval :=
  PDict ([(PStr "id", PStr id); (PStr "type", PStr "value")] ++
         (if with_value then [(PStr "value", v)] else [])).

Section pull.
Variable py_str : pyval → string.
Variable w : world.
Variable id : string.
Variable g : source.
(** the session was given an [on_finished], and its responses carry values *)
Variables has_on_finished with_value : bool.

Definition respond (v : pyval) : pm exn pull unit :=
  s ← get_state;
  modify pull_tick ≫= λ _,
  match publish_at w (p_time s) with
  | Some e => raise e
  | None => modify (pull_act (Published (response_subject id) v))
  end.

(** [finish]; what [on_finished] raises is suppressed. *)
Definition finish : pm exn pull unit :=
  s ← get_state;
  if p_finished s then mret tt
  else
    modify (λ s, stop_invoker (set_active false (set_finished s))) ≫= λ _,
    (if has_on_finished then modify (pull_act OnFinished) else mret tt) ≫= λ _,
    if p_unsub s then modify (pull_act UnsubScheduled) else mret tt.

Definition deactivate : pm exn pull unit := modify (λ s, stop_invoker (set_active false s)).

(** [generator.aclose()] *)
Definition aclose : pm exn pull unit :=
  match s_aclose g with
  | None => mret tt
  | Some r =>
      modify (pull_act GeneratorClosed) ≫= λ _,
      match r with Some e => raise e | None => mret tt end
  end.

Definition respond_done : pm exn pull unit := try_finally (respond (done_response id)) finish.

(** The outer [except] clause. *)
Definition respond_error (e : exn) : pm exn pull unit :=
  deactivate ≫= λ _,
  try_finally (respond (error_response id (format_error_dict py_str e))) finish.

(** [handle_pull_request], up to the generator of a [next]. *)
Definition handle_pull_request (type : pyval) : pm exn pull unit :=
  s ← get_state;
  if p_busy s then mret tt
  else if negb (p_active s) then mret tt
  else if is_key "cancel" type then
    try_except (deactivate ≫= λ _, aclose ≫= λ _, respond_done) respond_error
  else if is_key "next" type then modify (set_busy true)
  else mret tt.

Definition anext (i : nat) : gen_step :=
  if s_has_anext g then s_step g i else Throw (AttributeError "object has no attribute '__anext__'").

(** The suspended [next] resumes. *)
Definition resume_next : pm exn pull unit :=
  s ← get_state;
  if negb (p_busy s) then mret tt
  else
    modify (λ s, next_pos (set_busy false s)) ≫= λ _,
    try_except
      match anext (p_pos s) with
      | Yield v => respond (next_response id with_value v)
      | Stop => deactivate ≫= λ _, respond_done
      | Throw e => raise e
      end respond_error.

(** [cleanup]; unsubscribing cancels a suspended [next]. *)
Definition cleanup : pm exn pull unit :=
  modify (λ s, stop_invoker (set_finished (set_active false s))) ≫= λ _,
  s ← get_state;
  (if p_unsub s then modify (λ s, pull_act (Unsubscribed (request_subject id)) (set_busy false s))
   else mret tt) ≫= λ _,
  suppress aclose.

Inductive pull_event := PRequest (type : pyval) | PResume | PCleanup.
Definition run_pull (e : pull_event) : pm exn pull unit :=
  match e with
  | PRequest type => handle_pull_request type
  | PResume => resume_next
  | PCleanup => cleanup
  end.
(** What a request raises is printed by its subscription. *)
Definition pull_step (s : pull) (e : pull_event) : pull := (run_pull e s).2.
End pull.

(** [handle_pull_iterator_request] and [handle_pull_callback_request], up to
    the state in which they return; the callback session appends its invoker
    to the arguments. *)
Definition handle_pull_iterator_request (h : handler) (args : list pyval) (id : string) :
    result exn (source * pull) :=
  g ← get_generator "pull iterator" h args;
  mret (g, start_pull id None).
Definition handle_pull_callback_request (h : handler) (args : list pyval) (invoker : pyval) (id : string) :
    result exn (source * pull) :=
  g ← get_generator "pull-callback iterator" h (args ++ [invoker]);
  mret (g, start_pull id (Some true)).

(** [CallbackInvoker.invoke]: the message it publishes to the callback
    subject, if any. *)
Definition invoke (active connected : bool) (oneway : list string) (method : string) (args : list pyval) :
    option pyval :=
  if negb active then None
  else if negb (bool_decide (method ∈ oneway)) then None
  else if negb connected then None
  else Some (PDict [(PStr "method", PStr method); (PStr "args", PList args)]).

(** ** Callback subscriptions *)

(** The start of [handle_callback_request]: the handler gets the wrapper as its
    last argument; the callable it returns, if it returns one. *)
Definition handle_callback_request (h : handler) (args : list pyval) (callback : pyval) :
    result exn (option Z) :=
  o ← h_call h (args ++ [callback]);
  r ← (if is_async_function h then await o else mret o);
  mret (match r with OValue (PFun k) => Some k | _ => None end).

Record callback_session := CallbackSession { cb_cleaned : bool; cb_log : list action }.
Definition cb_act a : pm exn callback_session unit :=
  modify (λ s, CallbackSession (cb_cleaned s) (cb_log s ++ [a])).

(** Where a sync handler's wrapper is called: on the running event loop, or
    on a thread of the pool, which has none. *)
Inductive thread := EventLoop | PoolThread.

Section callback.
Variables (subject id : string).
Variable has_on_finished : bool.
(** the handler's cleanup, when it returned a callable, and what it raises *)
Variable handler_cleanup : option (option exn).

Definition callback_msg (v : pyval) : pyval :=
  PDict [(PStr "id", PStr id); (PStr "type", PStr "data"); (PStr "data", v)].

Definition wrapper_callback (connected : bool) (v : pyval) : pm exn callback_session unit :=
  if negb connected then mret tt else cb_act (Published subject (callback_msg v)).
(** [asyncio.get_event_loop()] raises [RuntimeError] on a pool thread. *)
Definition sync_wrapper_callback (t : thread) (connected : bool) (v : pyval) :
    pm exn callback_session unit :=
  match t with
  | EventLoop => wrapper_callback connected v
  | PoolThread => mret tt
  end.

Definition invoke_cleanup : pm exn callback_session unit :=
  match handler_cleanup with
  | None => mret tt
  | Some r => cb_act HandlerCleanup ≫= λ _, match r with Some e => raise e | None => mret tt end
  end.
Definition run_handler_cleanup : pm exn callback_session unit :=
  s ← get_state;
  if cb_cleaned s then mret tt
  else modify (λ s, CallbackSession true (cb_log s)) ≫= λ _, invoke_cleanup.

Definition on_cancel : pm exn callback_session unit :=
  (if has_on_finished then cb_act OnFinished else mret tt) ≫= λ _,
  run_handler_cleanup ≫= λ _,
  cb_act UnsubScheduled.
Definition callback_cleanup : pm exn callback_session unit :=
  cb_act (Unsubscribed (subject +:+ ".cancel")) ≫= λ _,
  run_handler_cleanup.

Inductive callback_event :=
| CbValue (connected : bool) (v : pyval)
| CbSyncValue (t : thread) (connected : bool) (v : pyval)
| CbCancel
| CbCleanup.
Definition run_callback (e : callback_event) : pm exn callback_session unit :=
  match e with
  | CbValue connected v => wrapper_callback connected v
  | CbSyncValue t connected v => sync_wrapper_callback t connected v
  | CbCancel => on_cancel
  | CbCleanup => callback_cleanup
  end.
Definition callback_step (s : callback_session) (e : callback_event) : callback_session :=
  (run_callback e s).2.
End callback.
