(* ===== verification/StreamProps.v ===== *)
(** * What serving a stream guarantees (handler.py)

    The generator a handler produces, and the messages of a streaming session:
    the values in order, then at most one end or error, inside the cancel
    subscription, whatever the connection and the consumer do. *)

From S2P Require Import Prelude Text PyVal Errors Handlers.

(** ** Handlers that produce a generator *)

(** Each way in which a handler produces the iterable [g]. *)
Inductive produces (h : handler) (args : list pyval) : source → Prop :=
| produces_async_generator g :
    is_async_generator h = true → h_call h args = Ok (OAsyncIter g) → produces h args g
| produces_generator steps :
    is_async_generator h = false → is_sync_generator h = true →
    h_call h args = Ok (OIter steps) → produces h args (async_wrapper steps)
| produces_async what o g :
    is_async_generator h = false → is_sync_generator h = false → is_async_function h = true →
    h_call h args = Ok (OCoroutine (Ok o)) → result_generator what o = Ok g → produces h args g
| produces_sync what o g :
    is_async_generator h = false → is_sync_generator h = false → is_async_function h = false →
    h_call h args = Ok o → result_generator what o = Ok g → produces h args g.

Lemma result_generator_any what what' o g :
  result_generator what o = Ok g → result_generator what' o = Ok g.
Proof. destruct o as [| | |v]; cbn; try done. by destruct (value_items v). Qed.

Lemma get_generator_produces what h args g : produces h args g → get_generator what h args = Ok g.
Proof.
  unfold get_generator. intros [g' H1 H2|steps H1 H2 H3|what' o g' H1 H2 H3 H4 H5|what' o g' H1 H2 H3 H4 H5].
  - by rewrite H1, H2.
  - by rewrite H1, H2, H3.
  - rewrite H1, H2, H3, H4. cbn. by eapply result_generator_any.
  - rewrite H1, H2, H3, H4. cbn. by eapply result_generator_any.
Qed.

Lemma get_generator_ok what h args g :
  get_generator what h args = Ok g → is_sync_generator h = false → produces h args g.
Proof.
  unfold get_generator. intros H Hs. rewrite Hs in H.
  destruct (is_async_generator h) eqn:Ha; [|destruct (is_async_function h) eqn:Hf].
  - apply result_bind_ok in H as (o & Ho & H). destruct o; try done.
    injection H as <-. by apply produces_async_generator.
  - apply result_bind_ok in H as (o & Ho & H). apply result_bind_ok in H as (r & Hr & H).
    destruct o; try done. cbn in Hr. subst. by eapply produces_async.
  - apply result_bind_ok in H as (o & Ho & H). by eapply produces_sync.
Qed.

(** [vs] are the values [g] yields from the [i]-th step on. *)
Definition yields (g : source) (i : nat) (vs : list pyval) : Prop :=
  ∀ j v, vs !! j = Some v → s_step g (i + j) = Yield v.

Lemma yields_nil g i : yields g i [].
Proof. by intros j v H. Qed.
Lemma yields_cons g i v vs :
  yields g i (v :: vs) ↔ s_step g i = Yield v ∧ yields g (S i) vs.
Proof.
  split.
  - intros H. split; [rewrite <- (Nat.add_0_r i); by apply H|].
    intros j u Hj. replace (S i + j) with (i + S j) by lia. by apply H.
  - intros [Hv H] [|j] u Hj; cbn in Hj; [rewrite Nat.add_0_r; by simplify_eq|].
    replace (i + S j) with (S i + j) by lia. by apply H.
Qed.

(** ** The session *)
Section stream.
Variable py_str : pyval → string.
Variable w : world.
Variables (subject id : string).
Variable g : source.
Abbreviation loop := (stream_loop w subject id g).
Abbreviation run := (stream_values py_str w subject id g).

Definition data (vs : list pyval) : list action := (λ v, Published subject (data_msg id v)) <$> vs.
Definition closing : list action :=
  Unsubscribed (subject +:+ ".cancel") :: match s_aclose g with Some _ => [GeneratorClosed] | None => [] end.

(** An exception of the loop: the generator's own, or that of a publish. *)
Definition fails_at (i : nat) (e : exn) : Prop :=
  s_step g i = Throw e ∨ ∃ v t, s_step g i = Yield v ∧ publish_at w t = Some e.

Lemma publish_value_eq v s :
  publish_value w subject v s =
    match publish_at w (ss_time s) with
    | Some e => (Raise e, Session (S (ss_time s)) (ss_log s))
    | None => (Ok tt, Session (S (ss_time s)) (ss_log s ++ [Published subject v]))
    end.
Proof.
  unfold publish_value. rewrite !pm_bind_eq. cbn. rewrite pm_bind_eq. cbn.
  by destruct (publish_at w (ss_time s)).
Qed.

Lemma loop_S fuel i s :
  loop (S fuel) i s =
    let t := S (ss_time s) in
    match s_step g i with
    | Stop => (Ok true, Session t (ss_log s))
    | Throw e => (Raise e, Session t (ss_log s))
    | Yield v =>
        if open_at w t then
          match publish_at w t with
          | Some e => (Raise e, Session (S t) (ss_log s))
          | None => loop fuel (S i) (Session (S t) (ss_log s ++ [Published subject (data_msg id v)]))
          end
        else (Ok true, Session t (ss_log s))
    end.
Proof.
  cbn [stream_loop]. rewrite pm_bind_eq. unfold tick, modify. cbn [fst snd].
  destruct (s_step g i); [|done..]. rewrite pm_bind_eq. cbn [get_state ss_time].
  destruct (open_at w (S (ss_time s))); [|done]. rewrite pm_bind_eq, publish_value_eq.
  cbn [ss_time ss_log]. by destruct (publish_at w (S (ss_time s))).
Qed.

Lemma loop_shape fuel i s r s' :
  loop fuel i s = (r, s') →
  ∃ vs, yields g i vs ∧ ss_log s' = ss_log s ++ data vs ∧
    match r with
    | Ok true => s_step g (i + length vs) = Stop ∨ open_at w (ss_time s') = false
    | Ok false => length vs = fuel
    | Raise e => fails_at (i + length vs) e
    end.
Proof.
  revert i s. induction fuel as [|fuel IH]; intros i s.
  { intros [= <- <-]. exists []. split; [apply yields_nil|]. by rewrite app_nil_r. }
  rewrite loop_S. cbv zeta. destruct (s_step g i) as [v| |e] eqn:E.
  2,3: intros [= <- <-]; exists []; rewrite app_nil_r, Nat.add_0_r; split; [apply yields_nil|];
       split; [done|by left].
  destruct (open_at w (S (ss_time s))) eqn:Eo.
  2: { intros [= <- <-]. exists []. rewrite app_nil_r. split; [apply yields_nil|]. split; [done|by right]. }
  destruct (publish_at w (S (ss_time s))) as [e|] eqn:Ep.
  { intros [= <- <-]. exists []. rewrite app_nil_r, Nat.add_0_r. split; [apply yields_nil|].
    split; [done|]. right. by exists v, (S (ss_time s)). }
  intros (vs & Hy & Hl & Hr)%IH. exists (v :: vs). split; [by apply yields_cons|].
  cbn [ss_log] in Hl. unfold data. rewrite fmap_cons. split; [by rewrite Hl, <- app_assoc|].
  cbn [length]. rewrite <- Nat.add_succ_comm. destruct r as [[]|e]; auto with lia.
Qed.

(** The messages that may end a stream. *)
Inductive ending (i : nat) : list action → Prop :=
| ending_none : ending i []
| ending_end : s_step g i = Stop → ending i [Published subject (end_msg id)]
| ending_error e :
    s_step g i = Throw e ∨ (∃ t, publish_at w t = Some e) →
    ending i [Published subject (error_msg id (stream_error py_str e))].

Lemma report_error_shape i e s :
  s_step g i = Throw e ∨ (∃ t, publish_at w t = Some e) →
  ∃ term, ending i term ∧ (report_error py_str w subject id e s).1 = Ok true ∧
    ss_log (report_error py_str w subject id e s).2 = ss_log s ++ term.
Proof.
  intros He. unfold report_error. rewrite pm_bind_eq. cbn [get_state].
  destruct (open_at w (ss_time s)).
  2: { exists []. rewrite app_nil_r. split; [constructor|done]. }
  rewrite pm_bind_eq. unfold try_except. rewrite publish_value_eq.
  destruct (publish_at w (ss_time s)); cbn.
  - exists []. rewrite app_nil_r. split; [constructor|done].
  - eexists. split; [by apply (ending_error i e)|done].
Qed.

Lemma fails_at_cause i e : fails_at i e → s_step g i = Throw e ∨ (∃ t, publish_at w t = Some e).
Proof. intros [H|(v & t & _ & H)]; [by left|right; by exists t]. Qed.

(** The guarded body, on its result and log. *)
Lemma body_shape fuel s :
  let r := try_except (stream_body w subject id g fuel) (report_error py_str w subject id) s in
  ∃ fin vs term, yields g 0 vs ∧ r.1 = Ok fin ∧ ss_log r.2 = ss_log s ++ data vs ++ term ∧
    (if fin : bool then ending (length vs) term else term = [] ∧ length vs = fuel ∧ (loop fuel 0 s).1 = Ok false).
Proof.
  intros r. subst r. unfold try_except, stream_body. rewrite pm_bind_eq.
  destruct (loop fuel 0 s) as [rl s1] eqn:E.
  apply loop_shape in E as (vs & Hy & Hl & Hr). cbn [Nat.add] in Hr. destruct rl as [fin|e].
  2: { destruct (report_error_shape (length vs) e s1) as (term & Ht & Hr1 & Hl1); [by apply fails_at_cause|].
       exists true, vs, term. rewrite Hr1, Hl1, Hl, <- app_assoc. done. }
  rewrite pm_bind_eq. cbn [get_state]. destruct fin; cbn [andb].
  2: { exists false, vs, []. by rewrite app_nil_r. }
  rewrite pm_bind_eq. destruct (open_at w (ss_time s1)) eqn:Eo.
  2: { exists true, vs, []. rewrite app_nil_r. split_and!; try done. constructor. }
  destruct Hr as [Hr|Hr]; [|congruence]. rewrite publish_value_eq.
  destruct (publish_at w (ss_time s1)) as [e|] eqn:Ep.
  - destruct (report_error_shape (length vs) e (Session (S (ss_time s1)) (ss_log s1)))
      as (term & Ht & Hr1 & Hl1); [right; by exists (ss_time s1)|].
    exists true, vs, term. rewrite Hr1, Hl1. cbn. by rewrite Hl, <- app_assoc.
  - exists true, vs, [Published subject (end_msg id)]. cbn. rewrite Hl, <- app_assoc.
    split_and!; try done. by constructor.
Qed.

Definition subscribed (s : session) : session :=
  Session (ss_time s) (ss_log s ++ [Subscribed (subject +:+ ".cancel")]).

Lemma run_eq fuel s :
  run fuel s =
    match try_except (stream_body w subject id g fuel) (report_error py_str w subject id) (subscribed s) with
    | (Ok true, s1) => (Ok true, Session (ss_time s1) (ss_log s1 ++ closing))
    | r => r
    end.
Proof.
  unfold stream_values. rewrite pm_bind_eq. unfold act at 1, modify. fold (subscribed s).
  rewrite pm_bind_eq. destruct (try_except _ _ _) as [[[]|e] s1]; [|done..].
  rewrite !pm_bind_eq. unfold act, close_generator, modify, closing.
  destruct (s_aclose g); cbn; by rewrite <- ?app_assoc.
Qed.

Lemma session_shape fuel s :
  ∃ fin vs, yields g 0 vs ∧ (run fuel s).1 = Ok fin ∧
    if fin : bool
    then ∃ term, ending (length vs) term ∧
         ss_log (run fuel s).2 = ss_log s ++ Subscribed (subject +:+ ".cancel") :: data vs ++ term ++ closing
    else length vs = fuel ∧ (loop fuel 0 (subscribed s)).1 = Ok false ∧
         ss_log (run fuel s).2 = ss_log s ++ Subscribed (subject +:+ ".cancel") :: data vs.
Proof.
  rewrite run_eq. destruct (body_shape fuel (subscribed s)) as (fin & vs & term & Hy & Hr & Hl & Ht).
  exists fin, vs. split; [done|]. destruct (try_except _ _ _) as [r s1].
  cbn [fst snd subscribed ss_log] in Hr, Hl. subst r. destruct fin; cbn [fst snd ss_log].
  - split; [done|]. exists term. split; [done|]. rewrite Hl, <- !app_assoc. done.
  - destruct Ht as (-> & ? & ?). split_and!; [done..|]. by rewrite Hl, app_nil_r, <- app_assoc.
Qed.

(** *** Completion *)

(** The step with which the generator ends. *)
Definition final (step : gen_step) : bool := match step with Yield _ => false | _ => true end.

Lemma loop_ends fuel i n s :
  final (s_step g n) = true → i ≤ n < i + fuel → (loop fuel i s).1 ≠ Ok false.
Proof.
  intros Hn. revert i s. induction fuel as [|fuel IH]; intros i s Hi; [lia|].
  rewrite loop_S. cbv zeta. destruct (s_step g i) as [v| |e] eqn:E; [|done..].
  destruct (open_at w (S (ss_time s))); [|done].
  destruct (publish_at w (S (ss_time s))); [done|]. apply IH.
  assert (i ≠ n) by (intros ->; by rewrite E in Hn). lia.
Qed.

Lemma loop_cancelled fuel i c s :
  cancel_at w = Some c → c < ss_time s + fuel → 0 < fuel → (loop fuel i s).1 ≠ Ok false.
Proof.
  intros Hc. revert i s. induction fuel as [|fuel IH]; intros i s Ht Hf; [lia|].
  rewrite loop_S. cbv zeta. destruct (s_step g i) as [v| |e]; [|done..].
  destruct (open_at w (S (ss_time s))) eqn:Eo; [|done].
  destruct (publish_at w (S (ss_time s))); [done|].
  unfold open_at, cancelled_at in Eo. rewrite Hc in Eo. apply andb_true_iff in Eo as [Eo _].
  bool_to_prop. apply IH; cbn [ss_time]; lia.
Qed.

Lemma run_finishes fuel s : (loop fuel 0 (subscribed s)).1 ≠ Ok false → (run fuel s).1 = Ok true.
Proof.
  intros H. destruct (session_shape fuel s) as (fin & vs & _ & Hr & Hf). rewrite Hr.
  destruct fin; [done|]. by destruct Hf as (_ & Hf & _).
Qed.

(** *** A connected, patient consumer *)
Definition undisturbed : Prop := (∀ t, open_at w t = true) ∧ (∀ t, publish_at w t = None).

Lemma loop_undisturbed vs fuel i s :
  undisturbed → yields g i vs → final (s_step g (i + length vs)) = true → length vs < fuel →
  ∃ t, loop fuel i s =
    (match s_step g (i + length vs) with Throw e => Raise e | _ => Ok true end,
     Session t (ss_log s ++ data vs)).
Proof.
  intros [Ho Hp]. revert fuel i s. induction vs as [|v vs IH]; intros [|fuel] i s Hy Hf Hlen;
    cbn [length] in *; try lia; rewrite loop_S; cbv zeta.
  - rewrite Nat.add_0_r in *. rewrite app_nil_r. exists (S (ss_time s)).
    by destruct (s_step g i).
  - apply yields_cons in Hy as [-> Hy]. rewrite Ho, Hp. rewrite <- Nat.add_succ_comm in *.
    destruct (IH fuel (S i) (Session (S (S (ss_time s)))
                               (ss_log s ++ [Published subject (data_msg id v)]))) as [t Ht]; [done..|lia|].
    exists t. rewrite Ht. cbn [ss_log]. unfold data. by rewrite fmap_cons, <- app_assoc.
Qed.

Definition last_msg (step : gen_step) : pyval :=
  match step with Throw e => error_msg id (stream_error py_str e) | _ => end_msg id end.

Lemma run_undisturbed vs fuel s :
  undisturbed → yields g 0 vs → final (s_step g (length vs)) = true → length vs < fuel →
  (run fuel s).1 = Ok true ∧
  ss_log (run fuel s).2 = ss_log s ++ Subscribed (subject +:+ ".cancel") :: data vs
    ++ Published subject (last_msg (s_step g (length vs))) :: closing.
Proof.
  intros Hu Hy Hf Hlen. rewrite run_eq. unfold try_except, stream_body. rewrite pm_bind_eq.
  destruct (loop_undisturbed vs fuel 0 (subscribed s)) as [t ->]; [done..|]. cbn [Nat.add].
  destruct Hu as [Ho Hp]. destruct (s_step g (length vs)) as [v| |e]; [done| |].
  - rewrite pm_bind_eq. cbn [get_state andb ss_time]. rewrite Ho, pm_bind_eq, publish_value_eq.
    cbn [ss_time ss_log]. rewrite Hp. cbn. by rewrite <- !app_assoc.
  - unfold report_error. rewrite pm_bind_eq. cbn [get_state ss_time]. rewrite Ho, pm_bind_eq.
    unfold try_except. rewrite publish_value_eq. cbn [ss_time ss_log]. rewrite Hp. cbn.
    by rewrite <- !app_assoc.
Qed.
End stream.

(** ** Properties *)
Section theorems.
Variable py_str : pyval → string.
Variable w : world.
Variables (h : handler) (args : list pyval) (subject id : string) (g : source).
Hypothesis Hg : produces h args g.
Abbreviation serve fuel s := (handle_stream_request py_str w h args subject id fuel s).

Lemma serve_eq fuel s : serve fuel s = stream_values py_str w subject id g fuel s.
Proof. unfold handle_stream_request. by rewrite (get_generator_produces _ _ _ g). Qed.


(** A stream finishes when its generator ends or the consumer cancels,
    infinite generators included; a consumer that stays connected and does
    not cancel gets every value and then the end message, or the error the
    generator raised. *)
Theorem stream_delivers fuel s :
  ((∃ n, final (s_step g n) = true ∧ n < fuel) ∨
   (∃ c, cancel_at w = Some c ∧ c < ss_time s + fuel ∧ 0 < fuel) →
   (serve fuel s).1 = Ok true) ∧
  (∀ vs, undisturbed w → yields g 0 vs → final (s_step g (length vs)) = true → length vs < fuel →
   ss_log (serve fuel s).2 = ss_log s ++ Subscribed (subject +:+ ".cancel") :: data subject id vs
     ++ Published subject (last_msg py_str id (s_step g (length vs))) :: closing subject g).
Proof.
  rewrite serve_eq. split.
  - intros [(n & Hn & Hlt)|(c & Hc & Ht & Hf)]; apply run_finishes.
    + by apply (loop_ends _ _ _ _ _ _ n); [|lia].
    + by apply (loop_cancelled _ _ _ _ _ _ c).
  - intros vs. apply run_undisturbed.
Qed.
End theorems.

(** ** Witnesses *)

(** A sync function that returns a list, on a connected client. *)
Definition list_handler : handler :=
  Handler false false false false (λ args, Ok (OValue (PList args))).
Definition calm : world := World (λ _, true) None (λ _, None).
Definition no_str (_ : pyval) : string := "".

Lemma list_handler_produces args :
  produces list_handler args (async_wrapper (steps_of args Stop)).
Proof. by apply (produces_sync _ _ "" (OValue (PList args))). Qed.


Lemma stream_delivers_witness :
  ss_log (handle_stream_request no_str calm list_handler [PInt 1; PNone] "s" "r" 3 (Session 0 [])).2
    = [Subscribed "s.cancel"; Published "s" (data_msg "r" (PInt 1)); Published "s" (data_msg "r" PNone);
       Published "s" (end_msg "r"); Unsubscribed "s.cancel"; GeneratorClosed].
Proof.
  apply (stream_delivers no_str calm list_handler [PInt 1; PNone] "s" "r" _ (list_handler_produces _)
           3 (Session 0 [])) with (vs := [PInt 1; PNone]); [done| |done|cbn; lia].
  intros [|[|j]] v Hv; by inversion Hv.
Defined.
