(* ===== verification/PullProps.v ===== *)
(** * What pull iterators and callback subscriptions guarantee (handler.py)

    One invariant of the pull session gives the protocol: its responses are
    the generator's values in order and then at most one final response, after
    which the session and its invoker are inert. *)

From S2P Require Import Prelude Text PyVal Errors Handlers.

(** The responses a session has published. *)
Definition responses (log : list action) : list pyval :=
  omap (λ a, match a with Published _ v => Some v | _ => None end) log.
(** How often [a] occurs. *)
Definition occurs (P : action → bool) (log : list action) : nat := length (List.filter P log).
Definition is_on_finished (a : action) : bool := match a with OnFinished => true | _ => false end.
Definition is_unsub_scheduled (a : action) : bool := match a with UnsubScheduled => true | _ => false end.
Definition is_handler_cleanup (a : action) : bool := match a with HandlerCleanup => true | _ => false end.

Lemma responses_app l1 l2 : responses (l1 ++ l2) = responses l1 ++ responses l2.
Proof. apply omap_app. Qed.
Lemma occurs_app P l1 l2 : occurs P (l1 ++ l2) = occurs P l1 + occurs P l2.
Proof. unfold occurs. by rewrite List.filter_app, length_app. Qed.
Lemma responses_one a : responses [a] = match a with Published _ v => [v] | _ => [] end.
Proof. by destruct a. Qed.
Lemma occurs_one P a : occurs P [a] = if P a then 1 else 0.
Proof. unfold occurs. cbn. by destruct (P a). Qed.
Lemma occurs_nil P : occurs P [] = 0.
Proof. done. Qed.
Arguments responses : simpl never.
Arguments occurs : simpl never.
Create Rewrite HintDb session.
#[export] Hint Rewrite responses_app occurs_app responses_one occurs_one occurs_nil @app_nil_r Nat.add_0_r
  : session.

Section pull.
Variable py_str : pyval → string.
Variable w : world.
Variable id : string.
Variable g : source.
Variables has_on_finished with_value : bool.
Abbreviation step := (pull_step py_str w id g has_on_finished with_value).
Abbreviation run es s := (foldl step s es).

(** [vs] are the first values of the generator. *)
Definition drawn (vs : list pyval) : Prop := ∀ i v, vs !! i = Some v → anext g i = Yield v.

Lemma drawn_snoc vs v : drawn vs → anext g (length vs) = Yield v → drawn (vs ++ [v]).
Proof.
  intros Hvs Hv i u [H|[Hi H]]%lookup_app_Some; [by apply Hvs|].
  apply list_lookup_singleton_Some in H as [Hi' <-]. by replace i with (length vs) by lia.
Qed.

(** A response after which a session serves nothing. *)
Inductive final_response : list pyval → Prop :=
| final_done : final_response [done_response id]
| final_error e : final_response [error_response id (format_error_dict py_str e)].

Record pull_inv (s : pull) : Prop := {
  pull_served : ∃ vs term, drawn vs ∧
    responses (p_log s) = (next_response id with_value <$> vs) ++ term ∧
    (if p_active s then term = [] ∧ p_pos s = length vs else term = [] ∨ final_response term);
  pull_open : p_active s = true → p_finished s = false;
  pull_idle : p_busy s = true → p_active s = true;
  pull_invoker : p_active s = false → p_invoker s ≠ Some true;
  pull_finished_once : occurs is_on_finished (p_log s) ≤ (if p_finished s then 1 else 0);
  pull_unsub_once : occurs is_unsub_scheduled (p_log s) ≤ (if p_finished s then 1 else 0);
  pull_subscribed : p_unsub s = true }.

Lemma start_pull_inv inv : pull_inv (start_pull id inv).
Proof. split; cbn; try done; try lia. by exists [], []. Qed.

(** A session that has stopped serving, and one whose final response is still
    to come. *)
Definition stopped (s : pull) : Prop := pull_inv s ∧ p_active s = false.
Definition unanswered (s : pull) : Prop :=
  stopped s ∧ ∃ vs, drawn vs ∧ responses (p_log s) = next_response id with_value <$> vs.

Lemma deactivate_unanswered s :
  pull_inv s → p_active s = true → p_busy s = false →
  (deactivate s).1 = Ok tt ∧ unanswered (deactivate s).2.
Proof.
  intros [(vs & term & Hd & Hr & Ht) Ho Hi Hv Hf Hu Hsub] Ha Hb. rewrite Ha in Ht. destruct Ht as [-> Hp].
  rewrite app_nil_r in Hr. split; [done|]. split; [|by exists vs].
  split; [|done]. split; cbn; try done.
  - exists vs, []. rewrite app_nil_r. auto.
  - by rewrite Hb.
  - by destruct (p_invoker s).
Qed.

(** A step that only adds a silent action. *)
Lemma deactivate_stopped s : stopped s → (deactivate s).1 = Ok tt ∧ stopped (deactivate s).2.
Proof.
  intros [[(vs & term & Hd & Hr & Ht) Ho Hi Hv Hf Hu Hsub] Ha]. rewrite Ha in *. split; [done|].
  split; [|done]. split; cbn; try done; [by exists vs, term|by destruct (p_invoker s)].
Qed.

Lemma finish_eq s :
  finish has_on_finished s = (Ok tt,
    if p_finished s then s
    else Pull false true ((λ _, false) <$> p_invoker s) (p_unsub s) (p_busy s) (p_pos s) (p_time s)
           (p_log s ++ (if has_on_finished then [OnFinished] else [])
                    ++ (if p_unsub s then [UnsubScheduled] else []))).
Proof.
  unfold finish. rewrite pm_bind_eq. cbn [get_state]. destruct s as [a [] inv u b pos t l]; [done|].
  destruct has_on_finished, u; [rewrite app_assoc|rewrite app_nil_r|rewrite app_nil_l|rewrite !app_nil_r];
    reflexivity.
Qed.

Lemma respond_eq v s :
  respond w id v s =
    match publish_at w (p_time s) with
    | Some e => (Raise e, pull_tick s)
    | None => (Ok tt, pull_act (Published (response_subject id) v) (pull_tick s))
    end.
Proof. unfold respond. rewrite pm_bind_eq. cbn. rewrite pm_bind_eq. cbn. by destruct (publish_at w (p_time s)). Qed.

Lemma finish_stopped s :
  stopped s → let s' := (finish has_on_finished s).2 in
  finish has_on_finished s = (Ok tt, s') ∧ stopped s' ∧ responses (p_log s') = responses (p_log s).
Proof.
  intros [Hinv Ha]. rewrite finish_eq. cbn [snd]. destruct (p_finished s) eqn:Ef; [done|].
  destruct Hinv as [(vs & term & Hd & Hr & Ht) Ho Hi Hv Hf Hu Hsub]. rewrite Ef in Hf, Hu. rewrite Ha in *.
  assert (Hb : p_busy s = false) by (destruct (p_busy s); [by discriminate Hi|done]).
  assert (Hresp : responses (p_log s ++ (if has_on_finished then [OnFinished] else [])
                    ++ (if p_unsub s then [UnsubScheduled] else [])) = responses (p_log s)).
  { destruct has_on_finished, (p_unsub s); autorewrite with session; cbn; by autorewrite with session. }
  split; [done|]. split; [|exact Hresp]. split; [|done].
  split; cbn [p_active p_finished p_busy p_invoker p_log p_pos].
  - exists vs, term. split; [done|]. split; [etransitivity; [exact Hresp|exact Hr]|exact Ht].
  - done.
  - by rewrite Hb.
  - by destruct (p_invoker s).
  - destruct has_on_finished, (p_unsub s); autorewrite with session; cbn; lia.
  - destruct has_on_finished, (p_unsub s); autorewrite with session; cbn; lia.
  - done.
Qed.

Lemma respond_unanswered v s :
  unanswered s → final_response [v] →
  (∃ s', respond w id v s = (Ok tt, s') ∧ stopped s') ∨
  (∃ e s', respond w id v s = (Raise e, s') ∧ unanswered s').
Proof.
  intros [[[_ Ho Hi Hv Hf Hu Hsub] Ha] (vs & Hd & Hr)] Hfin. rewrite respond_eq.
  destruct (publish_at w (p_time s)) as [e|]; [right; eexists e, _|left; eexists];
    (split; [done|]).
  - split; [split; [split|]|]; cbn; rewrite ?Ha in *; try done; [|by exists vs].
    exists vs, []. rewrite app_nil_r. auto.
  - split; [split|]; cbn; rewrite ?Ha in *; try done; autorewrite with session; cbn;
      rewrite ?Nat.add_0_r; try done. exists vs, [v]. rewrite Hr. auto.
Qed.

(** [try: respond(...) finally: finish()]. *)
Lemma finally_stopped v s :
  unanswered s → final_response [v] →
  let '(r, s') := try_finally (respond w id v) (finish has_on_finished) s in
  stopped s' ∧ (is_ok r = false → unanswered s').
Proof.
  intros Hs Hv. unfold try_finally.
  destruct (respond_unanswered v s Hs Hv) as [(s1 & -> & Hs1)|(e & s1 & -> & Hs1)].
  - destruct (finish_stopped s1 Hs1) as (-> & Hs2 & _). by split.
  - destruct Hs1 as [Hs1 (vs & Hd & Hr)]. destruct (finish_stopped s1 Hs1) as (-> & Hs2 & Hl).
    split; [done|]. intros _. split; [done|]. exists vs. split; [done|]. etransitivity; [exact Hl|exact Hr].
Qed.

(** The [except] clause stops the session, whatever it finds. *)
Lemma respond_error_stopped e s :
  unanswered (deactivate s).2 → stopped (respond_error py_str w id has_on_finished e s).2.
Proof.
  intros Hs. unfold respond_error. rewrite pm_bind_eq.
  destruct (deactivate s) as [r1 s1] eqn:E1. injection E1 as <- <-. cbn [snd] in Hs.
  pose proof (finally_stopped _ _ Hs (final_error e)) as H4.
  destruct (try_finally _ _ _) as [r s2]. exact (proj1 H4).
Qed.

Lemma deactivate_again s : unanswered s → unanswered (deactivate s).2.
Proof. intros [Hs (vs & Hd & Hr)]. split; [by apply deactivate_stopped|by exists vs]. Qed.

Lemma unanswered_ext s s' :
  p_active s' = p_active s → p_finished s' = p_finished s → p_invoker s' = p_invoker s →
  p_busy s' = p_busy s → p_log s' = p_log s → p_unsub s' = p_unsub s → unanswered s → unanswered s'.
Proof.
  intros Ea Ef Ev Eb El Eu [[[(vs & term & Hd & Hr & Ht) Ho Hi Hv Hf Hu Hsub] Ha] (vs' & Hd' & Hr')].
  rewrite <- Ea in *. rewrite <- Ef in *. rewrite <- Ev in *. rewrite <- Eb in *. rewrite <- El in *. rewrite <- Eu in *.
  split; [split; [split|]|]; try done; [|by exists vs']. exists vs, term.
  rewrite Ha in *. done.
Qed.

Lemma aclose_unanswered s : unanswered s → unanswered (aclose g s).2.
Proof.
  intros Hs. unfold aclose. destruct (s_aclose g) as [r|]; [|done].
  rewrite pm_bind_eq. cbn [modify]. assert (H : unanswered (pull_act GeneratorClosed s)).
  { destruct Hs as [[[(vs & term & Hd & Hr & Ht) Ho Hi Hv Hf Hu Hsub] Ha] (vs' & Hd' & Hr')].
    split; [split; [split|]|]; cbn; autorewrite with session; cbn; autorewrite with session;
      rewrite ?Nat.add_0_r; try done; [by exists vs, term|by exists vs']. }
  by destruct r.
Qed.

Lemma aclose_stopped s : stopped s → stopped (aclose g s).2 ∧ responses (p_log (aclose g s).2) = responses (p_log s).
Proof.
  intros Hs. unfold aclose. destruct (s_aclose g) as [r|]; [|done].
  rewrite pm_bind_eq. cbn [modify].
  assert (H : stopped (pull_act GeneratorClosed s) ∧
              responses (p_log (pull_act GeneratorClosed s)) = responses (p_log s)).
  { destruct Hs as [[(vs & term & Hd & Hr & Ht) Ho Hi Hv Hf Hu Hsub] Ha].
    split; [split; [split|]|]; cbn; autorewrite with session; cbn; autorewrite with session; try done.
    exists vs, term. by autorewrite with session. }
  by destruct r.
Qed.

(** ** Steps *)

Lemma cancel_keeps s :
  pull_inv s → p_active s = true → p_busy s = false →
  stopped (try_except (deactivate ≫= λ _, aclose g ≫= λ _, respond_done w id has_on_finished)
             (respond_error py_str w id has_on_finished) s).2.
Proof.
  intros Hs Ha Hb. unfold try_except. rewrite pm_bind_eq.
  destruct (deactivate_unanswered s Hs Ha Hb) as [H1 H2]. destruct (deactivate s) as [r1 s1].
  cbn [fst snd] in H1, H2. subst r1. rewrite pm_bind_eq.
  pose proof (aclose_unanswered s1 H2) as H3. destruct (aclose g s1) as [[[]|e] s2]; cbn [snd] in H3.
  - pose proof (finally_stopped _ s2 H3 final_done) as H4. unfold respond_done.
    destruct (try_finally _ _ s2) as [[[]|e] s3]; [exact (proj1 H4)|].
    by apply respond_error_stopped, deactivate_again, H4.
  - by apply respond_error_stopped, deactivate_again.
Qed.

Lemma resume_keeps s :
  pull_inv s → p_active s = true → p_busy s = true →
  pull_inv (resume_next py_str w id g has_on_finished with_value s).2.
Proof.
  intros Hs Ha Hb. unfold resume_next. rewrite pm_bind_eq. cbn [get_state]. rewrite Hb. cbn [negb].
  rewrite pm_bind_eq. cbn [modify]. set (s1 := next_pos (set_busy false s)).
  assert (Hdead : ∀ s', p_active s' = p_active s1 → p_finished s' = p_finished s1 →
            p_invoker s' = p_invoker s1 → p_busy s' = p_busy s1 → p_log s' = p_log s1 → p_unsub s' = p_unsub s1 →
            unanswered (deactivate s').2).
  { assert (H : pull_inv (set_busy false s)) by (destruct Hs; by split).
    destruct (deactivate_unanswered _ H Ha eq_refl) as [_ H1].
    intros s' E1 E2 E3 E4 E5 E6. apply (unanswered_ext (deactivate (set_busy false s)).2); try done.
    cbn. by rewrite E3. }
  unfold try_except. destruct (anext g (p_pos s)) as [v| |e] eqn:E.
  - rewrite respond_eq. destruct (publish_at w (p_time s1)) as [e|].
    { by apply respond_error_stopped, Hdead. }
    destruct Hs as [(vs & term & Hd & Hr & Ht) Ho Hi Hv Hf Hu Hsub]. rewrite Ha in Ht, Hv.
    destruct Ht as [-> Hp]. rewrite app_nil_r in Hr.
    split; cbn [snd pull_act pull_tick s1 next_pos set_busy p_active p_finished p_busy p_invoker p_log p_pos];
      autorewrite with session; rewrite ?Ha; try by auto.
    exists (vs ++ [v]), []. rewrite length_app, Hr, fmap_app, app_nil_r, Hp. cbn.
    split; [apply drawn_snoc; [done|by rewrite <- Hp]|]. split; [done|]. split; [done|lia].
  - pose proof (finally_stopped _ _ (Hdead s1 eq_refl eq_refl eq_refl eq_refl eq_refl eq_refl) final_done) as H4.
    rewrite pm_bind_eq. unfold respond_done. change (deactivate s1) with (Ok (E := exn) tt, (deactivate s1).2).
    cbn iota. destruct (try_finally _ _ _) as [[[]|e] s3]; [exact (proj1 (proj1 H4))|].
    by apply respond_error_stopped, deactivate_again, H4.
  - by apply respond_error_stopped, Hdead.
Qed.

Lemma cleanup_stopped s :
  pull_inv s →
  stopped (cleanup id g s).2 ∧ responses (p_log (cleanup id g s).2) = responses (p_log s).
Proof.
  intros [(vs & term & Hd & Hr & Ht) Ho Hi Hv Hf Hu Hsub]. unfold cleanup.
  rewrite pm_bind_eq. cbn [modify]. rewrite pm_bind_eq. cbn [get_state]. rewrite pm_bind_eq.
  cbn [p_unsub stop_invoker set_finished set_active]. rewrite Hsub. cbn [modify].
  match goal with |- context [suppress (aclose g) ?s'] => set (s1 := s') end.
  assert (H1 : stopped s1 ∧ responses (p_log s1) = responses (p_log s)).
  { subst s1. split; [split; [split|]|]; cbn; autorewrite with session; cbn; autorewrite with session;
      try done; try (destruct (p_finished s); lia).
    - exists vs, term. autorewrite with session. split; [done|]. split; [done|].
      destruct (p_active s); [by destruct Ht as [-> _]; left|done].
    - by destruct (p_invoker s). }
  destruct (aclose_stopped s1 (proj1 H1)) as [H2 H3]. unfold suppress, try_except. rewrite pm_bind_eq.
  destruct (aclose g s1) as [[[]|e] s2]; cbn [snd] in *; (split; [done|]); (etransitivity; [exact H3|exact (proj2 H1)]).
Qed.

Lemma step_inv s e : pull_inv s → pull_inv (step s e).
Proof.
  intros Hs. unfold pull_step. destruct e as [type| |]; cbn [run_pull].
  - unfold handle_pull_request. rewrite pm_bind_eq. cbn [get_state].
    destruct (p_busy s) eqn:Hb; [done|]. destruct (p_active s) eqn:Ha; [|done]. cbn [negb].
    destruct (is_key "cancel" type); [by apply cancel_keeps|].
    destruct (is_key "next" type); [|done]. destruct Hs. by split.
  - destruct (p_busy s) eqn:Hb.
    + apply resume_keeps; [done| |done]. by apply (pull_idle s Hs).
    + unfold resume_next. rewrite pm_bind_eq. cbn [get_state]. by rewrite Hb.
  - by apply cleanup_stopped.
Qed.

Lemma run_inv es s : pull_inv s → pull_inv (run es s).
Proof. revert s. induction es as [|e es IH]; intros s Hs; [done|]. cbn. by apply IH, step_inv. Qed.

Lemma stopped_step s e : stopped s → stopped (step s e) ∧ responses (p_log (step s e)) = responses (p_log s).
Proof.
  intros [Hs Ha]. assert (Hb : p_busy s = false).
  { destruct (p_busy s) eqn:Hb; [|done]. rewrite (pull_idle s Hs Hb) in Ha. done. }
  unfold pull_step. destruct e as [type| |]; cbn [run_pull].
  - unfold handle_pull_request. rewrite pm_bind_eq. cbn [get_state]. by rewrite Hb, Ha.
  - unfold resume_next. rewrite pm_bind_eq. cbn [get_state]. by rewrite Hb.
  - by apply cleanup_stopped.
Qed.

Lemma stopped_run es s : stopped s → stopped (run es s) ∧ responses (p_log (run es s)) = responses (p_log s).
Proof.
  revert s. induction es as [|e es IH]; intros s Hs; [done|]. cbn.
  destruct (stopped_step s e Hs) as [H1 H2]. destruct (IH _ H1) as [H3 H4]. split; [done|]. by rewrite H4.
Qed.

(** On a working connection: the final response and [finish]. *)
Lemma finally_answered v s :
  (∀ t, publish_at w t = None) → p_active s = false →
  let '(r, s') := try_finally (respond w id v) (finish has_on_finished) s in
  r = Ok tt ∧ responses (p_log s') = responses (p_log s) ++ [v] ∧ p_active s' = false ∧ p_busy s' = p_busy s.
Proof.
  intros Hp Ha. unfold try_finally. rewrite respond_eq, Hp, finish_eq. split; [done|].
  cbn. destruct (p_finished s); cbn; autorewrite with session; [done|].
  split; [|done]. rewrite <- app_assoc.
  destruct has_on_finished, (p_unsub s); cbn; autorewrite with session; by rewrite ?app_nil_r.
Qed.

Lemma respond_error_answered e s :
  (∀ t, publish_at w t = None) →
  let s' := (respond_error py_str w id has_on_finished e s).2 in
  responses (p_log s') = responses (p_log s) ++ [error_response id (format_error_dict py_str e)] ∧
  p_active s' = false ∧ p_busy s' = p_busy s.
Proof.
  intros Hp. unfold respond_error. rewrite pm_bind_eq. cbn [deactivate modify].
  pose proof (finally_answered (error_response id (format_error_dict py_str e))
                (stop_invoker (set_active false s)) Hp eq_refl) as H.
  by destruct (try_finally _ _ _) as [r s2], H as (_ & H).
Qed.

(** The response to a [next]. *)
Definition next_answer (step : gen_step) : pyval :=
  match step with
  | Yield v => next_response id with_value v
  | Stop => done_response id
  | Throw e => error_response id (format_error_dict py_str e)
  end.

Lemma next_answered s :
  (∀ t, publish_at w t = None) → p_active s = true → p_busy s = false →
  let s' := step (step s (PRequest (PStr "next"))) PResume in
  responses (p_log s') = responses (p_log s) ++ [next_answer (anext g (p_pos s))] ∧
  p_active s' = (match anext g (p_pos s) with Yield _ => true | _ => false end) ∧ p_busy s' = false ∧
  (p_active s' = true → p_pos s' = S (p_pos s)).
Proof.
  intros Hp Ha Hb s'. subst s'. unfold pull_step.
  assert (Hn : (run_pull py_str w id g has_on_finished with_value (PRequest (PStr "next")) s).2
            = set_busy true s).
  { cbn [run_pull]. unfold handle_pull_request. rewrite pm_bind_eq. cbn [get_state]. by rewrite Hb, Ha. }
  rewrite Hn. cbn [run_pull]. unfold resume_next. rewrite pm_bind_eq. cbn [get_state set_busy p_busy negb p_pos].
  rewrite pm_bind_eq. cbn [modify]. unfold try_except. destruct (anext g (p_pos s)) as [v| |e]; cbn [next_answer].
  - rewrite respond_eq, Hp. cbn. autorewrite with session. done.
  - rewrite pm_bind_eq. unfold respond_done. cbn [deactivate modify].
    match goal with |- context [try_finally _ _ ?s1] =>
      pose proof (finally_answered (done_response id) s1 Hp eq_refl) as H end.
    destruct (try_finally _ _ _) as [r s2], H as (-> & Hr & Hact & Hbu). cbn [snd].
    split_and!; try done. by rewrite Hact.
  - destruct (respond_error_answered e (next_pos (set_busy false (set_busy true s))) Hp) as (Hr & Hact & Hbu).
    split_and!; try done. intros H'. discriminate (eq_trans (eq_sym H') Hact).
Qed.

(** ** Properties *)

(** C24. Whatever requests, generator steps, failing publishes and cleanups a
    pull session goes through, it has published the generator's first values
    in order and then at most one final response, none while it is active; it
    calls [on_finished] and schedules its unsubscription at most once. *)
Theorem pull_session es inv :
  let s := run es (start_pull id inv) in
  ∃ vs term, drawn vs ∧
    responses (p_log s) = (next_response id with_value <$> vs) ++ term ∧
    (if p_active s then term = [] ∧ p_pos s = length vs else term = [] ∨ final_response term) ∧
    occurs is_on_finished (p_log s) ≤ 1 ∧ occurs is_unsub_scheduled (p_log s) ≤ 1.
Proof.
  intros s. destruct (run_inv es _ (start_pull_inv inv)) as [(vs & term & Hd & Hr & Ht) Ho Hi Hv Hf Hu Hsub].
  exists vs, term. split_and!; [done..| |]; (etransitivity; [eassumption|]); destruct (p_finished _); lia.
Qed.

(** A session that is no longer active stays so and publishes nothing
    more, and its invoker invokes nothing. *)
Theorem pull_inert es es' inv oneway connected method args :
  let s := run es (start_pull id inv) in
  p_active s = false →
  p_active (run es' s) = false ∧ responses (p_log (run es' s)) = responses (p_log s) ∧
  (∀ a, p_invoker (run es' s) = Some a → invoke a connected oneway method args = None).
Proof.
  intros s Ha. destruct (stopped_run es' s) as [[H1 H2] H3].
  { split; [apply run_inv, start_pull_inv|done]. }
  split_and!; [done..|]. intros [] Hi; [|done]. by destruct (pull_invoker _ H1 H2).
Qed.

(** On a working connection every [next] an active session serves is
    answered with exactly one response, by the generator's next step, and only
    a value keeps the session active; a cancel is answered with one [done], or
    with one error when closing the generator raises. *)
Theorem pull_lockstep es inv :
  let s := run es (start_pull id inv) in
  (∀ t, publish_at w t = None) → p_active s = true → p_busy s = false →
  let s' := step (step s (PRequest (PStr "next"))) PResume in
  let s'' := step s (PRequest (PStr "cancel")) in
  (responses (p_log s') = responses (p_log s) ++ [next_answer (anext g (p_pos s))] ∧
   p_active s' = match anext g (p_pos s) with Yield _ => true | _ => false end ∧ p_busy s' = false) ∧
  (responses (p_log s'') = responses (p_log s) ++
     [match s_aclose g with Some (Some e) => next_answer (Throw e) | _ => done_response id end] ∧
   p_active s'' = false).
Proof.
  intros s Hp Ha Hb s' s''. subst s' s''. clearbody s. split; [|unfold pull_step].
  - by destruct (next_answered s Hp Ha Hb) as (Hr & Hact & Hbu & _).
  - cbn [run_pull]. unfold handle_pull_request. rewrite pm_bind_eq. cbn [get_state]. rewrite Hb, Ha.
    cbn [negb]. replace (is_key "cancel" (PStr "cancel")) with true by done. unfold try_except.
    rewrite pm_bind_eq. cbn [deactivate modify]. rewrite pm_bind_eq. unfold aclose, respond_done.
    destruct (s_aclose g) as [[e|]|]; [rewrite pm_bind_eq; cbn [modify raise]| |].
    + destruct (respond_error_answered e (pull_act GeneratorClosed (stop_invoker (set_active false s))) Hp)
        as (Hr & Hact & _).
      split; [|done]. etransitivity; [exact Hr|]. cbn. by autorewrite with session.
    + rewrite pm_bind_eq. cbn.
      match goal with |- context [try_finally _ _ ?s1] =>
        pose proof (finally_answered (done_response id) s1 Hp eq_refl) as H end.
      destruct (try_finally _ _ _) as [r s2], H as (-> & Hr & Hact & _). cbn [snd].
      split; [|done]. etransitivity; [exact Hr|]. cbn. by autorewrite with session.
    + cbn. match goal with |- context [try_finally _ _ ?s1] =>
        pose proof (finally_answered (done_response id) s1 Hp eq_refl) as H end.
      by destruct (try_finally _ _ _) as [r s2], H as (-> & Hr & Hact & _).
Qed.
End pull.

(** ** Callback subscriptions *)

Section callback.
Variables (subject id : string).
Variable has_on_finished : bool.
Variable handler_cleanup : option (option exn).
Abbreviation cb_run es s := (foldl (callback_step subject id has_on_finished handler_cleanup) s es).

(** The value an event delivers: an async wrapper's while connected, a sync
    wrapper's only when it is called on the event loop. *)
Definition sent_value (e : callback_event) : option pyval :=
  match e with
  | CbValue true v | CbSyncValue EventLoop true v => Some (callback_msg id v)
  | _ => None
  end.
(** The session ends: a cancel message or a cleanup by its owner. *)
Definition ends_session (e : callback_event) : bool :=
  match e with CbCancel | CbCleanup => true | _ => false end.
Definition cleanup_count (cleaned : bool) (es : list callback_event) : nat :=
  if negb cleaned && existsb ends_session es && match handler_cleanup with Some _ => true | None => false end
  then 1 else 0.

Lemma callback_step_eq s e :
  let s' := callback_step subject id has_on_finished handler_cleanup s e in
  cb_cleaned s' = cb_cleaned s || ends_session e ∧
  occurs is_handler_cleanup (cb_log s')
    = occurs is_handler_cleanup (cb_log s) + cleanup_count (cb_cleaned s) [e] ∧
  responses (cb_log s') = responses (cb_log s) ++ match sent_value e with Some v => [v] | None => [] end.
Proof.
  unfold callback_step. destruct s as [cl l].
  destruct e as [[] v|[] [] v| |]; cbn [run_callback]; unfold cleanup_count.
  1-6: cbn; autorewrite with session; cbn; rewrite ?orb_false_r, ?andb_false_r; autorewrite with session; done.
  all: unfold on_cancel, callback_cleanup, run_handler_cleanup, invoke_cleanup.
  all: destruct has_on_finished, cl, handler_cleanup as [[]|]; unfold cb_act, mbind, pm_bind, mret, pm_ret;
    cbn; autorewrite with session; cbn;
    autorewrite with session; done.
Qed.

(** Over any sequence of emitted values, cancel messages and cleanups, a
    callback session runs the handler's cleanup exactly once if the session
    ends at all, and publishes exactly the values its wrappers could send, in
    order: those a sync handler emits on a pool thread are dropped. *)
Theorem callback_session_spec es l :
  let s := cb_run es (CallbackSession false l) in
  occurs is_handler_cleanup (cb_log s) = occurs is_handler_cleanup l + cleanup_count false es ∧
  responses (cb_log s) = responses l ++ omap sent_value es.
Proof.
  enough (H : ∀ cl l, let s := cb_run es (CallbackSession cl l) in
    occurs is_handler_cleanup (cb_log s) = occurs is_handler_cleanup l + cleanup_count cl es ∧
    responses (cb_log s) = responses l ++ omap sent_value es) by apply H.
  induction es as [|e es IH]; intros cl l'.
  { cbn. autorewrite with session. unfold cleanup_count. cbn. rewrite andb_false_r. by autorewrite with session. }
  cbn [foldl]. destruct (callback_step_eq (CallbackSession cl l') e) as (H1 & H2 & H3).
  destruct (callback_step _ _ _ _ _ e) as [cl1 l1]. cbn [cb_cleaned cb_log] in H1, H2, H3.
  destruct (IH cl1 l1) as [H4 H5]. rewrite H4, H5, H2, H3. split.
  - rewrite <- Nat.add_assoc. f_equal. subst cl1. unfold cleanup_count. cbn [existsb].
    destruct cl, (ends_session e), (existsb ends_session es), handler_cleanup; done.
  - rewrite <- app_assoc. f_equal. cbn. by destruct (sent_value e).
Qed.
End callback.

(** ** Witnesses *)

Definition calm : world := World (λ _, true) None (λ _, None).
Definition two_then_stop : source := Source (steps_of [PInt 1; PInt 2] Stop) true (Some None).
Definition no_str (_ : pyval) : string := "".
Definition next_request : list pull_event := [PRequest (PStr "next"); PResume].

Example whole_session :
  responses (p_log (foldl (pull_step no_str calm "it" two_then_stop true true)
                      (start_pull "it" None) (next_request ++ next_request ++ next_request ++ next_request)))
    = [next_response "it" true (PInt 1); next_response "it" true (PInt 2); done_response "it"].
Proof. reflexivity. Qed.

Lemma pull_inert_witness :
  let s := foldl (pull_step no_str calm "it" two_then_stop true false) (start_pull "it" (Some true))
             [PRequest (PStr "cancel")] in
  let s' := foldl (pull_step no_str calm "it" two_then_stop true false) s (next_request ++ [PCleanup]) in
  p_active s' = false ∧ responses (p_log s') = responses (p_log s) ∧
  (∀ a, p_invoker s' = Some a → invoke a true ["m"] "m" [] = None).
Proof.
  apply (pull_inert no_str calm "it" two_then_stop true false [PRequest (PStr "cancel")]
           (next_request ++ [PCleanup]) (Some true) ["m"] true "m" []). reflexivity.
Defined.

Lemma pull_lockstep_witness :
  let s := foldl (pull_step no_str calm "it" two_then_stop true true) (start_pull "it" None) next_request in
  responses (p_log (foldl (pull_step no_str calm "it" two_then_stop true true) s next_request))
    = responses (p_log s) ++ [next_response "it" true (PInt 2)].
Proof.
  apply (pull_lockstep no_str calm "it" two_then_stop true true next_request None); reflexivity.
Defined.

(** What a sync handler emits while it runs on its pool thread is lost. *)
Example pool_values_lost :
  responses (cb_log (foldl (callback_step "cb" "r" true (Some None)) (CallbackSession false [])
     [CbSyncValue PoolThread true (PInt 1); CbValue true (PInt 2); CbCancel; CbCleanup]))
    = [callback_msg "r" (PInt 2)].
Proof. reflexivity. Qed.
