(* ===== verification/ClientStreams.v ===== *)
(** * Consuming streams and pull iterators (client.py)

    The caller's side of a streaming call: the queue that messages are put on,
    the generator that yields from it, and what ends both. An event is a
    delivered message, a status, a teardown of the connection, or the
    consumer: asking for the next value, or closing the generator. *)

From S2P Require Import Prelude Text PyVal Dict Errors Handlers.

(** ** Push streams: [_call_stream_once] *)

Record consumer := Consumer {
  (** the queue; [PNone] is the end marker, and a streamed [None] *)
  c_queue : list pyval;
  c_ended : bool;
  c_error : option exn;
  (** registered in [stream_handlers], and subscribed *)
  c_registered : bool;
  c_subscribed : bool;
  (** the generator waits in [queue.get()] *)
  c_waiting : bool;
  (** values yielded, how the generator finished, cancel messages sent *)
  c_out : list pyval;
  c_done : option (option exn);
  c_cancels : nat }.

Definition new_consumer : consumer := Consumer [] false None true true false [] None 0.

Definition put (v : pyval) (c : consumer) : consumer :=
  Consumer (c_queue c ++ [v]) (c_ended c) (c_error c) (c_registered c) (c_subscribed c) (c_waiting c)
           (c_out c) (c_done c) (c_cancels c).
Definition on_push (v : pyval) (c : consumer) : consumer := if c_ended c then c else put v c.
Definition on_end (c : consumer) : consumer :=
  put PNone (Consumer (c_queue c) true (c_error c) (c_registered c) (c_subscribed c) (c_waiting c)
                      (c_out c) (c_done c) (c_cancels c)).
Definition on_error (e : exn) (c : consumer) : consumer :=
  put PNone (Consumer (c_queue c) true (Some e) (c_registered c) (c_subscribed c) (c_waiting c)
                      (c_out c) (c_done c) (c_cancels c)).

(** [unsubscribe_all]: a stream that has not ended is cancelled at the server. *)
Definition unsubscribe_all (c : consumer) : consumer :=
  Consumer (c_queue c) true (c_error c) false false (c_waiting c) (c_out c) (c_done c)
           (if c_ended c then c_cancels c else S (c_cancels c)).

(** [handle_stream_message]; what it raises is printed. *)
Definition handle_stream_message (id : string) (msg : pyval) (c : consumer) : consumer :=
  match msg with
  | PDict m =>
      if negb (is_key id (dict_get "id" m)) then c
      else if negb (c_registered c) then c
      else
        let msg_type := dict_get "type" m in
        if is_key "data" msg_type then on_push (dict_get "data" m) c
        else if is_key "end" msg_type then unsubscribe_all (on_end c)
        else if is_key "error" msg_type then
          match from_dict (dict_get "error" m) with
          | Ok e => unsubscribe_all (on_error (RPCError e) c)
          | Raise _ => c
          end
        else c
  | _ => c
  end.

(** [on_no_responders] *)
Definition on_no_responders (subject : string) (c : consumer) : consumer :=
  if c_registered c then on_error (NoRespondersError subject) c else c.

(** What [disconnect] does to a stream: its [end] handler, and the registry
    cleared. *)
Definition on_disconnect (c : consumer) : consumer :=
  if c_registered c then
    let c := on_end c in
    Consumer (c_queue c) (c_ended c) (c_error c) false false (c_waiting c) (c_out c) (c_done c) (c_cancels c)
  else c.

Definition finish_with (r : option exn) (c : consumer) : consumer :=
  Consumer (c_queue c) (c_ended c) (c_error c) (c_registered c) (c_subscribed c) false (c_out c)
           (Some r) (c_cancels c).

(** The value [queue.get()] returned. *)
Definition take_value (v : pyval) (queue : list pyval) (c : consumer) : consumer :=
  let c := Consumer queue (c_ended c) (c_error c) (c_registered c) (c_subscribed c) false (c_out c)
                    (c_done c) (c_cancels c) in
  if is_none v then finish_with (c_error c) (unsubscribe_all c)
  else Consumer (c_queue c) (c_ended c) (c_error c) (c_registered c) (c_subscribed c) false
                (c_out c ++ [v]) (c_done c) (c_cancels c).

(** [value = await queue.get()] and what follows it. *)
Definition get_value (c : consumer) : consumer :=
  match c_queue c with
  | [] => Consumer (c_queue c) (c_ended c) (c_error c) (c_registered c) (c_subscribed c) true
                   (c_out c) (c_done c) (c_cancels c)
  | v :: queue => take_value v queue c
  end.

(** One round of the generator's loop, as far as it gets. *)
Definition next_value (c : consumer) : consumer :=
  match c_done c with
  | Some _ => c
  | None =>
      match c_waiting c, c_error c with
      | false, Some e => finish_with (Some e) (unsubscribe_all c)
      | _, _ => get_value c
      end
  end.

(** The consumer leaves its loop and closes the generator: [GeneratorExit] is
    not an [Exception], so no clause of the generator runs. *)
Definition close_stream (c : consumer) : consumer :=
  match c_done c with Some _ => c | None => finish_with None c end.

Inductive stream_event :=
| SMessage (msg : pyval)
| SNoResponders (subject : string)
| SDisconnect
| SNext
| SClose.
Definition stream_step (id : string) (c : consumer) (e : stream_event) : consumer :=
  match e with
  | SMessage msg => if c_subscribed c then handle_stream_message id msg c else c
  | SNoResponders subject => on_no_responders subject c
  | SDisconnect => on_disconnect c
  | SNext => next_value c
  | SClose => close_stream c
  end.

(** ** Pull iterators: [call_pull_iterator] and its callback variant *)

Record puller := Puller {
  q_queue : list (list (pyval * pyval));
  q_ended : bool;
  q_error : option rpc_exception;
  (** registered in [_pull_iterator_settles] and [status_handlers]; the
      response subscription *)
  q_registered : bool;
  q_waiting : bool;
  (** callback messages not yet processed, and those that were *)
  q_callbacks : list (string * pyval);
  q_called : list (string * pyval);
  (** requests sent, values yielded, how the generator finished *)
  q_sent : list pyval;
  q_out : list pyval;
  q_done : option (option exn) }.

Definition new_puller : puller := Puller [] false None true false [] [] [] [] None.

Definition pull_request (id type : string) : pyval :=
  PDict [(PStr "id", PStr id); (PStr "type", PStr type)].

Section puller.
Variable id : string.
(** the method names of the callbacks, and whether the iterator has any *)
Variable callbacks : option (list string).

Definition q_put (m : list (pyval * pyval)) (q : puller) : puller :=
  Puller (q_queue q ++ [m]) (q_ended q) (q_error q) (q_registered q) (q_waiting q) (q_callbacks q)
         (q_called q) (q_sent q) (q_out q) (q_done q).
Definition q_end (e : option rpc_exception) (q : puller) : puller :=
  Puller (q_queue q) true (match e with Some _ => e | None => q_error q end) (q_registered q) (q_waiting q)
         (q_callbacks q) (q_called q) (q_sent q) (q_out q) (q_done q).
Definition q_send (m : pyval) (q : puller) : puller :=
  Puller (q_queue q) (q_ended q) (q_error q) (q_registered q) (q_waiting q) (q_callbacks q)
         (q_called q) (q_sent q ++ [m]) (q_out q) (q_done q).
Definition q_wait (b : bool) (q : puller) : puller :=
  Puller (q_queue q) (q_ended q) (q_error q) (q_registered q) b (q_callbacks q)
         (q_called q) (q_sent q) (q_out q) (q_done q).

Definition error_message (e : rpc_exception) : list (pyval * pyval) :=
  [(PStr "type", PStr "error"); (PStr "id", PStr id); (PStr "error", to_dict e)].

(** [settle_on_disconnect] *)
Definition closed_error : rpc_exception := create_error (CodeEnum CONNECTION_CLOSED) "Connection closed" PNone.
Definition settle_on_disconnect (q : puller) : puller :=
  let q := if q_ended q then q else q_end (Some closed_error) q in
  q_put (error_message (default closed_error (q_error q))) q.
(** What [disconnect] does to an iterator: it is settled, and what it had
    registered and subscribed is dropped. *)
Definition puller_disconnect (q : puller) : puller :=
  let q := settle_on_disconnect q in
  Puller (q_queue q) (q_ended q) (q_error q) false (q_waiting q) (q_callbacks q) (q_called q) (q_sent q)
         (q_out q) (q_done q).

(** [handle_response]; an error that [from_dict] rejects is printed, and the
    message dropped. *)
Definition handle_response (msg : pyval) (q : puller) : puller :=
  match msg with
  | PDict m =>
      let type := dict_get "type" m in
      if is_key "error" type then
        if truthy (dict_get "error" m) then
          match from_dict (dict_get "error" m) with
          | Ok e => q_put m (q_end (Some e) q)
          | Raise _ => q
          end
        else q_put m (q_end None q)
      else if is_key "done" type then q_put m (q_end None q)
      else q_put m q
  | _ => q
  end.

(** [on_no_responders] of a pull iterator *)
Definition no_responders_503 (text : string) (q : puller) : puller :=
  let e := create_error (CodeStr "503") text PNone in
  q_put (error_message e) (q_end (Some e) q).

(** [handle_cb_msg]: the messages of known methods are queued. *)
Definition handle_cb_msg (msg : pyval) (q : puller) : puller :=
  match msg, callbacks with
  | PDict m, Some methods =>
      match dict_get "method" m with
      | PStr method =>
          if bool_decide (method ∈ methods) then
            let args := dict_get "args" m in
            Puller (q_queue q) (q_ended q) (q_error q) (q_registered q) (q_waiting q)
                   (q_callbacks q ++ [(method, if truthy args then args else PList [])])
                   (q_called q) (q_sent q) (q_out q) (q_done q)
          else q
      | _ => q
      end
  | _, _ => q
  end.

(** One round of [consume_callbacks]; what a callback raises is printed. *)
Definition consume_callback (q : puller) : puller :=
  match q_callbacks q with
  | [] => q
  | c :: cs => Puller (q_queue q) (q_ended q) (q_error q) (q_registered q) (q_waiting q) cs
                      (q_called q ++ [c]) (q_sent q) (q_out q) (q_done q)
  end.

(** [cleanup]: everything is unregistered, the callback consumer stopped, and
    an iterator that has not ended is cancelled at the server. *)
Definition puller_cleanup (q : puller) : puller :=
  let q := Puller (q_queue q) (q_ended q) (q_error q) false (q_waiting q) [] (q_called q)
                  (q_sent q) (q_out q) (q_done q) in
  if q_ended q then q else q_send (pull_request id "cancel") q.
Definition puller_finish (r : option exn) (q : puller) : puller :=
  let q := puller_cleanup q in
  Puller (q_queue q) (q_ended q) (q_error q) (q_registered q) false (q_callbacks q) (q_called q)
         (q_sent q) (q_out q) (Some r).

(** The response that [response_queue.get()] returned; a boundary, and the
    end, wait until the callback queue is drained. *)
Definition process_response (m : list (pyval * pyval)) (queue : list (list (pyval * pyval))) (q : puller) : puller :=
  let got := Puller queue (q_ended q) (q_error q) (q_registered q) false (q_callbacks q) (q_called q)
                    (q_sent q) (q_out q) (q_done q) in
  let drained := bool_decide (q_callbacks q = []) in
  let type := dict_get "type" m in
  if is_key "error" type then
    if truthy (dict_get "error" m) then
      match from_dict (dict_get "error" m) with
      | Ok e => puller_finish (Some (RPCError e)) got
      | Raise e => puller_finish (Some e) got
      end
    else got
  else if is_key "done" type then (if drained then puller_finish None got else q)
  else if is_key "value" type then
    if drained then
      Puller (q_queue got) (q_ended got) (q_error got) (q_registered got) false (q_callbacks got)
             (q_called got) (q_sent got)
             (q_out got ++ [match callbacks with Some _ => PNone | None => dict_get "value" m end]) (q_done got)
    else q
  else got.

(** The generator runs until it publishes a [next], or as far as the response
    it waits for takes it; [failure] is what the publish raises. *)
Definition advance (failure : option exn) (q : puller) : puller :=
  match q_done q with
  | Some _ => q
  | None =>
      if q_waiting q then
        match q_queue q with [] => q | m :: queue => process_response m queue q end
      else
        match failure with
        | Some e => puller_finish (Some e) q
        | None => q_wait true (q_send (pull_request id "next") q)
        end
  end.

(** The consumer closes the generator: the [finally] clause runs. *)
Definition close_puller (q : puller) : puller :=
  match q_done q with Some _ => q | None => puller_finish None q end.

Inductive puller_event :=
| QResponse (msg : pyval)
| QNoResponders (text : string)
| QDisconnect
| QCallback (msg : pyval)
| QConsume
| QAdvance (failure : option exn)
| QClose.
Definition puller_step (q : puller) (e : puller_event) : puller :=
  match e with
  | QResponse msg => if q_registered q then handle_response msg q else q
  | QNoResponders text => if q_registered q then no_responders_503 text q else q
  | QDisconnect => if q_registered q then puller_disconnect q else q
  | QCallback msg => if q_registered q then handle_cb_msg msg q else q
  | QConsume => consume_callback q
  | QAdvance failure => advance failure q
  | QClose => close_puller q
  end.
End puller.

(** The iterator after its init call, whose outcome is [init]; [what] is
    "pull iterator" or "pull-callback iterator". *)
Definition open_puller (what id : string) (init : result exn pyval) : result exn puller :=
  match init with
  | Raise e => Raise e
  | Ok response =>
      if negb (truthy response) then Raise (RuntimeError ("Failed to initialize " +:+ what))
      else
        match response with
        | PDict m =>
            if is_key id (dict_get "iteratorId" m) then Ok new_puller
            else Raise (RuntimeError ("Failed to initialize " +:+ what))
        | _ => Raise (AttributeError "object has no attribute 'get'")
        end
  end.

(** ** Callback subscriptions: [call_with_callback] *)

(** The value handed to the callback by [handle_callback_msg]. *)
Definition handle_callback_msg (msg : pyval) : option pyval :=
  match msg with
  | PDict m => if is_key "data" (dict_get "type" m) then Some (dict_get "data" m) else None
  | _ => None
  end.

Definition callback_params (callback_subject : string) (args : list pyval) : pyval :=
  PDict [(PStr "__callback", PBool true); (PStr "__callbackSubject", PStr callback_subject);
         (PStr "args", PList args)].

(** The actions of [call_with_callback], around the outcome of its [call]. *)
Definition call_with_callback (id : string) (outcome : result exn pyval) : result exn unit * list action :=
  let s := "rpc.cb." +:+ id in
  match outcome with
  | Ok _ => (Ok tt, [Subscribed s])
  | Raise e => (Raise e, [Subscribed s; Unsubscribed s])
  end.
(** The function it returns; the publish is suppressed when it fails. *)
Definition callback_unsubscribe (id : string) (published : bool) : list action :=
  let s := "rpc.cb." +:+ id in
  (if published then [Published (s +:+ ".cancel") (PDict [(PStr "id", PStr id)])] else []) ++ [Unsubscribed s].
