(* ===== verification/ClientStreamsProps.v ===== *)
(** * What consuming a stream guarantees (client.py with handler.py)

    A served stream and its consumer together: the values the handler's
    generator yields, in order, and its end. What breaks that: a streamed
    [None], a lost connection, and a consumer that stops early. *)

From S2P Require Import Prelude Text PyVal Dict Errors Handlers StreamProps ClientStreams.

(** The messages among a session's actions. *)
Definition published (subject : string) (log : list action) : list pyval :=
  omap (λ a, match a with
             | Published s v => if bool_decide (s = subject) then Some v else None
             | _ => None
             end) log.

(** The messages that arrive in a run of the consumer. *)
Definition arrivals (es : list stream_event) : list pyval :=
  omap (λ e, match e with SMessage m => Some m | _ => None end) es.
(** Nothing but messages and requests for the next value. *)
Definition plain_run (es : list stream_event) : Prop :=
  Forall (λ e, match e with SMessage _ | SNext => True | _ => False end) es.
Definition nexts (n : nat) : list stream_event := replicate n SNext.

Section consume.
Variable py_str : pyval → string.
Variable id : string.
Variable vs : list pyval.
Hypothesis Hvs : Forall (λ v, is_none v = false) vs.
(** how the generator ended *)
Variable fin : gen_step.
Hypothesis Hfin : final fin = true.
Abbreviation run es c := (foldl (stream_step id) c es).

(** The exception the consumer sees. *)
Definition stream_outcome_of (step : gen_step) : option exn :=
  match step with
  | Throw (RPCError x) => Some (RPCError x)
  | Throw e => Some (RPCError (RPCException (PStr (code_value STREAM_ERROR)) (PStr (exn_str py_str e)) PNone))
  | _ => None
  end.

(** [n] messages have arrived, [k] values were yielded. *)
Inductive consuming (n : nat) (c : consumer) : Prop :=
| consuming_open k :
    n ≤ length vs → k ≤ n → c_out c = take k vs → c_queue c = drop k (take n vs) →
    c_ended c = false → c_error c = None → c_registered c = true → c_subscribed c = true →
    c_done c = None → c_cancels c = 0 → consuming n c
| consuming_closed k :
    n = S (length vs) → k ≤ length vs → c_out c = take k vs → c_queue c = drop k vs ++ [PNone] →
    c_ended c = true → c_error c = stream_outcome_of fin → c_subscribed c = false →
    c_done c = None → c_cancels c = 0 → consuming n c
| consuming_done k :
    n = S (length vs) → k ≤ length vs → c_out c = take k vs → c_subscribed c = false →
    c_done c = Some (stream_outcome_of fin) → (stream_outcome_of fin = None → k = length vs) →
    c_cancels c = 0 → consuming n c.

Lemma is_key_field k m : is_key k (PStr m) = bool_decide (m = k).
Proof. done. Qed.

Lemma handle_data v c :
  c_registered c = true → c_ended c = false → handle_stream_message id (data_msg id v) c = put v c.
Proof.
  intros Hr He. unfold handle_stream_message, data_msg. cbn -[is_key put].
  rewrite !is_key_refl. cbn [negb]. rewrite Hr. cbn [negb]. unfold on_push. by rewrite He.
Qed.

Lemma handle_last c :
  c_registered c = true →
  handle_stream_message id (last_msg py_str id fin) c =
    unsubscribe_all (match stream_outcome_of fin with Some e => on_error e c | None => on_end c end).
Proof.
  intros Hr. unfold handle_stream_message, last_msg. destruct fin as [v| |e]; [done| |].
  - unfold end_msg. cbn -[is_key unsubscribe_all]. rewrite !is_key_refl. cbn [negb]. rewrite Hr. done.
  - unfold error_msg. cbn -[is_key unsubscribe_all from_dict stream_error].
    rewrite !is_key_refl. cbn [negb]. rewrite Hr. cbn [negb].
    assert (H : from_dict (stream_error py_str e) = Ok (match e with RPCError x => x | _ =>
       RPCException (PStr (code_value STREAM_ERROR)) (PStr (exn_str py_str e)) PNone end)).
    { destruct e; cbn [stream_error]; try done. apply from_to_dict. }
    change (is_key "data" (PStr "error")) with false. change (is_key "end" (PStr "error")) with false.
    change (is_key "error" (PStr "error")) with true. cbv iota.
    match goal with |- context [from_dict ?x] => change x with (stream_error py_str e) end.
    rewrite H. by destruct e.
Qed.

Lemma not_none k v : vs !! k = Some v → is_none v = false.
Proof. intros H. exact (Forall_lookup_1 _ _ _ _ Hvs H). Qed.

Lemma consuming_message n m c :
  ((data_msg id <$> vs) ++ [last_msg py_str id fin]) !! n = Some m → consuming n c →
  consuming (S n) (stream_step id c (SMessage m)).
Proof.
  intros Hm Hc. assert (Hn : n ≤ length vs).
  { apply lookup_lt_Some in Hm. rewrite length_app, length_fmap in Hm. cbn in Hm. lia. }
  destruct Hc as [k _ Hk Ho Hq He Hx Hr Hs Hd Hca|k Hn' _ _ _ _ _ _ _ _|k Hn' _ _ _ _ _ _]; [|lia..].
  cbn [stream_step]. rewrite Hs. apply lookup_app_Some in Hm as [Hm|[Hlen Hm]].
  - rewrite list_lookup_fmap in Hm. destruct (vs !! n) as [v|] eqn:Ev; [|done]. injection Hm as <-.
    rewrite handle_data by done. apply lookup_lt_Some in Ev as Hlt.
    apply (consuming_open _ _ k); cbn; try done; try lia.
    rewrite Hq, (take_S_r _ _ _ Ev), drop_app_le; [done|]. rewrite length_take. lia.
  - rewrite length_fmap in Hlen, Hm. assert (n = length vs) as -> by lia.
    rewrite Nat.sub_diag in Hm. injection Hm as <-. rewrite handle_last by done.
    rewrite take_ge in Hq by lia.
    apply (consuming_closed _ _ k); destruct (stream_outcome_of fin); cbn; rewrite ?Hq, ?Hca; done.
Qed.

Lemma next_value_open c :
  c_done c = None → c_waiting c = true ∨ c_error c = None → next_value c = get_value c.
Proof.
  unfold next_value. intros -> H. destruct (c_waiting c); [done|].
  destruct (c_error c); [|done]. by destruct H.
Qed.

Lemma consuming_get n c : c_done c = None → consuming n c → consuming n (get_value c).
Proof.
  intros Hd0 Hc. unfold get_value.
  destruct Hc as [k Hn Hk Ho Hq He Hx Hr Hs Hd Hca|k Hn Hk Ho Hq He Hx Hs Hd Hca|]; [| |congruence].
  - destruct (c_queue c) as [|v q] eqn:Eq; [by apply (consuming_open _ _ k)|].
    symmetry in Hq. assert (Hv : vs !! k = Some v).
    { apply (f_equal head) in Hq. rewrite head_lookup, lookup_drop, Nat.add_0_r in Hq.
      by apply lookup_take_Some in Hq as [Hq _]. }
    assert (Hkn : k < n). { apply (f_equal length) in Hq. rewrite length_drop, length_take in Hq. cbn in Hq. lia. }
    rewrite (drop_S _ v) in Hq by (rewrite lookup_take_lt; done). injection Hq as Hq.
    unfold take_value. rewrite (not_none k v Hv).
    apply (consuming_open _ _ (S k)); cbn; try done; try lia. by rewrite Ho, (take_S_r _ _ _ Hv).
  - rewrite Hq. destruct (vs !! k) as [v|] eqn:Hv.
    + rewrite (drop_S _ _ _ Hv). cbn [app]. unfold take_value. rewrite (not_none k v Hv).
      apply lookup_lt_Some in Hv as Hlt.
      apply (consuming_closed _ _ (S k)); cbn; try done. by rewrite Ho, (take_S_r _ _ _ Hv).
    + apply lookup_ge_None in Hv. assert (k = length vs) as -> by lia.
      rewrite drop_ge by lia. cbn. rewrite He. cbn.
      apply (consuming_done _ _ (length vs)); cbn; try done. congruence.
Qed.

Lemma consuming_next n c : consuming n c → consuming n (next_value c).
Proof.
  intros Hc. destruct (c_done c) as [r|] eqn:Hd; [unfold next_value; by rewrite Hd|].
  destruct (c_waiting c) eqn:Hw; [|destruct (c_error c) as [e|] eqn:He].
  - rewrite next_value_open by auto. by apply consuming_get.
  - unfold next_value. rewrite Hd, Hw, He.
    destruct Hc as [|k Hn Hk Ho Hq He' Hx Hs _ Hca|]; [congruence| |congruence].
    apply (consuming_done _ _ k); cbn; rewrite ?He'; try done; congruence.
  - rewrite next_value_open by auto. by apply consuming_get.
Qed.

Lemma consuming_run n c es :
  plain_run es → consuming n c →
  arrivals es `prefix_of` drop n ((data_msg id <$> vs) ++ [last_msg py_str id fin]) →
  consuming (n + length (arrivals es)) (run es c).
Proof.
  intros Hes. revert n c. induction Hes as [|e es He Hes IH]; intros n c Hc Hp.
  { by rewrite Nat.add_0_r. }
  destruct e as [m| | | |]; try done; cbn [foldl].
  - change (arrivals (SMessage m :: es)) with (m :: arrivals es) in *. destruct Hp as [l Hl].
    assert (Hm : ((data_msg id <$> vs) ++ [last_msg py_str id fin]) !! n = Some m).
    { apply (f_equal head) in Hl. rewrite head_lookup, lookup_drop, Nat.add_0_r in Hl. done. }
    rewrite (drop_S _ _ _ Hm) in Hl. injection Hl as Hl.
    cbn [length]. rewrite <- Nat.add_succ_comm. apply IH; [by apply consuming_message|by exists l].
  - apply (IH n); [by apply consuming_next|done].
Qed.

(** Once the last message has arrived, the consumer finishes. *)
Lemma consuming_finishes c m :
  consuming (S (length vs)) c → length vs < m →
  ∃ k, let c' := run (nexts m) c in
    c_done c' = Some (stream_outcome_of fin) ∧ c_out c' = take k vs ∧
    (stream_outcome_of fin = None → k = length vs).
Proof.
  intros Hc Hm. set (left c := match c_done c with None => length (c_queue c) | Some _ => 0 end).
  assert (Hleft : left c ≤ m).
  { subst left. cbn. destruct Hc as [| k _ Hk _ Hq _ _ _ Hd _|k _ _ _ _ Hd _ _]; [lia| |]; rewrite Hd; [|lia].
    rewrite Hq, length_app, length_drop. cbn. lia. }
  clear Hm. revert c Hc Hleft. induction m as [|m IH]; intros c Hc Hleft; cbn [nexts replicate foldl].
  - subst left. cbn in Hleft.
    destruct Hc as [| k _ Hk _ Hq _ _ _ Hd _|k _ Hk Ho _ Hd Hf _]; [lia| |by exists k].
    rewrite Hd, Hq, length_app in Hleft. cbn in Hleft. lia.
  - apply IH; [by apply consuming_next|]. cbn [stream_step].
    pose proof (consuming_next _ _ Hc) as Hc'. subst left. cbn in *.
    destruct (c_done (next_value c)) eqn:Hd'; [lia|].
    destruct Hc as [|k _ Hk _ Hq _ _ _ Hd _|k _ _ _ _ Hd _ _]; [lia| |].
    2: { unfold next_value in Hd'. rewrite Hd in Hd'. congruence. }
    unfold next_value in *. rewrite Hd in *. unfold get_value, take_value in *.
    destruct (c_waiting c), (c_error c), (c_queue c) as [|v q]; try done; try (by destruct (drop k vs));
      destruct (is_none v); try done; cbn in *; lia.
Qed.

Lemma new_consuming : consuming 0 new_consumer.
Proof. apply (consuming_open _ _ 0); try done. lia. Qed.
End consume.

(** ** Streams that are cut short *)
Section cut.
Variable id : string.
Abbreviation run es c := (foldl (stream_step id) c es).

Definition enqueue (vs : list pyval) (c : consumer) : consumer :=
  Consumer (c_queue c ++ vs) (c_ended c) (c_error c) (c_registered c) (c_subscribed c) (c_waiting c)
           (c_out c) (c_done c) (c_cancels c).

Lemma run_values vs c :
  c_registered c = true → c_subscribed c = true → c_ended c = false →
  run (SMessage ∘ data_msg id <$> vs) c = enqueue vs c.
Proof.
  revert c. induction vs as [|v vs IH]; intros c Hr Hs He.
  - unfold enqueue. rewrite app_nil_r. by destruct c.
  - rewrite fmap_cons. cbn [foldl compose stream_step]. rewrite Hs, handle_data by done.
    rewrite IH by done. unfold enqueue, put. cbn. by rewrite <- app_assoc.
Qed.

Lemma run_drain vs rest c :
  Forall (λ v, is_none v = false) vs → c_queue c = vs ++ PNone :: rest →
  c_error c = None → c_done c = None →
  let c' := run (nexts (S (length vs))) c in
  c_out c' = c_out c ++ vs ∧ c_done c' = Some None ∧
  c_cancels c' = if c_ended c then c_cancels c else S (c_cancels c).
Proof.
  intros Hvs. revert c. induction Hvs as [|v vs Hv Hvs IH]; intros c Hq He Hd.
  - cbn [length nexts replicate foldl stream_step]. rewrite next_value_open by auto. unfold get_value.
    rewrite Hq. cbn. by rewrite app_nil_r, He.
  - assert (Hn : next_value c = Consumer (vs ++ PNone :: rest) (c_ended c) (c_error c) (c_registered c)
        (c_subscribed c) false (c_out c ++ [v]) (c_done c) (c_cancels c)).
    { rewrite next_value_open by auto. unfold get_value. rewrite Hq. cbn [app]. unfold take_value. by rewrite Hv. }
    change (nexts (S (length (v :: vs)))) with (SNext :: nexts (S (length vs))).
    cbn [foldl stream_step]. rewrite Hn.
    match goal with |- context [foldl _ ?c1 _] => destruct (IH c1) as (Ho & Hdone & Hca); [done..|] end.
    split; [|done]. etransitivity; [exact Ho|]. cbn. by rewrite <- app_assoc.
Qed.
End cut.

Lemma published_data subject id vs rest :
  published subject (data subject id vs ++ rest) = (data_msg id <$> vs) ++ published subject rest.
Proof.
  unfold published, data. rewrite omap_app. f_equal.
  induction vs as [|v vs IH]; [done|]. cbn. by rewrite bool_decide_eq_true_2, IH.
Qed.

(** ** Properties *)
Section theorems.
Variable py_str : pyval → string.
Variables (h : handler) (args : list pyval) (subject id : string) (g : source) (w : world).
Variables (vs : list pyval) (fuel : nat).
Abbreviation sent :=
  (published subject (ss_log (handle_stream_request py_str w h args subject id fuel (Session 0 [])).2)).
Abbreviation consume es := (foldl (stream_step id) new_consumer es).

Lemma sent_eq :
  produces h args g → undisturbed w → yields g 0 vs → final (s_step g (length vs)) = true → length vs < fuel →
  sent = (data_msg id <$> vs) ++ [last_msg py_str id (s_step g (length vs))].
Proof.
  intros Hg Hu Hy Hf Hl. rewrite (serve_eq py_str w h args subject id g Hg).
  destruct (run_undisturbed py_str w subject id g vs fuel (Session 0 []) Hu Hy Hf Hl) as [_ ->].
  cbn [ss_log app]. change (published subject (Subscribed ?x :: ?l)) with (published subject l).
  rewrite published_data. f_equal. cbn. rewrite bool_decide_eq_true_2 by done. f_equal.
  by destruct (s_aclose g).
Qed.

(** C5. End to end, an undisturbed stream of values other than [None]: however
    the consumer's requests and the arriving messages interleave, what it has
    received is an initial part of what the handler's generator yields; and
    once all messages have arrived it finishes, after every value when the
    generator returned, with the generator's error when it raised. *)
Theorem stream_end_to_end es m :
  produces h args g → undisturbed w → yields g 0 vs → final (s_step g (length vs)) = true → length vs < fuel →
  Forall (λ v, is_none v = false) vs → plain_run es → length vs < m →
  (arrivals es `prefix_of` sent → ∃ k, c_out (consume es) = take k vs) ∧
  (arrivals es = sent →
   let c := consume (es ++ nexts m) in
   c_done c = Some (stream_outcome_of py_str (s_step g (length vs))) ∧
   (s_step g (length vs) = Stop → c_out c = vs)).
Proof.
  intros Hg Hu Hy Hf Hl Hvs Hes Hm. rewrite (sent_eq Hg Hu Hy Hf Hl).
  pose proof (λ Hp, consuming_run py_str id vs Hvs (s_step g (length vs)) Hf 0 new_consumer es Hes
                (new_consuming py_str vs _) Hp) as Hrun. split.
  - intros Hp%Hrun. by destruct Hp as [k|k|k]; exists k.
  - intros He c. assert (Hc : consuming py_str vs (s_step g (length vs)) (S (length vs)) (consume es)).
    { replace (S (length vs)) with (0 + length (arrivals es)); [apply Hrun; by rewrite He|].
      rewrite He, length_app, length_fmap. cbn. lia. }
    subst c. rewrite foldl_app.
    destruct (consuming_finishes py_str id vs Hvs _ _ m Hc Hm) as (k & Hd & Ho & Hk).
    split; [exact Hd|]. intros Hs. etransitivity; [exact Ho|]. rewrite Hk by (by rewrite Hs). by apply take_ge.
Qed.
End theorems.

(** Three ways in which a stream loses values without an error. A streamed
    [None] ends it, whatever follows, and the server is told to stop; a
    disconnect ends it as if it were complete; and a consumer that closes its
    generator leaves the handler registered and subscribed, and never tells
    the server. *)
Theorem stream_cut_short id vs rest :
  Forall (λ v, is_none v = false) vs →
  let received ws := foldl (stream_step id) new_consumer (SMessage ∘ data_msg id <$> ws) in
  let drain c := foldl (stream_step id) c (nexts (S (length vs))) in
  (let c := drain (received (vs ++ PNone :: rest)) in
   c_out c = vs ∧ c_done c = Some None ∧ c_cancels c = 1) ∧
  (let c := drain (stream_step id (received vs) SDisconnect) in
   c_out c = vs ∧ c_done c = Some None ∧ c_cancels c = 0) ∧
  (let c := stream_step id (received vs) SClose in
   c_done c = Some None ∧ c_registered c = true ∧ c_subscribed c = true ∧ c_cancels c = 0).
Proof.
  intros Hvs received drain. subst received drain. cbv beta. rewrite !run_values by done.
  split_and!.
  - by apply (run_drain id vs rest (enqueue (vs ++ PNone :: rest) new_consumer)).
  - by apply (run_drain id vs [] (stream_step id (enqueue vs new_consumer) SDisconnect)).
  - done.
Qed.

(** ** Witnesses *)

Definition two : list pyval := [PInt 1; PStr "a"].

Lemma two_yields : yields (async_wrapper (steps_of two Stop)) 0 two.
Proof. by intros [|[|i]] v Hv; inversion Hv. Qed.

(** One message is consumed while the next ones arrive. *)
Definition interleaved : list stream_event :=
  [SNext; SMessage (data_msg "r" (PInt 1)); SNext; SMessage (data_msg "r" (PStr "a")); SMessage (end_msg "r")].

Lemma stream_end_to_end_witness :
  let c := foldl (stream_step "r") new_consumer (interleaved ++ nexts 3) in
  c_done c = Some None ∧ (Stop = Stop → c_out c = two).
Proof.
  apply (stream_end_to_end no_str list_handler two "s" "r" (async_wrapper (steps_of two Stop)) calm two 5
           interleaved 3);
    [apply list_handler_produces|done|apply two_yields|reflexivity|cbn; lia|repeat constructor|
     repeat constructor|cbn; lia|reflexivity].
Defined.

Lemma stream_cut_short_witness :
  let c := foldl (stream_step "r") (foldl (stream_step "r") new_consumer
             (SMessage ∘ data_msg "r" <$> [PInt 1; PNone; PInt 2])) (nexts 2) in
  c_out c = [PInt 1] ∧ c_done c = Some None ∧ c_cancels c = 1.
Proof. apply (stream_cut_short "r" [PInt 1] [PInt 2]). repeat constructor. Defined.
