(* ===== verification/PullerProps.v ===== *)
(** * What consuming a pull iterator guarantees (client.py with handler.py)

    A pull iterator over a working connection yields what the handler's
    generator yields, one request at a time; with callbacks, a batch boundary
    is yielded only when every callback message received before it has been
    processed. *)

From S2P Require Import Prelude Text PyVal Dict Errors Handlers PullProps ClientStreams.

Section remote.
Variable py_str : pyval → string.
Variable w : world.
Variable id : string.
Variable g : source.
Variable has_on_finished : bool.
(** the callbacks of a pull-callback iterator *)
Variable callbacks : option (list string).
Abbreviation with_value := (match callbacks with Some _ => false | None => true end).
Abbreviation serve := (pull_step py_str w id g has_on_finished with_value).
Abbreviation client := (puller_step id callbacks).

(** The consumer asks for one value: its request is served, what the session
    publishes arrives, and the generator goes on. *)
Definition remote_next (qs : puller * pull) : puller * pull :=
  let '(q, s) := qs in
  let q := client q (QAdvance None) in
  let s' := serve (serve s (PRequest (PStr "next"))) PResume in
  let arrived := drop (length (responses (p_log s))) (responses (p_log s')) in
  (client (foldl (λ q m, client q (QResponse m)) q arrived) (QAdvance None), s').

(** The yield of a value. *)
Definition yielded (v : pyval) : pyval := match callbacks with Some _ => PNone | None => v end.
(** The end the consumer sees. *)
Definition remote_end (step : gen_step) : option exn :=
  match step with Throw e => Some (RPCError (remote_error py_str e)) | _ => None end.

(** [k] values have gone over the wire. *)
Record in_step (k : nat) (vs : list pyval) (qs : puller * pull) : Prop := {
  step_queue : q_queue qs.1 = [];
  step_ended : q_ended qs.1 = false;
  step_registered : q_registered qs.1 = true;
  step_waiting : q_waiting qs.1 = false;
  step_callbacks : q_callbacks qs.1 = [];
  step_sent : q_sent qs.1 = replicate k (pull_request id "next");
  step_out : q_out qs.1 = yielded <$> take k vs;
  step_done : q_done qs.1 = None;
  step_active : p_active qs.2 = true;
  step_busy : p_busy qs.2 = false;
  step_pos : p_pos qs.2 = k }.

Hypothesis Hp : ∀ t, publish_at w t = None.

Lemma replicate_snoc {A} n (x : A) : replicate n x ++ [x] = replicate (S n) x.
Proof. induction n as [|n IH]; [done|]. cbn. by rewrite IH. Qed.

Lemma remote_next_eq q s :
  p_active s = true → p_busy s = false → q_done q = None → q_waiting q = false → q_queue q = [] →
  q_registered q = true →
  remote_next (q, s) =
    (client (handle_response (next_answer py_str id with_value (anext g (p_pos s)))
               (q_wait true (q_send (pull_request id "next") q))) (QAdvance None),
     serve (serve s (PRequest (PStr "next"))) PResume).
Proof.
  intros Ha Hb Hd Hw Hq Hr. unfold remote_next.
  destruct (next_answered py_str w id g has_on_finished with_value s Hp Ha Hb) as (-> & _).
  rewrite drop_app_length. assert (E : client q (QAdvance None) = q_wait true (q_send (pull_request id "next") q)).
  { cbn [puller_step]. unfold advance. by rewrite Hd, Hw. }
  rewrite E. cbn [foldl]. f_equal. f_equal. cbn [puller_step q_registered q_wait q_send]. by rewrite Hr.
Qed.

Lemma remote_step k vs qs v :
  drawn g vs → vs !! k = Some v → in_step k vs qs → in_step (S k) vs (remote_next qs).
Proof.
  intros Hvs Hv [Hq He Hr Hw Hcb Hs Ho Hd Ha Hb Hpos]. destruct qs as [q s]. cbn [fst snd] in *.
  rewrite remote_next_eq by done. rewrite Hpos, (Hvs k v Hv).
  destruct (next_answered py_str w id g has_on_finished with_value s Hp Ha Hb) as (_ & Ha' & Hb' & Hpos').
  rewrite Hpos, (Hvs k v Hv) in Ha'.
  assert (E : client (handle_response (next_answer py_str id with_value (Yield v))
                        (q_wait true (q_send (pull_request id "next") q))) (QAdvance None)
            = Puller [] false (q_error q) true false [] (q_called q) (q_sent q ++ [pull_request id "next"])
                     (q_out q ++ [yielded v]) None).
  { cbn [puller_step]. unfold advance, handle_response, next_answer, next_response, yielded.
    destruct q as [qu en er re wa cb ca se ou do]. cbn in Hq, He, Hr, Hw, Hcb, Hd. subst.
    destruct callbacks; reflexivity. }
  rewrite E. split; cbn [fst snd q_queue q_ended q_registered q_waiting q_callbacks q_sent q_out q_done]; try done.
  - by rewrite Hs, replicate_snoc.
  - by rewrite Ho, (take_S_r _ _ _ Hv), fmap_app.
  - rewrite Hpos', Hpos; done.
Qed.

Lemma remote_steps n k vs qs :
  drawn g vs → k + n ≤ length vs → in_step k vs qs → in_step (k + n) vs (Nat.iter n remote_next qs).
Proof.
  intros Hvs. revert k. induction n as [|n IH]; intros k Hn Hk; [by rewrite Nat.add_0_r|].
  cbn [Nat.iter nat_rect]. destruct (lookup_lt_is_Some_2 vs (k + n)) as [v Hv]; [lia|].
  rewrite Nat.add_succ_r. apply (remote_step _ _ _ v); [done|done|]. apply IH; [lia|done].
Qed.

Lemma remote_last vs qs :
  (match anext g (length vs) with Yield _ => False | _ => True end) → in_step (length vs) vs qs →
  let q := (remote_next qs).1 in
  q_done q = Some (remote_end (anext g (length vs))) ∧ q_out q = yielded <$> vs ∧
  q_sent q = replicate (S (length vs)) (pull_request id "next") ∧ q_registered q = false.
Proof.
  intros Hf [Hq He Hr Hw Hcb Hs Ho Hd Ha Hb Hpos] q. subst q. destruct qs as [q s]. cbn [fst snd] in *.
  rewrite remote_next_eq by done. rewrite Hpos. cbn [fst]. rewrite take_ge in Ho by lia.
  rewrite <- replicate_snoc, <- Hs, <- Ho.
  destruct q as [qu en er re wa cb ca se ou do]. cbn in Hq, He, Hr, Hw, Hcb, Hd. subst.
  destruct (anext g (length vs)) as [v| |e]; [done| |].
  - by destruct callbacks.
  - unfold next_answer, error_response. cbn [puller_step]. unfold advance, handle_response.
    assert (H : ∀ x, dict_get "error" [(PStr "id", PStr id); (PStr "type", PStr "error"); (PStr "error", x)] = x)
      by done.
    change (dict_get "type" [(PStr "id", PStr id); (PStr "type", PStr "error");
       (PStr "error", format_error_dict py_str e)]) with (PStr "error").
    rewrite H. change (is_key "error" (PStr "error")) with true. cbv iota.
    assert (Ht : truthy (format_error_dict py_str e) = true) by (by destruct e).
    rewrite Ht, from_format_error_dict. unfold q_put, q_end, q_wait, q_send.
    cbn [q_queue q_ended q_error q_registered q_waiting q_callbacks q_called q_sent q_out q_done app].
    unfold process_response. rewrite H.
    change (dict_get "type" [(PStr "id", PStr id); (PStr "type", PStr "error");
       (PStr "error", format_error_dict py_str e)]) with (PStr "error").
    change (is_key "error" (PStr "error")) with true. cbv iota. rewrite Ht, from_format_error_dict. done.
Qed.

Lemma remote_start vs : in_step 0 vs (new_puller, start_pull id (match callbacks with Some _ => Some true | None => None end)).
Proof. by split. Qed.

(** C4. Over a working connection the remote iterator is the generator: [n]
    requests yield its first [n] values (or boundaries, with callbacks) by
    exactly [n] messages, and the request after the last value ends the
    iteration, normally when the generator returned and with its error when
    it raised; nothing stays registered and no cancel is sent. *)
Theorem pull_end_to_end vs n :
  drawn g vs →
  let start := (new_puller, start_pull id (match callbacks with Some _ => Some true | None => None end)) in
  let q := (Nat.iter n remote_next start).1 in
  (n ≤ length vs → q_out q = yielded <$> take n vs ∧ q_done q = None ∧
     q_sent q = replicate n (pull_request id "next")) ∧
  (n = S (length vs) → match anext g (length vs) with Yield _ => False | _ => True end →
     q_out q = yielded <$> vs ∧ q_done q = Some (remote_end (anext g (length vs))) ∧
     q_sent q = replicate n (pull_request id "next") ∧ q_registered q = false).
Proof.
  intros Hvs start q. pose proof (λ n Hn, remote_steps n 0 vs start Hvs Hn (remote_start vs)) as Hsteps. split.
  - intros Hn. by destruct (Hsteps n Hn).
  - intros -> Hf. destruct (remote_last vs (Nat.iter (length vs) remote_next start) Hf) as (Hd & Ho & Hs & Hr);
      [by apply Hsteps|done].
Qed.
End remote.

(** ** Callbacks and teardown *)
Section puller.
Variable id : string.
Variable callbacks : option (list string).
Abbreviation step := (puller_step id callbacks).
Abbreviation run es q := (foldl step q es).

(** The callback a message is queued as. *)
Definition accepted_callback (e : puller_event) : option (string * pyval) :=
  match e with
  | QCallback msg => last (q_callbacks (handle_cb_msg callbacks msg new_puller))
  | _ => None
  end.
(** The connection stays up. *)
Definition connected_run (es : list puller_event) : Prop :=
  Forall (λ e, match e with QDisconnect => False | _ => True end) es.

(** Callback messages are processed in order, none lost while the iterator
    is open; an iterator stays registered until it is done. *)
Definition tracks (acc : list (string * pyval)) (q : puller) : Prop :=
  q_done q = None → q_registered q = true ∧ q_called q ++ q_callbacks q = acc.

Lemma handle_cb_msg_eq msg q :
  handle_cb_msg callbacks msg q =
    match accepted_callback (QCallback msg) with
    | Some c => Puller (q_queue q) (q_ended q) (q_error q) (q_registered q) (q_waiting q)
                  (q_callbacks q ++ [c]) (q_called q) (q_sent q) (q_out q) (q_done q)
    | None => q
    end.
Proof.
  unfold accepted_callback, handle_cb_msg. destruct msg; try done. destruct callbacks; [|done].
  destruct (dict_get "method" kvs); try done. by case_bool_decide.
Qed.

Lemma tracks_ext acc q q' :
  q_callbacks q' = q_callbacks q → q_called q' = q_called q → q_registered q' = q_registered q →
  q_done q' = q_done q → tracks acc q → tracks acc q'.
Proof. intros H1 H2 H3 H4 Hq. unfold tracks. by rewrite H1, H2, H3, H4. Qed.

Lemma tracks_process acc m queue q : q_done q = None → tracks acc q → tracks acc (process_response id callbacks m queue q).
Proof.
  intros Hd Hq. unfold process_response. destruct (is_key "error" _).
  - destruct (truthy _); [|by apply (tracks_ext acc q)]. by destruct (from_dict _).
  - destruct (is_key "done" _); [by case_bool_decide|].
    destruct (is_key "value" _); [|by apply (tracks_ext acc q)].
    case_bool_decide; [|done]. by apply (tracks_ext acc q).
Qed.

Lemma done_stays r e q : q_done q = Some r → q_done (step q e) = Some r.
Proof.
  intros Hd. destruct e as [msg|text| |msg| |f|]; cbn [puller_step].
  - destruct (q_registered q); [|done]. unfold handle_response. by repeat case_match.
  - by destruct (q_registered q).
  - destruct (q_registered q); [|done]. unfold puller_disconnect, settle_on_disconnect. by destruct (q_ended q).
  - destruct (q_registered q); [|done]. rewrite handle_cb_msg_eq. by case_match.
  - unfold consume_callback. by case_match.
  - unfold advance. by rewrite Hd.
  - unfold close_puller. by rewrite Hd.
Qed.

Lemma tracks_step acc e q :
  match e with QDisconnect => False | _ => True end → tracks acc q →
  tracks (acc ++ match accepted_callback e with Some c => [c] | None => [] end) (step q e).
Proof.
  intros He Hq. destruct (q_done q) as [r|] eqn:Hd.
  { intros Hn. by rewrite (done_stays r e q Hd) in Hn. }
  specialize (Hq Hd) as Hq'. destruct Hq' as [Hr Hc].
  destruct e as [msg|text| |msg| |f|]; try done; cbn [puller_step]; rewrite ?Hr.
  - rewrite app_nil_r. unfold handle_response. repeat case_match; try done; by apply (tracks_ext acc q).
  - rewrite app_nil_r. by apply (tracks_ext acc q).
  - rewrite handle_cb_msg_eq. destruct (accepted_callback (QCallback msg)) as [c|]; [|by rewrite app_nil_r].
    intros _. cbn. split; [done|]. by rewrite app_assoc, Hc.
  - rewrite app_nil_r. unfold consume_callback. destruct (q_callbacks q) as [|c cs] eqn:E; [done|].
    intros _. cbn. split; [done|]. by rewrite <- app_assoc, <- Hc.
  - rewrite app_nil_r. unfold advance. rewrite Hd.
    destruct (q_waiting q); [|by destruct f].
    destruct (q_queue q) as [|m queue]; [done|]. by apply tracks_process.
  - unfold close_puller. by rewrite Hd.
Qed.

Lemma tracks_run acc es q :
  connected_run es → tracks acc q → tracks (acc ++ omap accepted_callback es) (run es q).
Proof.
  intros Hes. revert acc q. induction Hes as [|e es He Hes IH]; intros acc q Hq; [by rewrite app_nil_r|].
  cbn [foldl]. pose proof (IH _ _ (tracks_step acc e q He Hq)) as H. rewrite <- app_assoc in H.
  cbn. by destruct (accepted_callback e).
Qed.


(** A consumer parked on its response is released by a disconnect with
    [CONNECTION_CLOSED]; one that closes its iterator leaves nothing
    registered and cancels it at the server, unless it had ended. *)
Theorem puller_released q f :
  q_done q = None → q_registered q = true →
  (q_queue q = [] → q_waiting q = true → q_ended q = false →
   let q' := step (step q QDisconnect) (QAdvance f) in
   q_done q' = Some (Some (RPCError closed_error)) ∧ q_sent q' = q_sent q ∧ q_registered q' = false) ∧
  (let q' := step q QClose in
   q_done q' = Some None ∧ q_registered q' = false ∧ q_callbacks q' = [] ∧
   q_sent q' = q_sent q ++ (if q_ended q then [] else [pull_request id "cancel"])).
Proof.
  destruct q as [qu en er re wa cb ca se ou do]. cbn. intros -> ->. split.
  - by intros -> -> ->.
  - unfold close_puller. cbn. unfold puller_finish, puller_cleanup. cbn.
    destruct en; cbn; by rewrite ?app_nil_r.
Qed.
End puller.

(** ** Witnesses *)

Lemma two_drawn : drawn two_then_stop [PInt 1; PInt 2].
Proof. by intros [|[|i]] v Hv; inversion Hv. Qed.

Lemma pull_end_to_end_witness :
  let q := (Nat.iter 3 (remote_next no_str calm "it" two_then_stop true None)
              (new_puller, start_pull "it" None)).1 in
  q_out q = [PInt 1; PInt 2] ∧ q_done q = Some None ∧
  q_sent q = replicate 3 (pull_request "it" "next") ∧ q_registered q = false.
Proof.
  apply (pull_end_to_end no_str calm "it" two_then_stop true None (λ _, eq_refl) [PInt 1; PInt 2] 3 two_drawn);
    [reflexivity|exact I].
Defined.

(** A boundary that waits for one callback message. *)
Definition batch : list puller_event :=
  [QAdvance None; QCallback (PDict [(PStr "method", PStr "m"); (PStr "args", PList [PInt 1])]);
   QResponse (next_response "it" false PNone); QAdvance None; QConsume].


Lemma puller_released_witness :
  q_done (puller_step "it" None (puller_step "it" None (q_wait true new_puller) QDisconnect) (QAdvance None))
    = Some (Some (RPCError closed_error)).
Proof. apply (puller_released "it" None (q_wait true new_puller) None); reflexivity. Defined.
