(* ===== verification/Dispatch.v ===== *)
(** * Dispatching requests to handlers (client.py [register_handler])

    One registration subscribes every method of a namespace; each message on a
    method's subject is classified, served, and answered on the caller's reply
    subject. Pull and callback sessions live in the client's cleanup dicts,
    which all registrations share. The steps are: a request, an event of a
    running session, and the cleanup of a registration. *)

From S2P Require Import Prelude Text PyVal Dict Errors MsgPack Codec Handlers.

(** ** Classifying a request *)

Inductive rpc_request :=
| StreamRequest (subject : string) (args : pyval)
| PullRequest (iterator_id : string) (args : pyval)
| PullCallbackRequest (iterator_id callback_subject : string) (oneway : list string) (args : pyval)
| CallbackRequest (callback_subject : string) (args : pyval)
| NormalRequest (params : pyval).

(** [params] when it is a dict whose [marker] is true, or the first element of
    a list when that is one. *)
Definition marked (marker : string) (params : pyval) : option (list (pyval * pyval)) :=
  match params with
  | PDict kvs => if truthy (dict_get marker kvs) then Some kvs else None
  | PList (PDict kvs :: _) => if truthy (dict_get marker kvs) then Some kvs else None
  | _ => None
  end.

(** [isinstance(params, dict) and params.get(k1) is not None and ...] *)
Definition has_both (k1 k2 : string) (params : pyval) : option (list (pyval * pyval)) :=
  match params with
  | PDict kvs => if is_none (dict_get k1 kvs) || is_none (dict_get k2 kvs) then None else Some kvs
  | _ => None
  end.

(** The first element of a list of parameters, marked as a callback request. *)
Definition list_callback (params : pyval) : option (list (pyval * pyval)) :=
  match params with PList _ => marked "__callback" params | _ => None end.

Section classify.
Variable py_str : pyval → string.

(** A field that the code casts to [str] and formats into a subject. *)
Definition str_field (k : string) (dflt : pyval) (kvs : list (pyval * pyval)) : string :=
  fmt py_str (default dflt (dict_lookup k kvs)).
Definition args_field (kvs : list (pyval * pyval)) : pyval :=
  default (PList []) (dict_lookup "args" kvs).
Definition str_list (v : pyval) : list string :=
  match v with PList vs => omap (λ v, match v with PStr s => Some s | _ => None end) vs | _ => [] end.

(** The [if]/[elif] chain of [handle_message], with its precedence; [id] is
    the default of [__iteratorId]. *)
Definition classify (id : string) (params : pyval) : result exn rpc_request :=
  match has_both "__stream" "__streamSubject" params with
  | Some kvs => Ok (StreamRequest (str_field "__streamSubject" PNone kvs) (args_field kvs))
  | None =>
  match marked "__pullIterator" params with
  | Some kvs => Ok (PullRequest (str_field "__iteratorId" (PStr id) kvs) (args_field kvs))
  | None =>
  match marked "__pullCallback" params with
  | Some kvs =>
      Ok (PullCallbackRequest (str_field "__iteratorId" (PStr id) kvs)
            (str_field "__callbackSubject" (PStr "") kvs)
            (str_list (dict_get "__onewayMethods" kvs)) (args_field kvs))
  | None =>
  match has_both "__callback" "__callbackSubject" params, list_callback params with
  | Some kvs, _ | None, Some kvs =>
      match dict_lookup "__callbackSubject" kvs with
      | Some s => Ok (CallbackRequest (fmt py_str s) (args_field kvs))
      | None => Raise (KeyError "__callbackSubject")
      end
  | None, None => Ok (NormalRequest params)
  end end end end.
End classify.

(** [*args] *)
Definition star_args (args : pyval) : result exn (list pyval) :=
  match value_items args with
  | Some vs => Ok vs
  | None => Raise (TypeError "argument after * must be an iterable")
  end.

(** [message["id"]], a string. (Peers generate string ids; others are outside
    the model.) *)
Definition message_id (message : pyval) : result exn string :=
  match message with
  | PDict kvs =>
      match dict_lookup "id" kvs with
      | Some (PStr id) => Ok id
      | Some _ => Raise (TypeError "id is not a string")
      | None => Raise (KeyError "id")
      end
  | _ => Raise (TypeError "message is not subscriptable by a string")
  end.

(** ** The responder *)

Inductive live_session :=
| LivePull (id : string) (g : source) (with_value : bool) (p : pull)
| LiveCallback (id subject : string) (handler_cleanup : option (option exn)) (c : callback_session).

Record responder := Responder {
  r_time : nat;
  r_next : Z;
  r_sessions : gmap Z live_session;
  (** [pull_iterator_cleanups] and [callback_cleanups]: the session whose
      cleanup is stored under an id *)
  r_iterators : list (string * Z);
  r_callbacks : list (string * Z);
  (** [pull_iterator_ids] and [callback_ids] of each registration *)
  r_owned : gmap Z (list string * list string);
  (** the response under construction *)
  r_response : list (pyval * pyval);
  (** messages published on reply subjects, stream tasks started *)
  r_sent : list (string * pyval);
  r_streams : list (string * string * pyval) }.

Definition new_responder : responder := Responder 0 0 ∅ [] [] ∅ [] [] [].

Definition set_response f (r : responder) : responder :=
  Responder (r_time r) (r_next r) (r_sessions r) (r_iterators r) (r_callbacks r) (r_owned r)
            (f (r_response r)) (r_sent r) (r_streams r).
Definition add_sent m (r : responder) : responder :=
  Responder (r_time r) (r_next r) (r_sessions r) (r_iterators r) (r_callbacks r) (r_owned r)
            (r_response r) (r_sent r ++ [m]) (r_streams r).
Definition add_stream m (r : responder) : responder :=
  Responder (r_time r) (r_next r) (r_sessions r) (r_iterators r) (r_callbacks r) (r_owned r)
            (r_response r) (r_sent r) (r_streams r ++ [m]).
Definition r_tick (r : responder) : responder :=
  Responder (S (r_time r)) (r_next r) (r_sessions r) (r_iterators r) (r_callbacks r) (r_owned r)
            (r_response r) (r_sent r) (r_streams r).
Definition put_session n x (r : responder) : responder :=
  Responder (r_time r) (r_next r) (<[n := x]> (r_sessions r)) (r_iterators r) (r_callbacks r) (r_owned r)
            (r_response r) (r_sent r) (r_streams r).
Definition upd_iterators f (r : responder) : responder :=
  Responder (r_time r) (r_next r) (r_sessions r) (f (r_iterators r)) (r_callbacks r) (r_owned r)
            (r_response r) (r_sent r) (r_streams r).
Definition upd_callbacks f (r : responder) : responder :=
  Responder (r_time r) (r_next r) (r_sessions r) (r_iterators r) (f (r_callbacks r)) (r_owned r)
            (r_response r) (r_sent r) (r_streams r).
Definition owned (reg : Z) (r : responder) : list string * list string := default ([], []) (r_owned r !! reg).
Definition own reg its cbs (r : responder) : responder :=
  let '(i, c) := owned reg r in
  Responder (r_time r) (r_next r) (r_sessions r) (r_iterators r) (r_callbacks r)
            (<[reg := (i ++ its, c ++ cbs)]> (r_owned r)) (r_response r) (r_sent r) (r_streams r).
(** A fresh session number. *)
Definition take_number : pm exn responder Z := λ r,
  (Ok (r_next r),
   Responder (r_time r) (r_next r + 1) (r_sessions r) (r_iterators r) (r_callbacks r) (r_owned r)
             (r_response r) (r_sent r) (r_streams r)).

(** ** One message *)
Section dispatch.
Context {M : MsgPack}.
Variable py_str : pyval → string.
Variable w : world.
(** what a callable that a callback handler returned raises when called *)
Variable cleanup_raises : Z → option exn.

(** [client.publish(reply_subject, response)] *)
Definition publish_on (reply_subject : string) : pm exn responder unit :=
  r ← get_state;
  modify r_tick ≫= λ _,
  match encode_message (PDict (r_response r)) with
  | Raise e => raise e
  | Ok _ =>
      match publish_at w (r_time r) with
      | Some e => raise e
      | None => modify (add_sent (reply_subject, PDict (r_response r)))
      end
  end.
Definition publish_response (id : string) : pm exn responder unit := publish_on ("rpc.reply." +:+ id).

Definition respond_with (id key : string) (v : pyval) : pm exn responder unit :=
  modify (set_response (dict_set key v)) ≫= λ _, publish_response id.

(** [{"iteratorId": iterator_id}] *)
Definition iterator_result (id : string) : pyval := PDict [(PStr "iteratorId", PStr id)].

(** A pull session is started, stored and owned by the registration. *)
Definition store_iterator (reg : Z) (id : string) (with_value : bool) (g : source) (p : pull) :
    pm exn responder unit :=
  n ← take_number;
  modify (λ r, own reg [id] [] (upd_iterators (od_set id n) (put_session n (LivePull id g with_value p) r))).
Definition store_callback (reg : Z) (id subject : string) (k : option Z) : pm exn responder unit :=
  n ← take_number;
  modify (λ r, own reg [] [id] (upd_callbacks (od_set id n)
    (put_session n (LiveCallback id subject (cleanup_raises <$> k)
                      (CallbackSession false [Subscribed (subject +:+ ".cancel")])) r))).

(** The value of a normal call: an object that is not plain data does not
    encode. *)
Definition obj_value (o : pyobj) : pyval := match o with OValue v => v | _ => PObject 0 end.

(** [{"start": ..., "end": ...}] for a request that asks for its timing. *)
Definition timing (now now' : Z) : pyval :=
  PDict [(PStr "start", PInt now); (PStr "end", PInt now')].

(** The [try] body of [handle_message]; [now] and [now'] are its clock
    readings. *)
Definition serve (reg : Z) (h : handler) (handler_is_async : bool) (now now' : Z) (id : string)
    (message : list (pyval * pyval)) : pm exn responder unit :=
  req ← lift (classify py_str id (dict_get "params" message));
  match req with
  | StreamRequest subject args => modify (add_stream (id, subject, args))
  | PullRequest it args =>
      args ← lift (star_args args);
      x ← lift (handle_pull_iterator_request h args it);
      store_iterator reg it true x.1 x.2 ≫= λ _,
      respond_with id "result" (iterator_result it)
  | PullCallbackRequest it subject oneway args =>
      args ← lift (star_args args);
      x ← lift (handle_pull_callback_request h args (PObject 1) it);
      store_iterator reg it false x.1 x.2 ≫= λ _,
      respond_with id "result" (iterator_result it)
  | CallbackRequest subject args =>
      args ← lift (star_args args);
      k ← lift (handle_callback_request h args (PFun 0));
      store_callback reg id subject k ≫= λ _,
      respond_with id "result" (PDict [(PStr "ok", PBool true)])
  | NormalRequest _ =>
      o ← lift (handle_normal_rpc h (default (PList []) (dict_lookup "params" message)) (Some handler_is_async));
      (if is_true (dict_get "__timing" message)
       then modify (set_response (dict_set "__timing" (timing now now'))) else mret tt) ≫= λ _,
      respond_with id "result" (obj_value o)
  end.

(** The [except] clause; a failing publish is printed. *)
Definition answer_error (id : string) (method_names : list string) (e : exn) : pm exn responder unit :=
  let error := format_error_dict py_str e in
  modify (set_response (dict_set "error" error)) ≫= λ _,
  (if match error with PDict kvs => is_key (code_value METHOD_NOT_FOUND) (dict_get "code" kvs) | _ => false end
   then modify (set_response (dict_set "__methods" (PList (PStr <$> method_names)))) else mret tt) ≫= λ _,
  try_except (publish_response id) (λ _, mret tt).

(** [handle_message] of one method of the registration [reg]. *)
Definition handle_message (reg : Z) (h : handler) (method_names : list string) (handler_is_async : bool)
    (now now' : Z) (message : pyval) : pm exn responder unit :=
  id ← lift (message_id message);
  let kvs := match message with PDict kvs => kvs | _ => [] end in
  modify (set_response (λ _, [(PStr "id", PStr id)])) ≫= λ _,
  (if is_true (dict_get "__discover" kvs)
   then modify (set_response (dict_set "__methods" (PList (PStr <$> method_names)))) else mret tt) ≫= λ _,
  try_except (serve reg h handler_is_async now now' id kvs) (answer_error id method_names).

(** ** Running sessions *)

Definition finishes (old new : list action) : bool :=
  existsb (λ a, match a with OnFinished => true | _ => false end) (drop (length old) new).

(** An event of session [n]; [on_finished] pops the stored cleanup. *)
Definition pull_session_event (n : Z) (e : pull_event) : pm exn responder unit :=
  r ← get_state;
  match r_sessions r !! n with
  | Some (LivePull id g with_value p) =>
      let p' := pull_step py_str w id g true with_value p e in
      modify (put_session n (LivePull id g with_value p')) ≫= λ _,
      if finishes (p_log p) (p_log p') then modify (upd_iterators (od_del id)) else mret tt
  | _ => mret tt
  end.
Definition callback_session_event (n : Z) (e : callback_event) : pm exn responder unit :=
  r ← get_state;
  match r_sessions r !! n with
  | Some (LiveCallback id subject k c) =>
      let c' := callback_step subject id true k c e in
      modify (put_session n (LiveCallback id subject k c')) ≫= λ _,
      if finishes (cb_log c) (cb_log c') then modify (upd_callbacks (od_del id)) else mret tt
  | _ => mret tt
  end.

(** [cleanup_iterator], and the loop over the callbacks. *)
Definition cleanup_iterator (id : string) : pm exn responder unit :=
  r ← get_state;
  match od_get id (r_iterators r) with
  | Some n => modify (upd_iterators (od_del id)) ≫= λ _, pull_session_event n PCleanup
  | None => mret tt
  end.
Definition cleanup_callback (id : string) : pm exn responder unit :=
  r ← get_state;
  match od_get id (r_callbacks r) with
  | Some n => modify (upd_callbacks (od_del id)) ≫= λ _, callback_session_event n CbCleanup
  | None => mret tt
  end.

(** The sweep of a registration's [cleanup] after its unsubscriptions. *)
Definition cleanup_registration (reg : Z) : pm exn responder unit :=
  r ← get_state;
  for_each (owned reg r).1 cleanup_iterator ≫= λ _,
  for_each (owned reg r).2 cleanup_callback.

(** The part of [disconnect] that sweeps the shared dicts. *)
Definition cleanup_all : pm exn responder unit :=
  r ← get_state;
  for_each (r_iterators r).*1 cleanup_iterator ≫= λ _,
  for_each (r_callbacks r).*1 cleanup_callback.

Inductive dispatch_event :=
| DMessage (reg : Z) (h : handler) (method_names : list string) (handler_is_async : bool)
    (now now' : Z) (message : pyval)
| DPull (n : Z) (type : option pyval)
| DCallback (n : Z) (e : callback_event)
| DCleanup (reg : Z)
| DDisconnect.
(** A session receives a request, or its suspended one resumes; its cleanup is
    run by its owners only. *)
Definition run_dispatch (e : dispatch_event) : pm exn responder unit :=
  match e with
  | DMessage reg h names is_async now now' message => handle_message reg h names is_async now now' message
  | DPull n (Some type) => pull_session_event n (PRequest type)
  | DPull n None => pull_session_event n PResume
  | DCallback n CbCleanup => mret tt
  | DCallback n e => callback_session_event n e
  | DCleanup reg => cleanup_registration reg
  | DDisconnect => cleanup_all
  end.
Definition dispatch_step (r : responder) (e : dispatch_event) : responder := (run_dispatch e r).2.
End dispatch.
