(* ===== verification/DispatchSpec.v ===== *)
(** * How a dispatched message is answered

    The equations of one message through [handle_message], the shape of the
    responses it publishes, and the invariant of the session dicts. *)

From S2P Require Import Prelude Text PyVal Dict Errors Types MsgPack Codec Handlers PullProps Dispatch.

(** ** Response envelopes *)

(** An [RPCResponse] with the request's id; its error, if it has one, may
    carry any code and message. *)
Record envelope (id : string) (kvs : list (pyval * pyval)) : Prop := {
  envelope_id : dict_lookup "id" kvs = Some (PStr id);
  envelope_type : has_type (RPCResponse TAny) (PDict kvs) = true }.
Definition answered (kvs : list (pyval * pyval)) : Prop :=
  dict_has "result" kvs = true ∨ dict_has "error" kvs = true.

(** The keys a response gets while the request is served, with their types. *)
Definition response_field (k : string) (v : pyval) : bool :=
  is_key k (PStr "result")
  || is_key k (PStr "error") && has_type (RPCErrorDict TAny) v
  || is_key k (PStr "__methods") && has_type (TList TStr) v
  || is_key k (PStr "__timing") && has_type RPCTiming v.

Lemma envelope_set id k v kvs :
  response_field k v = true → envelope id kvs → envelope id (dict_set k v kvs).
Proof.
  intros Hf [H1 H2].
  assert (Hk : k ≠ "id" ∧ ∃ req t, od_get k [("id", required TStr); ("result", not_required (optional TAny));
              ("error", not_required (optional (RPCErrorDict TAny))); ("__methods", not_required (optional (TList TStr)));
              ("__timing", not_required (optional RPCTiming))] = Some (req, t) ∧ has_type t v = true).
  { unfold response_field in Hf. cbn -[has_type] in Hf. rewrite !orb_true_iff, !andb_true_iff, !bool_decide_eq_true in Hf.
    destruct Hf as [[[<-|[<- Hv]]|[<- Hv]]|[<- Hv]]; split; try done; eexists _, _; (split; [reflexivity|]);
      by apply has_type_optional. }
  destruct Hk as (Hid & req & t & Hk & Hv). split; [by rewrite dict_lookup_set_ne|].
  eapply has_type_set; [|exact Hk|exact Hv|exact H2]. vm_compute. repeat constructor; set_solver.
Qed.

Lemma answered_set id k v kvs : envelope id kvs → k = "result" ∨ k = "error" → answered (dict_set k v kvs).
Proof.
  intros _ [H|H]; rewrite H; [left|right]; unfold dict_has; by rewrite dict_lookup_set.
Qed.
Lemma answered_keep k v kvs : answered kvs → answered (dict_set k v kvs).
Proof.
  assert (H : ∀ j, dict_has j kvs = true → dict_has j (dict_set k v kvs) = true).
  { intros j. unfold dict_has. destruct (decide (k = j)) as [->|]; [by rewrite dict_lookup_set|].
    by rewrite dict_lookup_set_ne. }
  intros [H1|H1]; [left|right]; by apply H.
Qed.

Lemma envelope_new id : envelope id [(PStr "id", PStr id)].
Proof. by split. Qed.

(** A message as the dispatcher answers the request [id] with. *)
Definition answer_to (id : string) (m : string * pyval) : Prop :=
  ∃ kvs, m = ("rpc.reply." +:+ id, PDict kvs) ∧ envelope id kvs ∧ answered kvs.
Definition wf_sent (m : string * pyval) : Prop := ∃ id, answer_to id m.

Section dispatch.
Context {M : MsgPack}.
Variable py_str : pyval → string.
Variable w : world.
Variable cleanup_raises : Z → option exn.
Abbreviation step := (dispatch_step py_str w cleanup_raises).

Lemma publish_response_eq id r :
  publish_response w id r =
    match encode_message (PDict (r_response r)) with
    | Raise e => (Raise e, r_tick r)
    | Ok _ =>
        match publish_at w (r_time r) with
        | Some e => (Raise e, r_tick r)
        | None => (Ok tt, add_sent ("rpc.reply." +:+ id, PDict (r_response r)) (r_tick r))
        end
    end.
Proof.
  unfold publish_response, publish_on. rewrite pm_bind_eq. cbn [get_state]. rewrite pm_bind_eq. cbn [modify].
  destruct (encode_message _); [|done]. by destruct (publish_at w (r_time r)).
Qed.

(** The request [id] is being served; [sent] was published before it. *)
Variable sent : list (string * pyval).
Definition serving (id : string) (r : responder) : Prop :=
  (∃ new, r_sent r = sent ++ new ∧ Forall (answer_to id) new) ∧ envelope id (r_response r).
Definition answering (id : string) (r : responder) : Prop := serving id r ∧ answered (r_response r).

(** A property of the messages and the response alone. *)
Lemma serving_ext id r r' :
  r_sent r' = r_sent r → r_response r' = r_response r → serving id r → serving id r'.
Proof. unfold serving. by intros -> ->. Qed.

Lemma answering_publish id : keeps (answering id) (publish_response w id).
Proof.
  intros r [[Hs He] Ha]. rewrite publish_response_eq. destruct (encode_message _); [|done].
  destruct (publish_at w (r_time r)); [done|]. split; [split|]; [|done..].
  destruct Hs as (new & Hs & Hn). exists (new ++ [("rpc.reply." +:+ id, PDict (r_response r))]).
  cbn. rewrite Hs, <- app_assoc. split; [done|]. apply Forall_app. split; [done|]. apply Forall_singleton.
  by exists (r_response r).
Qed.

Lemma serving_set id k v : response_field k v = true → keeps (serving id) (modify (set_response (dict_set k v)) : pm exn responder unit).
Proof. intros Hk. apply keeps_modify. intros r [Hs He]. split; [done|]. by apply envelope_set. Qed.

Lemma answering_serving id {A} (m : pm exn responder A) r :
  keeps (answering id) m → answering id r → serving id (m r).2.
Proof. intros H Hr. by apply H. Qed.

Lemma serving_respond id v : keeps (serving id) (respond_with w id "result" v).
Proof.
  intros r Hr. unfold respond_with. rewrite pm_bind_eq. cbn [modify].
  apply answering_publish. split.
  - destruct Hr as [Hs He]. split; [done|]. by apply envelope_set.
  - by eapply answered_set; [apply Hr|left].
Qed.

Ltac silent := apply keeps_modify; intros ? ?; eapply serving_ext; [| |eassumption]; try done.

Lemma serving_own reg its cbs id r : serving id r → serving id (own reg its cbs r).
Proof. unfold own. destruct (owned reg r). by intros. Qed.

Lemma serving_store id reg it wv g p : keeps (serving id) (store_iterator reg it wv g p).
Proof.
  unfold store_iterator. apply keeps_bind; [by intros r Hr|]. intros n. apply keeps_modify.
  intros r Hr. by apply serving_own.
Qed.
Lemma serving_store_callback id reg it s k : keeps (serving id) (store_callback cleanup_raises reg it s k).
Proof.
  unfold store_callback. apply keeps_bind; [by intros r Hr|]. intros n. apply keeps_modify.
  intros r Hr. by apply serving_own.
Qed.

Lemma serving_serve id reg h a now now' kvs :
  keeps (serving id) (serve py_str w cleanup_raises reg h a now now' id kvs).
Proof.
  unfold serve. apply keeps_bind; [apply keeps_lift|]. intros [].
  - by silent.
  - repeat (apply keeps_bind; [first [apply keeps_lift|apply serving_store]|intros ?]). apply serving_respond.
  - repeat (apply keeps_bind; [first [apply keeps_lift|apply serving_store]|intros ?]). apply serving_respond.
  - repeat (apply keeps_bind; [first [apply keeps_lift|apply serving_store_callback]|intros ?]).
    apply serving_respond.
  - apply keeps_bind; [apply keeps_lift|]. intros o. apply keeps_bind.
    + case_match; [|apply keeps_ret]. by apply serving_set.
    + intros _. apply serving_respond.
Qed.

Lemma serving_error id names e : keeps (serving id) (answer_error py_str w id names e).
Proof.
  intros r Hr. unfold answer_error. rewrite pm_bind_eq. cbn [modify].
  set (r1 := set_response _ r). assert (H1 : answering id r1).
  { destruct Hr as [Hs He]. split; [split; [done|]|].
    - apply envelope_set; [|done]. unfold response_field. cbn -[has_type]. by rewrite format_error_type.
    - by eapply answered_set; [|right]. }
  apply answering_serving; [|done]. apply keeps_bind.
  - assert (Hm : keeps (answering id)
              (modify (set_response (dict_set "__methods" (PList (PStr <$> names)))) : pm exn responder unit)).
    { apply keeps_modify. intros x [[Hs He] Ha]. split; [split; [done|]|by apply answered_keep].
      apply envelope_set; [|done]. unfold response_field. by rewrite strings_type. }
    destruct (format_error_dict py_str e); try apply keeps_ret.
    destruct (is_key _ _); [done|apply keeps_ret].
  - intros _. apply keeps_try; [apply answering_publish|intros; apply keeps_ret].
Qed.

(** ** The session dicts *)

(** Since [p0] the session has finished only by calling [on_finished]. *)
Definition finishes_aloud (p0 p : pull) : Prop :=
  ∃ l, p_log p = p_log p0 ++ l ∧ (p_finished p = true → p_finished p0 = false → OnFinished ∈ l).

Section aloud.
Variables (id : string) (g : source) (with_value : bool) (p0 : pull).
Abbreviation aloud := (finishes_aloud p0).

Lemma aloud_act a : keeps aloud (modify (pull_act a) : pm exn pull unit).
Proof.
  apply keeps_modify. intros p (l & Hl & Hf). exists (l ++ [a]). cbn. rewrite Hl, <- app_assoc.
  split; [done|]. intros H1 H2. apply elem_of_app. left. by apply Hf.
Qed.
Lemma aloud_silent (f : pull → pull) :
  (∀ p, p_log (f p) = p_log p) → (∀ p, p_finished (f p) = p_finished p) →
  keeps aloud (modify f : pm exn pull unit).
Proof. intros H1 H2. apply keeps_modify. intros p (l & Hl & Hf). exists l. by rewrite H1, H2. Qed.
Lemma aloud_respond v : keeps aloud (respond w id v).
Proof.
  apply keeps_get. intros p Hp. apply keeps_bind; [by apply aloud_silent|]. intros _.
  destruct (publish_at w (p_time p)); [apply keeps_raise|apply aloud_act].
Qed.
Lemma aloud_finish : keeps aloud (finish true).
Proof.
  intros p (l & Hl & Hf). rewrite finish_eq. cbn [snd]. destruct (p_finished p) eqn:E; [by exists l; rewrite E|].
  eexists. cbn. rewrite Hl, <- app_assoc. split; [done|]. intros _ _. set_solver.
Qed.
Lemma aloud_deactivate : keeps aloud deactivate.
Proof. by apply aloud_silent. Qed.
Lemma aloud_respond_done : keeps aloud (respond_done w id true).
Proof. apply keeps_try_finally; [apply aloud_respond|apply aloud_finish]. Qed.
Lemma aloud_error e : keeps aloud (respond_error py_str w id true e).
Proof.
  apply keeps_bind; [apply aloud_deactivate|]. intros _.
  apply keeps_try_finally; [apply aloud_respond|apply aloud_finish].
Qed.
Lemma aloud_close : keeps aloud (aclose g).
Proof.
  unfold aclose. destruct (s_aclose g) as [r|]; [|apply keeps_ret].
  apply keeps_bind; [apply aloud_act|]. intros _. destruct r; [apply keeps_raise|apply keeps_ret].
Qed.

Lemma aloud_step e : e ≠ PCleanup → aloud (pull_step py_str w id g true with_value p0 e).
Proof.
  intros He. assert (Hk : keeps aloud (run_pull py_str w id g true with_value e)); [|apply Hk; exists []; rewrite app_nil_r; split; [done|congruence]].
  destruct e as [type| |]; [| |done]; cbn [run_pull]; apply keeps_get; intros p Hp.
  - destruct (p_busy p); [apply keeps_ret|]. destruct (negb _); [apply keeps_ret|].
    destruct (is_key "cancel" type).
    + apply keeps_try; [|apply aloud_error]. apply keeps_bind; [apply aloud_deactivate|]. intros _.
      apply keeps_bind; [apply aloud_close|]. intros _. apply aloud_respond_done.
    + destruct (is_key "next" type); [by apply aloud_silent|apply keeps_ret].
  - destruct (negb _); [apply keeps_ret|]. apply keeps_bind; [by apply aloud_silent|]. intros _.
    apply keeps_try; [|apply aloud_error]. destruct (anext g (p_pos p)).
    + apply aloud_respond.
    + apply keeps_bind; [apply aloud_deactivate|]. intros _. apply aloud_respond_done.
    + apply keeps_raise.
Qed.

Lemma finishes_app (l1 l2 : list action) : finishes l1 (l1 ++ l2) = true ↔ OnFinished ∈ l2.
Proof.
  unfold finishes. rewrite drop_app_length. rewrite existsb_exists. split.
  - intros (a & Ha & H). destruct a; try done. by apply list_elem_of_In.
  - intros H. exists OnFinished. split; [by apply list_elem_of_In|done].
Qed.

Lemma step_finishes e :
  e ≠ PCleanup → p_finished p0 = false →
  let p := pull_step py_str w id g true with_value p0 e in
  finishes (p_log p0) (p_log p) = false → p_finished p = false.
Proof.
  intros He Hp p Hf. destruct (aloud_step e He) as (l & Hl & Hfin). fold p in Hl, Hfin.
  destruct (p_finished p); [|done]. rewrite Hl in Hf. specialize (Hfin eq_refl Hp).
  apply finishes_app with (l1 := p_log p0) in Hfin. congruence.
Qed.
End aloud.
End dispatch.
