(* ===== verification/DispatchRegistry.v ===== *)
(** * The sessions of a responder

    The cleanup dicts hold exactly what their names promise: under each id a
    session of that id that has not finished. Every step preserves this; a
    cleanup stops what it owns and nothing else. *)

From S2P Require Import Prelude Text PyVal Dict Errors MsgPack Codec Handlers PullProps Dispatch DispatchSpec.

(** The session stored under an id is alive. *)
Definition live_pull (r : responder) (id : string) (n : Z) : Prop :=
  ∃ g wv p, r_sessions r !! n = Some (LivePull id g wv p) ∧ p_finished p = false.
Definition live_callback (r : responder) (id : string) (n : Z) : Prop :=
  ∃ s k c, r_sessions r !! n = Some (LiveCallback id s k c) ∧ cb_cleaned c = false.

Record registry (r : responder) : Prop := {
  rg_its : od_wf (r_iterators r);
  rg_cbs : od_wf (r_callbacks r);
  rg_it id n : (id, n) ∈ r_iterators r → live_pull r id n;
  rg_cb id n : (id, n) ∈ r_callbacks r → live_callback r id n;
  rg_fresh n : is_Some (r_sessions r !! n) → (n < r_next r)%Z }.

Section registry.
Context {M : MsgPack}.
Variable py_str : pyval → string.
Variable w : world.
Variable cleanup_raises : Z → option exn.
Abbreviation step := (dispatch_step py_str w cleanup_raises).
Abbreviation K := (keeps registry).

(** Steps that leave the sessions and the dicts alone. *)
Lemma registry_ext r r' :
  r_sessions r' = r_sessions r → r_iterators r' = r_iterators r → r_callbacks r' = r_callbacks r →
  r_next r' = r_next r → registry r → registry r'.
Proof.
  intros E1 E2 E3 E4 [H1 H2 H3 H4 H5].
  split; unfold live_pull, live_callback; rewrite ?E1, ?E2, ?E3, ?E4; done.
Qed.
Lemma registry_silent (f : responder → responder) :
  (∀ r, r_sessions (f r) = r_sessions r) → (∀ r, r_iterators (f r) = r_iterators r) →
  (∀ r, r_callbacks (f r) = r_callbacks r) → (∀ r, r_next (f r) = r_next r) →
  K (modify f : pm exn responder unit).
Proof. intros H1 H2 H3 H4. apply keeps_modify. intros r. by apply registry_ext. Qed.

Lemma registry_del_it id r : registry r → registry (upd_iterators (od_del id) r).
Proof.
  intros [H1 H2 H3 H4 H5]. split; cbn; try done; [by apply od_wf_del|].
  intros j n [_ Hin]%od_elem_del. by apply H3.
Qed.
Lemma registry_del_cb id r : registry r → registry (upd_callbacks (od_del id) r).
Proof.
  intros [H1 H2 H3 H4 H5]. split; cbn; try done; [by apply od_wf_del|].
  intros j n [_ Hin]%od_elem_del. by apply H4.
Qed.

(** Replacing a session keeps the other entries; its own entry must stay
    live, if it has one. *)
Lemma registry_put n x r :
  registry r → is_Some (r_sessions r !! n) →
  (∀ id, (id, n) ∈ r_iterators r → live_pull (put_session n x r) id n) →
  (∀ id, (id, n) ∈ r_callbacks r → live_callback (put_session n x r) id n) →
  registry (put_session n x r).
Proof.
  intros [H1 H2 H3 H4 H5] Hn Hit Hcb. split; cbn; try done.
  - intros id m Hin. destruct (decide (m = n)) as [->|Hne]; [by apply Hit|].
    destruct (H3 id m Hin) as (g & wv & p & Hs & Hp). exists g, wv, p. cbn. by rewrite lookup_insert_ne.
  - intros id m Hin. destruct (decide (m = n)) as [->|Hne]; [by apply Hcb|].
    destruct (H4 id m Hin) as (s & k & c & Hs & Hc). exists s, k, c. cbn. by rewrite lookup_insert_ne.
  - intros m Hm. destruct (decide (m = n)) as [->|Hne]; [by apply H5|]. rewrite lookup_insert_ne in Hm by done.
    by apply H5.
Qed.

Lemma registry_own reg its cbs r : registry r → registry (own reg its cbs r).
Proof. unfold own. destruct (owned reg r). by apply registry_ext. Qed.

Lemma registry_new_session x r :
  registry r →
  let n := r_next r in
  let r' := Responder (r_time r) (n + 1) (<[n := x]> (r_sessions r)) (r_iterators r) (r_callbacks r)
              (r_owned r) (r_response r) (r_sent r) (r_streams r) in
  registry r' ∧ r_sessions r !! n = None.
Proof.
  intros [H1 H2 H3 H4 H5] n r'. assert (Hn : r_sessions r !! n = None).
  { destruct (r_sessions r !! n) eqn:E; [|done]. specialize (H5 n ltac:(by eexists)). lia. }
  split; [|done]. split; cbn; try done.
  - intros id m Hin. destruct (H3 id m Hin) as (g & wv & p & Hs & Hp). exists g, wv, p. cbn.
    rewrite lookup_insert_ne by congruence. done.
  - intros id m Hin. destruct (H4 id m Hin) as (s & k & c & Hs & Hc). exists s, k, c. cbn.
    rewrite lookup_insert_ne by congruence. done.
  - intros m Hm. destruct (decide (m = n)) as [->|Hne]; [subst n; lia|].
    rewrite lookup_insert_ne in Hm by done. specialize (H5 m Hm). subst n. lia.
Qed.

Lemma registry_store reg id wv g p :
  p_finished p = false → K (store_iterator reg id wv g p).
Proof.
  intros Hp r Hr. unfold store_iterator. rewrite pm_bind_eq. cbn [take_number modify snd].
  apply registry_own. destruct (registry_new_session (LivePull id g wv p) r Hr) as [[H1 H2 H3 H4 H5] Hn].
  split; cbn in *; try done; [by apply od_wf_set|].
  intros j m Hin. apply od_set_elem_wf in Hin as [[-> ->]|[_ Hin]]; [|by apply H3|done].
  exists g, wv, p. cbn. by rewrite lookup_insert_eq.
Qed.
Lemma registry_store_callback reg id s k : K (store_callback cleanup_raises reg id s k).
Proof.
  intros r Hr. unfold store_callback. rewrite pm_bind_eq. cbn [take_number modify snd].
  apply registry_own.
  destruct (registry_new_session (LiveCallback id s (cleanup_raises <$> k)
              (CallbackSession false [Subscribed (s +:+ ".cancel")])) r Hr) as [[H1 H2 H3 H4 H5] Hn].
  split; cbn in *; try done; [by apply od_wf_set|].
  intros j m Hin. apply od_set_elem_wf in Hin as [[-> ->]|[_ Hin]]; [|by apply H4|done].
  do 3 eexists. cbn. rewrite lookup_insert_eq. done.
Qed.

Lemma registry_publish id : K (publish_response w id).
Proof.
  intros r Hr. rewrite publish_response_eq. destruct (encode_message _); [|by apply (registry_ext r)].
  destruct (publish_at w (r_time r)); by apply (registry_ext r).
Qed.
Lemma registry_respond id k v : K (respond_with w id k v).
Proof. apply keeps_bind; [by apply registry_silent|]. intros _. apply registry_publish. Qed.

Lemma registry_serve reg h a now now' id kvs :
  K (serve py_str w cleanup_raises reg h a now now' id kvs).
Proof.
  unfold serve. apply keeps_bind; [apply keeps_lift|]. intros [].
  - by apply registry_silent.
  - apply keeps_bind; [apply keeps_lift|]. intros args'. intros r Hr. rewrite pm_bind_eq. cbn [lift].
    unfold handle_pull_iterator_request. destruct (get_generator _ _ _) as [g|e]; [|done]. cbn [mbind result_bind].
    revert r Hr. change (K (store_iterator reg iterator_id true g (start_pull iterator_id None) ≫= λ _,
                            respond_with w id "result" (iterator_result iterator_id))).
    apply keeps_bind; [by apply registry_store|]. intros _. apply registry_respond.
  - apply keeps_bind; [apply keeps_lift|]. intros args'. intros r Hr. rewrite pm_bind_eq. cbn [lift].
    unfold handle_pull_callback_request. destruct (get_generator _ _ _) as [g|e]; [|done]. cbn [mbind result_bind].
    revert r Hr. change (K (store_iterator reg iterator_id false g (start_pull iterator_id (Some true)) ≫= λ _,
                            respond_with w id "result" (iterator_result iterator_id))).
    apply keeps_bind; [by apply registry_store|]. intros _. apply registry_respond.
  - repeat (apply keeps_bind; [first [apply keeps_lift|apply registry_store_callback]|intros ?]).
    apply registry_respond.
  - apply keeps_bind; [apply keeps_lift|]. intros o. apply keeps_bind.
    + destruct (is_true _); [by apply registry_silent|apply keeps_ret].
    + intros _. apply registry_respond.
Qed.

Lemma registry_message reg h names a now now' message :
  K (handle_message py_str w cleanup_raises reg h names a now now' message).
Proof.
  apply keeps_bind; [apply keeps_lift|]. intros id. apply keeps_bind; [by apply registry_silent|]. intros _.
  apply keeps_bind; [destruct (is_true _); [by apply registry_silent|apply keeps_ret]|]. intros _.
  apply keeps_try; [apply registry_serve|]. intros e. unfold answer_error.
  apply keeps_bind; [by apply registry_silent|]. intros _. apply keeps_bind.
  - destruct (format_error_dict py_str e); try apply keeps_ret.
    destruct (is_key _ _); [by apply registry_silent|apply keeps_ret].
  - intros _. apply keeps_try; [apply registry_publish|intros; apply keeps_ret].
Qed.

(** ** Events of running sessions *)

Definition after_pull (n : Z) (id : string) (g : source) (wv : bool) (p : pull) (e : pull_event) (r : responder) :
    responder :=
  let p' := pull_step py_str w id g true wv p e in
  let r := put_session n (LivePull id g wv p') r in
  if finishes (p_log p) (p_log p') then upd_iterators (od_del id) r else r.
Definition after_callback (n : Z) (id s : string) k (c : callback_session) (e : callback_event) (r : responder) :
    responder :=
  let c' := callback_step s id true k c e in
  let r := put_session n (LiveCallback id s k c') r in
  if finishes (cb_log c) (cb_log c') then upd_callbacks (od_del id) r else r.

Lemma pull_session_event_eq n e r :
  pull_session_event py_str w n e r =
    match r_sessions r !! n with
    | Some (LivePull id g wv p) => (Ok tt, after_pull n id g wv p e r)
    | _ => (Ok tt, r)
    end.
Proof.
  unfold pull_session_event, after_pull. rewrite pm_bind_eq. cbn [get_state].
  destruct (r_sessions r !! n) as [[]|]; [|done..]. rewrite pm_bind_eq. cbn [modify]. by destruct (finishes _ _).
Qed.
Lemma callback_session_event_eq n e r :
  callback_session_event n e r =
    match r_sessions r !! n with
    | Some (LiveCallback id s k c) => (Ok tt, after_callback n id s k c e r)
    | _ => (Ok tt, r)
    end.
Proof.
  unfold callback_session_event, after_callback. rewrite pm_bind_eq. cbn [get_state].
  destruct (r_sessions r !! n) as [[]|]; [done| |done]. rewrite pm_bind_eq. cbn [modify]. by destruct (finishes _ _).
Qed.

(** The entries of a session carry its own id. *)
Lemma iterator_of r id n id' g wv p :
  registry r → r_sessions r !! n = Some (LivePull id g wv p) → (id', n) ∈ r_iterators r →
  id' = id ∧ p_finished p = false.
Proof. intros Hr Hs Hin. destruct (rg_it r Hr id' n Hin) as (g' & wv' & p' & Hs' & Hp). by simplify_eq. Qed.
Lemma callback_of r id n id' s k c :
  registry r → r_sessions r !! n = Some (LiveCallback id s k c) → (id', n) ∈ r_callbacks r →
  id' = id ∧ cb_cleaned c = false.
Proof. intros Hr Hs Hin. destruct (rg_cb r Hr id' n Hin) as (s' & k' & c' & Hs' & Hc). by simplify_eq. Qed.
Lemma not_callback r id n id' g wv p :
  registry r → r_sessions r !! n = Some (LivePull id g wv p) → (id', n) ∉ r_callbacks r.
Proof. intros Hr Hs Hin. destruct (rg_cb r Hr id' n Hin) as (s' & k' & c' & Hs' & Hc). by simplify_eq. Qed.
Lemma not_iterator r id n id' s k c :
  registry r → r_sessions r !! n = Some (LiveCallback id s k c) → (id', n) ∉ r_iterators r.
Proof. intros Hr Hs Hin. destruct (rg_it r Hr id' n Hin) as (g' & wv' & p' & Hs' & Hp). by simplify_eq. Qed.

(** An event keeps the registry when it cannot finish the session silently, or
    when the session has no entry left. *)
Lemma registry_after_pull n id g wv p e r :
  registry r → r_sessions r !! n = Some (LivePull id g wv p) →
  e ≠ PCleanup ∨ od_get id (r_iterators r) = None → registry (after_pull n id g wv p e r).
Proof.
  intros Hr Hs He. unfold after_pull. set (p' := pull_step _ _ _ _ _ _ _ _).
  assert (Hput : ∀ r1, registry r1 → r_sessions r1 = r_sessions r → r_callbacks r1 = r_callbacks r →
            (∀ j, (j, n) ∈ r_iterators r1 → j = id ∧ p_finished p' = false) →
            registry (put_session n (LivePull id g wv p') r1)).
  { intros r1 Hr1 E1 E2 Hit. apply registry_put; [done|by rewrite E1, Hs| |].
    - intros j Hj. destruct (Hit j Hj) as [-> Hp']. exists g, wv, p'. cbn. by rewrite lookup_insert_eq.
    - intros j Hj. rewrite E2 in Hj. by apply (not_callback r id n j g wv p) in Hj. }
  destruct (finishes (p_log p) (p_log p')) eqn:Ef.
  - change (upd_iterators (od_del id) (put_session n (LivePull id g wv p') r))
      with (put_session n (LivePull id g wv p') (upd_iterators (od_del id) r)).
    apply Hput; [by apply registry_del_it|done..|]. intros j [Hj Hin]%od_elem_del.
    by destruct (iterator_of r id n j g wv p Hr Hs Hin).
  - apply Hput; [done..|]. intros j Hj. destruct (iterator_of r id n j g wv p Hr Hs Hj) as [-> Hp].
    split; [done|]. destruct He as [He|He].
    + by apply (step_finishes py_str w id g wv p e He Hp).
    + by rewrite (od_in_get _ _ _ (rg_its r Hr) Hj) in He.
Qed.

Lemma callback_finishes id s k c e :
  e ≠ CbCleanup → cb_cleaned c = false →
  let c' := callback_step s id true k c e in
  finishes (cb_log c) (cb_log c') = false → cb_cleaned c' = false.
Proof.
  intros He Hc. unfold callback_step. destruct c as [cl l]. cbn in Hc. subst cl.
  destruct e as [[] v|[] [] v| |]; try done. intros Hf. exfalso. revert Hf.
  cbn [run_callback]. unfold on_cancel, run_handler_cleanup, invoke_cleanup.
  assert (H : ∀ l', finishes l ((l ++ [OnFinished]) ++ l') = true).
  { intros l'. rewrite <- app_assoc. apply finishes_app. set_solver. }
  destruct k as [[]|]; unfold cb_act, mbind, pm_bind, mret, pm_ret; cbn [modify snd cb_log cb_cleaned];
    unfold modify, raise, get_state; cbn [snd cb_log cb_cleaned]; rewrite <- ?(app_assoc (l ++ [OnFinished])), H; done.
Qed.

Lemma registry_after_callback n id s k c e r :
  registry r → r_sessions r !! n = Some (LiveCallback id s k c) →
  e ≠ CbCleanup ∨ od_get id (r_callbacks r) = None → registry (after_callback n id s k c e r).
Proof.
  intros Hr Hs He. unfold after_callback. set (c' := callback_step _ _ _ _ _ _).
  assert (Hput : ∀ r1, registry r1 → r_sessions r1 = r_sessions r → r_iterators r1 = r_iterators r →
            (∀ j, (j, n) ∈ r_callbacks r1 → j = id ∧ cb_cleaned c' = false) →
            registry (put_session n (LiveCallback id s k c') r1)).
  { intros r1 Hr1 E1 E2 Hcb. apply registry_put; [done|by rewrite E1, Hs| |].
    - intros j Hj. rewrite E2 in Hj. by apply (not_iterator r id n j s k c) in Hj.
    - intros j Hj. destruct (Hcb j Hj) as [-> Hc']. exists s, k, c'. cbn. by rewrite lookup_insert_eq. }
  destruct (finishes (cb_log c) (cb_log c')) eqn:Ef.
  - change (upd_callbacks (od_del id) (put_session n (LiveCallback id s k c') r))
      with (put_session n (LiveCallback id s k c') (upd_callbacks (od_del id) r)).
    apply Hput; [by apply registry_del_cb|done..|]. intros j [Hj Hin]%od_elem_del.
    by destruct (callback_of r id n j s k c Hr Hs Hin).
  - apply Hput; [done..|]. intros j Hj. destruct (callback_of r id n j s k c Hr Hs Hj) as [-> Hc].
    split; [done|]. destruct He as [He|He].
    + by apply (callback_finishes id s k c e He Hc).
    + by rewrite (od_in_get _ _ _ (rg_cbs r Hr) Hj) in He.
Qed.

Lemma registry_pull_event n e : e ≠ PCleanup → K (pull_session_event py_str w n e).
Proof.
  intros He r Hr. rewrite pull_session_event_eq. destruct (r_sessions r !! n) as [[]|] eqn:Hs; try done.
  apply registry_after_pull; auto.
Qed.
Lemma registry_callback_event n e : e ≠ CbCleanup → K (callback_session_event n e).
Proof.
  intros He r Hr. rewrite callback_session_event_eq. destruct (r_sessions r !! n) as [[]|] eqn:Hs; try done.
  apply registry_after_callback; auto.
Qed.

(** ** Cleanups *)

Definition stopped_session (r : responder) (n : Z) : Prop :=
  match r_sessions r !! n with
  | Some (LivePull _ _ _ p) => p_finished p = true ∧ p_active p = false
  | Some (LiveCallback _ _ _ c) => cb_cleaned c = true
  | None => False
  end.

Lemma cleanup_stops id g wv p :
  let p' := pull_step py_str w id g true wv p PCleanup in p_finished p' = true ∧ p_active p' = false.
Proof.
  unfold pull_step. cbn [run_pull]. unfold cleanup. rewrite pm_bind_eq. cbn [modify].
  assert (Hk : ∀ m : pm exn pull unit, keeps (λ p, p_finished p = true ∧ p_active p = false) m →
     p_finished (m (stop_invoker (set_finished (set_active false p)))).2 = true ∧
     p_active (m (stop_invoker (set_finished (set_active false p)))).2 = false) by (intros m Hm; by apply Hm).
  apply Hk. apply keeps_get. intros q Hq. apply keeps_bind.
  - destruct (p_unsub q); [by apply keeps_modify|apply keeps_ret].
  - intros _. unfold suppress. apply keeps_try; [|intros; apply keeps_ret].
    apply keeps_bind; [|intros; apply keeps_ret]. unfold aclose.
    destruct (s_aclose g) as [o|]; [|apply keeps_ret]. apply keeps_bind; [by apply keeps_modify|].
    intros _. destruct o; [apply keeps_raise|apply keeps_ret].
Qed.

Lemma cleanup_cleans id s k c : cb_cleaned (callback_step s id true k c CbCleanup) = true.
Proof.
  destruct c as [cl l]. unfold callback_step. cbn [run_callback].
  unfold callback_cleanup, run_handler_cleanup, invoke_cleanup, cb_act, mbind, pm_bind, modify, get_state.
  cbn. by destruct cl, k as [[]|].
Qed.

(** What a sweep of [ids] in the iterator dict has done. *)
Record swept (ids : list string) (r r' : responder) : Prop := {
  sw_registry : registry r';
  sw_gone id : id ∈ ids → od_get id (r_iterators r') = None;
  sw_kept id : id ∉ ids → od_get id (r_iterators r') = od_get id (r_iterators r);
  sw_stopped id n : id ∈ ids → od_get id (r_iterators r) = Some n → stopped_session r' n;
  sw_frame n : (∀ id, id ∈ ids → od_get id (r_iterators r) ≠ Some n) →
               r_sessions r' !! n = r_sessions r !! n;
  sw_callbacks : r_callbacks r' = r_callbacks r;
  sw_owned : r_owned r' = r_owned r }.

Lemma swept_nil r : registry r → swept [] r r.
Proof. intros Hr. split; try done; [intros id H|intros id n H]; by apply elem_of_nil in H. Qed.

Lemma cleanup_iterator_spec id r :
  registry r → (cleanup_iterator py_str w id r).1 = Ok tt ∧ swept [id] r (cleanup_iterator py_str w id r).2.
Proof.
  intros Hr. unfold cleanup_iterator. rewrite pm_bind_eq. cbn [get_state].
  destruct (od_get id (r_iterators r)) as [n|] eqn:Hn.
  2: { split; [done|]. split; try done.
       - by intros j ->%list_elem_of_singleton.
       - intros j m ->%list_elem_of_singleton. congruence. }
  rewrite pm_bind_eq. cbn [modify]. rewrite pull_session_event_eq.
  change (r_sessions (upd_iterators (od_del id) r)) with (r_sessions r).
  destruct (rg_it r Hr id n) as (g & wv & p & Hs & Hp); [by apply od_get_in|]. rewrite Hs. split; [done|].
  set (r1 := upd_iterators (od_del id) r). cbn [snd].
  assert (Hr1 : registry r1) by by apply registry_del_it.
  assert (Hget : ∀ j, od_get j (r_iterators (after_pull n id g wv p PCleanup r1))
                    = if decide (j = id) then None else od_get j (r_iterators r)).
  { intros j. unfold after_pull. destruct (finishes _ _); cbn; destruct (decide (j = id)) as [->|];
      rewrite ?od_get_del, ?od_get_del_ne by done; try done; apply od_get_del. }
  assert (Hses : r_sessions (after_pull n id g wv p PCleanup r1)
               = <[n := LivePull id g wv (pull_step py_str w id g true wv p PCleanup)]> (r_sessions r)).
  { unfold after_pull. by destruct (finishes _ _). }
  split.
  - apply registry_after_pull; [done|exact Hs|right; apply od_get_del].
  - intros j ->%list_elem_of_singleton. by rewrite Hget, decide_True.
  - intros j Hj. rewrite Hget, decide_False; [done|]. intros ->. by apply Hj, list_elem_of_singleton.
  - intros j m ->%list_elem_of_singleton Hm. unfold stopped_session. rewrite Hses.
    assert (m = n) as -> by congruence. rewrite lookup_insert_eq. apply cleanup_stops.
  - intros m Hm. rewrite Hses. rewrite lookup_insert_ne; [done|]. intros <-.
    by apply (Hm id), Hn; apply list_elem_of_singleton.
  - unfold after_pull. by destruct (finishes _ _).
  - unfold after_pull. by destruct (finishes _ _).
Qed.

Lemma swept_app l1 l2 r r1 r2 : swept l1 r r1 → swept l2 r1 r2 → swept (l1 ++ l2) r r2.
Proof.
  intros H1 H2. split.
  - apply (sw_registry _ _ _ H2).
  - intros id Hid. destruct (decide (id ∈ l2)); [by apply (sw_gone _ _ _ H2)|].
    rewrite (sw_kept _ _ _ H2) by done. apply (sw_gone _ _ _ H1). apply elem_of_app in Hid. tauto.
  - intros id Hid. rewrite not_elem_of_app in Hid. rewrite (sw_kept _ _ _ H2), (sw_kept _ _ _ H1); tauto.
  - intros id n Hid Hn. destruct (decide (id ∈ l1)) as [H|H].
    + pose proof (sw_stopped _ _ _ H1 id n H Hn) as Hs. unfold stopped_session in *.
      rewrite (sw_frame _ _ _ H2); [done|]. intros j Hj Hjn.
      destruct (rg_it r1 (sw_registry _ _ _ H1) j n) as (g & wv & p & E & Hp); [by apply od_get_in|].
      rewrite E in Hs. destruct Hs; congruence.
    + apply (sw_stopped _ _ _ H2 id n); [apply elem_of_app in Hid; tauto|]. by rewrite (sw_kept _ _ _ H1).
  - intros n Hn. rewrite (sw_frame _ _ _ H2); [apply (sw_frame _ _ _ H1)|].
    + intros id Hid. apply Hn, elem_of_app. by left.
    + intros id Hid. destruct (decide (id ∈ l1)) as [H|H]; [by rewrite (sw_gone _ _ _ H1)|].
      rewrite (sw_kept _ _ _ H1) by done. apply Hn, elem_of_app. by right.
  - by rewrite (sw_callbacks _ _ _ H2), (sw_callbacks _ _ _ H1).
  - by rewrite (sw_owned _ _ _ H2), (sw_owned _ _ _ H1).
Qed.

Lemma sweep_iterators ids r :
  registry r → let x := for_each ids (cleanup_iterator py_str w) r in x.1 = Ok tt ∧ swept ids r x.2.
Proof.
  revert r. induction ids as [|id ids IH]; intros r Hr; [split; [done|by apply swept_nil]|].
  cbn [for_each]. rewrite pm_bind_eq. destruct (cleanup_iterator_spec id r Hr) as [E H].
  destruct (cleanup_iterator py_str w id r) as [o r1]. cbn [fst snd] in E, H. subst o.
  destruct (IH r1 (sw_registry _ _ _ H)) as [E2 H2]. split; [done|]. by apply (swept_app [id] ids r r1).
Qed.

(** The same of the callback dict. *)
Record swept_callbacks (ids : list string) (r r' : responder) : Prop := {
  sc_registry : registry r';
  sc_gone id : id ∈ ids → od_get id (r_callbacks r') = None;
  sc_kept id : id ∉ ids → od_get id (r_callbacks r') = od_get id (r_callbacks r);
  sc_stopped id n : id ∈ ids → od_get id (r_callbacks r) = Some n → stopped_session r' n;
  sc_frame n : (∀ id, id ∈ ids → od_get id (r_callbacks r) ≠ Some n) →
               r_sessions r' !! n = r_sessions r !! n;
  sc_iterators : r_iterators r' = r_iterators r }.

Lemma swept_callbacks_app l1 l2 r r1 r2 :
  swept_callbacks l1 r r1 → swept_callbacks l2 r1 r2 → swept_callbacks (l1 ++ l2) r r2.
Proof.
  intros H1 H2. split.
  - apply (sc_registry _ _ _ H2).
  - intros id Hid. destruct (decide (id ∈ l2)); [by apply (sc_gone _ _ _ H2)|].
    rewrite (sc_kept _ _ _ H2) by done. apply (sc_gone _ _ _ H1). apply elem_of_app in Hid. tauto.
  - intros id Hid. rewrite not_elem_of_app in Hid. rewrite (sc_kept _ _ _ H2), (sc_kept _ _ _ H1); tauto.
  - intros id n Hid Hn. destruct (decide (id ∈ l1)) as [H|H].
    + pose proof (sc_stopped _ _ _ H1 id n H Hn) as Hs. unfold stopped_session in *.
      rewrite (sc_frame _ _ _ H2); [done|]. intros j Hj Hjn.
      destruct (rg_cb r1 (sc_registry _ _ _ H1) j n) as (s & k & c & E & Hc); [by apply od_get_in|].
      rewrite E in Hs. congruence.
    + apply (sc_stopped _ _ _ H2 id n); [apply elem_of_app in Hid; tauto|]. by rewrite (sc_kept _ _ _ H1).
  - intros n Hn. rewrite (sc_frame _ _ _ H2); [apply (sc_frame _ _ _ H1)|].
    + intros id Hid. apply Hn, elem_of_app. by left.
    + intros id Hid. destruct (decide (id ∈ l1)) as [H|H]; [by rewrite (sc_gone _ _ _ H1)|].
      rewrite (sc_kept _ _ _ H1) by done. apply Hn, elem_of_app. by right.
  - by rewrite (sc_iterators _ _ _ H2), (sc_iterators _ _ _ H1).
Qed.

Lemma cleanup_callback_spec id r :
  registry r → (cleanup_callback id r).1 = Ok tt ∧ swept_callbacks [id] r (cleanup_callback id r).2.
Proof.
  intros Hr. unfold cleanup_callback. rewrite pm_bind_eq. cbn [get_state].
  destruct (od_get id (r_callbacks r)) as [n|] eqn:Hn.
  2: { split; [done|]. split; try done.
       - by intros j ->%list_elem_of_singleton.
       - intros j m ->%list_elem_of_singleton. congruence. }
  rewrite pm_bind_eq. cbn [modify]. rewrite callback_session_event_eq.
  change (r_sessions (upd_callbacks (od_del id) r)) with (r_sessions r).
  destruct (rg_cb r Hr id n) as (s & k & c & Hs & Hc); [by apply od_get_in|]. rewrite Hs. split; [done|].
  set (r1 := upd_callbacks (od_del id) r). cbn [snd].
  assert (Hr1 : registry r1) by by apply registry_del_cb.
  assert (Hget : ∀ j, od_get j (r_callbacks (after_callback n id s k c CbCleanup r1))
                    = if decide (j = id) then None else od_get j (r_callbacks r)).
  { intros j. unfold after_callback. destruct (finishes _ _); cbn; destruct (decide (j = id)) as [->|];
      rewrite ?od_get_del, ?od_get_del_ne by done; try done; apply od_get_del. }
  assert (Hses : r_sessions (after_callback n id s k c CbCleanup r1)
               = <[n := LiveCallback id s k (callback_step s id true k c CbCleanup)]> (r_sessions r)).
  { unfold after_callback. by destruct (finishes _ _). }
  split.
  - apply registry_after_callback; [done|exact Hs|right; apply od_get_del].
  - intros j ->%list_elem_of_singleton. by rewrite Hget, decide_True.
  - intros j Hj. rewrite Hget, decide_False; [done|]. intros ->. by apply Hj, list_elem_of_singleton.
  - intros j m ->%list_elem_of_singleton Hm. unfold stopped_session. rewrite Hses.
    assert (m = n) as -> by congruence. rewrite lookup_insert_eq. apply cleanup_cleans.
  - intros m Hm. rewrite Hses. rewrite lookup_insert_ne; [done|]. intros <-.
    by apply (Hm id), Hn; apply list_elem_of_singleton.
  - unfold after_callback. by destruct (finishes _ _).
Qed.

Lemma sweep_callbacks ids r :
  registry r → let x := for_each ids cleanup_callback r in x.1 = Ok tt ∧ swept_callbacks ids r x.2.
Proof.
  revert r. induction ids as [|id ids IH]; intros r Hr.
  { split; [done|]. split; try done; [intros id H|intros id n H]; by apply elem_of_nil in H. }
  cbn [for_each]. rewrite pm_bind_eq. destruct (cleanup_callback_spec id r Hr) as [E H].
  destruct (cleanup_callback id r) as [o r1]. cbn [fst snd] in E, H. subst o.
  destruct (IH r1 (sc_registry _ _ _ H)) as [E2 H2]. split; [done|]. by apply (swept_callbacks_app [id] ids r r1).
Qed.

(** Both sweeps. *)
Definition sweep_both (its cbs : list string) : pm exn responder unit :=
  for_each its (cleanup_iterator py_str w) ≫= λ _, for_each cbs cleanup_callback.

Lemma sweep_both_spec its cbs r :
  registry r →
  ∃ r1, swept its r r1 ∧ swept_callbacks cbs r1 (sweep_both its cbs r).2.
Proof.
  intros Hr. destruct (sweep_iterators its r Hr) as [E H]. unfold sweep_both. rewrite pm_bind_eq.
  destruct (for_each its _ r) as [o r1]. cbn [fst snd] in E, H. subst o.
  exists r1. split; [done|]. apply sweep_callbacks, (sw_registry _ _ _ H).
Qed.

Lemma registry_step r e : registry r → registry (step r e).
Proof.
  intros Hr. unfold dispatch_step. destruct e as [reg h names a now now' msg|n [type|]|n e|reg|]; cbn [run_dispatch].
  - by apply registry_message.
  - by apply registry_pull_event.
  - by apply registry_pull_event.
  - destruct e; try done; by apply registry_callback_event.
  - unfold cleanup_registration. rewrite pm_bind_eq. cbn [get_state].
    destruct (sweep_both_spec (owned reg r).1 (owned reg r).2 r Hr) as (r1 & _ & H). apply (sc_registry _ _ _ H).
  - unfold cleanup_all. rewrite pm_bind_eq. cbn [get_state].
    (** the callback ids are read after the first sweep, which keeps them *)
    destruct (sweep_both_spec (r_iterators r).*1 (r_callbacks r).*1 r Hr) as (r1 & _ & H).
    apply (sc_registry _ _ _ H).
Qed.

Lemma registry_new : registry new_responder.
Proof. split; cbn; try apply NoDup_nil_2; try (intros ? ? H; by apply elem_of_nil in H). by intros n [x Hx]. Qed.

Lemma registry_run es r : registry r → registry (foldl step r es).
Proof. revert r. induction es as [|e es IH]; intros r Hr; [done|]. cbn. by apply IH, registry_step. Qed.
End registry.
