(* ===== verification/DispatchProps.v ===== *)
(** * What dispatching guarantees (client.py)

    Every response is a well-formed envelope; a normal request is answered with
    its handler's value or error, a value that does not encode with nothing at
    all; sessions are cleaned up by their owners; and a remote call returns
    what the handler returned. *)

From S2P Require Import Prelude Text PyVal Dict Errors Types MsgPack Codec CodecRoundtrip Ids Transport Calls CallsSpec Handlers PullProps Dispatch DispatchSpec DispatchRegistry.

Section dispatch.
Context {M : MsgPack}.
Variable py_str : pyval → string.
Variable w : world.
Variable cleanup_raises : Z → option exn.
Abbreviation step := (dispatch_step py_str w cleanup_raises).
Abbreviation run es := (foldl step new_responder es).

Definition sent_ok (r : responder) : Prop := Forall wf_sent (r_sent r).

(** Sessions and cleanups publish on subjects of their own. *)
Definition silent (l : list (string * pyval)) (r : responder) : Prop := r_sent r = l.

(** A message is answered on its own reply subject only. *)
Lemma message_answers reg h names a now now' message r :
  ∃ new, r_sent (step r (DMessage reg h names a now now' message)) = r_sent r ++ new ∧
    ∀ x, x ∈ new → ∃ id, message_id message = Ok id ∧ answer_to id x.
Proof.
  unfold dispatch_step. cbn [run_dispatch]. unfold handle_message. rewrite pm_bind_eq. cbn [lift].
  destruct (message_id message) as [id|e] eqn:Eid; [|exists []; rewrite app_nil_r; by split; [|intros ? ?%elem_of_nil]].
  rewrite pm_bind_eq. cbn [modify].
  assert (H1 : serving (r_sent r) id (set_response (λ _, [(PStr "id", PStr id)]) r)).
  { split; [|apply envelope_new]. exists []. by rewrite app_nil_r. }
  revert H1. generalize (set_response (λ _, [(PStr "id", PStr id)]) r). generalize (r_sent r). clear r. intros l r Hr.
  match goal with |- context [r_sent (?m r).2] => enough (H : serving l id (m r).2) end.
  { destruct H as [(new & E & Hn) _]. exists new. split; [done|]. intros x Hx. exists id. split; [done|].
    by eapply Forall_forall in Hn. }
  revert r Hr. apply keeps_bind.
  - destruct (is_true _); [|apply keeps_ret]. apply serving_set. unfold response_field. by rewrite strings_type.
  - intros _. apply keeps_try; [apply serving_serve|apply serving_error].
Qed.

Lemma silent_pull l n e : keeps (silent l) (pull_session_event py_str w n e).
Proof.
  intros r Hr. rewrite pull_session_event_eq.
  destruct (r_sessions r !! n) as [[]|]; try done. cbn [snd]. unfold after_pull. by destruct (finishes _ _).
Qed.
Lemma silent_callback l n e : keeps (silent l) (callback_session_event n e).
Proof.
  intros r Hr. rewrite callback_session_event_eq.
  destruct (r_sessions r !! n) as [[]|]; try done. cbn [snd]. unfold after_callback. by destruct (finishes _ _).
Qed.
Lemma silent_sweep l its cbs : keeps (silent l) (sweep_both py_str w its cbs).
Proof.
  apply keeps_bind; [|intros _]; apply keeps_for_each; intros id _; apply keeps_get; intros r Hr;
    (destruct (od_get id _); [|apply keeps_ret]); (apply keeps_bind; [by apply keeps_modify|]);
    intros _; [apply silent_pull|apply silent_callback].
Qed.

Lemma silent_step r e :
  (∀ reg h names a now now' message, e ≠ DMessage reg h names a now now' message) →
  r_sent (step r e) = r_sent r.
Proof.
  intros He. unfold dispatch_step. destruct e as [reg h names a now now' msg|n [type|]|n e|reg|]; cbn [run_dispatch].
  - by edestruct He.
  - by apply silent_pull.
  - by apply silent_pull.
  - destruct e; try done; by apply silent_callback.
  - unfold cleanup_registration. rewrite pm_bind_eq. cbn [get_state]. by apply silent_sweep.
  - unfold cleanup_all. rewrite pm_bind_eq. cbn [get_state]. by apply silent_sweep.
Qed.

Lemma sent_step r e : sent_ok r → sent_ok (step r e).
Proof.
  intros Hr. destruct e as [reg h names a now now' msg| | | |];
    [|unfold sent_ok; by rewrite silent_step..].
  destruct (message_answers reg h names a now now' msg r) as (new & E & Hn). unfold sent_ok. rewrite E.
  apply Forall_app. split; [done|]. apply Forall_forall. intros x Hx. destruct (Hn x Hx) as (id & _ & Hid). by exists id.
Qed.


(** C25. In every reachable state each cleanup dict has distinct ids, and under
    each id a session of that id that has not finished: finished sessions
    leave nothing behind. *)
Theorem sessions_live es :
  let r := run es in
  od_wf (r_iterators r) ∧ od_wf (r_callbacks r) ∧
  (∀ id n, od_get id (r_iterators r) = Some n → live_pull r id n) ∧
  (∀ id n, od_get id (r_callbacks r) = Some n → live_callback r id n).
Proof.
  destruct (registry_run py_str w cleanup_raises es new_responder registry_new) as [H1 H2 H3 H4 _].
  split_and!; [done..| |]; intros id n Hn%od_get_in; auto.
Qed.

(** C21. The cleanup of a registration stops every running session the
    registration owns and drops its entry, and touches no other: sessions of
    other namespaces keep their entry and their state. *)
Theorem registration_cleanup es reg :
  let r := run es in
  let r' := step r (DCleanup reg) in
  let '(its, cbs) := owned reg r in
  (∀ id n, id ∈ its → od_get id (r_iterators r) = Some n →
     od_get id (r_iterators r') = None ∧ stopped_session r' n) ∧
  (∀ id n, id ∈ cbs → od_get id (r_callbacks r) = Some n →
     od_get id (r_callbacks r') = None ∧ stopped_session r' n) ∧
  (∀ id n, id ∉ its → od_get id (r_iterators r) = Some n →
     od_get id (r_iterators r') = Some n ∧ r_sessions r' !! n = r_sessions r !! n) ∧
  (∀ id n, id ∉ cbs → od_get id (r_callbacks r) = Some n →
     od_get id (r_callbacks r') = Some n ∧ r_sessions r' !! n = r_sessions r !! n).
Proof.
  intros r r'. assert (Hr : registry r) by apply (registry_run py_str w cleanup_raises es), registry_new.
  destruct (owned reg r) as [its cbs] eqn:Eo.
  assert (Hr' : r' = (sweep_both py_str w its cbs r).2).
  { subst r'. unfold dispatch_step. cbn [run_dispatch]. unfold cleanup_registration. rewrite pm_bind_eq.
    cbn [get_state]. by rewrite Eo. }
  destruct (sweep_both_spec py_str w cleanup_raises its cbs r Hr) as (r1 & H1 & H2). rewrite <- Hr' in H2. clearbody r r'.
  assert (Hpull : ∀ id n, od_get id (r_iterators r) = Some n → r_sessions r' !! n = r_sessions r1 !! n).
  { intros id n Hn. apply (sc_frame _ _ _ H2). intros j Hj Hjn. rewrite (sw_callbacks _ _ _ H1) in Hjn.
    apply od_get_in in Hn, Hjn. destruct (rg_it r Hr id n Hn) as (g & wv & p & E & _).
    by apply (not_callback r id n j g wv p Hr E). }
  assert (Hcall : ∀ id n, od_get id (r_callbacks r) = Some n → r_sessions r1 !! n = r_sessions r !! n).
  { intros id n Hn. apply (sw_frame _ _ _ H1). intros j Hj Hjn.
    apply od_get_in in Hn, Hjn. destruct (rg_cb r Hr id n Hn) as (s & k & c & E & _).
    by apply (not_iterator r id n j s k c Hr E). }
  split_and!; intros id n Hid Hn.
  - rewrite (sc_iterators _ _ _ H2). split; [by apply (sw_gone _ _ _ H1)|].
    unfold stopped_session. rewrite (Hpull id n Hn). by apply (sw_stopped _ _ _ H1 id).
  - split; [by apply (sc_gone _ _ _ H2)|]. apply (sc_stopped _ _ _ H2 id); [done|].
    by rewrite (sw_callbacks _ _ _ H1).
  - rewrite (sc_iterators _ _ _ H2), (sw_kept _ _ _ H1) by done. split; [done|].
    rewrite (Hpull id n Hn). apply (sw_frame _ _ _ H1). intros j Hj Hjn.
    apply od_get_in in Hn, Hjn. destruct (rg_it r Hr id n Hn) as (g & wv & p & E & _).
    destruct (iterator_of r id n j g wv p Hr E Hjn) as [-> _]. done.
  - rewrite (sc_kept _ _ _ H2), (sw_callbacks _ _ _ H1) by done. split; [done|].
    rewrite <- (Hcall id n Hn). apply (sc_frame _ _ _ H2). intros j Hj Hjn.
    rewrite (sw_callbacks _ _ _ H1) in Hjn. apply od_get_in in Hn, Hjn.
    destruct (rg_cb r Hr id n Hn) as (s & k & c & E & _).
    destruct (callback_of r id n j s k c Hr E Hjn) as [-> _]. done.
Qed.

(** ** Normal requests *)

(** What the handler gives for a normal request. *)
Definition outcome (h : handler) (is_async : bool) (kvs : list (pyval * pyval)) : result exn pyval :=
  o ← handle_normal_rpc h (default (PList []) (dict_lookup "params" kvs)) (Some is_async);
  mret (obj_value o).

Definition methods_entry (names : list string) : pyval * pyval := (PStr "__methods", PList (PStr <$> names)).
Definition discovers (kvs : list (pyval * pyval)) : bool := is_true (dict_get "__discover" kvs).
Definition head_entries (id : string) (names : list string) (kvs : list (pyval * pyval)) : list (pyval * pyval) :=
  (PStr "id", PStr id) :: if discovers kvs then [methods_entry names] else [].
Definition timing_entries (now now' : Z) (kvs : list (pyval * pyval)) : list (pyval * pyval) :=
  if is_true (dict_get "__timing" kvs) then [(PStr "__timing", timing now now')] else [].
(** The response to a normal request, by its outcome. *)
Definition success id names now now' kvs (v : pyval) : list (pyval * pyval) :=
  head_entries id names kvs ++ timing_entries now now' kvs ++ [(PStr "result", v)].
Definition failure id names kvs (e : exn) : list (pyval * pyval) :=
  let error := format_error_dict py_str e in
  head_entries id names kvs ++ [(PStr "error", error)] ++
  (if match error with PDict es => is_key (code_value METHOD_NOT_FOUND) (dict_get "code" es) | _ => false end
   then if discovers kvs then [] else [methods_entry names] else []).

Lemma answer_error_eq id names kvs e r :
  r_response r = head_entries id names kvs →
  answer_error py_str w id names e r =
    (Ok tt, (try_except (publish_response w id) (λ _, mret tt)
               (set_response (λ _, failure id names kvs e) r)).2).
Proof.
  intros Hr. unfold answer_error. rewrite pm_bind_eq. cbn [modify]. rewrite pm_bind_eq.
  assert (Hset : ∀ f, f (r_response r) = failure id names kvs e →
            set_response f r = set_response (λ _, failure id names kvs e) r).
  { intros f Hf. unfold set_response. by rewrite Hf. }
  assert (Hok : ∀ r', try_except (publish_response w id) (λ _, mret tt) r'
            = (Ok tt, (try_except (publish_response w id) (λ _, mret tt) r').2)).
  { intros r'. unfold try_except. by destruct (publish_response w id r') as [[[]|] ?]. }
  assert (Herr : ∀ error, dict_set "error" error (r_response r) = head_entries id names kvs ++ [(PStr "error", error)]).
  { intros error. rewrite Hr. unfold head_entries. by destruct (discovers kvs). }
  destruct (format_error_dict py_str e) as [| | | | | | | | | |es| | | | | |] eqn:Ee.
  11: destruct (is_key (code_value METHOD_NOT_FOUND) (dict_get "code" es)) eqn:Ek.
  11: { cbn [modify]. change (set_response ?f (set_response ?g r)) with (set_response (λ x, f (g x)) r).
        rewrite Hset; [apply Hok|]. rewrite Herr. unfold failure. rewrite Ee, Ek. unfold head_entries.
        by destruct (discovers kvs). }
  all: cbn [mret pm_ret]; rewrite Hset; [apply Hok|]; rewrite Herr; unfold failure; rewrite Ee, ?Ek; by rewrite ?app_nil_r.
Qed.

Section normal.
Variables (reg : Z) (h : handler) (names : list string) (is_async : bool) (now now' : Z).
Variables (id : string) (kvs : list (pyval * pyval)) (params : pyval) (r : responder).
Hypothesis Hid : message_id (PDict kvs) = Ok id.
Hypothesis Hnormal : classify py_str id (dict_get "params" kvs) = Ok (NormalRequest params).
Abbreviation r' := (step r (DMessage reg h names is_async now now' (PDict kvs))).

Lemma normal_eq :
  r' = match outcome h is_async kvs with
       | Ok v =>
           match publish_response w id (set_response (λ _, success id names now now' kvs v) r) with
           | (Ok _, r2) => r2
           | (Raise e, r2) => (answer_error py_str w id names e r2).2
           end
       | Raise e => (try_except (publish_response w id) (λ _, mret tt)
                       (set_response (λ _, failure id names kvs e) r)).2
       end.
Proof.
  unfold dispatch_step. cbn [run_dispatch]. unfold handle_message. rewrite pm_bind_eq. cbn [lift]. rewrite Hid.
  rewrite pm_bind_eq. cbn [modify]. rewrite pm_bind_eq.
  set (r0 := set_response (λ _, head_entries id names kvs) r).
  assert (E : (if is_true (dict_get "__discover" kvs)
       then modify (set_response (dict_set "__methods" (PList (PStr <$> names)))) else mret tt)
      (set_response (λ _, [(PStr "id", PStr id)]) r) = (Ok (E := exn) tt, r0)).
  { subst r0. unfold head_entries, discovers. by destruct (is_true _). }
  rewrite E. clear E. unfold try_except at 1, serve. rewrite pm_bind_eq. cbn [lift]. rewrite Hnormal.
  rewrite pm_bind_eq. unfold outcome. cbn [lift].
  destruct (handle_normal_rpc _ _ _) as [o|e]; cbn [mbind result_bind mret result_ret].
  2: { rewrite (answer_error_eq id names kvs e r0) by done. done. }
  unfold respond_with. set (r1 := set_response (λ _, success id names now now' kvs (obj_value o)) r).
  assert (E : ∀ k : pm exn responder unit,
      ((if is_true (dict_get "__timing" kvs)
        then modify (set_response (dict_set "__timing" (timing now now'))) else mret tt) ≫= λ _ : unit,
       modify (set_response (dict_set "result" (obj_value o))) ≫= λ _ : unit, k) r0 = k r1).
  { intros k. subst r0 r1. unfold success, head_entries, timing_entries, discovers. rewrite pm_bind_eq.
    destruct (is_true (dict_get "__discover" kvs)), (is_true (dict_get "__timing" kvs));
      cbn [modify mret pm_ret]; rewrite pm_bind_eq; done. }
  rewrite E.
  by destruct (publish_response w id r1) as [[[]|e] r3].
Qed.

Lemma normal_sent :
  publish_at w (r_time r) = None →
  match outcome h is_async kvs with
  | Ok v => ∀ b, encode_message (PDict (success id names now now' kvs v)) = Ok b →
      r_sent r' = r_sent r ++ [("rpc.reply." +:+ id, PDict (success id names now now' kvs v))]
  | Raise e => ∀ b, encode_message (PDict (failure id names kvs e)) = Ok b →
      r_sent r' = r_sent r ++ [("rpc.reply." +:+ id, PDict (failure id names kvs e))]
  end.
Proof.
  intros Hp. rewrite normal_eq. destruct (outcome h is_async kvs) as [v|e]; intros b Hb.
  - rewrite publish_response_eq. cbn [set_response r_response r_time]. by rewrite Hb, Hp.
  - unfold try_except. rewrite publish_response_eq. cbn [set_response r_response r_time]. by rewrite Hb, Hp.
Qed.

(** A handler's value that cannot be encoded is never answered: the error
    response still holds the value, so it cannot be encoded either, and the
    caller is left to its timeout. *)
Theorem unencodable_unanswered v :
  outcome h is_async kvs = Ok v →
  (∀ es, (PStr "result", v) ∈ es → ∃ e, encode_message (PDict es) = Raise e) →
  r_sent r' = r_sent r.
Proof.
  intros Ho Hv. rewrite normal_eq, Ho, publish_response_eq. cbn [r_response set_response].
  assert (Hin : (PStr "result", v) ∈ success id names now now' kvs v).
  { unfold success. rewrite !elem_of_app. right. right. apply list_elem_of_here. }
  destruct (Hv _ Hin) as [e ->]. set (r1 := r_tick _).
  assert (Hr1 : ∃ es, r_response r1 = es ∧ (PStr "result", v) ∈ es) by (by eexists).
  assert (Hs : r_sent r1 = r_sent r) by done. clearbody r1. rewrite <- Hs. clear Hs.
  destruct Hr1 as (es & Hes & Hres). unfold answer_error. rewrite pm_bind_eq. cbn [modify].
  assert (Hset : ∀ k x es, k ≠ "result" → (PStr "result", v) ∈ es → (PStr "result", v) ∈ dict_set k x es).
  { intros k x l Hk. induction l as [|[key y] l IH]; [by intros ?%elem_of_nil|]. cbn -[is_key].
    destruct (is_key k key) eqn:Ek; intros [[= <- <-]|H]%elem_of_cons; try (by apply list_elem_of_further, IH).
    - cbn in Ek. bool_to_prop. by subst.
    - by apply list_elem_of_further.
    - apply list_elem_of_here. }
  rewrite pm_bind_eq.
  match goal with |- context [let (r, s') := ?m (set_response ?f r1) in _] =>
    assert (Hm : ∃ es', (m (set_response f r1)) = (Ok tt, set_response (λ _, es') r1) ∧ (PStr "result", v) ∈ es') end.
  { destruct (format_error_dict py_str e) as [| | | | | | | | | |fs| | | | | |];
      [| | | | | | | | | |destruct (is_key _ (dict_get "code" fs))| | | | | |];
      (eexists; split; [reflexivity|]); subst es; repeat apply Hset; done. }
  destruct Hm as (es' & -> & Hes'). unfold try_except. rewrite publish_response_eq. cbn [r_response set_response].
  by destruct (Hv es' Hes') as [e' ->].
Qed.
End normal.
End dispatch.
