(* ===== verification/ServiceCall.v ===== *)
(** * Calls of services and their subscriptions (client.py)

    A call of a service subject has a reply subscription and a one-shot inbox
    of its own. [_call_once_service] makes both before it publishes;
    [unsubscribe_all] releases them, run by whoever settles the call: the
    reply's handler, the status callback, the caller's [except] clause, the
    hook of a teardown. The client is the books of [Calls] with the state of
    each such coroutine; every [await] is a suspension point. *)

From S2P Require Import Prelude Text PyVal Dict Errors MsgPack Codec Chunking ChunkingManager Ids Transport Calls CallsFrame CallsSpec.

(** Where [_call_once_service] is suspended: subscribing to the reply,
    subscribing to the inbox, publishing, awaiting the future, or cleaning up
    before it raises. *)
Inductive phase := Replying | Subscribing | Publishing | Awaiting | Failing (e : exn) | Ended (o : future).

(** The coroutine's number, subject and variables: [unsubscribe] and [sub]
    have been assigned. *)
Record service_task := ServiceCall {
  k_call : Z;
  k_subject : string;
  k_phase : phase;
  k_unsubscribe : bool;
  k_sub : bool }.

Definition set_phase ph (t : service_task) : service_task :=
  ServiceCall (k_call t) (k_subject t) ph (k_unsubscribe t) (k_sub t).

Record service_client := ServiceClient {
  sv_calls : calls;
  sv_tasks : gmap string service_task;
  (** reply entries in [_subscription_entries], and open inboxes *)
  sv_replies : gset string;
  sv_inboxes : gset string;
  (** runs of [unsubscribe_all] that await the inbox's unsubscription *)
  sv_cleanups : list string;
  (** calls that were cut off: see the steps *)
  sv_cut : gset string }.

Definition new_service_client : service_client := ServiceClient new_calls ∅ ∅ ∅ [] ∅.

Definition set_books c (s : service_client) : service_client :=
  ServiceClient c (sv_tasks s) (sv_replies s) (sv_inboxes s) (sv_cleanups s) (sv_cut s).
Definition set_task rid t (s : service_client) : service_client :=
  ServiceClient (sv_calls s) (<[rid := t]> (sv_tasks s)) (sv_replies s) (sv_inboxes s) (sv_cleanups s) (sv_cut s).
Definition upd_replies f (s : service_client) : service_client :=
  ServiceClient (sv_calls s) (sv_tasks s) (f (sv_replies s)) (sv_inboxes s) (sv_cleanups s) (sv_cut s).
Definition upd_inboxes f (s : service_client) : service_client :=
  ServiceClient (sv_calls s) (sv_tasks s) (sv_replies s) (f (sv_inboxes s)) (sv_cleanups s) (sv_cut s).
Definition set_cleanups l (s : service_client) : service_client :=
  ServiceClient (sv_calls s) (sv_tasks s) (sv_replies s) (sv_inboxes s) l (sv_cut s).
Definition cut_off rid (s : service_client) : service_client :=
  ServiceClient (sv_calls s) (sv_tasks s) (sv_replies s) (sv_inboxes s) (sv_cleanups s) ({[rid]} ∪ sv_cut s).

Section service.
Context {M : MsgPack}.
Variable can_alloc : Z → bool.
Variables STATUS NO_RESPONDERS_STATUS : string.
Abbreviation call_step := (Calls.step can_alloc STATUS NO_RESPONDERS_STATUS).

(** ** Releasing *)

(** Whether a variable of the call's closure has been assigned. *)
Definition assigned (f : service_task → bool) (rid : string) (s : service_client) : bool :=
  match sv_tasks s !! rid with Some t => f t | None => false end.
(** [if sub and not sub._closed: await sub.unsubscribe()], up to the [await]. *)
Definition release_inbox (rid : string) (s : service_client) : service_client :=
  upd_inboxes (λ x, if assigned k_sub rid s then x ∖ {[rid]} else x) s.
(** [if unsubscribe: await unsubscribe()], whose first act is to drop the
    entry. *)
Definition release_reply (rid : string) (s : service_client) : service_client :=
  upd_replies (λ x, if assigned k_unsubscribe rid s then x ∖ {[rid]} else x) s.

(** A task other than the caller has run the books' part of [unsubscribe_all]
    and goes on; it is resumed by [resume_unsubscribe]. *)
Definition begin_unsubscribe (rid : string) (s : service_client) : service_client :=
  let s := release_inbox rid s in set_cleanups (rid :: sv_cleanups s) s.
Definition resume_unsubscribe (rid : string) (l : list string) (s : service_client) : service_client :=
  release_reply rid (set_cleanups l s).

(** ** The caller *)

(** Up to the first [await]: [subscribe] has stored the entry. *)
Definition call_once_service (rid subject : string) (timeout : Z) (s : service_client) : service_client :=
  let c := sv_calls s in
  upd_replies (λ x, {[rid]} ∪ x)
    (set_task rid (ServiceCall (cs_next c) subject Replying false false)
      (set_books (call_step c (ECall rid subject timeout)) s)).

(** [unsubscribe = await self.subscribe(...)]; [sub = await self.nc.subscribe(...)] *)
Definition reply_subscribed (rid : string) (t : service_task) : service_client → service_client :=
  set_task rid (ServiceCall (k_call t) (k_subject t) Subscribing true (k_sub t)).
Definition inbox_subscribed (rid : string) (t : service_task) (s : service_client) : service_client :=
  upd_inboxes (λ x, {[rid]} ∪ x) (set_task rid (ServiceCall (k_call t) (k_subject t) Publishing (k_unsubscribe t) true) s).
(** Either raised: the [try] has not begun. *)
Definition not_subscribed (rid : string) (t : service_task) (e : exn) (s : service_client) : service_client :=
  cut_off rid (set_task rid (set_phase (Ended (FError e)) t) s).

(** The [except] clause, up to and from its [await]. *)
Definition call_failed (rid : string) (t : service_task) (e : exn) (s : service_client) : service_client :=
  set_task rid (set_phase (Failing e) t)
    (release_inbox rid (set_books (call_step (sv_calls s) (EServiceFailed (k_call t) rid)) s)).
Definition call_raised (rid : string) (t : service_task) (e : exn) (s : service_client) : service_client :=
  set_task rid (set_phase (Ended (FError e)) t) (release_reply rid s).

(** [return await future], once the future is done. *)
Definition call_woken (rid : string) (t : service_task) (s : service_client) : service_client :=
  match cs_futures (sv_calls s) !! k_call t with
  | Some (FResult v) => set_task rid (set_phase (Ended (FResult v)) t) s
  | Some (FError e) => call_failed rid t e s
  | _ => s
  end.

(** The caller's task is cancelled. [except Exception] does not catch
    [CancelledError]; one that awaits its future takes that along. *)
Definition call_cancelled (rid : string) (t : service_task) (s : service_client) : service_client :=
  let s := match k_phase t with Awaiting => set_books (call_step (sv_calls s) (ECancel (k_call t))) s | _ => s end in
  cut_off rid (set_task rid (set_phase (Ended FCancelled) t) s).

(** ** The callbacks *)

(** [handle_rpc_response] went on to [unsubscribe_all]: it found the request
    and raised nothing. *)
Definition response_taken (rid : string) (data : pyval) (c : calls) : bool :=
  let '(r, c') := handle_service_response rid data c in
  is_ok r && od_has rid (cs_pending c) && negb (od_has rid (cs_pending c')).
Definition reply_received (rid : string) (data : pyval) (s : service_client) : service_client :=
  let taken := response_taken rid data (sv_calls s) in
  let s := set_books (call_step (sv_calls s) (EServiceResponse rid data)) s in
  if taken then begin_unsubscribe rid s else s.

(** [request_callback]; the inbox closes after one message. *)
Definition status_received (rid : string) (t : service_task) (m : msg) (s : service_client) : service_client :=
  let s := upd_inboxes (λ x, x ∖ {[rid]})
             (set_books (call_step (sv_calls s) (EServiceStatus (k_call t) rid (k_subject t) m)) s) in
  if is_no_responders STATUS NO_RESPONDERS_STATUS m then begin_unsubscribe rid s else s.

(** Anything else that happens to the books. A teardown that reaches a service
    call runs its hook and awaits it. *)
Definition books_event (e : event) (s : service_client) : service_client :=
  let c := call_step (sv_calls s) e in
  let s := set_books c s in
  match teardown_event e, cs_teardown c with
  | true, Some (p, _) => match p_cleanup p with Some rid => begin_unsubscribe rid s | None => s end
  | _, _ => s
  end.

(** ** Steps *)

Definition asked (t : service_task) : Prop :=
  match k_phase t with Replying | Subscribing => False | _ => True end.
Definition running (t : service_task) : Prop := match k_phase t with Ended _ => False | _ => True end.

(** [generate_id]: nothing bears the id yet. *)
Definition fresh (rid : string) (s : service_client) : Prop :=
  sv_tasks s !! rid = None ∧ od_get rid (cs_pending (sv_calls s)) = None ∧ (rid ∉ sv_inboxes s).

(** The events that are not of service calls. *)
Definition foreign (e : event) (s : service_client) : Prop :=
  match e with
  | ECall rid subject _ => startswith "rpc." subject = true ∧ sv_tasks s !! rid = None
  | EServiceResponse _ _ | EServiceStatus _ _ _ _ | EServiceFailed _ _ => False
  (** responses to service calls come to their own reply subjects *)
  | EMessage _ _ _ => ∀ rid t v, sv_tasks s !! rid = Some t →
      cs_futures (call_step (sv_calls s) e) !! k_call t = Some (FResult v) →
      cs_futures (sv_calls s) !! k_call t = Some (FResult v)
  | _ => True
  end.

Inductive sv_step : service_client → service_client → Prop :=
| sv_call s rid subject timeout :
    startswith "rpc." subject = false → fresh rid s → sv_step s (call_once_service rid subject timeout s)
| sv_reply s rid t :
    sv_tasks s !! rid = Some t → k_phase t = Replying → sv_step s (reply_subscribed rid t s)
| sv_inbox s rid t :
    sv_tasks s !! rid = Some t → k_phase t = Subscribing → sv_step s (inbox_subscribed rid t s)
| sv_no_subscription s rid t e :
    sv_tasks s !! rid = Some t → k_phase t = Replying ∨ k_phase t = Subscribing →
    sv_step s (not_subscribed rid t e s)
| sv_published s rid t :
    sv_tasks s !! rid = Some t → k_phase t = Publishing → sv_step s (set_task rid (set_phase Awaiting t) s)
| sv_unpublished s rid t e :
    sv_tasks s !! rid = Some t → k_phase t = Publishing → sv_step s (call_failed rid t e s)
| sv_woken s rid t :
    sv_tasks s !! rid = Some t → k_phase t = Awaiting → sv_step s (call_woken rid t s)
| sv_raised s rid t e :
    sv_tasks s !! rid = Some t → k_phase t = Failing e → sv_step s (call_raised rid t e s)
| sv_cancelled s rid t :
    sv_tasks s !! rid = Some t → running t → sv_step s (call_cancelled rid t s)
(** the responder answers, or the server has no responder *)
| sv_response s rid t data :
    sv_tasks s !! rid = Some t → asked t → rid ∈ sv_replies s → sv_step s (reply_received rid data s)
| sv_status s rid t m :
    sv_tasks s !! rid = Some t → asked t → rid ∈ sv_inboxes s → sv_step s (status_received rid t m s)
| sv_resume s rid l1 l2 :
    sv_cleanups s = l1 ++ rid :: l2 → sv_step s (resume_unsubscribe rid (l1 ++ l2) s)
(** a suspend ends the message task that runs a cleanup *)
| sv_cut_short s rid l1 l2 :
    sv_cleanups s = l1 ++ rid :: l2 → sv_step s (cut_off rid (set_cleanups (l1 ++ l2) s))
(** the transport closes; a disconnect drops the entries *)
| sv_closed s : sv_step s (upd_inboxes (λ _, ∅) s)
| sv_dropped s : sv_step s (upd_replies (λ _, ∅) s)
| sv_books s e : foreign e s → sv_step s (books_event e s).

(** All cleanups that are under way run to their end. *)
Definition run_cleanups (s : service_client) : service_client :=
  set_cleanups [] (foldr release_reply s (sv_cleanups s)).

(** ** What an event of the books leaves of a call *)

Definition entry_ok (Φ : pending → Prop) (rid : string) (c : calls) : Prop :=
  ∀ p, od_get rid (cs_pending c) = Some p → Φ p.
Definition result_if (K : pyval → Prop) (n : Z) (c : calls) : Prop :=
  ∀ v, cs_futures c !! n = Some (FResult v) → K v.
Definition numbered (k : Z) (c : calls) : Prop := (k ≤ cs_next c)%Z.

Lemma entry_del Φ rid rid' c : entry_ok Φ rid c → entry_ok Φ rid (upd_pending (od_del rid') c).
Proof.
  intros H p Hp. destruct (decide (rid' = rid)) as [->|Hne].
  - cbn in Hp. by rewrite od_get_del in Hp.
  - apply H. cbn in Hp. by rewrite od_get_del_ne in Hp.
Qed.

(** Requests are only ever removed, numbers only handed out. *)
Lemma entry_stable Φ rid k : stable_with (λ c, entry_ok Φ rid c ∧ numbered k c) (λ _, True) (λ _, True) True.
Proof. split; try done. intros c rid' [H1 H2]. split; [by apply entry_del|done]. Qed.
Lemma entry_teardown Φ rid k : stable_teardown (λ c, entry_ok Φ rid c ∧ numbered k c) (λ _, True).
Proof.
  split; [done|intros; by apply Forall_true|]. intros c [_ H]. split; [|done]. intros p Hp. discriminate Hp.
Qed.

(** The client itself never gives a call a result. *)
Lemma result_stable K n : stable_with (result_if K n) (λ _, True) (λ o, ∀ v, o ≠ FResult v) True.
Proof.
  split; try done; intros c j.
  - intros o H _ Ho _ v Hv. cbn in Hv. destruct (decide (j = n)) as [->|Hne].
    + rewrite lookup_insert_eq in Hv. injection Hv as ->. by destruct (Ho v).
    + rewrite lookup_insert_ne in Hv by done. by apply H.
  - intros H _ _ v Hv. cbn in Hv. apply lookup_delete_Some in Hv as [_ Hv]. by apply H.
Qed.
Lemma result_teardown K n : stable_teardown (result_if K n) (λ _, True).
Proof. split; [done|intros; by apply Forall_true|done]. Qed.

(** Call [n] with the id [rid] loses its request perhaps, and gets no result. *)
Record no_news (rid : string) (n : Z) (c c' : calls) : Prop := {
  nn_entry : ∀ Φ, entry_ok Φ rid c → entry_ok Φ rid c';
  nn_next : (cs_next c ≤ cs_next c')%Z;
  nn_result : ∀ K, result_if K n c → result_if K n c' }.

Lemma keeps_entry rid c e :
  (∀ Φ, keeps (λ c', entry_ok Φ rid c' ∧ numbered (cs_next c) c') (run_event can_alloc STATUS NO_RESPONDERS_STATUS e)) →
  (∀ Φ, entry_ok Φ rid c → entry_ok Φ rid (call_step c e)) ∧ (cs_next c ≤ cs_next (call_step c e))%Z.
Proof.
  intros H. split.
  - intros Φ Hc. apply (H Φ c). split; [done|]. unfold numbered. lia.
  - apply (H (λ _, True) c). split; [done|]. unfold numbered. lia.
Qed.

Lemma local_news rid n e c : local_event e = true → no_news rid n c (call_step c e).
Proof.
  intros He. destruct (keeps_entry rid c e) as [H1 H2].
  { intros Φ. apply (keeps_local_event _ _ _ _ _ _ _ (entry_stable Φ rid (cs_next c)));
      auto using entry_teardown. }
  split; [done|done|]. intros K.
  apply (keeps_local_event _ _ _ _ _ _ _ (result_stable K n)); auto using result_teardown.
Qed.

Lemma message_news rid n now now' m c :
  (∀ v, cs_futures (call_step c (EMessage now now' m)) !! n = Some (FResult v) → cs_futures c !! n = Some (FResult v)) →
  no_news rid n c (call_step c (EMessage now now' m)).
Proof.
  intros Hr. destruct (keeps_entry rid c (EMessage now now' m)) as [H1 H2].
  { intros Φ. apply (keeps_message _ _ _ _ _ _ _ (entry_stable Φ rid (cs_next c))); auto. }
  split; [done|done|]. intros K HK v Hv. by apply HK, Hr.
Qed.

Lemma call_news rid n rid' subject timeout c :
  rid ≠ rid' → no_news rid n c (call_step c (ECall rid' subject timeout)).
Proof.
  intros Hne. unfold Calls.step. cbn [run_event]. rewrite pm_bind_eq. unfold call_once.
  destruct (startswith _ _); cbn [register_call]; (split; [intros Φ H p Hp|cbn; lia|intros K H v Hv]); cbn in *.
  1,3: rewrite od_get_set_ne in Hp by done; by apply H.
  all: destruct (decide (n = cs_next c)) as [->|Hn];
    [by rewrite lookup_insert_eq in Hv|rewrite lookup_insert_ne in Hv by done; by apply H].
Qed.

Lemma reply_entry rid rid' data c :
  let c' := call_step c (EServiceResponse rid' data) in
  (∀ Φ, entry_ok Φ rid c → entry_ok Φ rid c') ∧ (cs_next c ≤ cs_next c')%Z.
Proof. apply keeps_entry. intros Φ. apply (keeps_service _ _ _ _ (entry_stable Φ rid (cs_next c))); auto. Qed.

(** A reply touches no call but its own. *)
Lemma reply_news rid n rid' data c :
  entry_ok (λ p, p_call p ≠ n) rid' c → no_news rid n c (call_step c (EServiceResponse rid' data)).
Proof.
  intros Hn. destruct (reply_entry rid rid' data c) as [H1 H2]. split; [done|done|]. intros K HK. unfold Calls.step. cbn [run_event]. rewrite service_response_eq.
  destruct data; try done. destruct (is_key rid' _); [|done].
  destruct (od_get rid' (cs_pending c)) as [p|] eqn:Ep; [|done]. cbn zeta.
  destruct (future_done (p_call p) c); [done|]. destruct (response_outcome kvs) as [o|e]; [|done].
  intros v Hv. cbn in Hv. rewrite lookup_insert_ne in Hv by (by apply Hn). by apply HK.
Qed.

(** Its own call gets a result only if [unsubscribe_all] runs. *)
Lemma reply_taken rid n data c K :
  let c' := call_step c (EServiceResponse rid data) in
  (response_taken rid data c = true → od_get rid (cs_pending c') = None) ∧
  (response_taken rid data c = false → result_if K n c → result_if K n c').
Proof.
  unfold Calls.step, response_taken. cbn [run_event]. rewrite service_response_eq.
  destruct data; try (by split). destruct (is_key rid _).
  - destruct (od_get rid (cs_pending c)) as [p|] eqn:Ep; [|by unfold od_has; rewrite Ep]. cbn zeta.
    assert (Hdel : od_get rid (od_del rid (cs_pending c)) = None) by apply od_get_del.
    destruct (future_done (p_call p) c); [|destruct (response_outcome kvs) as [o|e]]; cbn;
      unfold od_has; rewrite ?Ep, Hdel; by split.
  - unfold od_has. cbn. split; [|done]. intros H. destruct (od_get rid (cs_pending c)); done.
Qed.

(** ** The invariant *)

(** Nothing of the call is left, or a cleanup is on its way to the reply
    subscription. *)
Definition released (s : service_client) (rid : string) (t : service_task) : Prop :=
  entry_ok (λ _, False) rid (sv_calls s) ∧ (rid ∉ sv_inboxes s) ∧
  (rid ∈ sv_replies s → k_unsubscribe t = true ∧ rid ∈ sv_cleanups s).

Definition phase_ok (s : service_client) (rid : string) (t : service_task) : Prop :=
  match k_phase t with
  | Replying => (rid ∉ sv_inboxes s) ∧ result_if (λ _, False) (k_call t) (sv_calls s)
  | Subscribing => k_unsubscribe t = true ∧ (rid ∉ sv_inboxes s) ∧ result_if (λ _, False) (k_call t) (sv_calls s)
  | Publishing | Awaiting =>
      k_unsubscribe t = true ∧ k_sub t = true ∧ result_if (λ _, released s rid t) (k_call t) (sv_calls s)
  | Failing _ => k_unsubscribe t = true ∧ entry_ok (λ _, False) rid (sv_calls s) ∧ (rid ∉ sv_inboxes s)
  | Ended _ => released s rid t
  end.

Record task_ok (s : service_client) (rid : string) (t : service_task) : Prop := {
  tk_entry : entry_ok (λ p, p_call p = k_call t) rid (sv_calls s);
  tk_next : (k_call t < cs_next (sv_calls s))%Z;
  tk_phase : rid ∉ sv_cut s → phase_ok s rid t }.

Record service_inv (s : service_client) : Prop := {
  si_task : ∀ rid t, sv_tasks s !! rid = Some t → task_ok s rid t;
  si_inj : ∀ rid rid' t t', sv_tasks s !! rid = Some t → sv_tasks s !! rid' = Some t' →
    k_call t = k_call t' → rid = rid' }.

(** From [s] to [s'] the call [rid] is not answered and holds no more than
    before. *)
Record calmer (rid : string) (t : service_task) (s s' : service_client) : Prop := {
  cm_books : no_news rid (k_call t) (sv_calls s) (sv_calls s');
  cm_cut : rid ∉ sv_cut s' → rid ∉ sv_cut s;
  cm_inbox : rid ∈ sv_inboxes s' → rid ∈ sv_inboxes s;
  cm_reply : rid ∈ sv_replies s' → rid ∈ sv_replies s;
  cm_cleanup : rid ∉ sv_cut s' → rid ∈ sv_replies s' → k_unsubscribe t = true →
    rid ∈ sv_cleanups s → rid ∈ sv_cleanups s' }.

Lemma no_news_refl rid n c : no_news rid n c c.
Proof. by split. Qed.

Lemma entry_none rid c : entry_ok (λ _, False) rid c ↔ od_get rid (cs_pending c) = None.
Proof.
  unfold entry_ok. destruct (od_get rid (cs_pending c)) as [p|]; [|done].
  split; [|done]. intros H. by destruct (H p).
Qed.

Lemma released_calmer s s' rid t :
  calmer rid t s s' → rid ∉ sv_cut s' → released s rid t → released s' rid t.
Proof.
  intros H Hc (H1 & H2 & H3). split_and!.
  - by apply (nn_entry _ _ _ _ (cm_books _ _ _ _ H)).
  - intros Hi. by apply H2, (cm_inbox _ _ _ _ H).
  - intros Hr. destruct (H3 (cm_reply _ _ _ _ H Hr)) as [Hu Hl]. split; [done|]. by apply (cm_cleanup _ _ _ _ H).
Qed.

Lemma task_calmer s s' rid t : calmer rid t s s' → task_ok s rid t → task_ok s' rid t.
Proof.
  intros H [H1 H2 H3]. pose proof (cm_books _ _ _ _ H) as Hb. split.
  - by apply (nn_entry _ _ _ _ Hb).
  - pose proof (nn_next _ _ _ _ Hb). lia.
  - intros Hc. specialize (H3 (cm_cut _ _ _ _ H Hc)). unfold phase_ok in *.
    pose proof (cm_inbox _ _ _ _ H) as Hi. pose proof (nn_entry _ _ _ _ Hb (λ _, False)) as He.
    pose proof (nn_result _ _ _ _ Hb) as Hr. pose proof (released_calmer s s' rid t H Hc) as Hl.
    assert (Hk : result_if (λ _, released s rid t) (k_call t) (sv_calls s) →
                 result_if (λ _, released s' rid t) (k_call t) (sv_calls s')).
    { intros HK. apply Hr. intros v Hv. by eapply Hl, HK. }
    destruct (k_phase t); naive_solver.
Qed.

(** A step that leaves every call alone, and one that is of the call [rid]. *)
Lemma inv_calmer s s' :
  sv_tasks s' = sv_tasks s → (∀ rid t, sv_tasks s !! rid = Some t → calmer rid t s s') →
  service_inv s → service_inv s'.
Proof.
  intros Ht Hc [H1 H2]. split; rewrite Ht; [|done]. intros rid t Hk.
  by eapply task_calmer; [apply Hc|apply H1].
Qed.
Lemma inv_step_of s s' rid t t' :
  sv_tasks s !! rid = Some t → sv_tasks s' = <[rid := t']> (sv_tasks s) → k_call t' = k_call t →
  (∀ rid' t, rid' ≠ rid → sv_tasks s !! rid' = Some t → calmer rid' t s s') →
  (task_ok s rid t → task_ok s' rid t') →
  service_inv s → service_inv s'.
Proof.
  intros Hk Ht En Hc Hok [H1 H2].
  assert (H : ∀ r x, sv_tasks s' !! r = Some x → ∃ y, sv_tasks s !! r = Some y ∧ k_call x = k_call y).
  { intros r x. rewrite Ht. destruct (decide (r = rid)) as [->|Hne].
    - rewrite lookup_insert_eq. intros [= <-]. eauto.
    - rewrite lookup_insert_ne by done. eauto. }
  split.
  - intros r x Hx. destruct (decide (r = rid)) as [->|Hne].
    + rewrite Ht, lookup_insert_eq in Hx. injection Hx as <-. by apply Hok, H1.
    + rewrite Ht, lookup_insert_ne in Hx by done. eapply task_calmer; [by apply Hc|by apply H1].
  - intros r r' x x' (y & Hy & Ey)%H (y' & Hy' & Ey')%H E. eapply H2; [done|done|congruence].
Qed.

(** ** Steps keep it *)

Lemma calmer_trans rid t s1 s2 s3 : calmer rid t s1 s2 → calmer rid t s2 s3 → calmer rid t s1 s3.
Proof.
  intros [B1 C1 I1 R1 L1] [B2 C2 I2 R2 L2]. split; auto.
  destruct B1 as [E1 N1 F1], B2 as [E2 N2 F2]. split; [by auto|lia|by auto].
Qed.

Lemma calmer_refl rid t s : calmer rid t s s.
Proof. by split; [apply no_news_refl|..]. Qed.
Lemma calmer_books rid t s c : no_news rid (k_call t) (sv_calls s) c → calmer rid t s (set_books c s).
Proof. by split. Qed.
Lemma calmer_task rid t rid' t' s : calmer rid t s (set_task rid' t' s).
Proof. by split; [apply no_news_refl|..]. Qed.
Lemma calmer_cut rid t rid' s : calmer rid t s (cut_off rid' s).
Proof. split; [apply no_news_refl|set_solver..]. Qed.
Lemma calmer_inboxes rid t f s : (∀ x, rid ∈ f x → rid ∈ x) → calmer rid t s (upd_inboxes f s).
Proof. intros H. split; [apply no_news_refl|done| |done..]. apply H. Qed.
Lemma calmer_replies rid t f s : (∀ x, rid ∈ f x → rid ∈ x) → calmer rid t s (upd_replies f s).
Proof. intros H. split; [apply no_news_refl|done|done| |done]. apply H. Qed.
Lemma calmer_release_inbox rid t rid' s : calmer rid t s (release_inbox rid' s).
Proof. apply calmer_inboxes. intros x. destruct (assigned _ _ _); set_solver. Qed.
Lemma calmer_release_reply rid t rid' s : calmer rid t s (release_reply rid' s).
Proof. apply calmer_replies. intros x. destruct (assigned _ _ _); set_solver. Qed.
Lemma calmer_begin rid t rid' s : calmer rid t s (begin_unsubscribe rid' s).
Proof.
  unfold begin_unsubscribe. eapply calmer_trans; [apply (calmer_release_inbox rid t rid')|].
  split; [apply no_news_refl|done..|]. intros _ _ _. cbn. apply list_elem_of_further.
Qed.
Lemma calmer_resume rid t rid' l1 l2 s :
  sv_tasks s !! rid = Some t → sv_cleanups s = l1 ++ rid' :: l2 → calmer rid t s (resume_unsubscribe rid' (l1 ++ l2) s).
Proof.
  intros Ht El. split; [apply no_news_refl|done|done| |]; cbn.
  - destruct (assigned _ _ _); set_solver.
  - intros _ Hr Hu Hl. rewrite El in Hl. destruct (decide (rid = rid')) as [<-|Hne]; [|set_solver].
    unfold assigned in Hr. cbn in Hr. rewrite Ht, Hu in Hr. set_solver.
Qed.

Lemma books_event_inv s e : foreign e s → service_inv s → service_inv (books_event e s).
Proof.
  intros Hf. unfold books_event. cbv zeta. set (c := call_step (sv_calls s) e).
  assert (Hn : ∀ rid t, sv_tasks s !! rid = Some t → calmer rid t s (set_books c s)).
  { intros rid t Ht. apply calmer_books. subst c. destruct e; try (by apply local_news); try done.
    - destruct Hf as [_ Hf]. apply call_news. congruence.
    - apply message_news. intros v. by apply (Hf rid). }
  assert (Hb : ∀ rid', service_inv s → service_inv (begin_unsubscribe rid' (set_books c s))).
  { intros rid'. apply inv_calmer; [done|]. intros rid t Ht.
    eapply calmer_trans; [by apply Hn|apply calmer_begin]. }
  destruct (teardown_event e), (cs_teardown c) as [[p ps]|]; try (by apply inv_calmer).
  destruct (p_cleanup p); [apply Hb|by apply inv_calmer].
Qed.

Lemma reply_inv s rid t data :
  sv_tasks s !! rid = Some t → asked t → service_inv s → service_inv (reply_received rid data s).
Proof.
  intros Ht Ha Hs. pose proof (si_task _ Hs rid t Ht) as [He Hn Hp].
  set (c := call_step (sv_calls s) (EServiceResponse rid data)).
  assert (Hother : ∀ rid' t', rid' ≠ rid → sv_tasks s !! rid' = Some t' → calmer rid' t' s (set_books c s)).
  { intros rid' t' Hne Ht'. apply calmer_books, reply_news. intros p Hp'. rewrite (He p Hp').
    intros E. by apply Hne, (si_inj _ Hs _ _ _ _ Ht' Ht). }
  destruct (reply_entry rid rid data (sv_calls s)) as [He' Hn'].
  destruct (reply_taken rid (k_call t) data (sv_calls s) (λ _, False)) as [Hg _].
  assert (Hr := λ K, proj2 (reply_taken rid (k_call t) data (sv_calls s) K)). fold c in He', Hn', Hg, Hr.
  unfold reply_received. cbv zeta. fold c. destruct (response_taken rid data (sv_calls s)).
  - assert (Hgone : entry_ok (λ _, False) rid c) by by apply entry_none, Hg.
    apply (inv_step_of s _ rid t t Ht); [by cbn; rewrite insert_id|done| | |done].
    + intros rid' t' Hne Ht'. eapply calmer_trans; [by apply Hother|apply calmer_begin].
    + intros _. split; [intros p Hp'; by destruct (Hgone p)|cbn; lia|]. intros Hc. specialize (Hp Hc).
      assert (Hin : rid ∈ rid :: sv_cleanups s) by apply list_elem_of_here.
      assert (Hni : rid ∉ sv_inboxes s ∖ {[rid]}) by (clear; set_solver).
      assert (Hif : rid ∉ sv_inboxes s → rid ∉ (if k_sub t then sv_inboxes s ∖ {[rid]} else sv_inboxes s))
        by by destruct (k_sub t).
      unfold phase_ok, asked, released in *. cbn. unfold assigned. cbn. rewrite Ht.
      clear Hr Hg He He' Hother. destruct (k_phase t); try done.
      1,2: destruct Hp as (-> & -> & _); by split_and!.
      all: naive_solver.
  - apply (inv_calmer s); [done| |done]. intros rid' t' Ht'. destruct (decide (rid' = rid)) as [->|]; [|by apply Hother].
    rewrite Ht in Ht'. injection Ht' as <-. apply calmer_books. split; auto.
Qed.

(** A new call. *)
Lemma call_inv s rid subject timeout :
  startswith "rpc." subject = false → fresh rid s → service_inv s → service_inv (call_once_service rid subject timeout s).
Proof.
  intros Hsub (Hrid & Hnone & Hi) Hs.
  assert (Hc : ∀ rid' t, sv_tasks s !! rid' = Some t → calmer rid' t s (call_once_service rid subject timeout s)).
  { intros rid' t Ht. assert (rid' ≠ rid) by congruence.
    eapply calmer_trans; [by apply calmer_books, call_news|].
    eapply calmer_trans; [apply calmer_task|]. apply calmer_replies. set_solver. }
  split.
  - intros rid' t Ht. destruct (decide (rid' = rid)) as [->|Hne]; cbn in Ht.
    + rewrite lookup_insert_eq in Ht. injection Ht as <-. unfold call_once_service, Calls.step. cbn [run_event].
      rewrite pm_bind_eq. unfold call_once. rewrite Hsub. cbn [register_call]. split; cbn; [|lia|].
      * intros p Hp. cbn in Hp. rewrite od_get_set in Hp. by injection Hp as <-.
      * intros _. unfold phase_ok. cbn. split; [done|]. intros v Hv. cbn in Hv. by rewrite lookup_insert_eq in Hv.
    + rewrite lookup_insert_ne in Ht by done. eapply task_calmer; [by apply Hc|by apply si_task].
  - intros r r' t t' Ht Ht' E. cbn in Ht, Ht'.
    assert (Hlt : ∀ r t, sv_tasks s !! r = Some t → (k_call t < cs_next (sv_calls s))%Z)
      by (intros; by eapply tk_next, si_task).
    destruct (decide (r = rid)) as [->|H1], (decide (r' = rid)) as [->|H2]; try done.
    + rewrite lookup_insert_eq in Ht. rewrite lookup_insert_ne in Ht' by done. injection Ht as <-.
      specialize (Hlt _ _ Ht'). cbn in E. lia.
    + rewrite lookup_insert_eq in Ht'. rewrite lookup_insert_ne in Ht by done. injection Ht' as <-.
      specialize (Hlt _ _ Ht). cbn in E. lia.
    + rewrite lookup_insert_ne in Ht by done. rewrite lookup_insert_ne in Ht' by done. by eapply si_inj.
Qed.

(** A call that goes on without the books. *)
Lemma phase_inv s s' rid t t' :
  sv_tasks s !! rid = Some t → s' = set_task rid t' s → k_call t' = k_call t →
  (rid ∉ sv_cut s → phase_ok s rid t → phase_ok s' rid t') →
  service_inv s → service_inv s'.
Proof.
  intros Ht -> En Hp. eapply inv_step_of; [exact Ht|done|done| |].
  - intros rid' t0 _ _. apply calmer_task.
  - intros [H1 H2 H3]. split; rewrite ?En; [done|done|]. cbn. auto.
Qed.

(** The [except] clause takes the request and the inbox. *)
Lemma failed_inv s rid t e :
  sv_tasks s !! rid = Some t → k_phase t = Publishing ∨ k_phase t = Awaiting →
  service_inv s → service_inv (call_failed rid t e s).
Proof.
  intros Ht Hph. set (c := call_step (sv_calls s) (EServiceFailed (k_call t) rid)).
  assert (Hc : ∀ rid' t', calmer rid' t' s (call_failed rid t e s)).
  { intros rid' t'. eapply calmer_trans; [apply calmer_books, (local_news _ _ (EServiceFailed (k_call t) rid)); done|].
    eapply calmer_trans; [apply calmer_release_inbox|apply calmer_task]. }
  apply (inv_step_of s _ rid t (set_phase (Failing e) t) Ht); [done|done|by intros|].
  intros Hok. pose proof (task_calmer s _ rid t (Hc rid t) Hok) as [H1 H2 _]. split; [done|done|].
  intros Hcut. destruct Hok as [_ _ Hp]. specialize (Hp Hcut). unfold phase_ok in Hp.
  assert (Hu : k_unsubscribe t = true ∧ k_sub t = true) by by destruct Hph as [E|E]; rewrite E in Hp; destruct Hp as (? & ? & _).
  destruct Hu as [Hu Hk]. unfold phase_ok. cbn. split_and!; [done| |].
  - unfold Calls.step. cbn [run_event]. unfold service_failed. rewrite pm_bind_eq, unsubscribe_eq.
    destruct (od_get rid (cs_pending (sv_calls s))) as [p|] eqn:Ep; intros q Hq; cbn in Hq;
      destruct (future_done _ _); cbn in Hq; try rewrite od_get_del in Hq; congruence.
  - unfold assigned. cbn. rewrite Ht, Hk. set_solver.
Qed.

Lemma sv_step_inv s s' : sv_step s s' → service_inv s → service_inv s'.
Proof.
  intros Hstep Hs. destruct Hstep.
  - by apply call_inv.
  - eapply (phase_inv s _ rid t); [done|done|done| |done]. intros _. unfold phase_ok. rewrite H0. cbn. tauto.
  - apply (inv_step_of s _ rid t (ServiceCall (k_call t) (k_subject t) Publishing (k_unsubscribe t) true)); try done.
    + intros rid' t' Hne _. eapply calmer_trans; [apply calmer_task|]. apply calmer_inboxes. set_solver.
    + intros [H1 H2 H3]. split; [done|done|]. intros Hc. specialize (H3 Hc). unfold phase_ok in *. rewrite H0 in H3.
      destruct H3 as (Hu & _ & Hr). cbn. split_and!; [done|done|]. intros v Hv. by destruct (Hr v Hv).
  - apply (inv_step_of s _ rid t (set_phase (Ended (FError e)) t)); try done.
    + intros rid' t' Hne _. eapply calmer_trans; [apply calmer_task|apply calmer_cut].
    + intros [H1 H2 _]. split; [done|done|]. intros Hc. destruct Hc. set_solver.
  - eapply (phase_inv s _ rid t); [done|done|done| |done]. intros _. unfold phase_ok. by rewrite H0.
  - by apply failed_inv; [|left|].
  - unfold call_woken. destruct (cs_futures (sv_calls s) !! k_call t) as [[| v|e|]|] eqn:Ef; try done.
    + eapply (phase_inv s _ rid t); [done|done|done| |done]. intros _. unfold phase_ok. rewrite H0. cbn.
      intros (_ & _ & Hr). by apply (Hr v).
    + by apply failed_inv; [|right|].
  - apply (inv_step_of s _ rid t (set_phase (Ended (FError e)) t)); try done.
    + intros rid' t' Hne _. eapply calmer_trans; [apply calmer_release_reply|apply calmer_task].
    + intros [H1 H2 H3]. split; [done|done|]. intros Hc. specialize (H3 Hc). unfold phase_ok in *. rewrite H0 in H3.
      destruct H3 as (Hu & He & Hi). split_and!; [done|done|]. cbn. unfold assigned. rewrite H, Hu. set_solver.
  - assert (Hb : ∀ rid' t', calmer rid' t' s (match k_phase t with
        | Awaiting => set_books (call_step (sv_calls s) (ECancel (k_call t))) s | _ => s end)).
    { intros rid' t'. destruct (k_phase t); try apply calmer_refl.
      by apply calmer_books, local_news. }
    apply (inv_step_of s _ rid t (set_phase (Ended FCancelled) t)); try done.
    + unfold call_cancelled. by destruct (k_phase t).
    + intros rid' t' Hne _. unfold call_cancelled. cbv zeta. eapply calmer_trans; [apply Hb|].
      eapply calmer_trans; [apply calmer_task|apply calmer_cut].
    + intros Hok. pose proof (task_calmer s _ rid t (Hb rid t) Hok) as [H1 H2 _].
      split; [done|done|]. intros Hc. destruct Hc. unfold call_cancelled. set_solver.
  - by eapply reply_inv.
  - apply (inv_calmer s); [|intros rid' t' _|done].
    + unfold status_received. by destruct (is_no_responders _ _ m).
    + eapply calmer_trans; [apply calmer_books, (local_news _ _ (EServiceStatus (k_call t) rid (k_subject t) m)); done|].
      assert (Hi : ∀ s, calmer rid' t' s (upd_inboxes (λ x, x ∖ {[rid]}) s)) by (intros; apply calmer_inboxes; set_solver).
      unfold status_received. cbv zeta. destruct (is_no_responders _ _ m); [|apply Hi].
      eapply calmer_trans; [apply Hi|apply calmer_begin].
  - apply (inv_calmer s); [done|intros rid' t' Ht'|done]. by apply calmer_resume.
  - apply (inv_calmer s); [done|intros rid' t' Ht'|done]. split; [apply no_news_refl|set_solver|done|done|].
    cbn. rewrite H. set_solver.
  - apply (inv_calmer s); [done|intros rid' t' Ht'|done]. apply calmer_inboxes. set_solver.
  - apply (inv_calmer s); [done|intros rid' t' Ht'|done]. apply calmer_replies. set_solver.
  - by apply books_event_inv.
Qed.

Lemma reachable_inv s : rtc sv_step new_service_client s → service_inv s.
Proof.
  intros Hr. assert (Hn : service_inv new_service_client).
  { split; [intros rid t Ht|intros rid rid' t t' Ht]; cbn in Ht; by rewrite lookup_empty in Ht. }
  induction Hr; eauto using sv_step_inv.
Qed.

Lemma foldr_release l s :
  let s' := foldr release_reply s l in
  sv_tasks s' = sv_tasks s ∧ sv_calls s' = sv_calls s ∧ sv_inboxes s' = sv_inboxes s ∧ sv_replies s' ⊆ sv_replies s ∧
  (∀ rid, rid ∈ l → assigned k_unsubscribe rid s = true → rid ∉ sv_replies s') ∧
  (∀ rid, rid ∉ l → rid ∈ sv_replies s → rid ∈ sv_replies s').
Proof.
  induction l as [|r l (E1 & E2 & E3 & E4 & E5 & E6)]; [split_and!; try done; by intros ? ?%elem_of_nil|].
  cbn. split_and!; try done.
  - destruct (assigned _ _ _); set_solver.
  - intros rid [->|Hin]%elem_of_cons Ha.
    + replace (assigned k_unsubscribe r _) with true; [set_solver|]. by unfold assigned in *; rewrite E1.
    + specialize (E5 rid Hin Ha). case_match; [|done]. by intros [? _]%elem_of_difference.
  - intros rid [Hne Hin]%not_elem_of_cons Hr. specialize (E6 rid Hin Hr). case_match; [|done].
    apply elem_of_difference. split; [done|]. by intros ?%elem_of_singleton.
Qed.

Lemma timer_removes n t c :
  cs_timers c !! n = Some t → od_get (t_request t) (cs_pending (call_step c (ETimer n))) = None.
Proof.
  intros Ht. unfold Calls.step. cbn [run_event]. unfold run_timer. rewrite pm_bind_eq. cbn [get_state].
  rewrite Ht, pm_bind_eq. cbn [cancel_timer modify]. unfold handle_timeout. rewrite pm_bind_eq. cbn [pop_pending].
  rewrite pm_bind_eq. cbn [get_state]. pose proof (od_get_del (t_request t) (cs_pending c)) as Hd.
  case_match; [|done]. unfold settle. by destruct (future_done n _) eqn:E; [|rewrite E].
Qed.

(** ** What a service call leaves behind *)

(** C12. Whatever happens, in whatever order - replies, no-responder statuses,
    timeouts, failing publishes, teardowns and other traffic -, a service call
    that has ended without being cut off leaves nothing behind once the
    cleanups under way have run: no pending request, no reply subscription, no
    inbox. *)
Theorem service_call_releases s rid t o :
  rtc sv_step new_service_client s → sv_tasks s !! rid = Some t → k_phase t = Ended o → rid ∉ sv_cut s →
  let s' := run_cleanups s in
  od_get rid (cs_pending (sv_calls s')) = None ∧ (rid ∉ sv_inboxes s') ∧ (rid ∉ sv_replies s').
Proof.
  intros Hr Ht Ho Hc. pose proof (tk_phase _ _ _ (si_task s (reachable_inv s Hr) rid t Ht) Hc) as Hp.
  unfold phase_ok in Hp. rewrite Ho in Hp. destruct Hp as (He & Hi & Hl).
  destruct (foldr_release (sv_cleanups s) s) as (_ & E2 & E3 & E4 & E5 & _). cbn. rewrite E2, E3.
  split_and!; [by apply entry_none|done|]. intros Hin. destruct (Hl (E4 rid Hin)) as [Hu Hk].
  apply (E5 rid Hk); [|done]. unfold assigned. by rewrite Ht.
Qed.

End service.

(** ** Witnesses *)

Abbreviation demo_step := (sv_step (λ _, true) "Status" "503").
Definition echo_reply : pyval := PDict [(PStr "id", PStr "c.1"); (PStr "result", PInt 5)].
(** A step of the call "c.1", by its rule. *)
Ltac demo rule := eapply rtc_l; [eapply (rule _ _ _ _ _ "c.1"); by vm_compute|].

Ltac demo_call :=
  eapply rtc_l; [apply (sv_call _ _ _ _ "c.1" "svc.echo" 30000); [done|by repeat split]|];
  demo @sv_reply; demo @sv_inbox; demo @sv_published.

(** The call is answered and returns before the cleanup goes on. *)
Lemma service_call_releases_witness :
  ∃ s t, rtc demo_step new_service_client s ∧ sv_tasks s !! "c.1" = Some t ∧ k_phase t = Ended (FResult (PInt 5)) ∧
    sv_replies s = {["c.1"]} ∧ ("c.1" ∉ sv_replies (run_cleanups s)).
Proof.
  assert (H : ∃ s t, rtc demo_step new_service_client s ∧ sv_tasks s !! "c.1" = Some t ∧
            k_phase t = Ended (FResult (PInt 5)) ∧ bool_decide ("c.1" ∈ sv_cut s) = false ∧ sv_replies s = {["c.1"]}).
  { eexists _, _. split; [demo_call|].
    - eapply rtc_l; [eapply (sv_response _ _ _ _ "c.1" _ echo_reply); [by vm_compute|done|set_solver]|].
      demo @sv_woken. apply rtc_refl.
    - split_and!; vm_compute; reflexivity. }
  destruct H as (s & t & Hr & Ht & Ho & Hc & Hl). exists s, t. split_and!; [done..|].
  eapply (service_call_releases (λ _, true) "Status" "503" s "c.1"); [done..|].
  exact (bool_decide_eq_false_1 _ Hc).
Defined.

(** A call that awaits its reply is cancelled; then its timer fires, and then
    the reply comes. *)
Definition on_task (f : service_task → service_client → service_client) (s : service_client) : service_client :=
  match sv_tasks s !! "c.1" with Some t => f t s | None => s end.
Definition waiting_client : service_client :=
  on_task (λ t, set_task "c.1" (set_phase Awaiting t))
    (on_task (inbox_subscribed "c.1") (on_task (reply_subscribed "c.1")
      (call_once_service (λ _, true) "Status" "503" "c.1" "svc.echo" 30000 new_service_client))).

