(* ===== verification/RemoteCall.v ===== *)
(** * A remote call, end to end (client.py)

    The caller's [_call_once], the wire, [handle_message] of the serving
    client, the wire again, and the caller's inbox: together they implement a
    local call of the handler. *)

From S2P Require Import Prelude Text PyVal Dict Errors MsgPack Codec CodecRoundtrip Chunking ChunkingManager Ids Transport Calls CallsFrame CallsSpec Handlers Dispatch DispatchSpec DispatchProps.

Section remote.
Context {M : MsgPack} {laws : MsgPackLaws M}.
Variable py_str : pyval → string.
Variable w : world.
Variable cleanup_raises : Z → option exn.
Variable can_alloc : Z → bool.
Variables STATUS NO_RESPONDERS_STATUS : string.

(** A value that the codec carries, and its frame. *)
Definition crosses (v : pyval) (b : list byte) : Prop :=
  plain v = true ∧ no_lookalike v = true ∧ encode_message v = Ok b ∧ (zlen b < 2 ^ 63)%Z.

Lemma crosses_delivered v b : crosses v b → decode_message b = Ok (delivered v).
Proof. intros (H1 & H2 & H3 & H4). by apply decode_encoded. Qed.

(** ** The abstract call *)

(** The caller's view of the handler's value and error; a dict result gets
    the method list of a discovering call. *)
Definition returned (discover : bool) (names : list string) (v : pyval) : pyval :=
  match delivered v with
  | PDict kvs => PDict (if discover then dict_set "__methods" (PList (PStr <$> names)) kvs else kvs)
  | v => v
  end.
Definition delivered_error (e : rpc_exception) : rpc_exception :=
  RPCException (delivered (rx_code e)) (delivered (rx_message e)) (delivered (rx_data e)).

(** What a local call would give, with the arguments and the result as they
    arrive. *)
Definition local_call (h : handler) (is_async discover : bool) (names : list string) (args : list pyval) : future :=
  match (o ← h_call h (delivered <$> args); if is_async then await o else mret o) with
  | Ok o => FResult (returned discover names (obj_value o))
  | Raise e => FError (RPCError (delivered_error (remote_error py_str e)))
  end.

(** ** The concrete call *)

(** The serving client's response to the call. *)
Definition answer (rid : string) (h : handler) (is_async : bool) (names : list string) (now now' : Z)
    (kvs : list (pyval * pyval)) : pyval :=
  PDict (match outcome h is_async kvs with
         | Ok v => success rid names now now' kvs v
         | Raise e => failure py_str rid names kvs e
         end).

Definition arrived (rid : string) (args : list pyval) (discover : bool) : list (pyval * pyval) :=
  [(PStr "id", PStr rid); (PStr "method", PStr "call"); (PStr "params", PList (delivered <$> args))]
  ++ (if discover then [(PStr "__discover", PBool true)] else []).

Lemma delivered_call rid args discover :
  delivered (call_message rid args discover) = PDict (arrived rid args discover).
Proof. by destruct discover. Qed.

Lemma delivered_names names : delivered (PList (PStr <$> names)) = PList (PStr <$> names).
Proof. cbn. f_equal. induction names as [|n names IH]; [done|]. rewrite !fmap_cons. cbn. by rewrite IH. Qed.

Lemma success_arrived rid names now now' args discover v :
  success rid names now now' (arrived rid args discover) v =
    (PStr "id", PStr rid) :: (if discover then [methods_entry names; (PStr "result", v)] else [(PStr "result", v)]).
Proof. by destruct discover. Qed.

(** A local call is the outcome of the request, as the caller sees it. *)
Lemma local_call_outcome rid h is_async discover names args :
  local_call h is_async discover names args =
    match outcome h is_async (arrived rid args discover) with
    | Ok v => FResult (returned discover names v)
    | Raise e => FError (RPCError (delivered_error (remote_error py_str e)))
    end.
Proof.
  assert (E : outcome h is_async (arrived rid args discover) =
    (o ← (o ← h_call h (delivered <$> args); if is_async then await o else mret o); mret (obj_value o)))
    by (by destruct discover).
  rewrite E. unfold local_call. by destruct (h_call _ _ ≫= _).
Qed.

(** The caller reads the outcome back from the response. *)
Lemma answer_outcome rid h is_async names now now' args discover :
  ∃ kvs, delivered (answer rid h is_async names now now' (arrived rid args discover)) = PDict kvs ∧
    dict_get "id" kvs = PStr rid ∧
    response_outcome kvs = Ok (local_call h is_async discover names args).
Proof.
  unfold answer. rewrite (local_call_outcome rid). pose proof (delivered_names names) as Hn.
  destruct (outcome _ _ _) as [v|e].
  all: rewrite delivered_dict; eexists; split; [done|]; split; [by destruct discover|].
  - rewrite success_arrived. unfold returned, methods_entry.
    destruct discover; cbn -[delivered fmap]; rewrite ?fmap_cons; cbn -[delivered fmap]; rewrite ?Hn;
      by destruct (delivered v).
  - destruct discover, e as [| | | | | | | | | |[? ? ?]|]; done.
Qed.

(** C1. A remote call is a local call. When both messages cross the wire, a
    call of an ordinary method that is still pending is served once, its
    response goes to the caller's reply subject, and the response settles the
    caller's future with what calling the handler on the delivered arguments
    gives: its value as it arrives, or its error as the caller's error
    class. *)
Theorem call_end_to_end s rid p args discover b r reg h names is_async now now' t t' m :
  od_get rid (cs_pending s) = Some p → cs_futures s !! p_call p = Some FPending → rid ≠ "" →
  crosses (call_message rid args discover) b →
  classify py_str rid (PList (delivered <$> args)) = Ok (NormalRequest (PList (delivered <$> args))) →
  publish_at w (r_time r) = None →
  crosses (answer rid h is_async names now now' (arrived rid args discover)) (m_data m) →
  m_headers m = None →
  ∃ message,
    decode_message b = Ok message ∧
    r_sent (dispatch_step py_str w cleanup_raises r (DMessage reg h names is_async now now' message)) =
      r_sent r ++ [("rpc.reply." +:+ rid, answer rid h is_async names now now' (arrived rid args discover))] ∧
    cs_futures (Calls.step can_alloc STATUS NO_RESPONDERS_STATUS s (EMessage t t' m)) !! p_call p =
      Some (local_call h is_async discover names args).
Proof.
  intros Hp Hf Hrid Hb Hc Hw Hb' Hh. exists (PDict (arrived rid args discover)).
  split; [rewrite (crosses_delivered _ _ Hb); by rewrite delivered_call|]. split.
  - pose proof Hb' as (_ & _ & He & _).
    pose proof (normal_sent py_str w cleanup_raises reg h names is_async now now' rid
                  (arrived rid args discover) (PList (delivered <$> args)) r ltac:(done)) as Hs.
    unfold answer in *. destruct (outcome _ _ _); apply (Hs ltac:(by destruct discover) Hw _ He).
  - destruct (answer_outcome rid h is_async names now now' args discover) as (kvs & Ek & Ei & Eo).
    rewrite (plain_message can_alloc STATUS NO_RESPONDERS_STATUS t t' m s _ Hh (crosses_delivered _ _ Hb')), Ek.
    by apply (route_settles _ rid).
Qed.
End remote.

(** ** Witnesses *)

(** The reference encoder refuses a dict with an arbitrary object in it. *)
Lemma walk_object n vs : ∀ segs items segs',
  walk extract_item vs segs = (items, segs') → ∀ i, vs !! i = Some (PObject n) → items !! i = Some (PObject n, None).
Proof.
  induction vs as [|v vs IH]; intros segs items segs' E i Hi; [done|].
  rewrite walk_cons in E. destruct (extract_item v segs) as [it s1] eqn:Ei.
  destruct (walk extract_item vs s1) as [its s2] eqn:Ew. injection E as <- <-.
  destruct i as [|i]; [|by apply (IH s1 its s2)]. cbn in Hi |- *. injection Hi as ->. by injection Ei as <- _.
Qed.

Lemma reference_object n k es :
  (k, PObject n) ∈ es → ∃ e, encode_message (M := reference_msgpack) (PDict es) = Raise e.
Proof.
  intros Hin.
  assert (Henc : ∀ kvs k', (k', PObject n) ∈ kvs → Reference.enc (PDict kvs) = None).
  { intros kvs k' H. cbn [Reference.enc]. rewrite mapM_None_2; [done|].
    apply Exists_exists. exists (k', PObject n). split; [done|]. by destruct (Reference.enc k'). }
  assert (Hraise : ∀ v, Reference.enc v = None → ∃ e, encode (M := reference_msgpack) v = Raise e).
  { intros v Hv. unfold encode. cbn [packb reference_msgpack]. unfold Reference.packb. rewrite Hv. eauto. }
  unfold encode_message. destruct (extract_dict es []) as (items & segs & Hw & ->).
  apply list_elem_of_lookup in Hin as [i Hi].
  assert (Hit : items !! i = Some (PObject n, None)).
  { apply (walk_object n _ _ _ _ Hw). by rewrite list_lookup_fmap, Hi. }
  destruct segs; [apply Hraise, (Henc es k); apply list_elem_of_lookup; eauto|].
  assert (Hd : ∃ e, encode (M := reference_msgpack) (default (PDict es)
      (if copied items then Some (PDict (zip es.*1 (items_env items))) else None)) = Raise e).
  { apply Hraise. destruct (copied items); [|apply (Henc es k); apply list_elem_of_lookup; eauto].
    apply (Henc _ k), list_elem_of_lookup. exists i. apply lookup_zip_Some. unfold items_env.
    by rewrite !list_lookup_fmap, Hi, Hit. }
  destruct Hd as [e ->]. by exists e.
Qed.

(** A handler that returns its first argument, one that returns an object of
    its own. *)
Definition echo : handler :=
  Handler false false false false (λ args, Ok (OValue (default PNone (head args)))).
Definition opaque_result : handler := Handler false false false false (λ _, Ok (OValue (PObject 0))).
Definition open_world : world := World (λ _, true) None (λ _, None).
Definition plain_str (_ : pyval) : string := "".
Definition no_cleanup (_ : Z) : option exn := None.
Definition one_call : calls := (call_once "c.1" "rpc.cam.echo" 30000 new_calls).2.
Definition bytes_of (v : pyval) : list byte :=
  match encode_message v with Ok b => b | Raise _ => [] end.
Definition echo_answer : pyval := PDict [(PStr "id", PStr "c.1"); (PStr "result", PInt 5)].

Lemma call_end_to_end_witness :
  cs_futures (Calls.step (λ _, true) "Status" "503" one_call
    (EMessage 0 0 (Msg "rpc.reply.c.1" "" None (bytes_of echo_answer)))) !! 0%Z = Some (FResult (PInt 5)).
Proof.
  destruct (call_end_to_end plain_str open_world no_cleanup (λ _, true) "Status" "503" one_call "c.1"
      (Pending 0 (Some "rpc.cam.echo") None) [PInt 5] false (bytes_of (call_message "c.1" [PInt 5] false))
      new_responder 0 echo ["echo"] false 0 0 0 0 (Msg "rpc.reply.c.1" "" None (bytes_of echo_answer)))
    as (message & _ & _ & H);
    [reflexivity|reflexivity|discriminate|split_and!; vm_compute; reflexivity|reflexivity|reflexivity|
     split_and!; vm_compute; reflexivity|reflexivity|].
  exact H.
Defined.

Definition object_request : list (pyval * pyval) :=
  [(PStr "id", PStr "c.1"); (PStr "params", PList [])].

Lemma unencodable_unanswered_witness :
  r_sent (dispatch_step plain_str open_world no_cleanup new_responder
    (DMessage 0 opaque_result ["get"] false 0 0 (PDict object_request))) = [].
Proof.
  apply (unencodable_unanswered plain_str open_world no_cleanup 0 opaque_result ["get"] false 0 0 "c.1"
    object_request (PList []) new_responder ltac:(reflexivity) ltac:(reflexivity) (PObject 0)); [reflexivity|].
  intros es. apply reference_object.
Defined.

(** A pull iterator of one registration next to another's. *)
Definition two_numbers : handler :=
  Handler true false false false (λ _, Ok (OAsyncIter (Source (steps_of [PInt 1; PInt 2] Stop) true (Some None)))).
Definition pull_iterator_request (id : string) : pyval :=
  PDict [(PStr "id", PStr id); (PStr "params", PDict [(PStr "__pullIterator", PBool true)])].
Definition two_iterators : list dispatch_event :=
  [DMessage 0 two_numbers ["numbers"] false 0 0 (pull_iterator_request "a");
   DMessage 1 two_numbers ["numbers"] false 0 0 (pull_iterator_request "b"); DPull 0 (Some (PStr "next"))].

Lemma registration_cleanup_witness :
  let r := foldl (dispatch_step plain_str open_world no_cleanup) new_responder two_iterators in
  let r' := dispatch_step plain_str open_world no_cleanup r (DCleanup 0) in
  od_get "a" (r_iterators r') = None ∧ od_get "b" (r_iterators r') = Some 1%Z.
Proof.
  pose proof (registration_cleanup plain_str open_world no_cleanup two_iterators 0) as H.
  cbv zeta in H |- *. set (r := foldl _ _ _) in *.
  assert (Ho : owned 0 r = (["a"], [])) by (vm_compute; reflexivity).
  rewrite Ho in H. destruct H as (H1 & _ & H2 & _). split.
  - refine (proj1 (H1 "a" 0%Z _ _)); [apply list_elem_of_here|vm_compute; reflexivity].
  - refine (proj1 (H2 "b" 1%Z _ _)); [by intros ?%list_elem_of_singleton|vm_compute; reflexivity].
Defined.
