(* ===== verification/Callbacks.v ===== *)
(** * A callback subscription from end to end (handler.py, client.py)

    [call_with_callback] on one side and the session of
    [handle_callback_request] on the other. The callback subject keeps the
    order of its messages, and may lose some; the cancel message goes the other
    way. *)

From S2P Require Import Prelude Text PyVal Dict Errors MsgPack Codec CodecRoundtrip Chunking ChunkingManager Ids Transport Calls Handlers PullProps ClientStreams RemoteCall.

Record callback_pair := CallbackPair {
  (** the server's events so far, and its session *)
  cp_events : list callback_event;
  cp_server : callback_session;
  (** messages on the callback subject; cancel messages *)
  cp_wire : list (list byte);
  cp_cancels : nat;
  (** the values the client's callback was called with *)
  cp_called : list pyval;
  cp_subscribed : bool;
  (** the client has published its cancel message *)
  cp_told : bool;
  (** a message of either direction was lost *)
  cp_lost : bool }.

Definition new_pair (subject : string) : callback_pair :=
  CallbackPair [] (CallbackSession false [Subscribed (subject +:+ ".cancel")]) [] 0 [] true false false.

Section pair.
Context {M : MsgPack} {laws : MsgPackLaws M}.
Variables (subject id : string).
Variable has_on_finished : bool.
Variable handler_cleanup : option (option exn).
Abbreviation server_step := (callback_step subject id has_on_finished handler_cleanup).

(** ** Steps *)

(** The server's session after [e], with the messages it published as bytes. *)
Definition server_event (e : callback_event) (bs : list (list byte)) (s : callback_pair) : callback_pair :=
  CallbackPair (cp_events s ++ [e]) (server_step (cp_server s) e) (cp_wire s ++ bs) (cp_cancels s) (cp_called s)
    (cp_subscribed s) (cp_told s) (cp_lost s).
(** The client's subscription gets a message; what the callback raises is
    printed. *)
Definition client_receive (v : pyval) (s : callback_pair) : callback_pair :=
  if cp_subscribed s then
    match handle_callback_msg v with
    | Some x => CallbackPair (cp_events s) (cp_server s) (cp_wire s) (cp_cancels s) (cp_called s ++ [x])
                  (cp_subscribed s) (cp_told s) (cp_lost s)
    | None => s
    end
  else s.
Definition set_wire (l : list (list byte)) (s : callback_pair) : callback_pair :=
  CallbackPair (cp_events s) (cp_server s) l (cp_cancels s) (cp_called s) (cp_subscribed s) (cp_told s) (cp_lost s).
Definition set_cancels (n : nat) (s : callback_pair) : callback_pair :=
  CallbackPair (cp_events s) (cp_server s) (cp_wire s) n (cp_called s) (cp_subscribed s) (cp_told s) (cp_lost s).
Definition set_lost (s : callback_pair) : callback_pair :=
  CallbackPair (cp_events s) (cp_server s) (cp_wire s) (cp_cancels s) (cp_called s) (cp_subscribed s) (cp_told s) true.
(** The function that [call_with_callback] returned; whether its publish went
    through. *)
Definition client_unsubscribe (published : bool) (s : callback_pair) : callback_pair :=
  CallbackPair (cp_events s) (cp_server s) (cp_wire s) (if published then S (cp_cancels s) else cp_cancels s)
    (cp_called s) false (cp_told s || published) (cp_lost s).

(** What an event publishes. *)
Definition emission (e : callback_event) : list pyval := match sent_value id e with Some v => [v] | None => [] end.

Inductive pair_step : callback_pair → callback_pair → Prop :=
| cp_emit s e bs :
    e ≠ CbCancel → Forall2 crosses (emission e) bs → pair_step s (server_event e bs s)
| cp_deliver s b l v :
    cp_wire s = b :: l → decode_message b = Ok v → pair_step s (client_receive v (set_wire l s))
| cp_lose s l1 b l2 :
    cp_wire s = l1 ++ b :: l2 → pair_step s (set_lost (set_wire (l1 ++ l2) s))
| cp_unsubscribe s published :
    cp_subscribed s = true → pair_step s (client_unsubscribe published s)
| cp_cancel s n :
    cp_cancels s = S n → pair_step s (server_event CbCancel [] (set_cancels n s))
| cp_lose_cancel s n :
    cp_cancels s = S n → pair_step s (set_lost (set_cancels n s)).

(** ** The invariant *)

(** The value that an event's wrapper sends. *)
Definition emitted (e : callback_event) : option pyval :=
  match e with CbValue true v | CbSyncValue EventLoop true v => Some v | _ => None end.

Lemma emission_eq e : emission e = callback_msg id <$> option_list (emitted e).
Proof. by destruct e as [[] v|[] [] v| |]. Qed.

(** The messages on the wire are these values, in this order. *)
Definition carries (vs : list pyval) (wire : list (list byte)) : Prop :=
  Forall2 (λ v b, decode_message b = Ok (delivered (callback_msg id v))) vs wire.

Record pair_inv (s : callback_pair) : Prop := {
  pi_server : cp_server s = foldl server_step (CallbackSession false [Subscribed (subject +:+ ".cancel")]) (cp_events s);
  (** what was received, and what is on its way *)
  pi_values : ∃ vs, carries vs (cp_wire s) ∧
    cp_called s ++ (delivered <$> vs) `sublist_of` delivered <$> omap emitted (cp_events s) ∧
    (cp_subscribed s = true → cp_lost s = false →
     cp_called s ++ (delivered <$> vs) = delivered <$> omap emitted (cp_events s));
  (** a client that told the server to stop *)
  pi_told : cp_told s = true → cp_lost s = false →
    0 < cp_cancels s ∨ existsb ends_session (cp_events s) = true }.

Lemma carries_emission e bs : Forall2 crosses (emission e) bs → carries (option_list (emitted e)) bs.
Proof.
  rewrite emission_eq, Forall2_fmap_l. intros H. eapply Forall2_impl; [exact H|].
  intros v b Hb. by apply crosses_delivered.
Qed.

Lemma omap_snoc {A B} (f : A → option B) l a : omap f (l ++ [a]) = omap f l ++ option_list (f a).
Proof. rewrite omap_app. cbn. by destruct (f a). Qed.

(** The server publishes: what is new is on its way. *)
Lemma emit_values s e bs :
  Forall2 crosses (emission e) bs → pair_inv s →
  let s' := server_event e bs s in
  cp_server s' = foldl server_step (CallbackSession false [Subscribed (subject +:+ ".cancel")]) (cp_events s') ∧
  ∃ vs, carries vs (cp_wire s') ∧
    cp_called s' ++ (delivered <$> vs) `sublist_of` delivered <$> omap emitted (cp_events s') ∧
    (cp_subscribed s' = true → cp_lost s' = false →
     cp_called s' ++ (delivered <$> vs) = delivered <$> omap emitted (cp_events s')).
Proof.
  intros He [H1 (vs & Hw & Hl & Hf) _]. cbn. split; [by rewrite foldl_app, H1|].
  exists (vs ++ option_list (emitted e)). rewrite omap_snoc, !fmap_app, app_assoc. split_and!.
  - apply Forall2_app; [done|]. by apply carries_emission.
  - by apply sublist_app.
  - intros Hs Hn. by rewrite Hf.
Qed.

Lemma pair_step_inv s s' : pair_step s s' → pair_inv s → pair_inv s'.
Proof.
  intros Hstep Hs. destruct Hstep as [s e bs _ He|s b l v Hw Hd|s l1 b l2 Hw|s published Hsub|s n Hn|s n Hn].
  - pose proof (emit_values s e bs He Hs) as [H1 H2]. split; [done|done|]. cbn. intros Ht Hl.
    rewrite existsb_app, orb_true_iff. destruct (pi_told s Hs Ht Hl); auto.
  - destruct Hs as [H1 (vs & Hc & Hl & Hf) H3]. rewrite Hw in Hc. apply Forall2_cons_inv_r in Hc as (x & vs' & Hx & Hc & ->).
    assert (v = delivered (callback_msg id x)) as -> by congruence. unfold client_receive. cbn [cp_subscribed set_wire].
    change (handle_callback_msg (delivered (callback_msg id x))) with (Some (delivered x)).
    destruct (cp_subscribed s) eqn:Es; (split; [done| |done]); exists vs'; (split; [done|]); cbn.
    + rewrite <- app_assoc. by split.
    + split; [|by rewrite Es]. etrans; [|exact Hl]. apply sublist_app; [done|]. by apply sublist_cons.
  - destruct Hs as [H1 (vs & Hc & Hl & Hf) H3]. rewrite Hw in Hc.
    apply Forall2_app_inv_r in Hc as (v1 & v2' & Hc1 & Hc2 & ->).
    apply Forall2_cons_inv_r in Hc2 as (x & v2 & _ & Hc2 & ->). split; [done| |done].
    exists (v1 ++ v2). split_and!; [by apply Forall2_app| |done]. cbn. etrans; [|exact Hl].
    rewrite !fmap_app. apply sublist_app; [done|]. apply sublist_app; [done|]. by apply sublist_cons.
  - destruct Hs as [H1 (vs & Hc & Hl & Hf) H3]. split; [done|by exists vs|]. cbn. intros Ht Hn.
    destruct published; [left; lia|]. apply H3; [|done]. by rewrite orb_false_r in Ht.
  - destruct Hs as [H1 H2 H3]. pose proof (emit_values s CbCancel [] ltac:(constructor) (Build_pair_inv _ H1 H2 H3)) as [H4 H5].
    split; [done|done|]. cbn. intros _ _. right. rewrite existsb_app. cbn. by rewrite orb_true_r.
  - destruct Hs as [H1 (vs & Hc & Hl & Hf) H3]. split; [done|by exists vs|done].
Qed.

Lemma pair_reachable s : rtc pair_step (new_pair subject) s → pair_inv s.
Proof.
  intros Hr. assert (Hn : pair_inv (new_pair subject)).
  { split; [done| |done]. exists []. split_and!; [constructor|done|done]. }
  induction Hr; eauto using pair_step_inv.
Qed.

End pair.

(** ** Witness *)

Definition emitted_bytes (v : pyval) : list byte := bytes_of (callback_msg "c.1" v).
Ltac demo_emit v :=
  eapply rtc_l; [apply (cp_emit "rpc.cb.c.1" "c.1" true (Some None) _ (CbValue true v) [emitted_bytes v]);
    [done|apply Forall2_cons; split; [split_and!; vm_compute; reflexivity|constructor]]|].
Ltac demo_receive v :=
  eapply rtc_l; [apply (cp_deliver "rpc.cb.c.1" "c.1" true (Some None) _ (emitted_bytes v) [] (callback_msg "c.1" v));
    [reflexivity|vm_compute; reflexivity]|].

