(* ===== verification/System.v ===== *)
(** * Many callers, one server (client.py)

    Any number of clients call the methods of one serving client over a
    network that loses, reorders, repeats and misdelivers messages, while
    their timers fire, their tasks are cancelled and their connections are
    torn down. Whatever happens, a call ends with an answer to itself. *)

From S2P Require Import Prelude Text PyVal Dict Errors MsgPack Codec CodecRoundtrip Chunking ChunkingManager Ids Transport Calls CallsFrame CallsSpec Handlers Dispatch DispatchSpec DispatchProps RemoteCall.

Record issued_call := IssuedCall {
  rq_subject : string;
  rq_id : string;
  rq_args : list pyval;
  rq_discover : bool }.

Record system := System {
  (** the books of each client *)
  sy_clients : gmap string calls;
  sy_server : responder;
  (** every message that was ever on the wire *)
  sy_requests : list (string * list byte);
  sy_responses : list msg;
  (** the calls made so far, by client and number, and every request id in use *)
  sy_issued : gmap (string * Z) issued_call;
  sy_ids : gset string;
  (** the calls served so far *)
  sy_served : nat }.

Definition new_system : system := System ∅ new_responder [] [] ∅ ∅ 0.
Definition books_of (c : string) (s : system) : calls := default new_calls (sy_clients s !! c).
Definition set_client (c : string) (x : calls) (s : system) : system :=
  System (<[c := x]> (sy_clients s)) (sy_server s) (sy_requests s) (sy_responses s) (sy_issued s) (sy_ids s)
         (sy_served s).

Section system.
Context {M : MsgPack} {laws : MsgPackLaws M}.
Variable py_str : pyval → string.
Variable w : world.
Variable cleanup_raises : Z → option exn.
Variable can_alloc : Z → bool.
Variables STATUS NO_RESPONDERS_STATUS : string.
(** The handler of a subject may behave differently each time it is called. *)
Variable h : string → nat → handler.
Variable is_async : string → bool.
Variable names : list string.

Abbreviation call_step := (Calls.step can_alloc STATUS NO_RESPONDERS_STATUS).
Abbreviation serve_step := (dispatch_step py_str w cleanup_raises).

(** ** Steps *)

(** The network may carry any of the messages [sent] that encode. *)
Definition on_wire (sent : list (string * pyval)) (x : msg) : Prop :=
  m_headers x = None ∧ ∃ v, (m_subject x, v) ∈ sent ∧ crosses v (m_data x).
Definition published (r r' : responder) : list (string * pyval) := drop (length (r_sent r)) (r_sent r').

(** The server's state after [e], with the messages the network takes. *)
Definition set_server (e : dispatch_event) (xs : list msg) (ids : gset string) (served : nat) (s : system) : system :=
  System (sy_clients s) (serve_step (sy_server s) e) (sy_requests s) (sy_responses s ++ xs) (sy_issued s)
         (sy_ids s ∪ ids) served.
Definition emitted (e : dispatch_event) (xs : list msg) (s : system) : Prop :=
  Forall (on_wire (published (sy_server s) (serve_step (sy_server s) e))) xs.

Inductive sys_step : system → system → Prop :=
(** a client calls, with a fresh id *)
| sys_call s c q timeout b :
    startswith "rpc." (rq_subject q) = true → rq_id q ∉ sy_ids s →
    crosses (call_message (rq_id q) (rq_args q) (rq_discover q)) b →
    classify py_str (rq_id q) (PList (delivered <$> rq_args q)) =
      Ok (NormalRequest (PList (delivered <$> rq_args q))) →
    sys_step s (System
      (<[c := call_step (books_of c s) (ECall (rq_id q) (rq_subject q) timeout)]> (sy_clients s)) (sy_server s)
      (sy_requests s ++ [(rq_subject q, b)]) (sy_responses s)
      (<[(c, cs_next (books_of c s)) := q]> (sy_issued s)) ({[rq_id q]} ∪ sy_ids s) (sy_served s))
(** the server serves a call, again perhaps *)
| sys_serve s subject b message reg now now' xs :
    (subject, b) ∈ sy_requests s → decode_message b = Ok message →
    let e := DMessage reg (h subject (sy_served s)) names (is_async subject) now now' message in
    emitted e xs s → sys_step s (set_server e xs ∅ (S (sy_served s)) s)
(** it serves a message with an id of another kind of request *)
| sys_other s reg f ns a now now' message id xs :
    message_id message = Ok id → (∀ k q, sy_issued s !! k = Some q → rq_id q ≠ id) →
    let e := DMessage reg f ns a now now' message in
    emitted e xs s → sys_step s (set_server e xs {[id]} (sy_served s) s)
(** its sessions run, it cleans up *)
| sys_server s e :
    (∀ reg f ns a now now' message, e ≠ DMessage reg f ns a now now' message) →
    sys_step s (set_server e [] ∅ (sy_served s) s)
(** a client gets a response, its own or not, or a no-responder status *)
| sys_deliver s c now now' x :
    x ∈ sy_responses s → sys_step s (set_client c (call_step (books_of c s) (EMessage now now' x)) s)
| sys_status s c now now' x :
    is_no_responders STATUS NO_RESPONDERS_STATUS x = true →
    sys_step s (set_client c (call_step (books_of c s) (EMessage now now' x)) s)
(** a timer fires, a task is cancelled, a publish fails, a teardown runs ... *)
| sys_local s c e :
    local_event e = true → sys_step s (set_client c (call_step (books_of c s) e) s).

(** ** What a call may end with *)

(** The [k]-th invocation of the handler, on the arguments of [q]. *)
Definition invoked (q : issued_call) (k : nat) : future :=
  local_call py_str (h (rq_subject q) k) (is_async (rq_subject q)) (rq_discover q) names (rq_args q).
Definition caller_error (e : exn) : Prop :=
  (∃ t, e = timeout_error t) ∨ (∃ subject, e = NoRespondersError subject) ∨ e = connection_closed.
(** What made the server give up on a value. *)
Definition unsendable (e : exn) : Prop :=
  (∃ t, publish_at w t = Some e) ∨ (∃ v, encode_message v = Raise e).

Definition explains (served : nat) (q : issued_call) (o : future) : Prop :=
  match o with
  | FPending | FCancelled => True
  | FResult _ => ∃ k, k < served ∧ invoked q k = o
  | FError e =>
      caller_error e ∨ (∃ k, k < served ∧ invoked q k = o) ∨
      (∃ k v e', k < served ∧ invoked q k = FResult v ∧ unsendable e' ∧
                 e = RPCError (delivered_error (remote_error py_str e')))
  end.

Lemma explains_le m n q o : m ≤ n → explains m q o → explains n q o.
Proof.
  intros Hle. destruct o as [|v|e|]; cbn; try done.
  - intros (k & Hk & H). exists k. split; [lia|done].
  - intros [H|[(k & Hk & H)|(k & v & e' & Hk & H)]]; [by left|right; left|right; right].
    + exists k. split; [lia|done].
    + exists k, v, e'. split; [lia|done].
Qed.

(** ** What the server publishes *)

(** Whatever the caller makes of the response [v] is explained. *)
Definition explained (served : nat) (q : issued_call) (v : pyval) : Prop :=
  ∀ kvs o, delivered v = PDict kvs → response_outcome kvs = Ok o → explains served q o.

Lemma error_response e kvs kvs' o :
  dict_lookup "error" kvs = Some (format_error_dict py_str e) →
  delivered (PDict kvs) = PDict kvs' → response_outcome kvs' = Ok o →
  o = FError (RPCError (delivered_error (remote_error py_str e))).
Proof.
  intros Hl Hd. destruct (delivered_lookup kvs) as (kvs1 & E & H). rewrite E in Hd. injection Hd as ->.
  unfold response_outcome. rewrite H, Hl. cbn [fmap option_fmap option_map].
  destruct e as [| | | | | | | | | |[? ? ?]|]; by intros [= <-].
Qed.

Lemma publish_sent id r :
  r_sent (publish_response w id r).2 = r_sent r ∨
  r_sent (publish_response w id r).2 = r_sent r ++ [("rpc.reply." +:+ id, PDict (r_response r))].
Proof.
  rewrite publish_response_eq. destruct (encode_message _); [|by left].
  destruct (publish_at w (r_time r)); [by left|by right].
Qed.
Lemma try_publish_sent id r :
  let r' := (try_except (publish_response w id) (λ _, mret tt) r).2 in
  r_sent r' = r_sent r ∨ r_sent r' = r_sent r ++ [("rpc.reply." +:+ id, PDict (r_response r))].
Proof.
  unfold try_except. pose proof (publish_sent id r) as H. by destruct (publish_response w id r) as [[[]|e] r'].
Qed.
Lemma publish_raises id r e r' : publish_response w id r = (Raise e, r') → unsendable e ∧ r_sent r' = r_sent r.
Proof.
  rewrite publish_response_eq. destruct (encode_message _) as [b|e1] eqn:Ee.
  - destruct (publish_at w (r_time r)) as [e1|] eqn:Ew; [|done]. intros [= <- <-]. split; [left; eauto|done].
  - intros [= <- <-]. split; [right; eauto|done].
Qed.

Lemma answer_error_sent id e r :
  let r' := (answer_error py_str w id names e r).2 in
  r_sent r' = r_sent r ∨
  ∃ kvs, dict_lookup "error" kvs = Some (format_error_dict py_str e) ∧
    r_sent r' = r_sent r ++ [("rpc.reply." +:+ id, PDict kvs)].
Proof.
  unfold answer_error. rewrite pm_bind_eq. cbn [modify]. rewrite pm_bind_eq.
  set (r1 := set_response (dict_set "error" _) r).
  assert (H1 : dict_lookup "error" (r_response r1) = Some (format_error_dict py_str e)) by apply dict_lookup_set.
  match goal with |- context [?m r1] => assert (H2 : ∃ r2, m r1 = (Ok tt, r2) ∧ r_sent r2 = r_sent r1 ∧
    dict_lookup "error" (r_response r2) = Some (format_error_dict py_str e)) end.
  { match goal with |- context [if ?b then _ else _] => destruct b end; [|by exists r1].
    eexists. split; [done|]. split; [done|]. cbn [r_response set_response]. by rewrite dict_lookup_set_ne. }
  destruct H2 as (r2 & -> & E2 & H2). change (r_sent r1) with (r_sent r) in E2.
  destruct (try_publish_sent id r2) as [->| ->]; [by left|right]. rewrite E2. by eexists.
Qed.

(** A call is answered with what its handler did, or why its value could not
    be sent. *)
Lemma serve_explained q k reg now now' r :
  classify py_str (rq_id q) (PList (delivered <$> rq_args q)) =
    Ok (NormalRequest (PList (delivered <$> rq_args q))) →
  let message := PDict (arrived (rq_id q) (rq_args q) (rq_discover q)) in
  let r' := serve_step r (DMessage reg (h (rq_subject q) k) names (is_async (rq_subject q)) now now' message) in
  ∃ new, r_sent r' = r_sent r ++ new ∧ ∀ x, x ∈ new → explained (S k) q x.2.
Proof.
  intros Hc message r'.
  pose proof (normal_eq py_str w cleanup_raises reg (h (rq_subject q) k) names (is_async (rq_subject q)) now now'
    (rq_id q) (arrived (rq_id q) (rq_args q) (rq_discover q)) (PList (delivered <$> rq_args q)) r
    ltac:(done)) as E. fold r' in E. specialize (E ltac:(by destruct (rq_discover q))).
  destruct (answer_outcome py_str (rq_id q) (h (rq_subject q) k) (is_async (rq_subject q)) names now now'
    (rq_args q) (rq_discover q)) as (kvs & Ek & _ & Eo). fold (invoked q k) in Eo.
  assert (Hx : explained (S k) q (answer py_str (rq_id q) (h (rq_subject q) k) (is_async (rq_subject q)) names now now'
                                    (arrived (rq_id q) (rq_args q) (rq_discover q)))).
  { intros kvs' o Ed Er. rewrite Ek in Ed. injection Ed as <-. rewrite Eo in Er. injection Er as <-.
    assert (Hk : ∃ k', k' < S k ∧ invoked q k' = invoked q k) by (exists k; split; [lia|done]).
    destruct (invoked q k) eqn:Ei; cbn; auto. }
  assert (H0 : ∀ r1, r_sent r' = r_sent r1 → r_sent r1 = r_sent r →
            ∃ new, r_sent r' = r_sent r ++ new ∧ ∀ x, x ∈ new → explained (S k) q x.2).
  { intros r1 -> ->. exists []. rewrite app_nil_r. by split; [|intros x ?%elem_of_nil]. }
  assert (H1 : ∀ s v, r_sent r' = r_sent r ++ [(s, v)] → explained (S k) q v →
            ∃ new, r_sent r' = r_sent r ++ new ∧ ∀ x, x ∈ new → explained (S k) q x.2).
  { intros s v -> Hv. eexists. split; [done|]. by intros x ->%list_elem_of_singleton. }
  unfold answer in Hx. destruct (outcome _ _ _) as [v|e] eqn:Eout.
  - set (r1 := set_response _ r) in E. destruct (publish_response w (rq_id q) r1) as [[[]|e] r2] eqn:Ep.
    + pose proof (publish_sent (rq_id q) r1) as Hs. rewrite Ep in Hs. cbn [snd] in Hs. rewrite <- E in Hs.
      destruct Hs as [Hs|Hs]; [by apply (H0 r1)|by eapply H1].
    + apply publish_raises in Ep as [Hu E2]. change (r_sent r1) with (r_sent r) in E2.
      pose proof (answer_error_sent (rq_id q) e r2) as Hs. rewrite <- E, E2 in Hs.
      destruct Hs as [Hs|(es & He & Hs)]; [by apply (H0 r)|]. eapply H1; [done|]. intros kvs' o Ed Er.
      rewrite (error_response e es kvs' o He Ed Er). right. right.
      exists k, (returned (rq_discover q) names v), e. split_and!; [lia| |done..].
      unfold invoked. by rewrite (local_call_outcome py_str (rq_id q)), Eout.
  - pose proof (try_publish_sent (rq_id q) (set_response (λ _, failure py_str (rq_id q) names
      (arrived (rq_id q) (rq_args q) (rq_discover q)) e) r)) as Hs. cbv zeta in Hs. rewrite <- E in Hs.
    destruct Hs as [Hs|Hs]; [by apply (H0 r)|by eapply H1].
Qed.

(** ** The invariant *)

(** The books of client [c] hold the calls it made, and what explains their
    outcomes. *)
Record books_ok (issued : gmap (string * Z) issued_call) (served : nat) (c : string) (s : calls) : Prop := {
  bo_pending : ∀ rid p, (rid, p) ∈ cs_pending s → ∃ q, issued !! (c, p_call p) = Some q ∧ rq_id q = rid;
  bo_future : ∀ n o, cs_futures s !! n = Some o → ∃ q, issued !! (c, n) = Some q ∧ explains served q o;
  bo_next : ∀ n q, issued !! (c, n) = Some q → (n < cs_next s)%Z }.

(** A call on the wire, a response on the wire. *)
Definition request_ok (issued : gmap (string * Z) issued_call) (x : string * list byte) : Prop :=
  ∃ k q, issued !! k = Some q ∧ x.1 = rq_subject q ∧
    decode_message x.2 = Ok (PDict (arrived (rq_id q) (rq_args q) (rq_discover q))) ∧
    classify py_str (rq_id q) (PList (delivered <$> rq_args q)) =
      Ok (NormalRequest (PList (delivered <$> rq_args q))).
Definition response_ok (issued : gmap (string * Z) issued_call) (ids : gset string) (served : nat) (x : msg) : Prop :=
  m_headers x = None ∧ ∃ v kvs id, decode_message (m_data x) = Ok (delivered v) ∧ delivered v = PDict kvs ∧
    dict_get "id" kvs = PStr id ∧ id ∈ ids ∧
    ∀ k q, issued !! k = Some q → rq_id q = id → explained served q v.

Record system_ok (s : system) : Prop := {
  so_ids : ∀ k q, sy_issued s !! k = Some q → rq_id q ∈ sy_ids s;
  so_inj : ∀ k k' q q', sy_issued s !! k = Some q → sy_issued s !! k' = Some q' → rq_id q = rq_id q' → k = k';
  so_books : ∀ c, books_ok (sy_issued s) (sy_served s) c (books_of c s);
  so_requests : Forall (request_ok (sy_issued s)) (sy_requests s);
  so_responses : Forall (response_ok (sy_issued s) (sy_ids s) (sy_served s)) (sy_responses s) }.

Lemma explained_le m n q v : m ≤ n → explained m q v → explained n q v.
Proof. intros Hle H kvs o Hd Ho. by eapply explains_le, H. Qed.

Lemma books_le issued m n c s : m ≤ n → books_ok issued m c s → books_ok issued n c s.
Proof.
  intros Hle [H1 H2 H3]. split; [done| |done]. intros j o Hj. destruct (H2 j o Hj) as (q & Hq & He).
  exists q. split; [done|]. by eapply explains_le.
Qed.

Lemma response_le issued ids m n x : m ≤ n → response_ok issued ids m x → response_ok issued ids n x.
Proof.
  intros Hle (Hh & v & kvs & id & Hd & Hv & Hid & Hin & He). split; [done|]. exists v, kvs, id.
  split_and!; try done. intros k q Hk Hq. by eapply explained_le, He.
Qed.

(** Nothing but a response needs explaining. *)
Lemma books_stable issued served c :
  stable_with (books_ok issued served c) (λ _, True) (λ o, ∀ q, explains served q o) True.
Proof.
  split; try done; intros s.
  - intros n o [H1 H2 H3] _ Ho Hd. split; cbn; try done. intros j o' Hj.
    destruct (decide (n = j)) as [<-|Hne].
    + rewrite lookup_insert_eq in Hj. injection Hj as <-.
      destruct (H2 n _ (not_done n s Hd)) as (q & Hq & _). exists q. split; [done|apply Ho].
    + rewrite lookup_insert_ne in Hj by done. by apply H2.
  - intros n [H1 H2 H3] _ _. split; cbn; try done. intros j o [_ Hj]%lookup_delete_Some. by apply H2.
  - intros n [H1 H2 H3]. by split.
  - intros rid [H1 H2 H3]. split; cbn; try done. intros r p [_ Hp]%od_elem_del. by apply H1.
  - intros f [H1 H2 H3]. by split.
  - intros m [H1 H2 H3] _. by split.
  - intros hd e [H1 H2 H3]. by split.
Qed.

Lemma books_teardown issued served c : stable_teardown (books_ok issued served c) (λ _, True).
Proof.
  split; try done.
  - by intros s t [H1 H2 H3] _.
  - intros s p ps _ _. by apply Forall_true.
  - intros s [H1 H2 H3]. split; cbn; try done. by intros rid p ?%elem_of_nil.
Qed.

Lemma own_explained served :
  (∀ t q, explains served q (FError (timeout_error t))) ∧ (∀ s q, explains served q (FError (NoRespondersError s))) ∧
  (∀ q, explains served q (FError connection_closed)) ∧ (∀ q, explains served q FCancelled).
Proof. unfold explains, caller_error. split_and!; eauto 6. Qed.

(** A response reaches the call with its id, and explains its outcome. *)
Lemma books_response s c now now' x :
  system_ok s → x ∈ sy_responses s →
  books_ok (sy_issued s) (sy_served s) c (call_step (books_of c s) (EMessage now now' x)).
Proof.
  intros Hs Hx. destruct (so_books s Hs c) as [H1 H2 H3].
  pose proof (so_responses s Hs) as Hr. rewrite Forall_forall in Hr.
  destruct (Hr x Hx) as (Hh & v & kvs & id & Hd & Hv & Hid & _ & He).
  rewrite (plain_message can_alloc STATUS NO_RESPONDERS_STATUS now now' x _ _ Hh Hd), Hv, route_eq, Hid.
  destruct (negb _); [by split|]. destruct (od_get id _) as [p|] eqn:Ep; [|by split].
  destruct (H1 id p (od_get_in _ _ _ Ep)) as (q & Hq & Hqi).
  assert (Hpop : books_ok (sy_issued s) (sy_served s) c (popped id (p_call p) (books_of c s))).
  { split; cbn; try done. intros r p' [_ Hp]%od_elem_del. by apply H1. }
  destruct (future_done _ _) eqn:Ed; [done|]. rewrite pm_bind_eq. cbn [lift].
  destruct (response_outcome kvs) as [o|e] eqn:Eo; [|done].
  destruct (popped_settled ∅ id (p_call p) (books_of c s) o Ed (response_outcome_done _ _ Eo)) as [-> _].
  destruct Hpop as [P1 P2 P3]. split; cbn; try done. intros n o' Hn.
  destruct (decide (p_call p = n)) as [<-|Hne].
  - rewrite lookup_insert_eq in Hn. injection Hn as <-. exists q. split; [done|]. by eapply He.
  - rewrite lookup_insert_ne in Hn by done. by apply H2.
Qed.

Lemma books_of_set c c' x s : books_of c' (set_client c x s) = if decide (c = c') then x else books_of c' s.
Proof.
  unfold books_of, set_client. cbn. destruct (decide (c = c')) as [->|]; [by rewrite lookup_insert_eq|].
  by rewrite lookup_insert_ne.
Qed.

Lemma set_client_ok s c x :
  system_ok s → books_ok (sy_issued s) (sy_served s) c x → system_ok (set_client c x s).
Proof.
  intros [H1 H2 H3 H4 H5] Hx. split; try done. intros c'. cbn. rewrite books_of_set.
  by destruct (decide (c = c')) as [->|].
Qed.

(** The server answers calls with their own outcome. *)
Lemma set_server_ok s e xs ids served :
  system_ok s → sy_served s ≤ served → emitted e xs s →
  (∀ x, x ∈ published (sy_server s) (serve_step (sy_server s) e) →
     ∃ id, answer_to id x ∧ id ∈ sy_ids s ∪ ids ∧
       ∀ k q, sy_issued s !! k = Some q → rq_id q = id → explained served q x.2) →
  system_ok (set_server e xs ids served s).
Proof.
  intros [H1 H2 H3 H4 H5] Hle He Hx. split; cbn; try done.
  - intros k q Hk. apply elem_of_union. left. by eapply H1.
  - intros c. by apply (books_le _ (sy_served s)).
  - apply Forall_app. split.
    + eapply Forall_impl; [exact H5|]. intros x Hr. apply (response_le _ _ (sy_served s)); [done|].
      destruct Hr as (Hh & v & kvs & id & Hd & Hv & Hid & Hin & Hq). split; [done|]. exists v, kvs, id.
      split_and!; try done. set_solver.
    + eapply Forall_impl; [exact He|]. intros x (Hh & v & Hin & Hc). split; [done|].
      destruct (Hx _ Hin) as (id & (kvs & [= _ ->] & Henv & _) & Hid & Hq).
      destruct (delivered_lookup kvs) as (kvs' & Ed & Hl). exists (PDict kvs), kvs', id. split_and!; try done.
      * by apply crosses_delivered.
      * unfold dict_get. rewrite Hl. by rewrite (envelope_id _ _ Henv).
Qed.

Lemma published_app r r' new : r_sent r' = r_sent r ++ new → published r r' = new.
Proof. intros E. unfold published. by rewrite E, drop_app_length. Qed.

(** Other calls are as before when one is added. *)
Lemma issued_insert (issued : gmap (string * Z) issued_call) key q k q' :
  issued !! key = None → <[key := q]> issued !! k = Some q' ↔ k = key ∧ q' = q ∨ issued !! k = Some q'.
Proof.
  intros Hkey. rewrite lookup_insert_Some. split; [intros [[-> ->]|[_ H]]; auto|].
  intros [[-> ->]|H]; [by left|right]. split; [|done]. intros ->. congruence.
Qed.

Lemma books_grow issued key q served c s :
  issued !! key = None → (∀ n, key = (c, n) → (n < cs_next s)%Z) →
  books_ok issued served c s → books_ok (<[key := q]> issued) served c s.
Proof.
  intros Hkey Hn [H1 H2 H3]. split.
  - intros rid p Hp. destruct (H1 rid p Hp) as (q' & Hq & E). exists q'. rewrite issued_insert by done. auto.
  - intros n o Ho. destruct (H2 n o Ho) as (q' & Hq & E). exists q'. rewrite issued_insert by done. auto.
  - intros n q'. rewrite issued_insert by done. intros [[E _]|Hq]; [by apply Hn|by eapply H3].
Qed.

(** The books of the client that makes the call. *)
Lemma books_call issued served c q timeout s :
  startswith "rpc." (rq_subject q) = true → issued !! (c, cs_next s) = None → books_ok issued served c s →
  books_ok (<[(c, cs_next s) := q]> issued) served c (call_step s (ECall (rq_id q) (rq_subject q) timeout)).
Proof.
  intros Hsub Hkey [H1 H2 H3]. unfold Calls.step. cbn [run_event]. rewrite pm_bind_eq.
  unfold call_once. rewrite Hsub. cbn [register_call mret pm_ret snd]. split; cbn.
  - intros rid p [[= -> ->]|Hp]%od_set_elem; [exists q; cbn; split; [apply lookup_insert_eq|done]|].
    destruct (H1 rid p Hp) as (q' & Hq & E). exists q'. rewrite issued_insert by done. auto.
  - intros n o. rewrite lookup_insert_Some. intros [[<- <-]|[_ Ho]]; [exists q; split; [apply lookup_insert_eq|done]|].
    destruct (H2 n o Ho) as (q' & Hq & E). exists q'. rewrite issued_insert by done. auto.
  - intros n q'. rewrite issued_insert by done. intros [[[= ->] _]|Hq]; [lia|]. specialize (H3 n q' Hq). lia.
Qed.

(** A new call gets a number and an id of its own. *)
Lemma call_ok s c q timeout b :
  startswith "rpc." (rq_subject q) = true → rq_id q ∉ sy_ids s →
  crosses (call_message (rq_id q) (rq_args q) (rq_discover q)) b →
  classify py_str (rq_id q) (PList (delivered <$> rq_args q)) =
    Ok (NormalRequest (PList (delivered <$> rq_args q))) →
  system_ok s →
  system_ok (System
      (<[c := call_step (books_of c s) (ECall (rq_id q) (rq_subject q) timeout)]> (sy_clients s)) (sy_server s)
      (sy_requests s ++ [(rq_subject q, b)]) (sy_responses s)
      (<[(c, cs_next (books_of c s)) := q]> (sy_issued s)) ({[rq_id q]} ∪ sy_ids s) (sy_served s)).
Proof.
  intros Hsub Hf Hb Hc Hs. pose proof Hs as [H1 H2 H3 H4 H5].
  assert (Hkey : sy_issued s !! (c, cs_next (books_of c s)) = None).
  { destruct (sy_issued s !! _) as [q'|] eqn:E; [|done]. pose proof (bo_next _ _ _ _ (H3 c) _ _ E). lia. }
  assert (Hfresh : ∀ k q', sy_issued s !! k = Some q' → rq_id q' ≠ rq_id q).
  { intros k q' Hk E. apply Hf. rewrite <- E. by eapply H1. }
  split; cbn.
  - intros k q'. rewrite issued_insert by done. intros [[-> ->]|Hk]; [set_solver|]. apply H1 in Hk. set_solver.
  - intros k k' q1 q2. rewrite !issued_insert by done.
    intros [[-> ->]|Hk] [[-> ->]|Hk'] Hi; [done|by edestruct Hfresh|by edestruct Hfresh|by eapply H2].
  - intros c'. unfold books_of at 2. cbn. destruct (decide (c = c')) as [<-|Hne].
    + rewrite lookup_insert_eq. cbn [default]. by apply books_call.
    + rewrite lookup_insert_ne by done. apply (books_grow _ _ _ _ c' (books_of c' s)); [done|congruence|apply H3].
  - apply Forall_app. split.
    + eapply Forall_impl; [exact H4|]. intros x (k & q' & Hk & Hx). exists k, q'.
      rewrite issued_insert by done. auto.
    + apply Forall_singleton. exists (c, cs_next (books_of c s)), q. split; [apply lookup_insert_eq|].
      split; [done|]. split; [|done]. cbn [snd]. by rewrite (crosses_delivered _ _ Hb), delivered_call.
  - eapply Forall_impl; [exact H5|]. intros x (Hh & v & kvs & id & Hd & Hv & Hid & Hin & He). split; [done|].
    exists v, kvs, id. split_and!; try done; [set_solver|].
    intros k q'. rewrite issued_insert by done. intros [[-> ->]|Hk] Hq; [by subst id|by eapply He].
Qed.

Lemma sys_step_ok s s' : sys_step s s' → system_ok s → system_ok s'.
Proof.
  intros Hst Hs. destruct Hst as [s c q timeout b Hsub Hf Hb Hc|s subject b message reg now now' xs Hin Hd e He
    |s reg f ns a now now' message id xs Hid Hother e He|s e Hne|s c now now' x Hx|s c now now' x Hx|s c e He].
  - by apply call_ok.
  - apply set_server_ok; [done|lia|done|]. pose proof (so_requests s Hs) as Hr. rewrite Forall_forall in Hr.
    destruct (Hr _ Hin) as (k & q & Hk & Esub & Ed & Hc). cbn [fst snd] in *. rewrite Ed in Hd. injection Hd as <-.
    subst subject. destruct (serve_explained q (sy_served s) reg now now' (sy_server s) Hc) as (new & E & Hx).
    destruct (message_answers py_str w cleanup_raises reg (h (rq_subject q) (sy_served s)) names
      (is_async (rq_subject q)) now now' (PDict (arrived (rq_id q) (rq_args q) (rq_discover q))) (sy_server s))
      as (new' & E' & Hx').
    subst e. rewrite (published_app _ _ _ E). rewrite E in E'. apply app_inv_head in E' as <-.
    intros x Hin'. destruct (Hx' x Hin') as (id & Hid & Ha). cbn in Hid. injection Hid as <-.
    exists (rq_id q). split; [done|]. split; [apply elem_of_union; left; by eapply so_ids|].
    intros k' q' Hk' Hq. assert (k' = k) as -> by by eapply so_inj. rewrite Hk in Hk'. injection Hk' as <-.
    by apply Hx.
  - apply set_server_ok; [done|lia|done|].
    destruct (message_answers py_str w cleanup_raises reg f ns a now now' message (sy_server s)) as (new & E & Hx).
    subst e. rewrite (published_app _ _ _ E). intros x Hin. destruct (Hx x Hin) as (id' & Hid' & Ha).
    rewrite Hid in Hid'. injection Hid' as <-. exists id. split; [done|]. split; [set_solver|].
    intros k q Hk Hq. by destruct (Hother k q Hk).
  - assert (E : r_sent (serve_step (sy_server s) e) = r_sent (sy_server s)) by by apply silent_step.
    apply set_server_ok; [done|lia|by apply Forall_nil_2|]. rewrite <- (app_nil_r (r_sent (sy_server s))) in E.
    rewrite (published_app _ _ _ E). by intros x ?%elem_of_nil.
  - apply set_client_ok; [done|]. by apply books_response.
  - apply set_client_ok; [done|]. unfold Calls.step. cbn [run_event]. unfold handle_mux_message. rewrite Hx.
    apply (keeps_route_status _ _ _ _ (books_stable _ _ c) (own_explained _)), so_books, Hs.
  - apply set_client_ok; [done|].
    apply (keeps_local_event can_alloc STATUS NO_RESPONDERS_STATUS _ _ _ _ (books_stable _ _ c) (own_explained _));
      [done..|intros _; apply books_teardown|done|apply so_books, Hs].
Qed.

Lemma new_system_ok : system_ok new_system.
Proof.
  split; try done; [|by apply Forall_nil_2..]. intros c. unfold books_of. cbn. split; try done.
  by intros rid p ?%elem_of_nil.
Qed.

(** C2. No crosstalk. Whatever the network loses, repeats, reorders or
    misdelivers, and whatever timers, cancellations and teardowns do, a call
    of any client ends with what an invocation of its own handler on its own
    arguments gave, with why that value could not be sent, or with an error
    or cancellation of the caller's side: never with the outcome of another
    call, nor with a value the handler did not return. *)
Theorem no_crosstalk s c n o :
  rtc sys_step new_system s → cs_futures (books_of c s) !! n = Some o →
  ∃ q, sy_issued s !! (c, n) = Some q ∧ explains (sy_served s) q o.
Proof.
  intros Hr Hn. assert (Hs : system_ok s).
  { clear Hn. revert Hr. generalize new_system_ok. generalize new_system. intros s0 H0 Hr.
    induction Hr as [s0|s0 s1 s2 H1 _ IH]; [done|]. apply IH. by eapply sys_step_ok. }
  exact (bo_future _ _ _ _ (so_books s Hs c) n o Hn).
Qed.
End system.

(** ** Witness *)

(** Two clients call the same method; each response is delivered to both. *)
Definition echo_request (c : string) (v : pyval) : issued_call := IssuedCall "rpc.cam.echo" (c +:+ ".1") [v] false.
Definition echo_reply (c : string) (v : pyval) : msg :=
  Msg ("rpc.reply." +:+ c +:+ ".1") "" None
      (bytes_of (PDict [(PStr "id", PStr (c +:+ ".1")); (PStr "result", v)])).
Abbreviation demo_step :=
  (sys_step plain_str open_world no_cleanup (λ _, true) "Status" "503" (λ _ _, echo) (λ _, false) ["echo"]).

Ltac demo_call c v :=
  eapply rtc_l; [eapply (sys_call _ _ _ _ _ _ _ _ _ _ c (echo_request c v) 30000
      (bytes_of (call_message (c +:+ ".1") [v] false))); [reflexivity| |
    split_and!; vm_compute; reflexivity|reflexivity]; refine (proj1 (bool_decide_eq_true _) _); vm_compute; reflexivity|].
Ltac demo_serve c v :=
  eapply rtc_l; [eapply (sys_serve _ _ _ _ _ _ _ _ _ _ "rpc.cam.echo"
      (bytes_of (call_message (c +:+ ".1") [v] false)) _ 0%Z 0%Z 0%Z [echo_reply c v]);
    [apply (bool_decide_unpack _); vm_compute; exact I|vm_compute; reflexivity|
     apply Forall_singleton; split; [reflexivity|]; eexists; split;
       [vm_compute; apply list_elem_of_here|split_and!; vm_compute; reflexivity]]|].
Ltac demo_deliver c x i :=
  eapply rtc_l; [eapply (sys_deliver _ _ _ _ _ _ _ _ _ _ c 0%Z 0%Z x);
    apply (list_elem_of_lookup_2 _ i); vm_compute; reflexivity|].

Lemma no_crosstalk_witness :
  ∃ s, cs_futures (books_of "a" s) !! 0%Z = Some (FResult (PInt 5)) ∧
       cs_futures (books_of "b" s) !! 0%Z = Some (FResult (PInt 7)) ∧
       ∃ q, sy_issued s !! ("b", 0%Z) = Some q ∧
         explains plain_str open_world (λ _ _, echo) (λ _, false) ["echo"] (sy_served s) q (FResult (PInt 7)).
Proof.
  assert (H : ∃ s, rtc demo_step new_system s ∧ cs_futures (books_of "a" s) !! 0%Z = Some (FResult (PInt 5)) ∧
                cs_futures (books_of "b" s) !! 0%Z = Some (FResult (PInt 7))).
  { eexists. split.
    - demo_call "a" (PInt 5). demo_call "b" (PInt 7). demo_serve "b" (PInt 7). demo_serve "a" (PInt 5).
      demo_deliver "a" (echo_reply "b" (PInt 7)) 0. demo_deliver "a" (echo_reply "a" (PInt 5)) 1.
      demo_deliver "b" (echo_reply "b" (PInt 7)) 0. demo_deliver "b" (echo_reply "b" (PInt 7)) 0. apply rtc_refl.
    - split; vm_compute; reflexivity. }
  destruct H as (s & Hr & Ha & Hb). exists s. split; [done|]. split; [done|].
  by apply (no_crosstalk plain_str open_world no_cleanup (λ _, true) "Status" "503" (λ _ _, echo) (λ _, false)
    ["echo"] s "b" 0%Z (FResult (PInt 7))).
Defined.
