(* ===== verification/Teardown.v ===== *)
(** * Tearing a client down (client.py [disconnect], [_do_suspend])

    Everything a client has in flight, its calls, the streams and pull
    iterators it consumes and the sessions it serves, and the part of a
    teardown that settles it. The teardown waits for the hooks of service
    calls, and again for the cleanups of the sessions; in between it does not
    wait, and at both points anything else may happen. *)

From S2P Require Import Prelude Text PyVal Dict Errors MsgPack Codec Chunking ChunkingManager Ids Transport Calls CallsFrame CallsSpec Handlers ClientStreams PullProps Dispatch DispatchSpec DispatchRegistry RemoteCall.

(** ** The consumers of streams *)

(** A stream that is no longer registered has ended, and one that has ended
    is done or has its end marker in the queue. *)
Definition consumer_ok (c : consumer) : Prop :=
  (c_registered c = false → c_ended c = true) ∧
  (c_ended c = true → c_done c ≠ None ∨ PNone ∈ c_queue c).
Definition will_finish (c : consumer) : Prop := ∃ n, c_done (Nat.iter n next_value c) ≠ None.

Lemma marked_queue l : PNone ∈ l ++ [PNone].
Proof. apply elem_of_app. right. apply list_elem_of_here. Qed.

Lemma consumer_ok_push v c : consumer_ok c → consumer_ok (on_push v c).
Proof.
  intros [H1 H2]. unfold on_push. destruct (c_ended c) eqn:E; [by split; rewrite ?E|]. split; cbn; [|congruence].
  intros H. specialize (H1 H). congruence.
Qed.
Lemma consumer_ok_marked c : c_ended c = true → PNone ∈ c_queue c → consumer_ok c.
Proof. intros. by split; [|right]. Qed.

Lemma consumer_ok_message id msg c : consumer_ok c → consumer_ok (handle_stream_message id msg c).
Proof.
  intros Hc. unfold handle_stream_message. destruct msg; try done. destruct (negb _); [done|].
  destruct (negb _); [done|]. destruct (is_key "data" _); [by apply consumer_ok_push|].
  destruct (is_key "end" _); [apply consumer_ok_marked; [done|apply marked_queue]|].
  destruct (is_key "error" _); [|done]. destruct (from_dict _); [|done].
  apply consumer_ok_marked; [done|apply marked_queue].
Qed.

Lemma consumer_ok_next c : consumer_ok c → consumer_ok (next_value c).
Proof.
  intros Hc. pose proof Hc as [H1 H2]. unfold next_value. destruct (c_done c) as [r|] eqn:Ed; [exact Hc|].
  assert (Hg : consumer_ok (get_value c)).
  { unfold get_value. destruct (c_queue c) as [|v queue] eqn:Eq; [split; cbn; rewrite ?Ed; auto|].
    unfold take_value. destruct (is_none v) eqn:Ev; [by split; [|left]|]. split; cbn; [done|].
    intros He. destruct (H2 He) as [?|[<-|Hin]%elem_of_cons]; auto. }
  destruct (c_waiting c), (c_error c); try exact Hg. by split; [|left].
Qed.

Lemma consumer_ok_step id c e : consumer_ok c → consumer_ok (stream_step id c e).
Proof.
  intros Hc. destruct e as [msg|subject| | |]; cbn [stream_step].
  - destruct (c_subscribed c); [by apply consumer_ok_message|done].
  - unfold on_no_responders. destruct (c_registered c); [|done]. apply consumer_ok_marked; [done|apply marked_queue].
  - unfold on_disconnect. destruct (c_registered c); [|done]. apply consumer_ok_marked; [done|apply marked_queue].
  - by apply consumer_ok_next.
  - unfold close_stream. pose proof Hc as [H1 H2]. destruct (c_done c) eqn:E; [exact Hc|]. split; [exact H1|by left].
Qed.

(** The consumer gets to the marker. *)
Lemma marked_finishes k : ∀ c, length (c_queue c) = k → PNone ∈ c_queue c → will_finish c.
Proof.
  induction k as [|k IH]; intros c Hk Hin; [by destruct (c_queue c); [apply elem_of_nil in Hin|]|].
  destruct (c_done c) as [r|] eqn:Ed; [exists 0; cbn; congruence|].
  assert (H : c_done (next_value c) ≠ None ∨
    PNone ∈ c_queue (next_value c) ∧ length (c_queue (next_value c)) = k).
  { unfold next_value. rewrite Ed. destruct (c_queue c) as [|v queue] eqn:Eq; [by apply elem_of_nil in Hin|].
    assert (Hg : c_done (get_value c) ≠ None ∨ PNone ∈ c_queue (get_value c) ∧ length (c_queue (get_value c)) = k).
    { unfold get_value. rewrite Eq. unfold take_value. destruct (is_none v) eqn:Ev; [by left|right]. cbn.
      apply elem_of_cons in Hin as [<-|Hin]; [done|]. split; [done|]. by injection Hk. }
    destruct (c_waiting c), (c_error c); try exact Hg. by left. }
  destruct H as [H|[H1 H2]]; [by exists 1|]. destruct (IH _ H2 H1) as [n Hn]. exists (S n).
  by rewrite Nat.iter_succ_r.
Qed.

Lemma consumer_settled id c :
  consumer_ok c → let c' := stream_step id c SDisconnect in c_registered c' = false ∧ will_finish c'.
Proof.
  intros Hc c'. pose proof (consumer_ok_step id c SDisconnect Hc) as [H1 H2]. fold c' in H1, H2.
  assert (Hr : c_registered c' = false)
    by (subst c'; cbn; unfold on_disconnect; by destruct (c_registered c) eqn:E).
  split; [done|]. destruct (H2 (H1 Hr)) as [Hd|Hm]; [by exists 0|by eapply marked_finishes].
Qed.

(** ** The consumers of pull iterators *)

(** The message that ends an iterator. *)
Definition ends (m : list (pyval * pyval)) : Prop :=
  is_key "error" (dict_get "type" m) = true ∧ truthy (dict_get "error" m) = true.
Definition ending (q : puller) : Prop := ∃ m, m ∈ q_queue q ∧ ends m.
Definition puller_ok (q : puller) : Prop := q_registered q = true ∨ q_done q ≠ None ∨ ending q.

Section puller.
Variables (id : string) (callbacks : option (list string)).
Abbreviation step := (puller_step id callbacks).

Lemma process_cases m queue q :
  let q' := process_response id callbacks m queue q in
  q_done q' ≠ None ∨
  ¬ ends m ∧ q_registered q' = q_registered q ∧ q_done q' = q_done q ∧
    (q_queue q' = queue ∨ q' = q ∧ q_callbacks q ≠ []).
Proof.
  cbv zeta. unfold process_response, ends. destruct (is_key "error" _) eqn:Ee.
  - destruct (truthy _) eqn:Et; [left; by destruct (from_dict _)|right]. split; [intros [_ ?]; congruence|]. by auto.
  - assert (Hm : ¬ (false = true ∧ truthy (dict_get "error" m) = true)) by (intros [? _]; congruence).
    destruct (is_key "done" _); [case_bool_decide; [by left|right; by auto 10]|].
    destruct (is_key "value" _); [case_bool_decide|]; right; auto 10.
Qed.

Lemma puller_ok_step q e : puller_ok q → puller_ok (step q e).
Proof.
  intros Hq. destruct e as [msg|text| |msg| |failure|]; cbn [puller_step].
  1-4: destruct (q_registered q) eqn:Er; [|done].
  - left. unfold handle_response. by repeat case_match.
  - left. done.
  - right. right. unfold puller_disconnect, settle_on_disconnect. eexists. cbn. split.
    + apply elem_of_app. right. apply list_elem_of_here.
    + by split.
  - left. unfold handle_cb_msg. by repeat case_match.
  - unfold consume_callback. by destruct (q_callbacks q).
  - unfold advance. destruct (q_done q) as [r|] eqn:Ed; [right; left; congruence|].
    destruct (q_waiting q).
    + destruct (q_queue q) as [|m queue] eqn:Eq; [done|].
      destruct (process_cases m queue q) as [H|(Hm & Hr & Hd & H)]; [by right; left|].
      destruct Hq as [Hq|[Hq|(x & Hx & He)]]; [left; congruence|by rewrite Ed in Hq|].
      right. right. exists x. split; [|done]. destruct H as [E|(E & _)]; [|by rewrite E].
      rewrite E. rewrite Eq in Hx. by apply elem_of_cons in Hx as [->|Hx].
    + destruct failure; [by right; left|]. destruct Hq as [Hq|[Hq|Hq]]; [by left|by rewrite Ed in Hq|by right; right].
  - unfold close_puller. destruct (q_done q) eqn:Ed; [done|]. by right; left.
Qed.

(** The callbacks that came in are processed, then the generator goes on. *)
Definition pull_round (failure : option exn) (q : puller) : puller :=
  step (Nat.iter (length (q_callbacks q)) (λ q, step q QConsume) q) (QAdvance failure).
Definition will_end (failure : option exn) (q : puller) : Prop :=
  ∃ n, q_done (Nat.iter n (pull_round failure) q) ≠ None.

Lemma callbacks_drained n : ∀ q,
  length (q_callbacks q) = n →
  let q' := Nat.iter n (λ q, step q QConsume) q in
  q_callbacks q' = [] ∧ q_queue q' = q_queue q ∧ q_waiting q' = q_waiting q ∧ q_done q' = q_done q.
Proof.
  induction n as [|n IH]; intros q Hn; [cbn; by apply length_zero_iff_nil in Hn|]. rewrite Nat.iter_succ_r.
  assert (E : q_queue (step q QConsume) = q_queue q ∧ q_waiting (step q QConsume) = q_waiting q ∧
              q_done (step q QConsume) = q_done q ∧ length (q_callbacks (step q QConsume)) = n).
  { cbn. unfold consume_callback. destruct (q_callbacks q); [done|]. cbn. by injection Hn. }
  destruct E as (E1 & E2 & E3 & E4). destruct (IH _ E4) as (H1 & H2 & H3 & H4).
  cbv zeta. split_and!; [done|by rewrite H2|by rewrite H3|by rewrite H4].
Qed.

Lemma waiting_round f q m queue :
  q_done q = None → q_waiting q = true → q_queue q = m :: queue →
  q_done (pull_round f q) ≠ None ∨ q_queue (pull_round f q) = queue ∧ ¬ ends m.
Proof.
  intros Hd Hw Hq. unfold pull_round.
  destruct (callbacks_drained _ q eq_refl) as (H1 & H2 & H3 & H4). cbv zeta in *.
  set (q' := Nat.iter _ _ q) in *. clearbody q'. cbn. unfold advance. rewrite H4, Hd, H3, Hw, H2, Hq.
  destruct (process_cases m queue q') as [?|(? & _ & _ & [?|(_ & Hc)])]; auto; done.
Qed.

Lemma idle_round f q :
  q_done q = None → q_waiting q = false →
  q_done (pull_round f q) ≠ None ∨ q_queue (pull_round f q) = q_queue q ∧ q_waiting (pull_round f q) = true.
Proof.
  intros Hd Hw. unfold pull_round. destruct (callbacks_drained _ q eq_refl) as (H1 & H2 & H3 & H4). cbv zeta in *.
  set (q' := Nat.iter _ _ q) in *. clearbody q'. cbn. unfold advance. rewrite H4, Hd, H3, Hw.
  destruct f; [by left|right]. by cbn.
Qed.

Lemma ending_ends f k : ∀ q, length (q_queue q) = k → ending q → will_end f q.
Proof.
  assert (Hmore : ∀ q, will_end f (pull_round f q) → will_end f q).
  { intros q [n Hn]. exists (S n). by rewrite Nat.iter_succ_r. }
  induction k as [|k IH]; intros q Hk (x & Hx & He); [by destruct (q_queue q); [apply elem_of_nil in Hx|]|].
  destruct (q_done q) as [r|] eqn:Ed; [exists 0; cbn; congruence|].
  assert (Hw : ∀ q, q_queue q ≠ [] → length (q_queue q) = S k → x ∈ q_queue q → q_waiting q = true → will_end f q).
  { clear q Hk Hx Ed. intros q _ Hk Hx Hw. destruct (q_done q) as [r|] eqn:Ed; [exists 0; cbn; congruence|].
    destruct (q_queue q) as [|m queue] eqn:Eq; [done|].
    destruct (waiting_round f q m queue Ed Hw Eq) as [H|[H Hm]]; [by exists 1|]. apply Hmore, IH.
    - rewrite H. by injection Hk.
    - exists x. rewrite H. split; [|done]. by apply elem_of_cons in Hx as [->|Hx]. }
  assert (Hne : q_queue q ≠ []) by (intros E; by rewrite E in Hk).
  destruct (q_waiting q) eqn:Ew; [by apply Hw|].
  destruct (idle_round f q Ed Ew) as [H|[H1 H2]]; [by exists 1|]. apply Hmore, Hw; by rewrite ?H1.
Qed.

Lemma puller_settled q :
  puller_ok q → let q' := step q QDisconnect in q_registered q' = false ∧ ∀ f, will_end f q'.
Proof.
  intros Hq q'. pose proof (puller_ok_step q QDisconnect Hq) as H. fold q' in H.
  assert (Hr : q_registered q' = false)
    by (subst q'; cbn; destruct (q_registered q) eqn:E; [unfold puller_disconnect, settle_on_disconnect|done];
        by destruct (q_ended q)).
  split; [done|]. intros f. destruct H as [H|[H|H]]; [congruence|by exists 0|by eapply ending_ends].
Qed.
End puller.

(** ** Everything in flight *)

(** What a teardown waits for. *)
Inductive stage := Hooks | Cleanups.

Record in_flight := InFlight {
  fl_calls : calls;
  (** streams and pull iterators by request id, the latter with the names of
      their callbacks *)
  fl_streams : gmap string consumer;
  fl_pullers : gmap string (option (list string) * puller);
  fl_server : responder;
  fl_stage : option stage }.
Definition new_in_flight : in_flight := InFlight new_calls ∅ ∅ new_responder None.

Definition set_calls (x : calls) (s : in_flight) : in_flight :=
  InFlight x (fl_streams s) (fl_pullers s) (fl_server s) (fl_stage s).
Definition set_server (x : responder) (s : in_flight) : in_flight :=
  InFlight (fl_calls s) (fl_streams s) (fl_pullers s) x (fl_stage s).

(** [handler["end"]()] of every stream handler, and the dict cleared. *)
Definition end_streams (m : gmap string consumer) : gmap string consumer :=
  map_imap (λ id c, Some (stream_step id c SDisconnect)) m.
(** [_settle_pull_iterators] *)
Definition settle_pull_iterators (m : gmap string (option (list string) * puller)) :
    gmap string (option (list string) * puller) :=
  map_imap (λ id x, Some (x.1, puller_step id x.1 x.2 QDisconnect)) m.

Lemma imap_lookup {A} (f : string → A → A) (m : gmap string A) id x :
  map_imap (λ id a, Some (f id a)) m !! id = Some x → ∃ a, m !! id = Some a ∧ x = f id a.
Proof. rewrite map_lookup_imap. destruct (m !! id) as [a|]; [intros [= <-]; eauto|done]. Qed.

Section teardown.
Context {M : MsgPack}.
Variable py_str : pyval → string.
Variable w : world.
Variable cleanup_raises : Z → option exn.
Variable can_alloc : Z → bool.
Variables STATUS NO_RESPONDERS_STATUS : string.
Abbreviation call_step := (Calls.step can_alloc STATUS NO_RESPONDERS_STATUS).
Abbreviation serve_step := (dispatch_step py_str w cleanup_raises).

(** [_cleanup_pending_requests] has come to a hook, or to its end: then the
    consumers are settled at once, and the sessions' cleanups started. *)
Definition settle_in_flight (s : in_flight) : in_flight :=
  match cs_teardown (fl_calls s) with
  | Some _ => InFlight (fl_calls s) (fl_streams s) (fl_pullers s) (fl_server s) (Some Hooks)
  | None => InFlight (fl_calls s) (end_streams (fl_streams s)) (settle_pull_iterators (fl_pullers s))
                     (fl_server s) (Some Cleanups)
  end.
(** The start of [disconnect] and [_do_suspend], and their resumption. *)
Definition start_settling (s : in_flight) : in_flight :=
  settle_in_flight (set_calls (call_step (fl_calls s) ETeardown) s).
Definition resume_settling (s : in_flight) : in_flight :=
  match fl_stage s with
  | Some Hooks => settle_in_flight (set_calls (call_step (fl_calls s) EResume) s)
  | Some Cleanups =>
      InFlight (fl_calls s) (fl_streams s) (fl_pullers s) (serve_step (fl_server s) DDisconnect) None
  | None => s
  end.

Inductive fl_event :=
| FCalls (e : event)
| FOpenStream (id : string)
| FStream (id : string) (e : stream_event)
| FOpenPuller (id : string) (callbacks : option (list string))
| FPuller (id : string) (e : puller_event)
| FServer (e : dispatch_event)
| FTeardown
| FResume.
Definition fl_step (s : in_flight) (e : fl_event) : in_flight :=
  match e with
  | FCalls e => set_calls (call_step (fl_calls s) e) s
  | FOpenStream id =>
      InFlight (fl_calls s) (<[id := new_consumer]> (fl_streams s)) (fl_pullers s) (fl_server s) (fl_stage s)
  | FStream id e =>
      InFlight (fl_calls s) (alter (λ c, stream_step id c e) id (fl_streams s)) (fl_pullers s) (fl_server s)
               (fl_stage s)
  | FOpenPuller id callbacks =>
      InFlight (fl_calls s) (fl_streams s) (<[id := (callbacks, new_puller)]> (fl_pullers s)) (fl_server s)
               (fl_stage s)
  | FPuller id e =>
      InFlight (fl_calls s) (fl_streams s) (alter (λ x, (x.1, puller_step id x.1 x.2 e)) id (fl_pullers s))
               (fl_server s) (fl_stage s)
  | FServer e => set_server (serve_step (fl_server s) e) s
  | FTeardown => start_settling s
  | FResume => resume_settling s
  end.
Definition fl_run (es : list fl_event) (s : in_flight) : in_flight := foldl fl_step s es.

(** The environment of the calls is admissible; one teardown at a time, which
    alone runs the steps of [_cleanup_pending_requests]. *)
Definition fl_admissible (s : in_flight) (e : fl_event) : Prop :=
  match e with
  | FCalls e => admissible can_alloc STATUS NO_RESPONDERS_STATUS (fl_calls s) e ∧ teardown_event e = false
  | FTeardown => fl_stage s = None
  | _ => True
  end.
Fixpoint fl_admissible_run (s : in_flight) (es : list fl_event) : Prop :=
  match es with [] => True | e :: es => fl_admissible s e ∧ fl_admissible_run (fl_step s e) es end.

(** ** The invariant *)

Record in_flight_ok (s : in_flight) : Prop := {
  fo_calls : calls_inv (fl_calls s);
  fo_hooks : fl_stage s = Some Hooks ↔ cs_teardown (fl_calls s) ≠ None;
  fo_streams : map_Forall (λ _, consumer_ok) (fl_streams s);
  fo_pullers : map_Forall (λ _ x, puller_ok x.2) (fl_pullers s);
  fo_server : registry (fl_server s) }.

(** Only the teardown itself sets or resets the request it waits for. *)
Definition same_teardown (t : option (pending * list pending)) (s : calls) : Prop := cs_teardown s = t.
Lemma teardown_kept e s : teardown_event e = false → cs_teardown (call_step s e) = cs_teardown s.
Proof.
  intros He. pose (P := same_teardown (cs_teardown s)).
  assert (St : stable_with P (λ _, True) (λ _, True) True) by by split.
  assert (Hown : (timer → True) ∧ (string → True) ∧ True ∧ True) by done.
  enough (H : keeps P (run_event can_alloc STATUS NO_RESPONDERS_STATUS e)) by by apply (H s).
  destruct (local_event e) eqn:El.
  - apply (keeps_local_event _ _ _ _ _ _ _ St Hown); try done. congruence.
  - destruct e; try done; cbn [run_event].
    + apply keeps_bind; [|intros; apply keeps_ret]. unfold call_once. intros s' Hs. by destruct (startswith _ _).
    + by apply (keeps_message _ _ _ _ _ _ _ St Hown).
    + by apply (keeps_service _ _ _ _ St).
Qed.

Lemma settle_ok s :
  calls_inv (fl_calls s) → map_Forall (λ _, consumer_ok) (fl_streams s) →
  map_Forall (λ _ x, puller_ok x.2) (fl_pullers s) → registry (fl_server s) → in_flight_ok (settle_in_flight s).
Proof.
  intros H1 H2 H3 H4. unfold settle_in_flight. destruct (cs_teardown (fl_calls s)) as [t|] eqn:Et.
  - split; cbn; try done. by rewrite Et.
  - split; cbn; try done; try (by rewrite Et).
    + intros id c (c0 & Hc & ->)%imap_lookup. apply consumer_ok_step. by eapply H2.
    + intros id x (x0 & Hx & ->)%imap_lookup. apply puller_ok_step. by eapply H3.
Qed.

Lemma in_flight_step s e : fl_admissible s e → in_flight_ok s → in_flight_ok (fl_step s e).
Proof.
  intros Ha Hs. pose proof Hs as [H1 H2 H3 H4 H5].
  destruct e as [e|id|id e|id cbs|id e|e| |]; cbn [fl_step fl_admissible] in *.
  - destruct Ha as [Ha Ht]. split; cbn; try done; [by apply inv_step|]. by rewrite teardown_kept.
  - split; cbn; try done. by apply map_Forall_insert_2.
  - split; cbn; try done. intros j c Hc. rewrite lookup_alter_Some in Hc.
    destruct Hc as [(<- & c0 & Hc & ->)|[_ Hc]]; [|by eapply H3]. apply consumer_ok_step. by eapply H3.
  - split; cbn; try done. apply map_Forall_insert_2; [by left|done].
  - split; cbn; try done. intros j x Hx. rewrite lookup_alter_Some in Hx.
    destruct Hx as [(<- & x0 & Hx & ->)|[_ Hx]]; [|by eapply H4]. apply puller_ok_step. by eapply H4.
  - split; cbn; try done. by apply registry_step.
  - apply settle_ok; cbn; try done. apply inv_step; [done|]. cbn.
    destruct (cs_teardown (fl_calls s)); [|done]. assert (fl_stage s = Some Hooks) by by apply H2. congruence.
  - unfold resume_settling. destruct (fl_stage s) as [[|]|] eqn:Es; [| |done].
    + apply settle_ok; cbn; try done. by apply inv_step.
    + split; cbn; try done; [|by apply registry_step]. split; [done|]. intros Ht. by apply H2 in Ht.
Qed.

Lemma in_flight_run es : ∀ s, fl_admissible_run s es → in_flight_ok s → in_flight_ok (fl_run es s).
Proof.
  induction es as [|e es IH]; intros s Ha Hs; [done|]. destruct Ha as [Ha Has]. by apply IH, in_flight_step.
Qed.

Lemma in_flight_new : in_flight_ok new_in_flight.
Proof. split; cbn; try done; [apply inv_new|by apply map_Forall_empty..|apply registry_new]. Qed.

(** ** What a teardown leaves *)

Definition nothing_in_flight (s : in_flight) : Prop :=
  all_settled (fl_calls s) ∧
  (∀ id c, fl_streams s !! id = Some c → c_registered c = false ∧ will_finish c) ∧
  (∀ id callbacks q, fl_pullers s !! id = Some (callbacks, q) →
     q_registered q = false ∧ ∀ failure, will_end id callbacks failure q).

Lemma settle_releases s :
  cs_teardown (fl_calls s) = None → all_settled (fl_calls s) →
  map_Forall (λ _, consumer_ok) (fl_streams s) → map_Forall (λ _ x, puller_ok x.2) (fl_pullers s) →
  nothing_in_flight (settle_in_flight s).
Proof.
  intros Ht Ha Hst Hpl. unfold settle_in_flight. rewrite Ht. split; [done|]. split.
  - intros id c (c0 & Hc & ->)%imap_lookup. eapply consumer_settled, Hst, Hc.
  - intros id cbs q (x & Hx & [= -> ->])%imap_lookup. eapply puller_settled, (Hpl id x Hx).
Qed.

Lemma cleanup_all_spec r :
  registry r → let r' := serve_step r DDisconnect in
  r_iterators r' = [] ∧ r_callbacks r' = [] ∧
  ∀ id n, od_get id (r_iterators r) = Some n ∨ od_get id (r_callbacks r) = Some n → stopped_session r' n.
Proof.
  intros Hr r'. assert (Hr' : r' = (sweep_both py_str w (r_iterators r).*1 (r_callbacks r).*1 r).2).
  { subst r'. unfold dispatch_step. cbn [run_dispatch]. unfold cleanup_all. by rewrite pm_bind_eq. }
  destruct (sweep_both_spec py_str w cleanup_raises (r_iterators r).*1 (r_callbacks r).*1 r Hr) as (r1 & H1 & H2).
  rewrite <- Hr' in H2. clearbody r'.
  assert (Hempty : ∀ (d d' : list (string * Z)), (∀ id, id ∈ d.*1 → od_get id d' = None) →
            (∀ id, id ∉ d.*1 → od_get id d' = od_get id d) → d' = []).
  { intros d d' Hin Hout. destruct d' as [|[k n] d']; [done|].
    assert (Hk : od_get k ((k, n) :: d') = Some n) by (cbn; by rewrite decide_True).
    destruct (decide (k ∈ d.*1)) as [H|H]; [rewrite (Hin k H) in Hk; done|].
    rewrite (Hout k H) in Hk. apply od_get_in in Hk. destruct H. apply list_elem_of_fmap. by exists (k, n). }
  assert (Hcall : ∀ id n, od_get id (r_callbacks r) = Some n → id ∈ (r_callbacks r).*1).
  { intros id n Hn%od_get_in. apply list_elem_of_fmap. by exists (id, n). }
  split_and!.
  - rewrite (sc_iterators _ _ _ H2). apply (Hempty (r_iterators r)); [apply (sw_gone _ _ _ H1)|apply (sw_kept _ _ _ H1)].
  - apply (Hempty (r_callbacks r)); [apply (sc_gone _ _ _ H2)|]. intros id Hid.
    rewrite (sc_kept _ _ _ H2 id Hid). by rewrite (sw_callbacks _ _ _ H1).
  - intros id n [Hn|Hn].
    + unfold stopped_session. rewrite (sc_frame _ _ _ H2 n).
      * apply (sw_stopped _ _ _ H1 id n); [|done]. apply od_get_in in Hn. apply list_elem_of_fmap. by exists (id, n).
      * intros j Hj Hjn. rewrite (sw_callbacks _ _ _ H1) in Hjn. apply od_get_in in Hn, Hjn.
        destruct (rg_it r Hr id n Hn) as (g & wv & p & E & _). by apply (not_callback r id n j g wv p Hr E).
    + apply (sc_stopped _ _ _ H2 id n); [by eapply Hcall|]. by rewrite (sw_callbacks _ _ _ H1).
Qed.

End teardown.

(** ** Witness *)

(** A muxed call and a service call, whose hook is awaited; a stream, a pull
    iterator that waits for its value, and a served iterator. *)
Definition busy : list fl_event :=
  [FCalls (ECall "c.1" "rpc.cam.echo" 30000); FCalls (ECall "c.2" "svc.echo" 30000);
   FOpenStream "c.3"; FStream "c.3" SNext; FOpenPuller "c.4" None; FPuller "c.4" (QAdvance None);
   FServer (DMessage 0 two_numbers ["numbers"] false 0 0 (pull_iterator_request "a")); FTeardown].
Abbreviation busy_step := (fl_step plain_str open_world no_cleanup (λ _, true) "Status" "503").

Abbreviation busy_client := (fl_run plain_str open_world no_cleanup (λ _, true) "Status" "503" busy new_in_flight).
Abbreviation settled_client := (busy_step busy_client FResume).

Lemma busy_admissible :
  fl_admissible_run plain_str open_world no_cleanup (λ _, true) "Status" "503" new_in_flight busy.
Proof. vm_compute. repeat split. Qed.
Lemma busy_hooks : fl_stage busy_client = Some Hooks.
Proof. vm_compute. reflexivity. Qed.
Lemma settled_cleanups : fl_stage settled_client = Some Cleanups.
Proof. vm_compute. reflexivity. Qed.
Lemma settled_iterators : r_iterators (fl_server settled_client) = [("a", 0%Z)].
Proof. vm_compute. reflexivity. Qed.

