(* ===== verification/Connection.v ===== *)
(** * The connection and its subscriptions (client.py)

    [subscribe] registers an entry object; [_nats_subscribe] gives it a
    subscription on the current transport; [suspend] and [disconnect] tear the
    transport down, and [connect] restores the entries on a new one. Every
    [await] of these coroutines is a suspension point: an operation becomes a
    task, and the tasks are resumed in any order. *)

From S2P Require Import Prelude Text PyVal Errors Ids.

(** ** State *)

(** A subscription entry: a mutable object that its closures share. [None] is
    the handler of the muxed reply inbox. *)
Record entry := Entry {
  en_pattern : string;
  en_queue : string;
  en_handler : option Z;
  en_raw : bool;
  en_sub : option Z }.

(** A subscription as the transport [sb_link] was asked for it, for the entry
    with key [sb_entry]. *)
Record subscription := Subscription {
  sb_link : Z;
  sb_entry : Z;
  sb_pattern : string;
  sb_queue : string;
  sb_handler : option Z;
  (** [unsubscribe] was called, or the transport closed it *)
  sb_closed : bool;
  (** [_watch_subscription_end] has added its callback *)
  sb_watched : bool }.

Inductive teardown := Suspend | Disconnect.

(** Where a coroutine is suspended. *)
Inductive task :=
(** [subscribe], after [nc.subscribe] *)
| TSubscribe (key sub : Z)
(** [_connect], dialling; and restoring an entry, with the rest to come *)
| TDial
| TRestore (key sub : Z) (rest : list Z)
(** [suspend] and [disconnect]: settling calls and sessions; unsubscribing an
    entry; closing the transport *)
| TSettle (t : teardown)
| TUnsubscribe (t : teardown) (key : Z) (rest : list Z)
| TClose (t : teardown) (link : Z).

Record conn := Conn {
  (** [self.nc], and the transports that are up *)
  cn_nc : option Z;
  cn_up : gset Z;
  cn_seq : Z;
  (** the entry objects, and the keys of [_subscription_entries] *)
  cn_store : gmap Z entry;
  cn_entries : list Z;
  cn_subs : gmap Z subscription;
  cn_next_sub : Z;
  cn_mux : option Z;
  cn_closed : bool;
  cn_suspending : bool;
  (** suspended coroutines; [_connection_task] *)
  cn_tasks : gmap Z task;
  cn_next_task : Z;
  cn_connecting : option Z }.

Definition new_conn : conn := Conn None ∅ 0 ∅ [] ∅ 0 None false false ∅ 0 None.

Definition set_nc x (s : conn) : conn :=
  Conn x (cn_up s) (cn_seq s) (cn_store s) (cn_entries s) (cn_subs s) (cn_next_sub s) (cn_mux s)
       (cn_closed s) (cn_suspending s) (cn_tasks s) (cn_next_task s) (cn_connecting s).
Definition upd_up f (s : conn) : conn :=
  Conn (cn_nc s) (f (cn_up s)) (cn_seq s) (cn_store s) (cn_entries s) (cn_subs s) (cn_next_sub s) (cn_mux s)
       (cn_closed s) (cn_suspending s) (cn_tasks s) (cn_next_task s) (cn_connecting s).
Definition upd_entries f (s : conn) : conn :=
  Conn (cn_nc s) (cn_up s) (cn_seq s) (cn_store s) (f (cn_entries s)) (cn_subs s) (cn_next_sub s) (cn_mux s)
       (cn_closed s) (cn_suspending s) (cn_tasks s) (cn_next_task s) (cn_connecting s).
Definition upd_entry_store f (s : conn) : conn :=
  Conn (cn_nc s) (cn_up s) (cn_seq s) (f (cn_store s)) (cn_entries s) (cn_subs s) (cn_next_sub s) (cn_mux s)
       (cn_closed s) (cn_suspending s) (cn_tasks s) (cn_next_task s) (cn_connecting s).
Definition upd_subs f (s : conn) : conn :=
  Conn (cn_nc s) (cn_up s) (cn_seq s) (cn_store s) (cn_entries s) (f (cn_subs s)) (cn_next_sub s) (cn_mux s)
       (cn_closed s) (cn_suspending s) (cn_tasks s) (cn_next_task s) (cn_connecting s).
Definition set_mux x (s : conn) : conn :=
  Conn (cn_nc s) (cn_up s) (cn_seq s) (cn_store s) (cn_entries s) (cn_subs s) (cn_next_sub s) x
       (cn_closed s) (cn_suspending s) (cn_tasks s) (cn_next_task s) (cn_connecting s).
Definition set_conn_closed x (s : conn) : conn :=
  Conn (cn_nc s) (cn_up s) (cn_seq s) (cn_store s) (cn_entries s) (cn_subs s) (cn_next_sub s) (cn_mux s)
       x (cn_suspending s) (cn_tasks s) (cn_next_task s) (cn_connecting s).
Definition set_suspending x (s : conn) : conn :=
  Conn (cn_nc s) (cn_up s) (cn_seq s) (cn_store s) (cn_entries s) (cn_subs s) (cn_next_sub s) (cn_mux s)
       (cn_closed s) x (cn_tasks s) (cn_next_task s) (cn_connecting s).
Definition upd_tasks f (s : conn) : conn :=
  Conn (cn_nc s) (cn_up s) (cn_seq s) (cn_store s) (cn_entries s) (cn_subs s) (cn_next_sub s) (cn_mux s)
       (cn_closed s) (cn_suspending s) (f (cn_tasks s)) (cn_next_task s) (cn_connecting s).
Definition set_connecting x (s : conn) : conn :=
  Conn (cn_nc s) (cn_up s) (cn_seq s) (cn_store s) (cn_entries s) (cn_subs s) (cn_next_sub s) (cn_mux s)
       (cn_closed s) (cn_suspending s) (cn_tasks s) (cn_next_task s) x.

(** [self.nc is not None and self.nc.is_connected] *)
Definition is_connected (s : conn) : bool :=
  match cn_nc s with Some l => bool_decide (l ∈ cn_up s) | None => false end.

(** [entry["sub"] = x] *)
Definition set_sub (key : Z) (x : option Z) : conn → conn :=
  upd_entry_store (alter (λ e, Entry (en_pattern e) (en_queue e) (en_handler e) (en_raw e) x) key).
Definition sub_of (key : Z) (s : conn) : option Z := cn_store s !! key ≫= en_sub.

Definition mark_closed (b : subscription) : subscription :=
  Subscription (sb_link b) (sb_entry b) (sb_pattern b) (sb_queue b) (sb_handler b) true (sb_watched b).
Definition mark_watched (b : subscription) : subscription :=
  Subscription (sb_link b) (sb_entry b) (sb_pattern b) (sb_queue b) (sb_handler b) (sb_closed b) true.
Definition closed_sub (n : Z) (s : conn) : bool :=
  match cn_subs s !! n with Some b => sb_closed b | None => false end.

(** ** Operations *)

Section connection.
(** the subjects that [nc.subscribe] accepts *)
Variable accepts : string → bool.
Variable reply_prefix : string.

Definition spawn (x : task) : pm exn conn Z := λ s,
  (Ok (cn_next_task s),
   Conn (cn_nc s) (cn_up s) (cn_seq s) (cn_store s) (cn_entries s) (cn_subs s) (cn_next_sub s) (cn_mux s)
        (cn_closed s) (cn_suspending s) (<[cn_next_task s := x]> (cn_tasks s)) (cn_next_task s + 1)
        (cn_connecting s)).
Definition suspend_at (t : Z) (x : task) : pm exn conn unit := modify (upd_tasks <[t := x]>).
Definition end_task (t : Z) : pm exn conn unit := modify (upd_tasks (delete t)).

(** A new entry object under a fresh key. *)
Definition add_entry (e : entry) : pm exn conn Z := λ s,
  let key := (cn_seq s + 1)%Z in
  (Ok key,
   Conn (cn_nc s) (cn_up s) key (<[key := e]> (cn_store s)) (cn_entries s ++ [key]) (cn_subs s)
        (cn_next_sub s) (cn_mux s) (cn_closed s) (cn_suspending s) (cn_tasks s) (cn_next_task s)
        (cn_connecting s)).

(** [_nats_subscribe] up to its last [await]. *)
Definition nats_subscribe (key : Z) : pm exn conn Z := λ s,
  match cn_nc s, cn_store s !! key with
  | Some l, Some e =>
      if accepts (en_pattern e) then
        let n := cn_next_sub s in
        (Ok n,
         Conn (cn_nc s) (cn_up s) (cn_seq s) (cn_store s) (cn_entries s)
              (<[n := Subscription l key (en_pattern e) (en_queue e) (en_handler e) false false]> (cn_subs s))
              (n + 1) (cn_mux s) (cn_closed s) (cn_suspending s) (cn_tasks s) (cn_next_task s)
              (cn_connecting s))
      else (Raise (OtherError "nats: invalid subject"), s)
  | _, _ => (Raise (RuntimeError "Not connected"), s)
  end.
(** ... and its end: [entry["sub"] = sub] and [_watch_subscription_end]. *)
Definition assign_sub (key n : Z) : pm exn conn unit :=
  modify (λ s, upd_subs (alter mark_watched n) (set_sub key (Some n) s)).

(** [subscribe], up to its suspension. *)
Definition subscribe (pattern queue : string) (h : Z) : pm exn conn unit :=
  s ← get_state;
  match cn_nc s with
  | None => raise (RuntimeError "Not connected")
  | Some _ =>
      key ← add_entry (Entry pattern queue (Some h) false None);
      n ← nats_subscribe key;
      spawn (TSubscribe key n) ≫= λ _, mret tt
  end.

(** [sub.unsubscribe()] *)
Definition nats_unsubscribe (x : option Z) : pm exn conn unit :=
  match x with Some n => modify (upd_subs (alter mark_closed n)) | None => mret tt end.

(** The closure [subscribe] returns. *)
Definition unsubscribe (key : Z) : pm exn conn unit :=
  modify (upd_entries (filter (λ k, k ≠ key))) ≫= λ _,
  s ← get_state;
  modify (set_sub key None) ≫= λ _,
  nats_unsubscribe (sub_of key s).

(** [_register_mux_entry] *)
Definition register_mux_entry : pm exn conn Z :=
  s ← get_state;
  match cn_mux s with
  | Some key => mret key
  | None =>
      key ← add_entry (Entry (mux_pattern reply_prefix) "" None true None);
      modify (set_mux (Some key)) ≫= λ _,
      mret key
  end.

(** [sub is None or getattr(sub, "_closed", False)] *)
Definition needs_sub (key : Z) (s : conn) : bool :=
  match sub_of key s with Some n => closed_sub n s | None => true end.
Definition is_raw (key : Z) (s : conn) : bool :=
  match cn_store s !! key with Some e => en_raw e | None => false end.

(** [_ensure_mux_subscription] *)
Definition ensure_mux_subscription : pm exn conn unit :=
  key ← register_mux_entry;
  s ← get_state;
  if bool_decide (is_Some (cn_nc s)) && needs_sub key s then n ← nats_subscribe key; assign_sub key n else mret tt.

(** [on_finish] of subscription [n], whose task ended cleanly or not. *)
Definition on_finish (n : Z) (clean : bool) : pm exn conn unit :=
  s ← get_state;
  match cn_subs s !! n with
  | Some b =>
      if negb (sb_watched b) || negb clean then mret tt
      else if cn_suspending s || negb (bool_decide (sub_of (sb_entry b) s = Some n)) then mret tt
      else
        modify (set_sub (sb_entry b) None) ≫= λ _,
        modify (upd_entries (filter (λ k, k ≠ sb_entry b))) ≫= λ _,
        (if bool_decide (cn_mux s = Some (sb_entry b)) then modify (set_mux None) else mret tt) ≫= λ _,
        nats_unsubscribe (Some n)
  | None => mret tt
  end.

(** ** Connecting *)

(** The [finally] of [connect], when the shared task is done. *)
Definition end_connect (t : Z) : pm exn conn unit := end_task t ≫= λ _, modify (set_connecting None).

(** The restore loop of [_connect], in task [t]; a raw entry does not suspend. *)
Fixpoint restore (t : Z) (rest : list Z) : pm exn conn unit :=
  match rest with
  | [] => end_connect t
  | key :: rest =>
      s ← get_state;
      if needs_sub key s then
        n ← nats_subscribe key;
        if is_raw key s then assign_sub key n ≫= λ _, restore t rest
        else suspend_at t (TRestore key n rest)
      else restore t rest
  end.
Definition run_restore (t : Z) (rest : list Z) : pm exn conn unit :=
  try_except (restore t rest) (λ e, end_connect t ≫= λ _, raise e).

(** [connect]: concurrent calls share one task. *)
Definition connect : pm exn conn unit :=
  s ← get_state;
  if is_connected s then mret tt
  else
    match cn_connecting s with
    | Some _ => mret tt
    | None => t ← spawn TDial; modify (set_connecting (Some t))
    end.

(** The dial of task [t] ends: with a new transport, or with an error. *)
Definition dialled (t : Z) (link : option Z) : pm exn conn unit :=
  s ← get_state;
  match cn_tasks s !! t, link with
  | Some TDial, Some l =>
      modify (λ s, set_conn_closed false (set_nc (Some l) (upd_up (union {[l]}) s))) ≫= λ _,
      register_mux_entry ≫= λ _,
      s ← get_state;
      run_restore t (cn_entries s)
  | Some TDial, None => end_connect t ≫= λ _, raise (OtherError "nats: no servers available for connection")
  | _, _ => mret tt
  end.

(** ** Tearing down *)

(** After the loop: [disconnect] drops the entries; an open transport is
    closed. *)
Definition end_teardown (t : Z) (k : teardown) : pm exn conn unit :=
  modify (set_nc None) ≫= λ _,
  (if match k with Suspend => true | Disconnect => false end then modify (set_suspending false) else mret tt) ≫= λ _,
  end_task t.
Definition after_unsubscriptions (t : Z) (k : teardown) : pm exn conn unit :=
  match k with
  | Disconnect => modify (λ s, set_mux None (upd_entries (λ _, []) s))
  | Suspend => mret tt
  end ≫= λ _,
  s ← get_state;
  match cn_nc s with
  | Some l => suspend_at t (TClose k l)
  | None => end_teardown t k
  end.

(** The unsubscribe loop over a snapshot of the entries, in task [t]. *)
Fixpoint unsubscribe_loop (t : Z) (k : teardown) (rest : list Z) : pm exn conn unit :=
  match rest with
  | [] => after_unsubscriptions t k
  | key :: rest =>
      s ← get_state;
      match sub_of key s with
      | Some n => nats_unsubscribe (Some n) ≫= λ _, suspend_at t (TUnsubscribe k key rest)
      | None => modify (set_sub key None) ≫= λ _, unsubscribe_loop t k rest
      end
  end.

(** [suspend] and [disconnect], up to the settling of calls and sessions. *)
Definition start_teardown (k : teardown) : pm exn conn unit :=
  modify (match k with Suspend => set_suspending true | Disconnect => set_conn_closed true end) ≫= λ _,
  spawn (TSettle k) ≫= λ _, mret tt.

(** ** Steps *)

(** The event loop resumes the suspended coroutine [t]. *)
Definition resume (t : Z) : pm exn conn unit :=
  s ← get_state;
  match cn_tasks s !! t with
  | Some (TSubscribe key n) => assign_sub key n ≫= λ _, end_task t
  | Some (TRestore key n rest) => assign_sub key n ≫= λ _, run_restore t rest
  | Some (TSettle k) => unsubscribe_loop t k (cn_entries s)
  | Some (TUnsubscribe k key rest) => modify (set_sub key None) ≫= λ _, unsubscribe_loop t k rest
  | Some (TClose k l) => modify (upd_up (λ up, up ∖ {[l]})) ≫= λ _, end_teardown t k
  | Some TDial | None => mret tt
  end.

(** Only [subscribe] hands out an unsubscribe closure: the mux has none. *)
Inductive conn_event :=
| CConnect
| CDialled (t : Z) (link : option Z)
| CSuspend
| CDisconnect
| CSubscribe (pattern queue : string) (h : Z)
| CUnsubscribe (key : Z)
| CEnsureMux
| CResume (t : Z)
(** the message task of a subscription ends; the transport closes one *)
| CSubEnded (n : Z) (clean : bool)
| CSubClosed (n : Z)
(** a transport loses or regains its server *)
| CLink (l : Z) (up : bool).

Definition run_conn (e : conn_event) : pm exn conn unit :=
  match e with
  | CConnect => connect
  | CDialled t link => dialled t link
  | CSuspend => start_teardown Suspend
  | CDisconnect => start_teardown Disconnect
  | CSubscribe pattern queue h => subscribe pattern queue h
  | CUnsubscribe key => s ← get_state; if is_raw key s then mret tt else unsubscribe key
  | CEnsureMux => ensure_mux_subscription
  | CResume t => resume t
  | CSubEnded n clean => on_finish n clean
  | CSubClosed n => modify (upd_subs (alter mark_closed n))
  | CLink l up => modify (upd_up (if up then union {[l]} else λ up, up ∖ {[l]}))
  end.
Definition conn_step (s : conn) (e : conn_event) : conn := (run_conn e s).2.
End connection.
