(* ===== verification/ConnectionSpec.v ===== *)
(** * The invariant of the subscription entries

    Whatever the interleaving, the entries are distinct, the mux entry is the
    only raw one, and a subscription held by an entry (or by a coroutine that
    is about to assign it) was made for that entry. *)

From S2P Require Import Prelude Text PyVal Errors Ids Connection.

(** Subscription [n] was made for the entry [key]. *)
Definition made_for (s : conn) (key n : Z) : Prop :=
  ∃ e b, cn_store s !! key = Some e ∧ cn_subs s !! n = Some b ∧ sb_entry b = key ∧
    sb_pattern b = en_pattern e ∧ sb_queue b = en_queue e ∧ sb_handler b = en_handler e.

Definition task_ok (s : conn) (x : task) : Prop :=
  match x with TSubscribe key n | TRestore key n _ => made_for s key n | _ => True end.

Definition is_mux (reply_prefix : string) (e : entry) : Prop :=
  en_raw e = true ∧ en_pattern e = mux_pattern reply_prefix ∧ en_queue e = "" ∧ en_handler e = None.

Record conn_ok (reply_prefix : string) (s : conn) : Prop := {
  ok_distinct : NoDup (cn_entries s);
  ok_stored : ∀ k, k ∈ cn_entries s → is_Some (cn_store s !! k);
  ok_seq : ∀ k, is_Some (cn_store s !! k) → (k ≤ cn_seq s)%Z;
  ok_mux : ∀ k, cn_mux s = Some k → k ∈ cn_entries s ∧ is_raw k s = true;
  ok_raw : ∀ k e, cn_store s !! k = Some e → en_raw e = true → is_mux reply_prefix e;
  ok_one_mux : ∀ k, k ∈ cn_entries s → is_raw k s = true → cn_mux s = Some k;
  ok_next : ∀ n, is_Some (cn_subs s !! n) → (n < cn_next_sub s)%Z;
  ok_subs : ∀ k n, sub_of k s = Some n → made_for s k n;
  ok_tasks : ∀ t x, cn_tasks s !! t = Some x → task_ok s x }.

(** The parts of the state the invariant speaks of. *)
Definition same_entries (s s' : conn) : Prop :=
  cn_entries s' = cn_entries s ∧ cn_store s' = cn_store s ∧ cn_seq s' = cn_seq s ∧ cn_mux s' = cn_mux s ∧
  cn_subs s' = cn_subs s ∧ cn_next_sub s' = cn_next_sub s.

Section spec.
Variable accepts : string → bool.
Variable reply_prefix : string.
Abbreviation ok := (conn_ok reply_prefix).

Lemma made_for_ext s s' key n :
  cn_store s' = cn_store s → cn_subs s' = cn_subs s → made_for s key n → made_for s' key n.
Proof. unfold made_for. by intros -> ->. Qed.

Lemma ok_frame s s' :
  same_entries s s' → (∀ t x, cn_tasks s' !! t = Some x → cn_tasks s !! t = Some x ∨ task_ok s' x) → ok s → ok s'.
Proof.
  intros (E1 & E2 & E3 & E4 & E5 & E6) Ht [H1 H2 H3 H4 H5 H6 H7 H8 H9]. unfold is_raw, sub_of in *.
  split; unfold is_raw, sub_of; rewrite ?E1, ?E2, ?E3, ?E4, ?E5, ?E6; try done.
  - intros k n Hk. apply (made_for_ext s); auto.
  - intros t x Hx. destruct (Ht t x Hx) as [Hx'|]; [|done]. specialize (H9 t x Hx').
    destruct x; try done; by apply (made_for_ext s).
Qed.

(** An operation on the rest of the state, or one that only ends tasks. *)
Lemma keeps_frame (m : pm exn conn unit) :
  (∀ s, same_entries s (m s).2 ∧ ∀ t x, cn_tasks (m s).2 !! t = Some x → cn_tasks s !! t = Some x) → keeps ok m.
Proof. intros H s Hs. destruct (H s) as [H1 H2]. apply (ok_frame s); [done| |done]. eauto. Qed.

(** Changes of one entry's subscription, or of the flags of one. *)
Lemma ok_subs_change s s' :
  cn_entries s' = cn_entries s → cn_seq s' = cn_seq s → cn_mux s' = cn_mux s → cn_next_sub s' = cn_next_sub s →
  cn_tasks s' = cn_tasks s →
  (∀ k, option_map (λ e, Entry (en_pattern e) (en_queue e) (en_handler e) (en_raw e) None) (cn_store s' !! k) =
        option_map (λ e, Entry (en_pattern e) (en_queue e) (en_handler e) (en_raw e) None) (cn_store s !! k)) →
  (∀ n, option_map (λ b, Subscription (sb_link b) (sb_entry b) (sb_pattern b) (sb_queue b) (sb_handler b) false false)
          (cn_subs s' !! n) =
        option_map (λ b, Subscription (sb_link b) (sb_entry b) (sb_pattern b) (sb_queue b) (sb_handler b) false false)
          (cn_subs s !! n)) →
  (∀ k n, sub_of k s' = Some n → sub_of k s = Some n ∨ made_for s' k n) →
  ok s → ok s'.
Proof.
  intros E1 E3 E4 E6 E7 He Hb Hs [H1 H2 H3 H4 H5 H6 H7 H8 H9].
  assert (Hst : ∀ k e', cn_store s' !! k = Some e' → ∃ e, cn_store s !! k = Some e ∧
      en_pattern e' = en_pattern e ∧ en_queue e' = en_queue e ∧ en_handler e' = en_handler e ∧ en_raw e' = en_raw e).
  { intros k e' Hk. specialize (He k). rewrite Hk in He. destruct (cn_store s !! k) as [e|]; [|done].
    exists e. by injection He. }
  assert (Hsome : ∀ k, is_Some (cn_store s' !! k) ↔ is_Some (cn_store s !! k)).
  { intros k. specialize (He k). destruct (cn_store s' !! k), (cn_store s !! k); try done; split; eauto. }
  assert (Hr : ∀ k, is_raw k s' = is_raw k s).
  { intros k. unfold is_raw. specialize (He k). destruct (cn_store s' !! k), (cn_store s !! k); try done. by injection He. }
  assert (Hm : ∀ k n, made_for s k n → made_for s' k n).
  { intros k n (e & b & Hk & Hn & ? & ? & ? & ?). specialize (He k). specialize (Hb n). rewrite Hk in He. rewrite Hn in Hb.
    unfold made_for. destruct (cn_store s' !! k) as [e'|]; [|done]. destruct (cn_subs s' !! n) as [b'|]; [|done].
    exists e', b'. injection He as ? ? ? ?. injection Hb as ? ? ? ? ?. split_and!; congruence. }
  split; rewrite ?E1, ?E3, ?E4, ?E6, ?E7; try done.
  - intros k Hk. by apply Hsome, H2.
  - intros k Hk. by apply H3, Hsome.
  - intros k Hk. rewrite Hr. by apply H4.
  - intros k e' Hk Hraw. destruct (Hst k e' Hk) as (e & Hk' & Q1 & Q2 & Q3 & Q4). unfold is_mux.
    rewrite Q1, Q2, Q3, Q4. apply (H5 k e); congruence.
  - intros k. rewrite Hr. apply H6.
  - intros n Hn. apply H7. specialize (Hb n). destruct (cn_subs s' !! n), (cn_subs s !! n); try done; eauto.
  - intros k n Hk. destruct (Hs k n Hk); auto.
  - intros t x Hx. specialize (H9 t x Hx). destruct x; cbn in *; auto.
Qed.

(** ** Operations *)

Lemma keeps_set_sub_none key : keeps ok (modify (set_sub key None) : pm exn conn unit).
Proof.
  apply keeps_modify. intros s. apply ok_subs_change; try done.
  - intros k. cbn. destruct (decide (key = k)) as [->|]; [|by rewrite lookup_alter_ne].
    rewrite lookup_alter_eq. by destruct (cn_store s !! k).
  - intros k n. unfold sub_of. cbn. destruct (decide (key = k)) as [->|]; [|rewrite lookup_alter_ne by done; auto].
    rewrite lookup_alter_eq. by destruct (cn_store s !! k).
Qed.

Lemma keeps_close x : keeps ok (nats_unsubscribe x).
Proof.
  destruct x as [n|]; [|apply keeps_ret]. apply keeps_modify. intros s. apply ok_subs_change; try done; [|auto].
  intros k. cbn. destruct (decide (n = k)) as [->|]; [|by rewrite lookup_alter_ne].
  rewrite lookup_alter_eq. by destruct (cn_subs s !! k).
Qed.

Lemma assign_ok key n s : ok s → made_for s key n → ok (assign_sub key n s).2.
Proof.
  intros Hs Hm. apply (ok_subs_change s); try done.
  - intros k. cbn. destruct (decide (key = k)) as [->|]; [|by rewrite lookup_alter_ne].
    rewrite lookup_alter_eq. by destruct (cn_store s !! k).
  - intros k. cbn. destruct (decide (n = k)) as [->|]; [|by rewrite lookup_alter_ne].
    rewrite lookup_alter_eq. by destruct (cn_subs s !! k).
  - intros k j. unfold sub_of. cbn. destruct (decide (key = k)) as [->|]; [|rewrite lookup_alter_ne by done; auto].
    rewrite lookup_alter_eq. destruct (cn_store s !! k) as [e|] eqn:E; [|done]. cbn. intros [= ->]. right.
    destruct Hm as (e' & b & He & Hb & ? & ? & ? & ?). rewrite E in He. injection He as ->.
    exists (Entry (en_pattern e') (en_queue e') (en_handler e') (en_raw e') (Some j)), (mark_watched b). cbn.
    rewrite !lookup_alter_eq, E, Hb. done.
Qed.

Lemma drop_entry_ok key s :
  cn_mux s ≠ Some key → ok s → ok (upd_entries (filter (λ k, k ≠ key)) s).
Proof.
  intros Hm [H1 H2 H3 H4 H5 H6 H7 H8 H9]. split; try done; cbn.
  - by apply NoDup_filter.
  - intros k [_ Hk]%list_elem_of_filter. auto.
  - intros k Hk. destruct (H4 k Hk) as [Hin Hr]. split; [|done]. apply list_elem_of_filter. split; [congruence|done].
  - intros k [_ Hk]%list_elem_of_filter. auto.
Qed.

Lemma drop_mux_ok key s :
  cn_mux s = Some key → ok s → ok (set_mux None (upd_entries (filter (λ k, k ≠ key)) s)).
Proof.
  intros Hm [H1 H2 H3 H4 H5 H6 H7 H8 H9]. split; try done; cbn.
  - by apply NoDup_filter.
  - intros k [_ Hk]%list_elem_of_filter. auto.
  - intros k [Hne Hk]%list_elem_of_filter Hr. specialize (H6 k Hk Hr). congruence.
Qed.

(** A fresh entry: of a user, or the mux when there is none. *)
Lemma add_entry_ok e x s :
  let key := (cn_seq s + 1)%Z in
  en_sub e = None →
  (en_raw e = false ∧ x = cn_mux s) ∨ (is_mux reply_prefix e ∧ cn_mux s = None ∧ x = Some key) →
  ok s → ok (set_mux x (add_entry e s).2).
Proof.
  cbn. intros He Hx [H1 H2 H3 H4 H5 H6 H7 H8 H9].
  assert (Hfresh : cn_store s !! (cn_seq s + 1)%Z = None).
  { destruct (cn_store s !! (cn_seq s + 1)%Z) eqn:E; [|done]. specialize (H3 (cn_seq s + 1)%Z ltac:(eauto)). lia. }
  assert (Hne : ∀ k, k ∈ cn_entries s → k ≠ (cn_seq s + 1)%Z).
  { intros k Hk ->. destruct (H2 _ Hk). congruence. }
  assert (Hm : ∀ s' k n, cn_store s' = <[(cn_seq s + 1)%Z := e]> (cn_store s) → cn_subs s' = cn_subs s →
            made_for s k n → made_for s' k n).
  { intros s' k n Q1 Q2 (e' & b & Hk & ?). exists e', b. rewrite Q1, Q2, lookup_insert_ne; [done|congruence]. }
  split; cbn.
  - apply NoDup_app. split; [done|]. split; [|apply NoDup_singleton].
    intros k Hk Hk'%list_elem_of_singleton. by apply (Hne k).
  - intros k [Hk|Hk%list_elem_of_singleton]%elem_of_app; [|subst; rewrite lookup_insert_eq; eauto].
    rewrite lookup_insert_ne by (symmetry; by apply Hne). auto.
  - intros k Hk. destruct (decide (cn_seq s + 1 = k)%Z) as [|Hn]; [lia|]. rewrite lookup_insert_ne in Hk by done.
    specialize (H3 k Hk). lia.
  - intros k Hk. unfold is_raw. cbn. destruct Hx as [[_ ->]|([Hr _] & _ & ->)].
    + destruct (H4 k Hk) as [Hin Hraw]. split; [apply elem_of_app; auto|].
      rewrite lookup_insert_ne by (symmetry; by apply Hne). done.
    + injection Hk as <-. rewrite lookup_insert_eq. split; [|done]. apply elem_of_app. right. apply list_elem_of_here.
  - intros k e' Hk. destruct (decide (cn_seq s + 1 = k)%Z) as [<-|Hn].
    + rewrite lookup_insert_eq in Hk. injection Hk as <-. destruct Hx as [[? _]|[? _]]; [congruence|done].
    + rewrite lookup_insert_ne in Hk by done. eauto.
  - intros k Hk Hraw. unfold is_raw in Hraw. cbn in Hraw. destruct (decide (cn_seq s + 1 = k)%Z) as [<-|Hn].
    + rewrite lookup_insert_eq in Hraw. destruct Hx as [[? _]|(_ & _ & Hx)]; [congruence|done].
    + rewrite lookup_insert_ne in Hraw by done.
      apply elem_of_app in Hk as [Hk|Hk%list_elem_of_singleton]; [|congruence].
      specialize (H6 k Hk Hraw). destruct Hx as [[_ ->]|(_ & ? & _)]; [done|congruence].
  - done.
  - intros k n Hk. unfold sub_of in Hk. cbn in Hk. destruct (decide (cn_seq s + 1 = k)%Z) as [<-|Hn].
    + rewrite lookup_insert_eq in Hk. cbn in Hk. congruence.
    + rewrite lookup_insert_ne in Hk by done. by eapply Hm, H8.
  - intros t y Hy. specialize (H9 t y Hy). destruct y; cbn in *; try done; by eapply Hm.
Qed.

(** [nats_subscribe]: an error leaves the state, a success adds a subscription
    made for the entry. *)
Lemma nats_subscribe_ok key s :
  ok s →
  match nats_subscribe accepts key s with
  | (Ok n, s') => ok s' ∧ made_for s' key n
  | (Raise _, s') => s' = s
  end.
Proof.
  intros [H1 H2 H3 H4 H5 H6 H7 H8 H9]. unfold nats_subscribe. destruct (cn_nc s) as [l|]; [|done].
  destruct (cn_store s !! key) as [e|] eqn:E; [|done]. destruct (accepts _); [|done].
  set (b := Subscription _ _ _ _ _ _ _).
  assert (Hfresh : cn_subs s !! cn_next_sub s = None).
  { destruct (cn_subs s !! cn_next_sub s) eqn:Ek; [|done]. specialize (H7 (cn_next_sub s) ltac:(eauto)). lia. }
  assert (Hm : ∀ s' k n, cn_store s' = cn_store s → cn_subs s' = <[cn_next_sub s := b]> (cn_subs s) →
            made_for s k n → made_for s' k n).
  { intros s' k n Q1 Q2 (e' & b' & ? & Hn & ?). exists e', b'. rewrite Q1, Q2, lookup_insert_ne; [done|congruence]. }
  split.
  - split; try done; cbn.
    + intros n Hn. destruct (decide (cn_next_sub s = n)) as [|Hne]; [lia|]. rewrite lookup_insert_ne in Hn by done.
      specialize (H7 n Hn). lia.
    + intros k n Hk. by eapply Hm, H8.
    + intros t x Hx. specialize (H9 t x Hx). destruct x; cbn in *; try done; by eapply Hm.
  - exists e, b. cbn. by rewrite lookup_insert_eq.
Qed.

(** A coroutine suspends with a good task, or ends. *)
Lemma suspend_ok t x s : ok s → task_ok s x → ok (upd_tasks <[t := x]> s).
Proof.
  intros Hs Hx. apply (ok_frame s); [done| |done]. intros t' y. cbn. rewrite lookup_insert_Some.
  intros [[_ <-]|[_ ?]]; [right; by destruct x|auto].
Qed.
Lemma keeps_spawn x : (∀ s, task_ok s x) → keeps ok (spawn x).
Proof.
  intros Hx s Hs. apply (ok_frame s); [done| |done]. intros t' y. cbn. rewrite lookup_insert_Some.
  intros [[_ <-]|[_ ?]]; [right; apply Hx|auto].
Qed.
Lemma keeps_end t : keeps ok (end_task t).
Proof. apply keeps_frame. intros s. split; [done|]. intros t' x. cbn. rewrite lookup_delete_Some. by intros [_ ?]. Qed.

Lemma keeps_flag (f : conn → conn) :
  (∀ s, same_entries s (f s) ∧ cn_tasks (f s) = cn_tasks s) → keeps ok (modify f : pm exn conn unit).
Proof. intros H. apply keeps_frame. intros s. destruct (H s) as [H1 H2]. split; [done|]. cbn. by rewrite H2. Qed.

Lemma keeps_register : keeps ok (register_mux_entry reply_prefix).
Proof.
  intros s Hs. unfold register_mux_entry. rewrite pm_bind_eq. cbn [get_state].
  destruct (cn_mux s) eqn:E; [done|]. rewrite pm_bind_eq. cbn [fst snd].
  pose proof (add_entry_ok (Entry (mux_pattern reply_prefix) "" None true None) (Some (cn_seq s + 1)%Z) s) as H.
  apply H; [done| |done]. by right.
Qed.

Lemma keeps_end_connect t : keeps ok (end_connect t).
Proof. apply keeps_bind; [apply keeps_end|]. intros _. by apply keeps_flag. Qed.

Lemma keeps_restore t rest : keeps ok (restore accepts t rest).
Proof.
  induction rest as [|key rest IH]; [apply keeps_end_connect|]. cbn [restore]. apply keeps_get. intros s0 _.
  destruct (needs_sub key s0); [|done]. intros s Hs. rewrite pm_bind_eq. pose proof (nats_subscribe_ok key s Hs) as H.
  destruct (nats_subscribe accepts key s) as [[n|e] s']; [|by subst]. destruct H as [H1 H2].
  destruct (is_raw key s0).
  - rewrite pm_bind_eq. cbn [assign_sub modify]. apply IH. by apply (assign_ok key n s').
  - by apply suspend_ok.
Qed.
Lemma keeps_run_restore t rest : keeps ok (run_restore accepts t rest).
Proof.
  apply keeps_try; [apply keeps_restore|]. intros e. apply keeps_bind; [apply keeps_end_connect|].
  intros _. apply keeps_raise.
Qed.

Lemma keeps_end_teardown t k : keeps ok (end_teardown t k).
Proof.
  apply keeps_bind; [by apply keeps_flag|]. intros _. apply keeps_bind; [|intros _; apply keeps_end].
  destruct k; [by apply keeps_flag|apply keeps_ret].
Qed.

Lemma clear_entries_ok s : ok s → ok (set_mux None (upd_entries (λ _, []) s)).
Proof.
  intros [H1 H2 H3 H4 H5 H6 H7 H8 H9]. split; try done; cbn.
  - constructor.
  - by intros k ?%elem_of_nil.
  - by intros k ?%elem_of_nil.
Qed.

Lemma keeps_unsubscribe_loop t k rest : keeps ok (unsubscribe_loop t k rest).
Proof.
  induction rest as [|key rest IH]; cbn [unsubscribe_loop].
  - apply keeps_bind.
    + destruct k; [apply keeps_ret|]. apply keeps_modify, clear_entries_ok.
    + intros _. apply keeps_get. intros s _. destruct (cn_nc s); [|apply keeps_end_teardown].
      apply keeps_modify. intros s' Hs'. by apply suspend_ok.
  - apply keeps_get. intros s _. destruct (sub_of key s).
    + apply keeps_bind; [apply keeps_close|]. intros _. apply keeps_modify. intros s' Hs'. by apply suspend_ok.
    + apply keeps_bind; [apply keeps_set_sub_none|]. by intros _.
Qed.
End spec.
