(* ===== verification/ConnectionRestore.v ===== *)
(** * Suspending and restoring

    Undisturbed, [suspend] and a following [connect] run to their end in a
    bounded number of resumptions; these are the states they end in. *)

From S2P Require Import Prelude Text PyVal Errors Ids Connection ConnectionSpec.

Definition with_sub (x : option Z) (e : entry) : entry :=
  Entry (en_pattern e) (en_queue e) (en_handler e) (en_raw e) x.

Lemma set_sub_lookup key x s k :
  cn_store (set_sub key x s) !! k = if decide (key = k) then with_sub x <$> cn_store s !! k else cn_store s !! k.
Proof.
  cbn. destruct (decide (key = k)) as [->|]; [by rewrite lookup_alter_eq|by rewrite lookup_alter_ne].
Qed.

Section restore.
Variable accepts : string → bool.
Variable reply_prefix : string.
Abbreviation ok := (conn_ok reply_prefix).
Abbreviation step := (conn_step accepts reply_prefix).

(** The event loop resumes only task [t]. *)
Definition resumes (t : Z) (j : nat) (s : conn) : conn := Nat.iter j (λ s, step s (CResume t)) s.

Lemma resumes_S t j s : resumes t (S j) s = resumes t j (step s (CResume t)).
Proof. unfold resumes. by rewrite Nat.iter_succ_r. Qed.

(** ** Suspending *)

(** [s'] is [s] with the entries in [rest] without a subscription, and no
    transport. *)
Record suspended (t : Z) (rest : list Z) (s s' : conn) : Prop := {
  su_nc : cn_nc s' = None;
  su_task : cn_tasks s' !! t = None;
  su_flag : cn_suspending s' = false;
  su_entries : cn_entries s' = cn_entries s;
  su_mux : cn_mux s' = cn_mux s;
  su_next : cn_next_sub s' = cn_next_sub s;
  su_connecting : cn_connecting s' = cn_connecting s;
  su_links : ∀ n b, cn_subs s' !! n = Some b → ∃ b0, cn_subs s !! n = Some b0 ∧ sb_link b0 = sb_link b;
  su_cleared : ∀ k, k ∈ rest → cn_store s' !! k = with_sub None <$> cn_store s !! k;
  su_others : ∀ k, k ∉ rest → cn_store s' !! k = cn_store s !! k }.

Lemma suspended_cons t key rest s s1 s' :
  cn_entries s1 = cn_entries s → cn_mux s1 = cn_mux s → cn_next_sub s1 = cn_next_sub s →
  cn_connecting s1 = cn_connecting s → cn_store s1 = cn_store (set_sub key None s) →
  (∀ n b, cn_subs s1 !! n = Some b → ∃ b0, cn_subs s !! n = Some b0 ∧ sb_link b0 = sb_link b) →
  suspended t rest s1 s' → suspended t (key :: rest) s s'.
Proof.
  intros E1 E2 E3 E4 E5 E6 [H1 H2 H3 H4 H5 H6 H7 Hl H8 H9]. split; try congruence.
  - intros n b Hn. destruct (Hl n b Hn) as (b1 & Hb1 & <-). by apply E6.
  - intros k Hk. destruct (decide (k ∈ rest)) as [Hin|Hn].
    + rewrite H8, E5, set_sub_lookup by done. case_decide; [|done]. by destruct (cn_store s !! k).
    + apply elem_of_cons in Hk as [->|]; [|done]. rewrite H9, E5, set_sub_lookup by done. by rewrite decide_True.
  - intros k [Hne Hk]%not_elem_of_cons. rewrite H9, E5, set_sub_lookup by done. by rewrite decide_False.
Qed.

Lemma suspend_ends t rest : ∀ s,
  ∃ j, j ≤ S (length rest) ∧ suspended t rest s (resumes t j (unsubscribe_loop t Suspend rest s).2).
Proof.
  induction rest as [|key rest IH]; intros s.
  - cbn [unsubscribe_loop]. unfold after_unsubscriptions. rewrite pm_bind_eq. cbn [mret pm_ret].
    rewrite pm_bind_eq. cbn [get_state]. destruct (cn_nc s) as [l|] eqn:E.
    + exists 1. split; [cbn; lia|]. cbn [suspend_at modify snd]. rewrite resumes_S. unfold conn_step. cbn [run_conn].
      unfold resume. rewrite pm_bind_eq. cbn [get_state]. cbn [cn_tasks upd_tasks]. rewrite lookup_insert_eq.
      split; try done; [apply lookup_delete_eq|eauto|by intros k ?%elem_of_nil].
    + exists 0. split; [lia|]. split; try done; [apply lookup_delete_eq|eauto|by intros k ?%elem_of_nil].
  - cbn [unsubscribe_loop]. rewrite pm_bind_eq. cbn [get_state]. destruct (sub_of key s) as [n|] eqn:E.
    + rewrite pm_bind_eq. cbn [nats_unsubscribe modify suspend_at snd].
      set (s1 := upd_tasks _ _).
      assert (Hs : step s1 (CResume t) = (unsubscribe_loop t Suspend rest (set_sub key None s1)).2).
      { unfold conn_step. cbn [run_conn]. unfold resume. rewrite pm_bind_eq. cbn [get_state]. subst s1.
        cbn [cn_tasks upd_tasks]. rewrite lookup_insert_eq. by rewrite pm_bind_eq. }
      destruct (IH (set_sub key None s1)) as (j & Hj & H). exists (S j). split; [cbn; lia|].
      rewrite resumes_S, Hs. apply (suspended_cons t key rest s (set_sub key None s1)); try done.
      intros i b. cbn. destruct (decide (n = i)) as [->|]; [|rewrite lookup_alter_ne by done; eauto].
      rewrite lookup_alter_eq. destruct (cn_subs s !! i) as [b0|]; [|done]. intros [= <-]. by exists b0.
    + rewrite pm_bind_eq. cbn [modify]. destruct (IH (set_sub key None s)) as (j & Hj & H). exists j.
      split; [cbn; lia|]. apply (suspended_cons t key rest s (set_sub key None s)); try done. eauto.
Qed.

(** ** Restoring *)

(** An entry that waits for a subscription the transport will accept. *)
Definition waiting (s : conn) (k : Z) : Prop :=
  ∃ e, cn_store s !! k = Some e ∧ en_sub e = None ∧ accepts (en_pattern e) = true.

(** A live subscription on transport [l] for the entry [e]. *)
Definition live_sub (l key : Z) (e : entry) (b : subscription) : Prop :=
  b = Subscription l key (en_pattern e) (en_queue e) (en_handler e) false true.

(** [s'] is [s] with a fresh live subscription for the entries in [ks]. *)
Record filled (l : Z) (ks : list Z) (s s' : conn) : Prop := {
  fi_nc : cn_nc s' = cn_nc s;
  fi_up : cn_up s' = cn_up s;
  fi_entries : cn_entries s' = cn_entries s;
  fi_mux : cn_mux s' = cn_mux s;
  fi_next : (cn_next_sub s ≤ cn_next_sub s')%Z;
  fi_subs : ∀ n, (n < cn_next_sub s)%Z → cn_subs s' !! n = cn_subs s !! n;
  fi_others : ∀ k, k ∉ ks → cn_store s' !! k = cn_store s !! k;
  fi_filled : ∀ k e, k ∈ ks → cn_store s !! k = Some e →
    ∃ n b, (cn_next_sub s ≤ n < cn_next_sub s')%Z ∧ cn_store s' !! k = Some (with_sub (Some n) e) ∧
           cn_subs s' !! n = Some b ∧ live_sub l k e b;
  fi_only : ∀ n b, cn_subs s' !! n = Some b → cn_subs s !! n = Some b ∨ ∃ k, k ∈ ks ∧ sub_of k s' = Some n }.

Lemma filled_nil l s s' :
  cn_nc s' = cn_nc s → cn_up s' = cn_up s → cn_entries s' = cn_entries s → cn_mux s' = cn_mux s →
  cn_next_sub s' = cn_next_sub s → cn_subs s' = cn_subs s → cn_store s' = cn_store s → filled l [] s s'.
Proof.
  intros E1 E2 E3 E4 E5 E6 E7.
  split; try congruence; try lia; [by intros k e ?%elem_of_nil|]. rewrite E6. auto.
Qed.

(** The state after the entry [key] got its subscription. *)
Definition subscribed_to (l key : Z) (e : entry) (s : conn) : conn :=
  (assign_sub key (cn_next_sub s) (Conn (cn_nc s) (cn_up s) (cn_seq s) (cn_store s) (cn_entries s)
     (<[cn_next_sub s := Subscription l key (en_pattern e) (en_queue e) (en_handler e) false false]> (cn_subs s))
     (cn_next_sub s + 1) (cn_mux s) (cn_closed s) (cn_suspending s) (cn_tasks s) (cn_next_task s)
     (cn_connecting s))).2.

Lemma filled_cons l key e ks s s' x :
  cn_store s !! key = Some e → key ∉ ks →
  filled l ks (upd_tasks x (subscribed_to l key e s)) s' → filled l (key :: ks) s s'.
Proof.
  intros He Hk [H1 H2 H3 H4 H5 H6 H7 H8 H9]. cbn [upd_tasks subscribed_to assign_sub modify snd set_sub upd_subs
    upd_entry_store cn_nc cn_up cn_entries cn_mux cn_next_sub cn_subs cn_store] in *.
  split; try done; try lia.
  - intros n Hn. rewrite H6 by lia. rewrite lookup_alter_ne by lia. by rewrite lookup_insert_ne by lia.
  - intros k [Hne Hn]%not_elem_of_cons. rewrite H7 by done. by rewrite lookup_alter_ne.
  - intros k e' Hin He'. destruct (decide (k = key)) as [->|Hne].
    + rewrite He in He'. injection He' as <-. exists (cn_next_sub s), (Subscription l key (en_pattern e) (en_queue e) (en_handler e) false true).
      split; [lia|]. rewrite H7, H6 by (done || lia). rewrite !lookup_alter_eq, lookup_insert_eq, He. done.
    + apply elem_of_cons in Hin as [?|Hin]; [done|].
      destruct (H8 k e' Hin) as (n & b & Hn & Hrest); [by rewrite lookup_alter_ne|].
      exists n, b. split; [lia|done].
  - intros n b Hn. destruct (H9 n b Hn) as [Hb|(k & Hin & Hsub)]; [|right; exists k; split; [by apply list_elem_of_further|done]].
    destruct (decide (cn_next_sub s = n)) as [<-|Hne].
    + right. exists key. split; [apply list_elem_of_here|]. unfold sub_of. rewrite H7, lookup_alter_eq, He by done. done.
    + left. by rewrite lookup_alter_ne, lookup_insert_ne in Hb by done.
Qed.

Lemma waiting_keeps l key e s k x :
  k ≠ key → waiting s k → waiting (upd_tasks x (subscribed_to l key e s)) k.
Proof. intros Hk (e' & H & ?). exists e'. cbn. by rewrite lookup_alter_ne. Qed.

Lemma restore_cons t l key e ks s :
  cn_nc s = Some l → cn_store s !! key = Some e → en_sub e = None → accepts (en_pattern e) = true →
  run_restore accepts t (key :: ks) s =
    if en_raw e then run_restore accepts t ks (subscribed_to l key e s)
    else (Ok tt, upd_tasks <[t := TRestore key (cn_next_sub s) ks]> (Conn (cn_nc s) (cn_up s) (cn_seq s) (cn_store s) (cn_entries s)
     (<[cn_next_sub s := Subscription l key (en_pattern e) (en_queue e) (en_handler e) false false]> (cn_subs s))
     (cn_next_sub s + 1) (cn_mux s) (cn_closed s) (cn_suspending s) (cn_tasks s) (cn_next_task s)
     (cn_connecting s))).
Proof.
  intros Hl He Hs Ha. unfold run_restore, try_except. cbn [restore]. rewrite pm_bind_eq. cbn [get_state].
  unfold needs_sub, sub_of, is_raw. rewrite He. cbn [mbind option_bind]. rewrite Hs. rewrite pm_bind_eq.
  unfold nats_subscribe. rewrite Hl, He, Ha. destruct (en_raw e); [|done]. rewrite pm_bind_eq.
  unfold subscribed_to. rewrite Hl. done.
Qed.

Lemma restore_rejects t key e ks s :
  cn_store s !! key = Some e → en_sub e = None → accepts (en_pattern e) = false →
  (run_restore accepts t (key :: ks) s).2 = set_connecting None (upd_tasks (delete t) s).
Proof.
  intros He Hs Ha. unfold run_restore, try_except. cbn [restore]. rewrite pm_bind_eq. cbn [get_state].
  unfold needs_sub, sub_of. rewrite He. cbn [mbind option_bind]. rewrite Hs, pm_bind_eq.
  unfold nats_subscribe. rewrite He, Ha. by destruct (cn_nc s).
Qed.

Lemma restore_prefix t l ks : ∀ s tail,
  cn_nc s = Some l → NoDup ks → (∀ k, k ∈ ks → waiting s k) →
  ∃ j s', j ≤ length ks ∧ filled l ks s s' ∧
    resumes t j (run_restore accepts t (ks ++ tail) s).2 = (run_restore accepts t tail s').2.
Proof.
  induction ks as [|key ks IH]; intros s tail Hl Hnd Hw.
  - exists 0, s. split; [done|]. split; [by apply filled_nil|done].
  - apply NoDup_cons in Hnd as [Hk Hnd]. destruct (Hw key) as (e & He & Hs & Ha); [apply list_elem_of_here|].
    assert (Hw' : ∀ x k, k ∈ ks → waiting (upd_tasks x (subscribed_to l key e s)) k).
    { intros x k Hin. apply waiting_keeps; [congruence|]. apply Hw. by apply list_elem_of_further. }
    cbn [app]. rewrite (restore_cons t l key e) by done. destruct (en_raw e) eqn:Er.
    + destruct (IH (upd_tasks id (subscribed_to l key e s)) tail Hl Hnd (Hw' id)) as (j & s' & Hj & Hf & E).
      exists j, s'. split; [cbn; lia|]. split; [by eapply filled_cons|]. exact E.
    + set (x := <[t := TRestore key (cn_next_sub s) (ks ++ tail)]>).
      destruct (IH (upd_tasks x (subscribed_to l key e s)) tail Hl Hnd (Hw' x)) as (j & s' & Hj & Hf & E).
      exists (S j), s'. split; [cbn; lia|]. split; [by eapply filled_cons|]. rewrite resumes_S, <- E. f_equal.
      unfold conn_step. cbn [run_conn snd]. unfold resume. rewrite pm_bind_eq. cbn [get_state cn_tasks upd_tasks].
      subst x. rewrite lookup_insert_eq. by rewrite pm_bind_eq.
Qed.
End restore.
