(* ===== verification/ConnectionProps.v ===== *)
(** * What the subscriptions guarantee (client.py)

    The entries are consistent in every interleaving; a suspend and connect
    cycle restores them all; one rejected subject ends the restoration for
    good, and an unsubscribe during it leaves a subscription behind. *)

From S2P Require Import Prelude Text PyVal Errors Ids Connection ConnectionSpec ConnectionRestore.

Section props.
Variable accepts : string → bool.
Variable reply_prefix : string.
Abbreviation ok := (conn_ok reply_prefix).
Abbreviation step := (conn_step accepts reply_prefix).
Abbreviation run es := (foldl step new_conn es).

(** ** Consistency *)

Lemma keeps_unsubscribe_entry key s : is_raw key s = false → ok s → ok (unsubscribe key s).2.
Proof.
  intros Hr Hs. unfold unsubscribe. rewrite pm_bind_eq. cbn [modify]. rewrite pm_bind_eq. cbn [get_state].
  set (s1 := upd_entries _ s).
  assert (H1 : ok s1). { apply drop_entry_ok; [|done]. intros Hm. destruct (ok_mux _ _ Hs key Hm). congruence. }
  generalize (sub_of key s1). clearbody s1. intros x. revert s1 H1.
  apply (keeps_bind ok (modify (set_sub key None)) (λ _, nats_unsubscribe x)); [apply keeps_set_sub_none|]. intros _. apply keeps_close.
Qed.

Lemma keeps_on_finish n clean : keeps ok (on_finish n clean).
Proof.
  intros s Hs. unfold on_finish. rewrite pm_bind_eq. cbn [get_state]. destruct (cn_subs s !! n) as [b|]; [|done].
  destruct (_ || _); [done|]. destruct (_ || _); [done|]. rewrite pm_bind_eq. cbn [modify].
  assert (H1 : ok (set_sub (sb_entry b) None s)) by (by apply (keeps_set_sub_none reply_prefix)).
  set (s1 := set_sub _ _ s) in *. change (cn_mux s) with (cn_mux s1). clearbody s1.
  rewrite !pm_bind_eq. cbn [modify]. case_bool_decide; rewrite !pm_bind_eq; apply keeps_close;
    [by apply drop_mux_ok|by apply drop_entry_ok].
Qed.

Lemma keeps_dialled t link : keeps ok (dialled accepts reply_prefix t link).
Proof.
  apply keeps_get. intros s _. destruct (cn_tasks s !! t) as [[]|], link as [l|];
    try apply keeps_ret; [|apply keeps_bind; [apply keeps_end_connect|]; intros _; apply keeps_raise].
  apply keeps_bind; [by apply keeps_flag|]. intros _. apply keeps_bind; [apply keeps_register|]. intros _.
  apply keeps_get. intros s' _. apply keeps_run_restore.
Qed.

Lemma keeps_subscribe pattern queue h : keeps ok (subscribe accepts pattern queue h).
Proof.
  intros s Hs. unfold subscribe. rewrite pm_bind_eq. cbn [get_state]. destruct (cn_nc s); [|done].
  rewrite pm_bind_eq.
  pose proof (add_entry_ok reply_prefix (Entry pattern queue (Some h) false None) (cn_mux s) s eq_refl
                (or_introl (conj eq_refl eq_refl)) Hs) as H1.
  destruct (add_entry _ s) as [[key|e] s1] eqn:E; [|done].
  assert (H1' : ok s1) by (injection E as <- <-; exact H1).
  rewrite pm_bind_eq. pose proof (nats_subscribe_ok accepts reply_prefix key s1 H1') as H2.
  destruct (nats_subscribe accepts key s1) as [[n|e] s2]; [|by subst]. destruct H2 as [H2 H3].
  rewrite pm_bind_eq. apply (ok_frame _ s2); [done| |done]. intros t x. cbn. rewrite lookup_insert_Some.
  intros [[_ <-]|[_ ?]]; auto.
Qed.

Lemma keeps_mux_subscription : keeps ok (ensure_mux_subscription accepts reply_prefix).
Proof.
  apply keeps_bind; [apply keeps_register|]. intros key. apply keeps_get. intros s0 _.
  destruct (_ && _); [|apply keeps_ret]. intros s Hs. rewrite pm_bind_eq.
  pose proof (nats_subscribe_ok accepts reply_prefix key s Hs) as H.
  destruct (nats_subscribe accepts key s) as [[n|e] s']; [|by subst]. destruct H. by apply assign_ok.
Qed.

Lemma keeps_resume t : keeps ok (resume accepts t).
Proof.
  intros s Hs. unfold resume. rewrite pm_bind_eq. cbn [get_state].
  destruct (cn_tasks s !! t) as [[key n| |key n rest|k|k key rest|k l]|] eqn:E; try done.
  - rewrite pm_bind_eq. cbn [assign_sub modify]. apply keeps_end, (assign_ok _ key n s); [done|].
    by apply (ok_tasks _ _ Hs t _ E).
  - rewrite pm_bind_eq. cbn [assign_sub modify]. apply keeps_run_restore, (assign_ok _ key n s); [done|].
    by apply (ok_tasks _ _ Hs t _ E).
  - by apply keeps_unsubscribe_loop.
  - revert s Hs E. intros s Hs _. revert s Hs. apply keeps_bind; [apply keeps_set_sub_none|]. intros _.
    apply keeps_unsubscribe_loop.
  - revert s Hs E. intros s Hs _. revert s Hs. apply keeps_bind; [by apply keeps_flag|]. intros _.
    apply keeps_end_teardown.
Qed.

Lemma ok_step s e : ok s → ok (step s e).
Proof.
  intros Hs. unfold conn_step. destruct e as [|t link| | |pattern queue h|key| |t|n clean|n|l up]; cbn [run_conn].
  - revert s Hs. apply keeps_get. intros s _. destruct (is_connected s); [apply keeps_ret|].
    destruct (cn_connecting s); [apply keeps_ret|]. apply keeps_bind; [by apply keeps_spawn|].
    intros t. by apply keeps_flag.
  - by apply keeps_dialled.
  - revert s Hs. apply keeps_bind; [by apply keeps_flag|]. intros _. apply keeps_bind; [by apply keeps_spawn|]. intros _. apply keeps_ret.
  - revert s Hs. apply keeps_bind; [by apply keeps_flag|]. intros _. apply keeps_bind; [by apply keeps_spawn|]. intros _. apply keeps_ret.
  - by apply keeps_subscribe.
  - rewrite pm_bind_eq. cbn [get_state]. destruct (is_raw key s) eqn:E; [done|]. by apply keeps_unsubscribe_entry.
  - by apply keeps_mux_subscription.
  - by apply keeps_resume.
  - by apply keeps_on_finish.
  - by apply (keeps_close _ (Some n)).
  - revert s Hs. by apply keeps_flag.
Qed.

Lemma ok_new : ok new_conn.
Proof.
  split; try done.
  - constructor.
  - by intros k ?%elem_of_nil.
  - by intros k [? ?].
  - by intros n [? ?].
Qed.

Lemma ok_run es s : ok s → ok (foldl step s es).
Proof. revert s. induction es as [|e es IH]; intros s Hs; [done|]. by apply IH, ok_step. Qed.

(** C17. In every interleaving of connects, suspends, disconnects,
    subscriptions and ends of subscriptions the bookkeeping is consistent:
    entry keys are distinct, the reply inbox has one entry with the client's
    wildcard, which is the one the client remembers, and the subscription an
    entry holds was made with the entry's subject, queue and handler. *)
Theorem entries_consistent es :
  let s := run es in
  NoDup (cn_entries s) ∧
  (∀ k, k ∈ cn_entries s → is_raw k s = true ↔ cn_mux s = Some k) ∧
  (∀ k, cn_mux s = Some k → k ∈ cn_entries s ∧ ∃ e, cn_store s !! k = Some e ∧ is_mux reply_prefix e) ∧
  (∀ k n, sub_of k s = Some n → made_for s k n).
Proof.
  assert (H : ok (run es)) by apply ok_run, ok_new. cbv zeta. revert H. generalize (run es). intros s H.
  split_and!.
  - apply H.
  - intros k Hk. split; [by apply H|]. intros Hm. by apply (ok_mux _ _ H).
  - intros k Hk. destruct (ok_mux _ _ H k Hk) as [Hin Hr]. split; [done|]. unfold is_raw in Hr.
    destruct (cn_store s !! k) as [e|] eqn:E; [|done]. exists e. split; [done|]. by apply (ok_raw _ _ H k).
  - apply H.
Qed.

(** ** Suspend and connect *)

Abbreviation resumes := (ConnectionRestore.resumes accepts reply_prefix).

Lemma ok_resumes t j s : ok s → ok (resumes t j s).
Proof.
  intros Hs. revert s Hs. induction j as [|j IH]; intros s Hs; [done|].
  rewrite resumes_S. by apply IH, ok_step.
Qed.

(** The client with its mux entry: there is one, or a new one is added. *)
Lemma registered s : ok s →
  let s' := (register_mux_entry reply_prefix s).2 in
  ∃ new, (register_mux_entry reply_prefix s).1 = Ok (default (cn_seq s + 1)%Z (cn_mux s)) ∧
    cn_entries s' = cn_entries s ++ new ∧ (cn_mux s ≠ None → new = []) ∧ length new ≤ 1 ∧
    cn_nc s' = cn_nc s ∧ cn_up s' = cn_up s ∧ cn_subs s' = cn_subs s ∧
    (∀ k e, cn_store s !! k = Some e → cn_store s' !! k = Some e) ∧
    (∀ k e, k ∈ new → cn_store s' !! k = Some e → en_sub e = None ∧ en_pattern e = mux_pattern reply_prefix).
Proof.
  intros Hs. cbv zeta. unfold register_mux_entry. rewrite pm_bind_eq. cbn [get_state].
  destruct (cn_mux s) as [m|] eqn:E.
  - exists []. rewrite app_nil_r. split_and!; try done; [cbn; lia|]. by intros k e ?%elem_of_nil.
  - exists [(cn_seq s + 1)%Z]. rewrite pm_bind_eq. cbn [add_entry]. rewrite pm_bind_eq.
    cbn [modify mret pm_ret fst snd set_mux cn_store]. split_and!; try done.
    + intros k e He. rewrite lookup_insert_ne; [done|]. intros <-.
      pose proof (ok_seq _ _ Hs (cn_seq s + 1)%Z ltac:(eauto)). lia.
    + intros k e ->%list_elem_of_singleton. rewrite lookup_insert_eq. by intros [= <-].
Qed.

Lemma start_suspend s : step s CSuspend = (spawn (TSettle Suspend) (set_suspending true s)).2.
Proof. done. Qed.
Lemma resume_suspend s :
  step (step s CSuspend) (CResume (cn_next_task s)) =
    (unsubscribe_loop (cn_next_task s) Suspend (cn_entries s) (step s CSuspend)).2.
Proof.
  rewrite start_suspend. unfold conn_step. cbn [run_conn]. unfold resume. rewrite pm_bind_eq.
  cbn [get_state spawn snd cn_tasks]. by rewrite lookup_insert_eq.
Qed.

Lemma connect_dials s :
  cn_nc s = None → cn_connecting s = None →
  step s CConnect = set_connecting (Some (cn_next_task s)) (spawn TDial s).2.
Proof.
  intros Hn Hc. unfold conn_step. cbn [run_conn]. unfold connect. rewrite pm_bind_eq. cbn [get_state].
  unfold is_connected. rewrite Hn, Hc. by rewrite pm_bind_eq.
Qed.

(** A dial that succeeds: the mux is registered and the restoration starts. *)
Definition redialled (l : Z) (s : conn) : conn :=
  (register_mux_entry reply_prefix (set_conn_closed false (set_nc (Some l) (upd_up (union {[l]})
     (step s CConnect))))).2.

Lemma dial_restores l s :
  cn_nc s = None → cn_connecting s = None →
  step (step s CConnect) (CDialled (cn_next_task s) (Some l)) =
    (run_restore accepts (cn_next_task s) (cn_entries (redialled l s)) (redialled l s)).2.
Proof.
  intros Hn Hc. unfold redialled.
  rewrite (connect_dials s Hn Hc). unfold conn_step. cbn [run_conn]. unfold dialled. rewrite pm_bind_eq.
  cbn [get_state cn_tasks set_connecting spawn snd]. rewrite lookup_insert_eq. rewrite pm_bind_eq.
  cbn [modify]. rewrite pm_bind_eq. set (s1 := set_conn_closed _ _).
  assert (Hr : ∃ k, (register_mux_entry reply_prefix s1).1 = Ok k).
  { unfold register_mux_entry. rewrite pm_bind_eq. cbn [get_state]. destruct (cn_mux s1); [by eexists|].
    rewrite pm_bind_eq. cbn [fst]. by eexists. }
  destruct Hr as [k Hr]. destruct (register_mux_entry reply_prefix s1) as [r s2]. cbn in Hr |- *. by subst.
Qed.

(** After a suspend, every entry waits for the restoration. *)
Lemma redialled_ready t l s s1 :
  ok s → ok s1 → suspended t (cn_entries s) s s1 → cn_connecting s1 = None →
  accepts (mux_pattern reply_prefix) = true →
  (∀ k e, k ∈ cn_entries s → cn_store s !! k = Some e → accepts (en_pattern e) = true) →
  let s3 := redialled l s1 in
  ok s3 ∧ cn_nc s3 = Some l ∧ cn_subs s3 = cn_subs s1 ∧ l ∈ cn_up s3 ∧
  (∃ new, cn_entries s3 = cn_entries s ++ new ∧ (cn_mux s ≠ None → new = []) ∧ length new ≤ 1) ∧
  (∀ k e, k ∈ cn_entries s → cn_store s !! k = Some e → cn_store s3 !! k = Some (with_sub None e)) ∧
  (∀ k, k ∈ cn_entries s3 → waiting accepts s3 k).
Proof.
  intros Hs H1 Hsu Hc Hmux Hacc. cbv zeta.
  set (s2 := set_conn_closed false (set_nc (Some l) (upd_up (union {[l]}) (step s1 CConnect)))).
  assert (H2 : ok s2) by (apply (ok_frame reply_prefix (step s1 CConnect)); [done|auto|]; by apply ok_step).
  destruct (registered s2 H2) as (new & _ & E3 & E4 & En & E5 & E6 & E7 & E8 & E9).
  change (register_mux_entry reply_prefix s2).2 with (redialled l s1) in *. set (s3 := redialled l s1) in *.
  assert (H3 : ok s3) by (by apply (keeps_register reply_prefix s2)).
  pose proof (connect_dials s1 (su_nc _ _ _ _ Hsu) Hc) as Hd.
  assert (Hst : ∀ k e, k ∈ cn_entries s → cn_store s !! k = Some e → cn_store s3 !! k = Some (with_sub None e)).
  { intros k e Hk He. apply E8. subst s2. rewrite Hd. cbn. by rewrite (su_cleared _ _ _ _ Hsu), He. }
  assert (Ee : cn_entries s3 = cn_entries s ++ new).
  { rewrite E3. subst s2. rewrite Hd. cbn. by rewrite (su_entries _ _ _ _ Hsu). }
  split_and!; try done.
  - rewrite E7. subst s2. by rewrite Hd.
  - rewrite E6. subst s2. cbn. set_solver.
  - exists new. split_and!; try done. intros Hm. apply E4. subst s2. rewrite Hd. cbn. by rewrite (su_mux _ _ _ _ Hsu).
  - intros k Hk. destruct (ok_stored _ _ H3 k Hk) as [e3 He3]. rewrite Ee in Hk. apply elem_of_app in Hk as [Hk|Hk].
    + destruct (ok_stored _ _ Hs k Hk) as [e He]. exists (with_sub None e). split; [auto|]. split; [done|]. exact (Hacc k e Hk He).
    + destruct (E9 k e3 Hk He3) as [Hsub Hp]. exists e3. by rewrite Hp.
Qed.

(** C7. Undisturbed, a suspend and a connect restore every subscription: in
    a bounded number of resumptions each run to its end, the client is
    connected on the new transport, its entries are those it had (and the
    reply inbox), and each holds one live subscription there, with its
    subject, queue and handler; no other subscription is on the transport. *)
Theorem suspend_connect_restores s l :
  ok s → cn_connecting s = None →
  (∀ n b, cn_subs s !! n = Some b → sb_link b ≠ l) →
  accepts (mux_pattern reply_prefix) = true →
  (∀ k e, k ∈ cn_entries s → cn_store s !! k = Some e → accepts (en_pattern e) = true) →
  ∃ j j', j ≤ length (cn_entries s) + 2 ∧ j' ≤ length (cn_entries s) + 1 ∧
    let s1 := resumes (cn_next_task s) j (step s CSuspend) in
    let t := cn_next_task s1 in
    let s' := resumes t j' (step (step s1 CConnect) (CDialled t (Some l))) in
    is_connected s' = true ∧ cn_nc s' = Some l ∧ cn_suspending s1 = false ∧ cn_connecting s' = None ∧
    cn_tasks s1 !! cn_next_task s = None ∧ cn_tasks s' !! t = None ∧
    (∃ new, cn_entries s' = cn_entries s ++ new ∧ (cn_mux s ≠ None → new = [])) ∧
    (∀ k e, k ∈ cn_entries s → cn_store s !! k = Some e → ∃ x, cn_store s' !! k = Some (with_sub x e)) ∧
    (∀ k, k ∈ cn_entries s' → ∃ e n b, cn_store s' !! k = Some e ∧ en_sub e = Some n ∧
       cn_subs s' !! n = Some b ∧ live_sub l k e b) ∧
    (∀ n b, cn_subs s' !! n = Some b → sb_link b = l → ∃ k, k ∈ cn_entries s' ∧ sub_of k s' = Some n).
Proof.
  intros Hs Hc Hl Hmux Hacc.
  destruct (suspend_ends accepts reply_prefix (cn_next_task s) (cn_entries s) (step s CSuspend)) as (j & Hj & Hsu').
  set (s1 := resumes (cn_next_task s) (S j) (step s CSuspend)).
  rewrite <- resume_suspend, <- resumes_S in Hsu'. fold s1 in Hsu'.
  assert (Hsu : suspended (cn_next_task s) (cn_entries s) s s1) by (by destruct Hsu').
  assert (H1 : ok s1) by (by apply ok_resumes, ok_step).
  assert (H1c : cn_connecting s1 = None) by (by rewrite (su_connecting _ _ _ _ Hsu)).
  destruct (redialled_ready _ l s s1 Hs H1 Hsu H1c Hmux Hacc) as (H3 & Hnc & Hsubs & Hup & (new & Ee & En & Enl) & Hst & Hw).
  set (s3 := redialled l s1) in *.
  destruct (restore_prefix accepts reply_prefix (cn_next_task s1) l (cn_entries s3) s3 [] Hnc (ok_distinct _ _ H3) Hw)
    as (j' & s4 & Hj' & Hf & E).
  rewrite app_nil_r in E. exists (S j), j'. split; [lia|]. split; [rewrite Ee, length_app in Hj'; lia|].
  cbv zeta. fold s1. rewrite (dial_restores l s1) by (done || by apply Hsu). fold s3. rewrite E. clear E.
  change (run_restore accepts (cn_next_task s1) [] s4).2
    with (set_connecting None (upd_tasks (delete (cn_next_task s1)) s4)).
  unfold is_connected, sub_of. cbn [set_connecting upd_tasks cn_nc cn_up cn_connecting cn_tasks cn_entries cn_store cn_subs].
  rewrite (fi_nc _ _ _ _ Hf), (fi_up _ _ _ _ Hf), (fi_entries _ _ _ _ Hf), Hnc.
  split_and!; try done; [by apply bool_decide_eq_true|apply Hsu|apply Hsu|apply lookup_delete_eq|eauto|..].
  - intros k e Hk He. destruct (fi_filled _ _ _ _ Hf k (with_sub None e)) as (n & b & _ & Hn & _).
    + rewrite Ee. apply elem_of_app. by left.
    + auto.
    + eauto.
  - intros k Hk. destruct (ok_stored _ _ H3 k Hk) as [e He].
    destruct (fi_filled _ _ _ _ Hf k e Hk He) as (n & b & _ & Hn & Hb & Hlive). by exists (with_sub (Some n) e), n, b.
  - intros n b Hn Hbl. destruct (fi_only _ _ _ _ Hf n b Hn) as [Hb|Hb]; [|done]. exfalso.
    rewrite Hsubs in Hb. destruct (su_links _ _ _ _ Hsu n b Hb) as (b0 & Hb0 & El). apply (Hl n b0 Hb0). congruence.
Qed.

(** C38. A subject the transport rejects makes the restoration fail for good:
    [subscribe] raises but leaves the entry behind, and every later connect
    raises when it reaches that entry. The entries after it get no
    subscription, and connecting again does nothing, for the client is
    connected. *)
Theorem rejected_subject_ends_restoration s l ks key tail :
  ok s → cn_nc s = None → cn_connecting s = None → cn_mux s ≠ None →
  cn_entries s = ks ++ key :: tail →
  (∀ k, k ∈ cn_entries s → sub_of k s = None) →
  (∀ k e, k ∈ ks → cn_store s !! k = Some e → accepts (en_pattern e) = true) →
  (∀ e, cn_store s !! key = Some e → accepts (en_pattern e) = false) →
  ∃ j, let s' := resumes (cn_next_task s) j (step (step s CConnect) (CDialled (cn_next_task s) (Some l))) in
    is_connected s' = true ∧ cn_connecting s' = None ∧ cn_tasks s' !! cn_next_task s = None ∧
    cn_entries s' = cn_entries s ∧ (∀ k, k ∈ key :: tail → sub_of k s' = None) ∧ step s' CConnect = s'.
Proof.
  intros Hs Hn Hc Hm He Hsub Hks Hkey. rewrite (dial_restores l s Hn Hc).
  assert (Er : redialled l s = set_conn_closed false (set_nc (Some l) (upd_up (union {[l]}) (step s CConnect)))).
  { unfold redialled, register_mux_entry. rewrite pm_bind_eq. cbn [get_state set_conn_closed set_nc upd_up cn_mux].
    rewrite (connect_dials s Hn Hc). cbn [set_connecting spawn snd cn_mux]. by destruct (cn_mux s). }
  rewrite Er. clear Er. rewrite (connect_dials s Hn Hc). set (s3 := set_conn_closed _ _).
  change (cn_entries s3) with (cn_entries s).
  pose proof (ok_distinct _ _ Hs) as Hnd. rewrite He in Hnd. apply NoDup_app in Hnd as (Hnd & Hdis & _).
  destruct (restore_prefix accepts reply_prefix (cn_next_task s) l ks s3 (key :: tail) eq_refl Hnd) as (j & s4 & _ & Hf & E).
  { intros k Hk. assert (Hin : k ∈ cn_entries s) by (rewrite He; apply elem_of_app; auto).
    destruct (ok_stored _ _ Hs k Hin) as [e Hke]. exists e. specialize (Hsub k Hin). unfold sub_of in Hsub.
    rewrite Hke in Hsub. split_and!; [done..|]. exact (Hks k e Hk Hke). }
  exists j. rewrite He, E. cbv zeta.
  assert (Hkeep : ∀ k, k ∈ key :: tail → cn_store s4 !! k = cn_store s !! k).
  { intros k Hk. rewrite (fi_others _ _ _ _ Hf); [done|]. intros Hk'. by apply (Hdis k). }
  assert (Hin : ∀ k, k ∈ key :: tail → k ∈ cn_entries s) by (intros k Hk; rewrite He; apply elem_of_app; auto).
  destruct (ok_stored _ _ Hs key (Hin key (list_elem_of_here _ _))) as [e Hke].
  pose proof (Hsub key (Hin key (list_elem_of_here _ _))) as Hks'. unfold sub_of in Hks'. rewrite Hke in Hks'.
  rewrite (restore_rejects accepts (cn_next_task s) key e tail s4);
    [|by rewrite Hkeep by apply list_elem_of_here|done|by apply Hkey].
  unfold is_connected, conn_step. cbn [run_conn]. unfold connect. rewrite pm_bind_eq. cbn [get_state].
  unfold is_connected, sub_of. cbn [set_connecting upd_tasks cn_nc cn_up cn_connecting cn_tasks cn_entries cn_store].
  rewrite (fi_nc _ _ _ _ Hf), (fi_up _ _ _ _ Hf), (fi_entries _ _ _ _ Hf). cbn [s3 set_conn_closed set_nc upd_up cn_nc cn_up].
  assert (Hup : l ∈ {[l]} ∪ cn_up (set_connecting (Some (cn_next_task s)) (spawn TDial s).2)) by set_solver.
  rewrite bool_decide_eq_true_2 by done. split_and!; try done; [apply lookup_delete_eq|].
  intros k Hk. rewrite Hkeep by done. apply Hsub, Hin, Hk.
Qed.
End props.

(** ** An unsubscribe during the restoration *)

Section race.
Variables (reply_prefix pa qa pb qb : string) (ha hb : Z).
Abbreviation run es := (foldl (conn_step (λ _, true) reply_prefix) new_conn es).

(** A client with two subscriptions is suspended and connects again; while
    the first one is being restored, both are unsubscribed. *)
Definition unsubscribed_early : list conn_event :=
  [CConnect; CDialled 0 (Some 1%Z); CSubscribe pa qa ha; CResume 1; CSubscribe pb qb hb; CResume 2;
   CSuspend; CResume 3; CResume 3; CResume 3; CResume 3; CResume 3;
   CConnect; CDialled 4 (Some 2%Z); CUnsubscribe 2; CUnsubscribe 3; CResume 4; CResume 4].
Definition disconnected_after : list conn_event :=
  unsubscribed_early ++ [CDisconnect; CResume 5; CResume 5; CResume 5].

(** An unsubscribe that comes while [connect] restores the subscriptions
    is undone: both entries are gone, and yet both end up with a live
    subscription on the new transport that still calls the handler; nothing
    unsubscribes it any more, not even [disconnect]. *)
Theorem unsubscribe_during_restore :
  let s := run unsubscribed_early in
  let s' := run disconnected_after in
  cn_entries s = [1%Z] ∧ cn_tasks s = ∅ ∧ cn_nc s = Some 2%Z ∧
  cn_nc s' = None ∧ cn_tasks s' = ∅ ∧ cn_entries s' = [] ∧
  ∃ n m, n ≠ m ∧
    cn_subs s !! n = Some (Subscription 2 2 pa qa (Some ha) false true) ∧
    cn_subs s !! m = Some (Subscription 2 3 pb qb (Some hb) false true) ∧
    cn_subs s' !! n = cn_subs s !! n ∧ cn_subs s' !! m = cn_subs s !! m.
Proof.
  cbv zeta. split_and!; try (vm_compute; reflexivity). exists 4%Z, 5%Z.
  split_and!; try (vm_compute; reflexivity). done.
Qed.
End race.

(** ** Witnesses *)

Definition any_subject (_ : string) : bool := true.
Definition no_spaces (p : string) : bool := negb (bool_decide (p = "no good")).

(** Connected with a subscription; suspended with a rejected one. *)
Definition one_subscription : list conn_event :=
  [CConnect; CDialled 0 (Some 1%Z); CSubscribe "a" "" 10; CResume 1].
Definition three_subscriptions : list conn_event :=
  one_subscription ++ [CSubscribe "no good" "" 20; CSubscribe "c" "" 30; CResume 2;
    CSuspend; CResume 3; CResume 3; CResume 3; CResume 3; CResume 3].

Lemma suspend_connect_restores_witness :
  let s := foldl (conn_step any_subject "p") new_conn one_subscription in
  ∃ j j',
    let s1 := resumes any_subject "p" 2 j (conn_step any_subject "p" s CSuspend) in
    let t := cn_next_task s1 in
    let s' := resumes any_subject "p" t j'
                (conn_step any_subject "p" (conn_step any_subject "p" s1 CConnect) (CDialled t (Some 2%Z))) in
    cn_entries s' = [1%Z; 2%Z] ∧ ∃ n b, sub_of 2 s' = Some n ∧ cn_subs s' !! n = Some b ∧ sb_link b = 2%Z.
Proof.
  intros s.
  assert (Hl : map_Forall (λ _ b, sb_link b ≠ 2%Z) (cn_subs s)) by (apply (bool_decide_unpack _); vm_compute; exact I).
  destruct (suspend_connect_restores any_subject "p" s 2) as (j & j' & _ & _ & H);
    [by apply ok_run, ok_new|reflexivity|exact Hl|reflexivity|reflexivity|].
  exists j, j'. cbv zeta in H |- *. destruct H as (_ & _ & _ & _ & _ & _ & (new & He & Hnew) & _ & H & _).
  rewrite (Hnew ltac:(discriminate)), app_nil_r in He. split; [exact He|].
  destruct (H 2%Z) as (e & n & b & Hs & Hn & Hb & ->); [rewrite He; vm_compute; repeat constructor|].
  exists n, (Subscription 2 2 (en_pattern e) (en_queue e) (en_handler e) false true).
  unfold sub_of. split; [|done]. etransitivity; [exact (f_equal (λ x, x ≫= en_sub) Hs)|exact Hn].
Defined.

Lemma rejected_subject_ends_restoration_witness :
  let s := foldl (conn_step no_spaces "p") new_conn three_subscriptions in
  ∃ j, let s' := resumes no_spaces "p" 4 j
                   (conn_step no_spaces "p" (conn_step no_spaces "p" s CConnect) (CDialled 4 (Some 2%Z))) in
    sub_of 4 s' = None ∧ conn_step no_spaces "p" s' CConnect = s'.
Proof.
  intros s.
  destruct (rejected_subject_ends_restoration no_spaces "p" s 2 [1%Z; 2%Z] 3 [4%Z]) as (j & H).
  all: try (vm_compute; reflexivity).
  - apply ok_run, ok_new.
  - vm_compute. discriminate.
  - apply Forall_forall, (bool_decide_unpack _). vm_compute. exact I.
  - assert (E : Forall (λ k, match cn_store s !! k with
                             | Some e => no_spaces (en_pattern e) = true | None => True end) [1%Z; 2%Z]).
    { apply Forall_cons. split; [vm_compute; reflexivity|]. apply Forall_singleton. vm_compute. reflexivity. }
    intros k e Hk He. rewrite Forall_forall in E. specialize (E k Hk). by rewrite He in E.
  - intros e He. vm_compute in He. by injection He as <-.
  - exists j. cbv zeta in H |- *. destruct H as (_ & _ & _ & _ & H1 & H2). split; [|exact H2].
    apply (H1 4%Z), list_elem_of_further, list_elem_of_here.
Defined.
