(* ===== verification/Service.v ===== *)
(** * Micro-service endpoints (service.py)

    [RPCService.register_handler] gives every method of a service object an
    endpoint of its own, whose handler decodes, reassembles, dispatches and
    answers requests; the transport runs it on one message at a time. The
    responder is that of [Dispatch], its iterators being the service's
    [pull_iterator_cleanups]. *)

From S2P Require Import Prelude Text PyVal Dict Errors MsgPack Codec Chunking Transport Handlers Dispatch.

(** ** Endpoint names *)

(** The chain of [add_group] calls a nested path needs; a group is the list of
    names it was made with. *)
Definition groups_state : Type := gmap string (list string) * list (list string).
Definition add_groups (parts : list string) (s : groups_state) : groups_state :=
  let '(groups, log) := s in
  let chain := (λ n, take (S n) parts) <$> seq 0 (length parts) in
  (<[join "." parts := parts]> groups, log ++ chain).

(** One turn of the loop over the methods: the group the endpoint is added to
    and the endpoint's name. *)
Definition target_of (path : string) (s : groups_state) : (list string * string) * groups_state :=
  let segments := split_on dot path in
  let method_name := default "" (last segments) in
  let parts := removelast segments in
  match parts with
  | [] => (([], method_name), s)
  | _ =>
      let s := match s.1 !! join "." parts with Some _ => s | None => add_groups parts s end in
      ((default [] (s.1 !! join "." parts), method_name), s)
  end.
Definition add_endpoints (paths : list string) : list (list string * string) * groups_state :=
  walk target_of paths (∅, []).

(** ** Requests *)

Inductive service_request :=
| SStream (subject : string) (args : pyval)
| SPull (iterator_id : string) (args : pyval)
| SNormal.

Section service.
Context {M : MsgPack}.
Variable py_str : pyval → string.
Variable w : world.
Variable can_alloc : Z → bool.

(** The conditions of [handle_rpc_message]; [params] defaults to a dict. *)
Definition service_classify (id : string) (message : list (pyval * pyval)) : service_request :=
  let params := default (PDict []) (dict_lookup "params" message) in
  match params with
  | PDict kvs =>
      if truthy (dict_get "__stream" kvs) && truthy (dict_get "__streamSubject" kvs)
      then SStream (str_field py_str "__streamSubject" PNone kvs) (args_field kvs)
      else
        match marked "__pullIterator" params with
        | Some kvs => SPull (str_field py_str "__iteratorId" (PStr id) kvs) (args_field kvs)
        | None => SNormal
        end
  | _ =>
      match marked "__pullIterator" params with
      | Some kvs => SPull (str_field py_str "__iteratorId" (PStr id) kvs) (args_field kvs)
      | None => SNormal
      end
  end.

Definition service_reply (subject id : string) : string := subject +:+ ".reply." +:+ id.
Definition service_respond (subject id : string) (v : pyval) : pm exn responder unit :=
  modify (set_response (dict_set "result" v)) ≫= λ _, publish_on w (service_reply subject id).

(** A pull session of the service is stored under its iterator id. *)
Definition service_store (id : string) (g : source) (p : pull) : pm exn responder unit :=
  n ← take_number;
  modify (λ r, upd_iterators (od_set id n) (put_session n (LivePull id g true p) r)).

Definition service_serve (h : handler) (h_is_async : bool) (subject id : string)
    (message : list (pyval * pyval)) : pm exn responder unit :=
  match service_classify id message with
  | SStream stream_subject args => modify (add_stream (id, stream_subject, args))
  | SPull it args =>
      args ← lift (star_args args);
      x ← lift (handle_pull_iterator_request h args it);
      service_store it x.1 x.2 ≫= λ _,
      service_respond subject id (iterator_result it)
  | SNormal =>
      o ← lift (handle_normal_rpc h (default (PList []) (dict_lookup "params" message)) (Some h_is_async));
      service_respond subject id (obj_value o)
  end.

Definition service_answer_error (subject id : string) (e : exn) : pm exn responder unit :=
  modify (set_response (dict_set "error" (format_error_dict py_str e))) ≫= λ _,
  try_except (publish_on w (service_reply subject id)) (λ _, mret tt).

Definition handle_rpc_message (h : handler) (h_is_async : bool) (subject : string) (message : pyval) :
    pm exn responder unit :=
  id ← lift (message_id message);
  let kvs := match message with PDict kvs => kvs | _ => [] end in
  modify (set_response (λ _, [(PStr "id", PStr id)])) ≫= λ _,
  try_except (service_serve h h_is_async subject id kvs) (service_answer_error subject id).

(** ** The endpoint *)

Record endpoint := Endpoint {
  ep_responder : responder;
  ep_chunks : manager;
  (** [respond_error]: code and description *)
  ep_errors : list (string * string);
  (** messages the subscription still holds, and those it has handled; whether
      the handler is awaiting a stream *)
  ep_queue : list msg;
  ep_handled : list msg;
  ep_busy : bool }.
Definition new_endpoint : endpoint := Endpoint new_responder new_manager [] [] [] false.

Definition set_responder x (s : endpoint) : endpoint :=
  Endpoint x (ep_chunks s) (ep_errors s) (ep_queue s) (ep_handled s) (ep_busy s).
Definition set_ep_chunks x (s : endpoint) : endpoint :=
  Endpoint (ep_responder s) x (ep_errors s) (ep_queue s) (ep_handled s) (ep_busy s).
Definition add_ep_error x (s : endpoint) : endpoint :=
  Endpoint (ep_responder s) (ep_chunks s) (ep_errors s ++ [x]) (ep_queue s) (ep_handled s) (ep_busy s).
Definition set_queue x (s : endpoint) : endpoint :=
  Endpoint (ep_responder s) (ep_chunks s) (ep_errors s) x (ep_handled s) (ep_busy s).
Definition add_handled x (s : endpoint) : endpoint :=
  Endpoint (ep_responder s) (ep_chunks s) (ep_errors s) (ep_queue s) (ep_handled s ++ [x]) (ep_busy s).
Definition set_ep_busy x (s : endpoint) : endpoint :=
  Endpoint (ep_responder s) (ep_chunks s) (ep_errors s) (ep_queue s) (ep_handled s) x.

Definition on_responder {A} (m : pm exn responder A) : pm exn endpoint A := λ s,
  let '(r, x) := m (ep_responder s) in (r, set_responder x s).

(** [getattr(e, "code", ...)] and the code of the error reply. *)
Definition reply_code (e : exn) : string :=
  match e with
  | RPCError e => if is_key (code_value TIMEOUT) (rx_code e) then "408" else "500"
  | _ => "500"
  end.

Section endpoint.
Variables (h : handler) (h_is_async : bool) (subject : string).

(** A call of the client's chunking manager; what it assembles is handled in a
    task of its own, whose exceptions are lost. *)
Definition endpoint_chunks (op : pm exn manager unit) : pm exn endpoint unit := λ s,
  let '(r, m) := op (ep_chunks s) in
  let new_calls := drop (length (cm_calls (ep_chunks s))) (cm_calls m) in
  let '(_, s) := for_each new_calls
        (λ c, match c with
              | CallComplete _ _ data =>
                  try_except (on_responder (handle_rpc_message h h_is_async subject data)) (λ _, mret tt)
              | CallError _ _ _ => mret tt
              end) (set_ep_chunks m s) in
  (r, s).

(** The [try] body of [endpoint_handler]; true when it awaits a stream. *)
Definition receive_request (now now' : Z) (m : msg) : pm exn endpoint bool :=
  let chunk_type := header "x-chunked-transfer" m in
  if bool_decide (chunk_type = Some "header") then
    decoded ← lift (decode (m_data m));
    match header "x-chunk-id" m with
    | None | Some "" => mret false
    | Some chunk_id =>
        fields ← lift (read_header decoded chunk_id);
        match fields with
        | None => mret false
        | Some (total, size, csize) =>
            endpoint_chunks (start_receiving can_alloc no_raise now now' chunk_id total 0 0 size csize) ≫= λ _,
            mret false
        end
    end
  else if bool_decide (chunk_type = Some "chunk") then
    (* [int] is applied before the id is looked at *)
    index ← lift (chunk_index m);
    match header "x-chunk-id" m with
    | None | Some "" => mret false
    | Some chunk_id =>
        endpoint_chunks (process_chunk no_raise now now' (received_chunk chunk_id index (m_data m))) ≫= λ _,
        mret false
    end
  else
    data ← lift (decode_message (m_data m));
    s ← get_state;
    on_responder (handle_rpc_message h h_is_async subject data) ≫= λ _,
    s' ← get_state;
    mret (bool_decide (length (r_streams (ep_responder s)) < length (r_streams (ep_responder s')))).

Definition endpoint_handler (now now' : Z) (m : msg) : pm exn endpoint bool :=
  try_except (receive_request now now' m)
    (λ e, modify (add_ep_error (reply_code e, exn_str py_str e)) ≫= λ _, mret false).

(** The subscription awaits the handler of each message before the next. *)
Fixpoint drain_queue (now now' : Z) (ms : list msg) : pm exn endpoint unit :=
  match ms with
  | [] => modify (set_queue [])
  | m :: ms =>
      streaming ← endpoint_handler now now' m;
      modify (add_handled m) ≫= λ _,
      if (streaming : bool) then modify (λ s, set_ep_busy true (set_queue ms s)) else drain_queue now now' ms
  end.

Inductive endpoint_event :=
| EpMessage (now now' : Z) (m : msg)
| EpStreamDone (now now' : Z).
Definition run_endpoint (e : endpoint_event) : pm exn endpoint unit :=
  s ← get_state;
  match e with
  | EpMessage now now' m =>
      if ep_busy s then modify (set_queue (ep_queue s ++ [m])) else drain_queue now now' (ep_queue s ++ [m])
  | EpStreamDone now now' =>
      if ep_busy s then modify (set_ep_busy false) ≫= λ _, drain_queue now now' (ep_queue s) else mret tt
  end.
Definition endpoint_step (s : endpoint) (e : endpoint_event) : endpoint := (run_endpoint e s).2.
End endpoint.
End service.
