(* ===== verification/ServiceProps.v ===== *)
(** * What service endpoints guarantee (service.py)

    An endpoint answers calls and pull requests as a namespace registration
    does; it handles its messages one at a time and in order, so a stream
    holds up everything behind it; and it knows nothing of callbacks. *)

From S2P Require Import Prelude Text PyVal Dict Errors MsgPack Codec Chunking Transport Handlers ClientStreams Dispatch DispatchSpec Service.

(** ** The two dispatchers side by side *)

(** The registration adds its method list to such an error. *)
Definition lists_methods (py_str : pyval → string) (e : exn) : bool :=
  match format_error_dict py_str e with
  | PDict kvs => is_key (code_value METHOD_NOT_FOUND) (dict_get "code" kvs)
  | _ => false
  end.

Section equivalence.
Context {M : MsgPack}.
Variable py_str : pyval → string.
Variable w : world.
Variable cleanup_raises : Z → option exn.
Variables (id subject : string) (sent_c sent_s : list (string * pyval)).

(** A registration's responder and a service's, that have answered the same
    way since they had sent [sent_c] and [sent_s]. *)
Record alike (rc rs : responder) : Prop := {
  al_time : r_time rc = r_time rs;
  al_next : r_next rc = r_next rs;
  al_sessions : r_sessions rc = r_sessions rs;
  al_iterators : r_iterators rc = r_iterators rs;
  al_response : r_response rc = r_response rs;
  al_sent : ∃ vs, r_sent rc = sent_c ++ ((λ v, ("rpc.reply." +:+ id, v)) <$> vs) ∧
                  r_sent rs = sent_s ++ ((λ v, (service_reply subject id, v)) <$> vs) }.

(** Both computations end the same way, in responders that are alike. *)
Definition matches {A} (mc ms : pm exn responder A) : Prop :=
  ∀ rc rs, alike rc rs → (mc rc).1 = (ms rs).1 ∧ alike (mc rc).2 (ms rs).2.

Lemma matches_bind {A B} (mc ms : pm exn responder A) (fc fs : A → pm exn responder B) :
  matches mc ms → (∀ a, matches (fc a) (fs a)) → matches (mc ≫= fc) (ms ≫= fs).
Proof.
  intros Hm Hf rc rs H. rewrite !pm_bind_eq. destruct (Hm rc rs H) as [E Ha].
  destruct (mc rc) as [rc1 sc1], (ms rs) as [rs1 ss1]. cbn in E, Ha. subst. destruct rs1; [by apply Hf|done].
Qed.

Lemma matches_lift {A} (r : result exn A) : matches (lift r) (lift r).
Proof. by intros rc rs H. Qed.

Lemma matches_modify f g : (∀ rc rs, alike rc rs → alike (f rc) (g rs)) → matches (modify f) (modify g).
Proof. intros H rc rs Ha. split; [done|]. by apply H. Qed.

Lemma matches_set f : matches (modify (set_response f)) (modify (set_response f)).
Proof. apply matches_modify. intros rc rs [E1 E2 E3 E4 E5 E6]. split; try done. cbn. by rewrite E5. Qed.

Lemma matches_try {A} (mc ms : pm exn responder A) hc hs :
  matches mc ms → (∀ e, matches (hc e) (hs e)) → matches (try_except mc hc) (try_except ms hs).
Proof.
  intros Hm Hh rc rs H. unfold try_except. destruct (Hm rc rs H) as [E Ha].
  destruct (mc rc) as [rc1 sc1], (ms rs) as [rs1 ss1]. cbn in E, Ha. subst. destruct rs1; [done|by apply Hh].
Qed.

Lemma publish_on_eq s r :
  publish_on w s r =
    match encode_message (PDict (r_response r)) with
    | Raise e => (Raise e, r_tick r)
    | Ok _ =>
        match publish_at w (r_time r) with
        | Some e => (Raise e, r_tick r)
        | None => (Ok tt, add_sent (s, PDict (r_response r)) (r_tick r))
        end
    end.
Proof.
  unfold publish_on. rewrite pm_bind_eq. cbn [get_state]. rewrite pm_bind_eq. cbn [modify].
  destruct (encode_message _); [|done]. by destruct (publish_at w (r_time r)).
Qed.

Lemma matches_publish : matches (publish_response w id) (publish_on w (service_reply subject id)).
Proof.
  intros rc rs [E1 E2 E3 E4 E5 (vs & E6 & E7)]. unfold publish_response. rewrite !publish_on_eq, E5, E1.
  assert (Ht : alike (r_tick rc) (r_tick rs)) by (split; try done; [cbn; by rewrite E1|by exists vs]).
  destruct (encode_message _); [|done]. destruct (publish_at w (r_time rs)); [done|].
  split; [done|]. split; try done; [cbn; by rewrite E1|..]. exists (vs ++ [PDict (r_response rs)]).
  cbn. by rewrite E6, E7, !fmap_app, !app_assoc.
Qed.

Lemma matches_respond v : matches (respond_with w id "result" v) (service_respond w subject id v).
Proof. apply matches_bind; [apply matches_set|]. intros _. apply matches_publish. Qed.

Lemma matches_store reg it g p :
  matches (store_iterator reg it true g p) (service_store it g p).
Proof.
  apply matches_bind.
  - intros rc rs [E1 E2 E3 E4 E5 E6]. split; [cbn; by rewrite E2|]. split; try done. cbn. by rewrite E2.
  - intros n. apply matches_modify. intros rc rs [E1 E2 E3 E4 E5 E6].
    unfold own, put_session, upd_iterators. destruct (owned _ _). split; try done; cbn; by rewrite ?E3, ?E4.
Qed.

(** Where the registration sees a call or a pull request, so does the service. *)
Lemma service_classify_agrees kvs :
  match classify py_str id (dict_get "params" kvs) with
  | Ok (NormalRequest _) => service_classify py_str id kvs = SNormal
  | Ok (PullRequest it args) => service_classify py_str id kvs = SPull it args
  | _ => True
  end.
Proof.
  assert (Hn : ∀ v, is_none v = true → truthy v = false) by (by intros []).
  assert (Hp : dict_get "params" kvs = default PNone (dict_lookup "params" kvs)) by done. rewrite Hp. clear Hp.
  unfold classify, service_classify. destruct (dict_lookup "params" kvs) as [params|]; [|done].
  change (default ?x (Some params)) with params. unfold has_both at 1. destruct params; try done.
  - destruct (marked "__pullIterator" _); [done|]. destruct (marked "__pullCallback" _); [done|].
    repeat case_match; simplify_eq; done.
  - destruct (is_none _ || is_none _) eqn:E; [|done].
    assert (truthy (dict_get "__stream" kvs0) && truthy (dict_get "__streamSubject" kvs0) = false) as ->.
    { apply orb_true_iff in E as [E|E]; apply Hn in E; rewrite E; [done|apply andb_false_r]. }
    destruct (marked "__pullIterator" _); [done|]. destruct (marked "__pullCallback" _); [done|].
    repeat case_match; simplify_eq; done.
Qed.

Section message.
Variables (reg : Z) (h : handler) (names : list string) (is_async : bool) (now now' : Z).
Variable kvs : list (pyval * pyval).

Lemma matches_serve :
  is_true (dict_get "__timing" kvs) = false →
  match classify py_str id (dict_get "params" kvs) with
  | Ok (NormalRequest _) | Ok (PullRequest _ _) => True | _ => False end →
  matches (serve py_str w cleanup_raises reg h is_async now now' id kvs)
          (service_serve py_str w h is_async subject id kvs).
Proof.
  intros Ht Hc. unfold serve, service_serve. pose proof (service_classify_agrees kvs) as Ha.
  destruct (classify py_str id (dict_get "params" kvs)) as [[]|] eqn:Ec; try done; rewrite Ha.
  - change (lift (Ok ?x) ≫= ?f) with (f x). apply matches_bind; [apply matches_lift|]. intros args'.
    apply matches_bind; [apply matches_lift|]. intros x. apply matches_bind; [apply matches_store|]. intros _.
    apply matches_respond.
  - change (lift (Ok ?x) ≫= ?f) with (f x). apply matches_bind; [apply matches_lift|]. intros o. rewrite Ht.
    change (mret tt ≫= ?f) with (f tt). apply matches_respond.
Qed.

Lemma matches_answer e :
  lists_methods py_str e = false →
  matches (answer_error py_str w id names e) (service_answer_error py_str w subject id e).
Proof.
  intros He. unfold answer_error, service_answer_error. apply matches_bind; [apply matches_set|]. intros _.
  unfold lists_methods in He. rewrite He. change (mret tt ≫= ?f) with (f tt).
  apply matches_try; [apply matches_publish|]. by intros e' rc rs.
Qed.
End message.
End equivalence.

Section props.
Context {M : MsgPack}.
Variable py_str : pyval → string.
Variable w : world.
Variable cleanup_raises : Z → option exn.

(** C6. A service endpoint is equivalent to a method of a registered
    namespace: for a call or a pull request that asks neither for discovery
    nor for timing, and that does not fail with METHOD_NOT_FOUND, it goes
    through the same sessions and publishes the same responses, each on the
    endpoint's reply subject instead of the client's. *)
Theorem service_matches_client id subject reg h names is_async now now' kvs rc rs :
  message_id (PDict kvs) = Ok id →
  is_true (dict_get "__discover" kvs) = false → is_true (dict_get "__timing" kvs) = false →
  match classify py_str id (dict_get "params" kvs) with
  | Ok (NormalRequest _) | Ok (PullRequest _ _) => True | _ => False end →
  (∀ e, (serve py_str w cleanup_raises reg h is_async now now' id kvs
           (set_response (λ _, [(PStr "id", PStr id)]) rc)).1 = Raise e → lists_methods py_str e = false) →
  alike id subject (r_sent rc) (r_sent rs) rc rs →
  let rc' := dispatch_step py_str w cleanup_raises rc (DMessage reg h names is_async now now' (PDict kvs)) in
  let rs' := (handle_rpc_message py_str w h is_async subject (PDict kvs) rs).2 in
  alike id subject (r_sent rc) (r_sent rs) rc' rs'.
Proof.
  intros Hid Hd Ht Hc He Ha. cbv zeta. unfold dispatch_step, handle_rpc_message. cbn [run_dispatch].
  unfold handle_message. rewrite !pm_bind_eq. cbn [lift]. rewrite Hid, !pm_bind_eq. cbn [modify]. rewrite Hd.
  set (rc0 := set_response _ rc) in *. set (rs0 := set_response _ rs).
  assert (H0 : alike id subject (r_sent rc) (r_sent rs) rc0 rs0) by (destruct Ha; by split).
  rewrite pm_bind_eq. cbn [mret pm_ret].
  destruct (matches_serve py_str w cleanup_raises id subject (r_sent rc) (r_sent rs) reg h is_async now now' kvs
              Ht Hc rc0 rs0 H0) as [E H1].
  unfold try_except. destruct (serve _ _ _ _ _ _ _ _ _ _ rc0) as [[u|e] rc1], (service_serve _ _ _ _ _ _ _ rs0) as [r rs1];
    cbn in E, H1; subst; [done|].
  by apply (matches_answer py_str w id subject (r_sent rc) (r_sent rs) names e (He e eq_refl) rc1 rs1).
Qed.

(** ** One message at a time *)

Section endpoint.
Variable can_alloc : Z → bool.
Variables (h : handler) (h_is_async : bool) (subject : string).
Abbreviation ep_step := (endpoint_step py_str w can_alloc h h_is_async subject).

(** The subscription's side of the endpoint. *)
Definition subscription_state (s : endpoint) : list msg * list msg * bool :=
  (ep_queue s, ep_handled s, ep_busy s).
Definition held (c : list msg * list msg * bool) (s : endpoint) : Prop := subscription_state s = c.

Lemma held_responder {A} c (m : pm exn responder A) : keeps (held c) (on_responder m).
Proof. intros s Hs. unfold on_responder. by destruct (m (ep_responder s)). Qed.

Lemma held_chunks c op : keeps (held c) (endpoint_chunks py_str w h h_is_async subject op).
Proof.
  intros s Hs. unfold endpoint_chunks. destruct (op (ep_chunks s)) as [r m].
  match goal with |- context [for_each ?l ?f ?s0] =>
    assert (H : keeps (held c) (for_each l f)); [|specialize (H s0 Hs); by destruct (for_each l f s0)] end.
  apply keeps_for_each. intros call _. destruct call; [|apply keeps_ret].
  apply keeps_try; [apply held_responder|]. intros e. apply keeps_ret.
Qed.

Lemma held_handler c now now' m : keeps (held c) (endpoint_handler py_str w can_alloc h h_is_async subject now now' m).
Proof.
  apply keeps_try; [|intros e; apply keeps_bind; [by apply keeps_modify|]; intros _; apply keeps_ret].
  unfold receive_request. destruct (bool_decide _).
  - apply keeps_bind; [apply keeps_lift|]. intros decoded. destruct (header "x-chunk-id" m) as [[|]|]; try apply keeps_ret.
    apply keeps_bind; [apply keeps_lift|]. intros [[[total size] csize]|]; [|apply keeps_ret].
    apply keeps_bind; [apply held_chunks|]. intros _. apply keeps_ret.
  - destruct (bool_decide _).
    + apply keeps_bind; [apply keeps_lift|]. intros index. destruct (header "x-chunk-id" m) as [[|]|]; try apply keeps_ret.
      apply keeps_bind; [apply held_chunks|]. intros _. apply keeps_ret.
    + apply keeps_bind; [apply keeps_lift|]. intros data. apply keeps_get. intros s _.
      apply keeps_bind; [apply held_responder|]. intros _. apply keeps_get. intros s' _. apply keeps_ret.
Qed.

Lemma handler_returns now now' m s :
  ∃ b, (endpoint_handler py_str w can_alloc h h_is_async subject now now' m s).1 = Ok b.
Proof.
  unfold endpoint_handler, try_except. destruct (receive_request _ _ _ _ _ _ _ _ _ s) as [[b|e] s']; [by exists b|].
  rewrite pm_bind_eq. by exists false.
Qed.

(** What has been handled and what is held are what was delivered. *)
Definition in_order (delivered : list msg) (s : endpoint) : Prop :=
  ep_handled s ++ ep_queue s = delivered ∧ (ep_busy s = false → ep_queue s = []).

Lemma drain_in_order now now' ms : ∀ s,
  ep_busy s = false →
  in_order (ep_handled s ++ ms) (drain_queue py_str w can_alloc h h_is_async subject now now' ms s).2.
Proof.
  induction ms as [|m ms IH]; intros s Hb; [done|]. cbn [drain_queue]. rewrite pm_bind_eq.
  destruct (handler_returns now now' m s) as [b Eb].
  pose proof (held_handler (subscription_state s) now now' m s eq_refl) as Hh.
  destruct (endpoint_handler _ _ _ _ _ _ _ _ _ s) as [r s1]. cbn in Eb, Hh. subst r.
  injection Hh as Eq Eh Ebusy. rewrite pm_bind_eq. cbn [modify]. destruct b.
  - split; [|done]. cbn. by rewrite Eh, <- app_assoc.
  - specialize (IH (add_handled m s1)). cbn in IH. rewrite Eh, <- app_assoc in IH. apply IH. congruence.
Qed.

Definition arrivals (es : list endpoint_event) : list msg :=
  omap (λ e, match e with EpMessage _ _ m => Some m | EpStreamDone _ _ => None end) es.

Lemma in_order_run es : in_order (arrivals es) (foldl ep_step new_endpoint es).
Proof.
  induction es as [|e es IH] using rev_ind; [done|]. rewrite foldl_app. cbn [foldl].
  unfold arrivals. rewrite omap_app. fold (arrivals es). destruct IH as [H1 H2].
  generalize dependent (foldl ep_step new_endpoint es). intros s H1 H2. unfold endpoint_step, run_endpoint.
  rewrite pm_bind_eq. cbn [get_state]. destruct e as [now now' m|now now']; cbn [omap list_omap].
  - destruct (ep_busy s) eqn:Eb.
    + split; [cbn; by rewrite app_assoc, H1|]. cbn. congruence.
    + rewrite <- H1, (H2 eq_refl), app_nil_r. by apply drain_in_order.
  - rewrite app_nil_r. destruct (ep_busy s) eqn:Eb; [|split; [done|auto]].
    rewrite pm_bind_eq. cbn [modify]. rewrite <- H1. by apply (drain_in_order now now' (ep_queue s) (set_ep_busy false s)).
Qed.

End endpoint.

(** Service endpoints know no callbacks: the parameters that
    [call_with_callback] sends, which a registered method takes for a
    callback subscription, are an ordinary argument to an endpoint, so the
    handler is called with the request's own dict and the callback never
    runs. *)
Theorem service_ignores_callbacks id subject callback_subject args h h_is_async kvs r :
  dict_lookup "params" kvs = Some (PList [callback_params callback_subject args]) →
  classify py_str id (dict_get "params" kvs) = Ok (CallbackRequest callback_subject (PList args)) ∧
  service_serve py_str w h h_is_async subject id kvs r =
    (o ← lift (o ← h_call h [callback_params callback_subject args]; if h_is_async then await o else mret o);
     service_respond w subject id (obj_value o)) r.
Proof.
  intros Hp. unfold service_serve, service_classify, dict_get. rewrite Hp. split; [done|]. cbn.
  by destruct h_is_async.
Qed.
End props.

(** ** Endpoint names *)

(** The groups are filed under the path they were made for. *)
Definition groups_ok (s : groups_state) : Prop :=
  ∀ p parts, s.1 !! p = Some parts → parts ≠ [] ∧ join "." parts = p.

Lemma target_named path s :
  groups_ok s → let '((prefix, name), s') := target_of path s in join "." (prefix ++ [name]) = path ∧ groups_ok s'.
Proof.
  intros Hs. unfold target_of. pose proof (split_on_nonempty dot path) as Hn.
  pose proof (join_split_on dot path) as Hj. change (String dot "") with "." in Hj.
  assert (El : split_on dot path = removelast (split_on dot path) ++ [default "" (last (split_on dot path))]).
  { destruct (split_on dot path) as [|x l] using rev_ind; [done|]. by rewrite removelast_last, last_snoc. }
  destruct (removelast (split_on dot path)) as [|p0 parts] eqn:Ep; cbn [fst snd].
  - rewrite El in Hj. cbn [app] in Hj |- *. done.
  - set (ps := p0 :: parts) in *.
    set (s' := match s.1 !! join "." ps with Some _ => s | None => add_groups ps s end).
    assert (Hs' : groups_ok s').
    { subst s'. destruct (s.1 !! join "." ps); [done|]. destruct s as [groups log]. unfold groups_ok. cbn [add_groups fst].
      intros p qs [[<- <-]|[_ Hq]]%lookup_insert_Some; [done|]. by apply (Hs p qs). }
    split; [|done].
    assert (Hk : ∃ qs, s'.1 !! join "." ps = Some qs).
    { subst s'. destruct (s.1 !! join "." ps) as [qs|] eqn:Eq; [by exists qs|]. destruct s as [groups log]. cbn.
      rewrite lookup_insert_eq. by exists ps. }
    destruct Hk as [qs Hk]. rewrite Hk. cbn [default]. destruct (Hs' _ _ Hk) as [Hq Hjq].
    by rewrite (join_snoc "." qs _ Hq), Hjq, <- (join_snoc "." ps _ ltac:(done)), <- El, Hj.
Qed.

(** Every method of a service gets one endpoint, in the group whose path and
    name spell the method's path. *)
Lemma endpoints_named paths :
  Forall2 (λ path ep, join "." (ep.1 ++ [ep.2]) = path) paths (add_endpoints paths).1.
Proof.
  unfold add_endpoints. assert (H : groups_ok (∅, [])) by (by intros p parts).
  revert H. generalize (∅ : gmap string (list string), [] : list (list string)). intros s.
  revert s. induction paths as [|path paths IH]; intros s Hs; [constructor|].
  change (walk target_of (path :: paths) s)
    with (let '(y, s) := target_of path s in let '(ys, s) := walk target_of paths s in (y :: ys, s)).
  pose proof (target_named path s Hs) as Ht.
  destruct (target_of path s) as [[prefix name] s1]. destruct Ht as [H1 H2]. specialize (IH s1 H2).
  destruct (walk target_of paths s1) as [eps s2]. by constructor.
Qed.

(** ** Witnesses *)

Definition plain_str (_ : pyval) : string := "".
Definition no_cleanup (_ : Z) : option exn := None.
Definition open_world : world := World (λ _, true) None (λ _, None).
Definition echo : handler :=
  Handler false false false false (λ args, Ok (OValue (default PNone (head args)))).
Definition echo_request : list (pyval * pyval) :=
  [(PStr "id", PStr "c.1"); (PStr "params", PList [PInt 5])].

Lemma service_matches_client_witness :
  alike "c.1" "echo" [] []
    (dispatch_step plain_str open_world no_cleanup new_responder (DMessage 0 echo ["echo"] false 0 0 (PDict echo_request)))
    (handle_rpc_message plain_str open_world echo false "echo" (PDict echo_request) new_responder).2.
Proof.
  apply (service_matches_client plain_str open_world no_cleanup "c.1" "echo" 0 echo ["echo"] false 0 0 echo_request
           new_responder new_responder); try reflexivity; [|].
  - intros e H. exfalso. revert H. match goal with |- ?x.1 = _ → _ => assert (E : x.1 = Ok tt) end.
    + vm_compute. reflexivity.
    + rewrite E. discriminate.
  - split; try reflexivity. by exists [].
Defined.

(** Two stream requests and a call, of which only the first is handled. *)
Definition numbers : handler :=
  Handler true false false false (λ _, Ok (OAsyncIter (Source (λ _, Yield (PInt 1)) true (Some None)))).
Definition stream_request : list (pyval * pyval) :=
  [(PStr "id", PStr "c.1"); (PStr "params", PDict [(PStr "__stream", PBool true); (PStr "__streamSubject", PStr "s")])].
Definition request_msg (kvs : list (pyval * pyval)) : msg :=
  Msg "numbers" "" None (match encode_message (PDict kvs) with Ok b => b | Raise _ => [] end).
Definition streaming : list endpoint_event := [EpMessage 0 0 (request_msg stream_request)].


Definition callback_request : list (pyval * pyval) :=
  [(PStr "id", PStr "c.1"); (PStr "params", PList [callback_params "rpc.cb.1" [PInt 5]])].
Lemma service_ignores_callbacks_witness :
  classify plain_str "c.1" (dict_get "params" callback_request) = Ok (CallbackRequest "rpc.cb.1" (PList [PInt 5])).
Proof.
  destruct (service_ignores_callbacks plain_str open_world "c.1" "echo" "rpc.cb.1" [PInt 5] echo false callback_request
              new_responder) as [H _]; [reflexivity|exact H].
Defined.
