(* ===== verification/Requests.v ===== *)
(** * The requests of the calling side (client.py)

    The messages that [_call_stream_once], [call_pull_iterator],
    [call_pull_iterator_with_callback] and [call_with_callback] send, and what
    the serving side makes of them: the markers in their parameters select the
    kind of request that the caller meant. *)

From S2P Require Import Prelude Text PyVal Dict Errors Types MsgPack Codec CodecRoundtrip Chunking ChunkingManager Ids Transport Calls Handlers ClientStreams Dispatch RemoteCall Service.

(** What a caller asks for. The callbacks of a pull iterator are given by
    their names, in order. *)
Inductive caller_request :=
| CallStream (subject : string) (args : list pyval)
| CallPullIterator (iterator_id : string) (args : list pyval)
| CallPullCallback (iterator_id : string) (methods oneway : list string) (args : list pyval)
| CallCallback (args : list pyval).

(** ** The messages *)

Definition stream_params (stream_subject : string) (args : list pyval) : pyval :=
  PDict [(PStr "__stream", PBool true); (PStr "__streamSubject", PStr stream_subject); (PStr "args", PTuple args)].
Definition stream_subject (subject request_id : string) : string := "stream." +:+ subject +:+ "." +:+ request_id.
Definition stream_message (request_id subject : string) (args : list pyval) : pyval :=
  PDict [(PStr "id", PStr request_id); (PStr "method", PStr "stream");
         (PStr "params", stream_params (stream_subject subject request_id) args)].

Definition pull_params (iterator_id : string) (args : list pyval) : pyval :=
  PDict [(PStr "__pullIterator", PBool true); (PStr "__iteratorId", PStr iterator_id); (PStr "args", PTuple args)].
Definition pull_callback_subject (iterator_id : string) : string := "_rpc.cb." +:+ iterator_id.
Definition pull_callback_params (iterator_id : string) (methods oneway : list string) (args : list pyval) : pyval :=
  PDict [(PStr "__pullCallback", PBool true); (PStr "__iteratorId", PStr iterator_id);
         (PStr "__callbackSubject", PStr (pull_callback_subject iterator_id));
         (PStr "__callbackMethods", PList (PStr <$> methods)); (PStr "__onewayMethods", PList (PStr <$> oneway));
         (PStr "args", PList args)].

(** The message with the id [rid]; all but streams go through [call]. [cb] is
    the id [call_with_callback] drew for its subject. *)
Definition request_message (rid cb : string) (q : caller_request) : pyval :=
  match q with
  | CallStream subject args => stream_message rid subject args
  | CallPullIterator it args => call_message rid [pull_params it args] false
  | CallPullCallback it methods oneway args => call_message rid [pull_callback_params it methods oneway args] false
  | CallCallback args => call_message rid [callback_params ("rpc.cb." +:+ cb) args] false
  end.

(** What the caller means by it, with the arguments as they arrive. *)
Definition meant (rid cb : string) (q : caller_request) : rpc_request :=
  match q with
  | CallStream subject args => StreamRequest (stream_subject subject rid) (PList (delivered <$> args))
  | CallPullIterator it args => PullRequest it (PList (delivered <$> args))
  | CallPullCallback it _ oneway args =>
      PullCallbackRequest it (pull_callback_subject it) oneway (PList (delivered <$> args))
  | CallCallback args => CallbackRequest ("rpc.cb." +:+ cb) (PList (delivered <$> args))
  end.

(** Services serve streams and pull iterators only. *)
Definition meant_to_service (rid : string) (q : caller_request) : service_request :=
  match q with
  | CallStream subject args => SStream (stream_subject subject rid) (PList (delivered <$> args))
  | CallPullIterator it args => SPull it (PList (delivered <$> args))
  | CallPullCallback _ _ _ _ | CallCallback _ => SNormal
  end.

Lemma str_list_delivered ss : str_list (delivered (PList (PStr <$> ss))) = ss.
Proof. cbn. induction ss as [|s ss IH]; [done|]. cbn. by rewrite IH. Qed.

Section requests.
Context {M : MsgPack} {laws : MsgPackLaws M}.
Variable py_str : pyval → string.

(** C14. Each of the four kinds of session request, encoded, sent and decoded,
    is classified by the dispatcher as the request the caller meant: the kind,
    the subjects and ids on which the two sides will meet, and the arguments.
    A service endpoint agrees on the kinds it serves and takes the others for
    plain calls. *)
Theorem request_understood rid cb q b :
  crosses (request_message rid cb q) b →
  ∃ kvs, decode_message b = Ok (PDict kvs) ∧ message_id (PDict kvs) = Ok rid ∧
    classify py_str rid (dict_get "params" kvs) = Ok (meant rid cb q) ∧
    service_classify py_str rid kvs = meant_to_service rid q.
Proof.
  intros H%crosses_delivered. rewrite H.
  destruct q; (eexists; split; [reflexivity|]); split_and!; try reflexivity.
  rewrite <- (str_list_delivered oneway) at 2. reflexivity.
Qed.
End requests.

(** ** Their types *)

(** What a caller publishes is an [RPCMessage] as types.py declares it,
    and the parameters of callback and pull-callback requests are
    [CallbackParams] and [PullCallbackParams]. *)
Theorem requests_typed rid cb q :
  has_type (RPCMessage TStr) (request_message rid cb q) = true ∧
  (∀ args discover, has_type (RPCMessage TStr) (call_message rid args discover) = true) ∧
  (∀ args, has_type CallbackParams (callback_params ("rpc.cb." +:+ cb) args) = true) ∧
  (∀ it methods oneway args, has_type PullCallbackParams (pull_callback_params it methods oneway args) = true).
Proof.
  split_and!.
  - by destruct q.
  - intros args []; done.
  - intros args. transitivity (has_type (TList TAny) (PList args) && true); [reflexivity|by rewrite values_type].
  - intros it methods oneway args.
    transitivity (has_type (TList TStr) (PList (PStr <$> methods)) && (has_type (TList TStr) (PList (PStr <$> oneway)) &&
      (has_type (TList TAny) (PList args) && true))); [reflexivity|by rewrite !strings_type, values_type].
Qed.

(** ** Witness *)

Definition batches : caller_request := CallPullCallback "c.2" ["on_item"; "on_batch"] ["on_item"] [PInt 3].

Lemma request_understood_witness :
  ∃ kvs, decode_message (bytes_of (request_message "c.3" "" batches)) = Ok (PDict kvs) ∧
    classify plain_str "c.3" (dict_get "params" kvs)
      = Ok (PullCallbackRequest "c.2" "_rpc.cb.c.2" ["on_item"] (PList [PInt 3])).
Proof.
  destruct (request_understood plain_str "c.3" "" batches (bytes_of (request_message "c.3" "" batches)))
    as (kvs & H1 & _ & H2 & _); [split_and!; vm_compute; reflexivity|]. exists kvs. split; [exact H1|exact H2].
Defined.
