(* ===== verification/ServiceManager.v ===== *)
(** * The service manager and the monitor (service.py)

    [RPCService] keeps the services registered on the current connection,
    some of them with a connection of their own; [ServiceMonitor] collects
    what services answer to a ping. *)

From S2P Require Import Prelude Text PyVal Errors.

(** ** Services *)

(** A registered service: [_isolated_client] is the connection it was given. *)
Record service := MkService { sv_id : Z; sv_name : string; sv_isolated : option Z }.
#[export] Instance service_eq_dec : EqDecision service.
Proof. solve_decision. Defined.

Inductive service_action := Stopped (id : Z) | Connected (client : Z) | Disconnected (client : Z).

Record service_manager := ServiceManager {
  (** the connection [init] saw last; [__svc] is bound to it *)
  sm_nc : option Z;
  sm_services : list service;
  sm_next : Z;
  sm_log : list service_action }.
Definition new_service_manager : service_manager := ServiceManager None [] 0 [].

Definition set_services x (s : service_manager) : service_manager :=
  ServiceManager (sm_nc s) x (sm_next s) (sm_log s).
Definition sm_act a : pm exn service_manager unit :=
  modify (λ s, ServiceManager (sm_nc s) (sm_services s) (sm_next s) (sm_log s ++ [a])).
Definition sm_fresh : pm exn service_manager Z := λ s,
  (Ok (sm_next s), ServiceManager (sm_nc s) (sm_services s) (sm_next s + 1) (sm_log s)).

Section manager.
(** what stopping a service and closing a connection raise, if they do *)
Variable stop_raises : Z → option exn.
Variable disconnect_raises : Z → option exn.

Definition raising (e : option exn) : pm exn service_manager unit :=
  match e with Some e => raise e | None => mret tt end.

(** [init]: a changed connection starts with no services. *)
Definition init (nc : Z) : pm exn service_manager unit :=
  s ← get_state;
  if bool_decide (sm_nc s = Some nc) then mret tt
  else modify (λ s, ServiceManager (Some nc) [] (sm_next s) (sm_log s)).

(** [register_handler] up to the service's own creation; [isolated]: whether a
    connection of its own was asked for and what connecting gave, [added]:
    whether the framework accepted the service. *)
Definition add_service (name : string) (isolated : option (result exn unit)) (added : result exn unit) :
    pm exn service_manager service :=
  s ← get_state;
  match sm_nc s with
  | None => raise (RuntimeError "RPCService is not initialized. Call init() first.")
  | Some _ =>
      client ← (match isolated with
                | None => mret None
                | Some connecting => c ← sm_fresh; lift connecting ≫= λ _, sm_act (Connected c) ≫= λ _, mret (Some c)
                end);
      lift added ≫= λ _,
      id ← sm_fresh;
      let service := MkService id name client in
      modify (λ s, set_services (sm_services s ++ [service]) s) ≫= λ _,
      mret service
  end.

(** [await s.stop()], and the disconnect of its own connection. *)
Definition stop_service (s : service) : pm exn service_manager unit :=
  sm_act (Stopped (sv_id s)) ≫= λ _, raising (stop_raises (sv_id s)).
Definition stop_and_disconnect (s : service) : pm exn service_manager unit :=
  stop_service s ≫= λ _,
  match sv_isolated s with
  | Some c => sm_act (Disconnected c) ≫= λ _, raising (disconnect_raises c)
  | None => mret tt
  end.

(** [stop_all] *)
Definition stop_all : pm exn service_manager unit :=
  s ← get_state;
  for_each (sm_services s) (λ x, suppress (stop_and_disconnect x)) ≫= λ _,
  modify (set_services []).

Definition find_service (name : string) (s : service_manager) : option service :=
  List.find (λ x, bool_decide (sv_name x = name)) (sm_services s).

(** [stop] *)
Definition stop (name : string) : pm exn service_manager unit :=
  s ← get_state;
  match find_service name s with
  | Some x =>
      suppress (stop_and_disconnect x ≫= λ _, modify (λ s, set_services (filter (λ y, y ≠ x) (sm_services s)) s))
  | None => mret tt
  end.

(** [get_all_info] and [get_info]; [get_all_stats] and [get_stats] are alike. *)
Definition get_all_info (s : service_manager) : list Z := sv_id <$> sm_services s.
Definition get_info (name : string) (s : service_manager) : option Z := sv_id <$> find_service name s.

(** [Service.stop], on the handle that [register_handler] returned. *)
Definition service_stop (x : service) : pm exn service_manager unit := suppress (stop_service x).

Inductive manager_event :=
| MInit (nc : Z)
| MAdd (name : string) (isolated : option (result exn unit)) (added : result exn unit)
| MStopAll
| MStop (name : string)
| MServiceStop (x : service).
Definition run_manager (e : manager_event) : pm exn service_manager unit :=
  match e with
  | MInit nc => init nc
  | MAdd name isolated added => add_service name isolated added ≫= λ _, mret tt
  | MStopAll => stop_all
  | MStop name => stop name
  | MServiceStop x => service_stop x
  end.
Definition manager_step (s : service_manager) (e : manager_event) : service_manager := (run_manager e s).2.
End manager.

(** ** The monitor *)

Section monitor.
Context {A : Type}.
(** [from_dict(json.loads(data.decode()))] *)
Variable parse : list byte → result exn A.

(** [ping], [info] and [stats] differ in their verb and in what they parse. *)
Inductive verb := PING | INFO | STATS.
Definition verb_name (v : verb) : string := match v with PING => "PING" | INFO => "INFO" | STATS => "STATS" end.
Definition monitor_subject (v : verb) (service_name : option string) : string :=
  match service_name with
  | Some "" | None => "$SRV." +:+ verb_name v
  | Some n => "$SRV." +:+ verb_name v +:+ "." +:+ n
  end.

Inductive monitor_action := MSubscribe | MPublish (subject : string) | MUnsubscribe.

(** The loop: the next message in time, or the exception of waiting for it. *)
Fixpoint collect (arrivals : list (result exn (list byte))) : list A :=
  match arrivals with
  | [] => []
  | Raise _ :: _ => []
  | Ok data :: arrivals =>
      match parse data with
      | Raise _ => []
      | Ok x => x :: collect arrivals
      end
  end.

(** One discovery: its responses, and what it did with the inbox. *)
Definition monitor (connected : bool) (v : verb) (service_name : option string)
    (subscribing publishing : result exn unit) (arrivals : list (result exn (list byte))) :
    result exn (list A * list monitor_action) :=
  if negb connected then Raise (RuntimeError "NATS client is not connected")
  else
    match subscribing with
    | Raise _ => Ok ([], [])
    | Ok _ =>
        match publishing with
        | Raise _ => Ok ([], [MSubscribe])
        | Ok _ => Ok (collect arrivals, [MSubscribe; MPublish (monitor_subject v service_name); MUnsubscribe])
        end
    end.

Definition ping connected service_name subscribing publishing arrivals :=
  monitor connected PING service_name subscribing publishing arrivals.
Definition info connected service_name subscribing publishing arrivals :=
  monitor connected INFO service_name subscribing publishing arrivals.
Definition stats connected service_name subscribing publishing arrivals :=
  monitor connected STATS service_name subscribing publishing arrivals.
End monitor.

(** ** Theorems *)

Section props.
Variable stop_raises : Z → option exn.
Variable disconnect_raises : Z → option exn.
Abbreviation step := (manager_step stop_raises disconnect_raises).
Abbreviation run es := (foldl step new_service_manager es).

(** What stopping one service does. *)
Definition stop_actions (x : service) : list service_action :=
  Stopped (sv_id x) ::
  match stop_raises (sv_id x), sv_isolated x with
  | None, Some c => [Disconnected c]
  | _, _ => []
  end.
Definition add_actions (acts : list service_action) (s : service_manager) : service_manager :=
  ServiceManager (sm_nc s) (sm_services s) (sm_next s) (sm_log s ++ acts).

Lemma stop_and_disconnect_eq x s :
  (stop_and_disconnect stop_raises disconnect_raises x s).2 = add_actions (stop_actions x) s ∧
  (stop_and_disconnect stop_raises disconnect_raises x s).1 =
    match stop_raises (sv_id x) with
    | Some e => Raise e
    | None => match sv_isolated x with
              | Some c => match disconnect_raises c with Some e => Raise e | None => Ok tt end
              | None => Ok tt
              end
    end.
Proof.
  unfold stop_and_disconnect, stop_service, stop_actions, add_actions, raising. rewrite !pm_bind_eq.
  cbn [sm_act modify]. destruct (stop_raises (sv_id x)); [done|]. cbn [mret pm_ret].
  destruct (sv_isolated x) as [c|]; [|done]. rewrite pm_bind_eq. cbn. rewrite <- app_assoc.
  by destruct (disconnect_raises c).
Qed.

Lemma stop_suppressed x s :
  suppress (stop_and_disconnect stop_raises disconnect_raises x) s = (Ok tt, add_actions (stop_actions x) s).
Proof.
  unfold suppress, try_except. rewrite pm_bind_eq. destruct (stop_and_disconnect_eq x s) as [E _].
  destruct (stop_and_disconnect _ _ x s) as [[[]|e] s1]; cbn in E; by subst.
Qed.

Lemma stop_all_eq s :
  (stop_all stop_raises disconnect_raises s).2 =
    set_services [] (add_actions (mjoin (stop_actions <$> sm_services s)) s).
Proof.
  unfold stop_all. rewrite pm_bind_eq. cbn [get_state].
  assert (H : ∀ xs s, for_each xs (λ x, suppress (stop_and_disconnect stop_raises disconnect_raises x)) s
            = (Ok tt, add_actions (mjoin (stop_actions <$> xs)) s)).
  { induction xs as [|x xs IH]; intros s0.
    - cbn. unfold add_actions. rewrite app_nil_r. by destruct s0.
    - cbn [for_each]. rewrite pm_bind_eq, stop_suppressed, IH. unfold add_actions. cbn.
      by rewrite <- app_assoc. }
  by rewrite pm_bind_eq, H.
Qed.

(** [stop_all] stops every registered service once, in their order,
    whether or not stopping another one failed, closes the own connection of
    each that stopped without an error, and leaves none registered. *)
Theorem stop_all_stops es :
  let s := run es in
  let s' := step s MStopAll in
  sm_services s' = [] ∧ sm_log s' = sm_log s ++ mjoin (stop_actions <$> sm_services s).
Proof.
  cbv zeta. generalize (run es). intros s. unfold manager_step. cbn [run_manager]. by rewrite stop_all_eq.
Qed.

(** ** Services that a reconnect forgets *)

(** Connection [c] is no longer any registered service's, nor a future one's. *)
Definition orphaned (c : Z) (log : list service_action) (s : service_manager) : Prop :=
  (c < sm_next s)%Z ∧ Forall (λ x, sv_isolated x ≠ Some c) (sm_services s) ∧
  (Disconnected c ∈ sm_log s → Disconnected c ∈ log).

Lemma orphaned_act c log a s : a ≠ Disconnected c → orphaned c log s → orphaned c log (sm_act a s).2.
Proof.
  intros Ha (H1 & H2 & H3). split_and!; [done..|]. cbn. intros [?|H%list_elem_of_singleton]%elem_of_app; [auto|congruence].
Qed.

Lemma stop_actions_other c x : sv_isolated x ≠ Some c → Disconnected c ∉ stop_actions x.
Proof.
  intros Hx [H|H]%elem_of_cons; [done|]. destruct (stop_raises _), (sv_isolated x) as [c'|]; try by apply elem_of_nil in H.
  apply list_elem_of_singleton in H. congruence.
Qed.

Lemma orphaned_actions c log acts s : Disconnected c ∉ acts → orphaned c log s → orphaned c log (add_actions acts s).
Proof. intros Ha (H1 & H2 & H3). split_and!; [done..|]. cbn. intros [?|?]%elem_of_app; [auto|done]. Qed.

Lemma orphaned_fresh c log : ∀ s, orphaned c log s →
  orphaned c log (sm_fresh s).2 ∧ ∃ n, (sm_fresh s).1 = Ok n ∧ n ≠ c.
Proof. intros s (H1 & H2 & H3). split; [split_and!; [cbn; lia|done..]|]. exists (sm_next s). split; [done|lia]. Qed.

Lemma orphaned_push c log x s :
  sv_isolated x ≠ Some c → orphaned c log s → orphaned c log (set_services (sm_services s ++ [x]) s).
Proof. intros Hx (H1 & H2 & H3). split_and!; [done| |done]. cbn. apply Forall_app. split; [done|]. by apply Forall_singleton. Qed.

Lemma orphaned_add c log name isolated added s :
  orphaned c log s → orphaned c log (add_service name isolated added s).2.
Proof.
  intros Hs. unfold add_service. rewrite pm_bind_eq. cbn [get_state]. destruct (sm_nc s); [|done].
  rewrite pm_bind_eq.
  assert (Hc : ∀ (m : pm exn service_manager (option Z)),
    (orphaned c log (m s).2 ∧ match (m s).1 with Ok x => x ≠ Some c | Raise _ => True end) →
    orphaned c log (let (r, s') := m s in
      match r with
      | Ok client => (lift added ≫= λ _, id ← sm_fresh; modify (λ s, set_services (sm_services s ++ [MkService id name client]) s)
                       ≫= λ _, mret (MkService id name client)) s'
      | Raise e => (Raise e, s')
      end).2).
  { intros m. destruct (m s) as [[client|e] s1]; [|by intros [? _]]. cbn [fst snd]. intros [H1 Hx].
    rewrite pm_bind_eq. cbn [lift]. destruct added; [|done]. rewrite pm_bind_eq.
    destruct (orphaned_fresh c log s1 H1) as (H2 & n & En & Hn). destruct (sm_fresh s1) as [r s2]. cbn in En. subst r.
    rewrite pm_bind_eq. cbn [modify mret pm_ret snd]. by apply orphaned_push. }
  apply Hc. destruct isolated as [connecting|]; [|done]. rewrite pm_bind_eq.
  destruct (orphaned_fresh c log s Hs) as (H2 & n & En & Hn). destruct (sm_fresh s) as [r s2]. cbn in En. subst r.
  rewrite pm_bind_eq. cbn [lift]. destruct connecting; [|done]. rewrite pm_bind_eq. cbn [sm_act modify].
  split; [|cbn; congruence]. by apply (orphaned_act c log (Connected n) s2).
Qed.

Lemma orphaned_step c log s e : orphaned c log s → orphaned c log (step s e).
Proof.
  intros Hs. unfold manager_step. destruct e as [nc|name isolated added| |name|x]; cbn [run_manager].
  - unfold init. rewrite pm_bind_eq. cbn [get_state]. case_bool_decide; [done|].
    destruct Hs as (H1 & _ & H3). split_and!; [done|constructor|done].
  - rewrite pm_bind_eq. pose proof (orphaned_add c log name isolated added s Hs) as H.
    by destruct (add_service name isolated added s) as [[]].
  - rewrite stop_all_eq. destruct Hs as (H1 & H2 & H3). split_and!; [done|constructor|].
    cbn. intros [?|H]%elem_of_app; [auto|]. apply list_elem_of_join in H as (acts & Ha & Hin).
    apply list_elem_of_fmap in Hin as (x & -> & Hx). rewrite Forall_forall in H2.
    by destruct (stop_actions_other c x (H2 x Hx)).
  - unfold stop. rewrite pm_bind_eq. cbn [get_state]. destruct (find_service name s) as [x|] eqn:Ef; [|done].
    pose proof Hs as (H1 & H2 & H3). apply List.find_some in Ef as [Hx _]. apply list_elem_of_In in Hx.
    rewrite Forall_forall in H2. pose proof (orphaned_actions c log (stop_actions x) s (stop_actions_other c x (H2 x Hx)) Hs) as H.
    unfold suppress, try_except. rewrite !pm_bind_eq. destruct (stop_and_disconnect_eq x s) as [E _].
    destruct (stop_and_disconnect _ _ x s) as [[[]|e] s1]; cbn in E; subst; [|done].
    cbn [modify mret pm_ret snd]. destruct H as (G1 & G2 & G3). split_and!; [done| |done]. cbn.
    apply Forall_forall. intros y [_ Hy]%list_elem_of_filter. auto.
  - unfold service_stop, stop_service, suppress, try_except, raising. rewrite !pm_bind_eq. cbn [sm_act modify].
    pose proof (orphaned_act c log (Stopped (sv_id x)) s ltac:(done) Hs) as H.
    by destruct (stop_raises (sv_id x)).
Qed.

(** The connections of the registered services are those handed out so far. *)
Definition clients_known (s : service_manager) : Prop :=
  Forall (λ x, ∀ c, sv_isolated x = Some c → (c < sm_next s)%Z) (sm_services s).

Lemma known_next s s' :
  sm_services s' = sm_services s → (sm_next s ≤ sm_next s')%Z → clients_known s → clients_known s'.
Proof.
  unfold clients_known. intros -> Hn H. eapply Forall_impl; [exact H|]. cbn. intros x Hx c Hc. specialize (Hx c Hc). lia.
Qed.

Lemma known_add name isolated added s : clients_known s → clients_known (add_service name isolated added s).2.
Proof.
  intros Hs. unfold add_service. rewrite pm_bind_eq. cbn [get_state]. destruct (sm_nc s); [|done]. rewrite pm_bind_eq.
  assert (Hpush : ∀ client s1, clients_known s1 → (∀ c, client = Some c → (c < sm_next s1)%Z) →
    clients_known ((lift added ≫= λ _, id ← sm_fresh; modify (λ s, set_services (sm_services s ++ [MkService id name client]) s)
                       ≫= λ _, mret (MkService id name client)) s1).2).
  { intros client s1 H1 Hc. rewrite pm_bind_eq. cbn [lift]. destruct added; [|done]. rewrite pm_bind_eq. cbn [sm_fresh].
    rewrite pm_bind_eq. cbn [modify mret pm_ret snd]. unfold clients_known. cbn. apply Forall_app. split.
    - apply (known_next s1 (set_services (sm_services s1) (sm_fresh s1).2)); [done|cbn; lia|done].
    - apply Forall_singleton. cbn. intros c Hcc. specialize (Hc c Hcc). lia. }
  destruct isolated as [connecting|].
  - rewrite pm_bind_eq. cbn [sm_fresh]. rewrite pm_bind_eq. cbn [lift].
    destruct connecting; [|by apply (known_next s); [|cbn; lia|]]. rewrite pm_bind_eq. cbn [sm_act modify mret pm_ret].
    apply Hpush; [by apply (known_next s); [|cbn; lia|]|]. intros c [= <-]. cbn. lia.
  - cbn [mret pm_ret]. by apply Hpush.
Qed.

Lemma known_step s e : clients_known s → clients_known (step s e).
Proof.
  intros Hs. unfold manager_step. destruct e as [nc|name isolated added| |name|x]; cbn [run_manager].
  - unfold init. rewrite pm_bind_eq. cbn [get_state]. case_bool_decide; [done|constructor].
  - rewrite pm_bind_eq. pose proof (known_add name isolated added s Hs) as H.
    by destruct (add_service name isolated added s) as [[]].
  - rewrite stop_all_eq. constructor.
  - unfold stop. rewrite pm_bind_eq. cbn [get_state]. destruct (find_service name s) as [x|]; [|done].
    unfold suppress, try_except. rewrite !pm_bind_eq. destruct (stop_and_disconnect_eq x s) as [E _].
    destruct (stop_and_disconnect _ _ x s) as [[[]|e] s1]; cbn in E; subst; [|done].
    unfold clients_known in *. cbn. rewrite Forall_forall in *. intros y [_ Hy]%list_elem_of_filter. exact (Hs y Hy).
  - unfold service_stop, stop_service, suppress, try_except, raising. rewrite !pm_bind_eq. cbn [sm_act modify].
    by destruct (stop_raises (sv_id x)).
Qed.

Lemma known_run es : clients_known (run es).
Proof. induction es as [|e es IH] using rev_ind; [constructor|]. rewrite foldl_app. by apply known_step. Qed.

(** A reconnect loses the own connections of services: once [init] has
    seen another connection, a service that was registered with a connection
    of its own is forgotten, and nothing the manager or a service handle does
    later closes that connection. *)
Theorem reconnect_leaks_connections es x c nc later :
  x ∈ sm_services (run es) → sv_isolated x = Some c → sm_nc (run es) ≠ Some nc →
  Disconnected c ∈ sm_log (run (es ++ MInit nc :: later)) → Disconnected c ∈ sm_log (run es).
Proof.
  intros Hx Hc Hnc. rewrite foldl_app. cbn [foldl].
  pose proof (known_run es) as Hk. unfold clients_known in Hk. rewrite Forall_forall in Hk.
  specialize (Hk x Hx c Hc). revert Hk Hnc. clear Hx. generalize (run es). intros s Hk Hnc.
  assert (H0 : orphaned c (sm_log s) (step s (MInit nc))).
  { unfold manager_step. cbn [run_manager]. unfold init. rewrite pm_bind_eq. cbn [get_state].
    rewrite bool_decide_eq_false_2 by done. split_and!; [done|constructor|done]. }
  enough (H : ∀ s', orphaned c (sm_log s) s' → orphaned c (sm_log s) (foldl step s' later)) by apply (H _ H0).
  clear H0. induction later as [|e later IH]; intros s' Hs'; [done|]. by apply IH, orphaned_step.
Qed.
End props.

(** ** Discovery *)

Section discovery.
Context {A : Type}.
Variable parse : list byte → result exn A.

(** Discovery collects the responses that arrive in time, in order, up to
    the first pause, and also only up to the first response that does not
    parse: everything after a malformed response is lost, although it is
    meant to be skipped. *)
Theorem discovery_collects service_name datas xs stop later :
  Forall2 (λ d x, parse d = Ok x) datas xs →
  match stop with Ok bad => is_ok (parse bad) = false | Raise _ => True end →
  let arrivals := (Ok <$> datas) ++ stop :: later in
  let inbox v := [MSubscribe; MPublish (monitor_subject v service_name); MUnsubscribe] in
  ping parse true service_name (Ok tt) (Ok tt) arrivals = Ok (xs, inbox PING) ∧
  info parse true service_name (Ok tt) (Ok tt) arrivals = Ok (xs, inbox INFO) ∧
  stats parse true service_name (Ok tt) (Ok tt) arrivals = Ok (xs, inbox STATS).
Proof.
  intros Hd Hs. cbv zeta. assert (E : collect parse ((Ok <$> datas) ++ stop :: later) = xs);
    [|unfold ping, info, stats, monitor; cbn [negb]; by rewrite E].
  induction Hd as [|d x datas xs Hx _ IH]; cbn [fmap list_fmap app collect].
  - destruct stop as [bad|e]; [|done]. by destruct (parse bad).
  - by rewrite Hx, IH.
Qed.
End discovery.

(** ** Witnesses *)

Definition stops_fine (_ : Z) : option exn := None.
Definition isolated_service : list manager_event :=
  [MInit 1; MAdd "math" (Some (Ok tt)) (Ok tt)].

Lemma reconnect_leaks_connections_witness :
  Disconnected 0 ∉ sm_log (foldl (manager_step stops_fine stops_fine) new_service_manager
    (isolated_service ++ [MInit 2; MStopAll; MStop "math"; MServiceStop (MkService 1 "math" (Some 0%Z))])).
Proof.
  intros H. apply (reconnect_leaks_connections stops_fine stops_fine isolated_service (MkService 1 "math" (Some 0%Z)) 0 2
    [MStopAll; MStop "math"; MServiceStop (MkService 1 "math" (Some 0%Z))]) in H.
  - vm_compute in H. by apply list_elem_of_singleton in H.
  - vm_compute. constructor.
  - reflexivity.
  - vm_compute. discriminate.
Defined.

Definition parse_byte (d : list byte) : result exn byte :=
  match d with [b] => Ok b | _ => Raise (ValueError "malformed") end.
Lemma discovery_collects_witness :
  ping parse_byte true (Some "math") (Ok tt) (Ok tt)
    [Ok [Byte.x01]; Ok [Byte.x02]; Ok []; Ok [Byte.x03]] =
  Ok ([Byte.x01; Byte.x02], [MSubscribe; MPublish "$SRV.PING.math"; MUnsubscribe]).
Proof.
  apply (discovery_collects parse_byte (Some "math") [[Byte.x01]; [Byte.x02]] [Byte.x01; Byte.x02] (Ok []) [Ok [Byte.x03]]);
    [repeat constructor|reflexivity].
Defined.
