(* ===== verification/Channel.v ===== *)
(** * Channels (channel.py; channel and private_channel of client.py)

    A channel couples event listeners to one subject; a private channel shares
    its subject with one other client and filters by sender. A remote close
    leaves its cleanup to a task, which runs at a later step. *)

From S2P Require Import Prelude Text PyVal Dict Errors.

Inductive chan_action :=
| CSubscribed (subject : string)
| CUnsubscribed (subject : string)
| CPublished (subject : string) (message : pyval)
| CRequested (subject : string) (data : pyval)
| CResponding (n : Z) (subject : string)
| CNotResponding (n : Z)
(** a listener called with a value; a close listener, without one *)
| CCalled (h : Z) (v : pyval)
| CCalledError (h : Z) (error : string)
| CCalledClose (h : Z)
| CDisconnected (client : Z).

Record channel := Channel {
  ch_id : string;
  (** the two clients of a private channel: this one and the target *)
  ch_private : option (string * string);
  ch_closed : bool;
  ch_initialized : bool;
  (** [_unsubscribe] *)
  ch_subscribed : bool;
  (** listeners by event, each with its async-ness *)
  ch_handlers : list (string * list (Z * bool));
  ch_close_handlers : list (Z * bool);
  ch_error_handlers : list (Z * bool);
  (** [__subscriptions], and a counter for them *)
  ch_requests : list Z;
  ch_next : Z;
  (** the attribute [_cleanup] reads, and the one the client sets: inside the
      class, [__isolated_client] is another name than [_isolated_client] *)
  ch_mangled_client : option Z;
  ch_isolated_client : option Z;
  ch_remote : option string;
  (** cleanup tasks created and not yet run *)
  ch_cleanups : nat;
  ch_log : list chan_action }.

Definition new_channel (id : string) (private : option (string * string)) : channel :=
  Channel id private false false false [] [] [] [] 0 None None None 0 [].

Definition set_closed x (s : channel) : channel :=
  Channel (ch_id s) (ch_private s) x (ch_initialized s) (ch_subscribed s) (ch_handlers s) (ch_close_handlers s)
    (ch_error_handlers s) (ch_requests s) (ch_next s) (ch_mangled_client s) (ch_isolated_client s) (ch_remote s)
    (ch_cleanups s) (ch_log s).
Definition set_initialized x (s : channel) : channel :=
  Channel (ch_id s) (ch_private s) (ch_closed s) x (ch_subscribed s) (ch_handlers s) (ch_close_handlers s)
    (ch_error_handlers s) (ch_requests s) (ch_next s) (ch_mangled_client s) (ch_isolated_client s) (ch_remote s)
    (ch_cleanups s) (ch_log s).
Definition set_subscribed x (s : channel) : channel :=
  Channel (ch_id s) (ch_private s) (ch_closed s) (ch_initialized s) x (ch_handlers s) (ch_close_handlers s)
    (ch_error_handlers s) (ch_requests s) (ch_next s) (ch_mangled_client s) (ch_isolated_client s) (ch_remote s)
    (ch_cleanups s) (ch_log s).
Definition upd_listeners f g h (s : channel) : channel :=
  Channel (ch_id s) (ch_private s) (ch_closed s) (ch_initialized s) (ch_subscribed s) (f (ch_handlers s))
    (g (ch_close_handlers s)) (h (ch_error_handlers s)) (ch_requests s) (ch_next s) (ch_mangled_client s)
    (ch_isolated_client s) (ch_remote s) (ch_cleanups s) (ch_log s).
Definition upd_requests f (s : channel) : channel :=
  Channel (ch_id s) (ch_private s) (ch_closed s) (ch_initialized s) (ch_subscribed s) (ch_handlers s)
    (ch_close_handlers s) (ch_error_handlers s) (f (ch_requests s)) (ch_next s) (ch_mangled_client s)
    (ch_isolated_client s) (ch_remote s) (ch_cleanups s) (ch_log s).
Definition set_isolated x (s : channel) : channel :=
  Channel (ch_id s) (ch_private s) (ch_closed s) (ch_initialized s) (ch_subscribed s) (ch_handlers s)
    (ch_close_handlers s) (ch_error_handlers s) (ch_requests s) (ch_next s) (ch_mangled_client s)
    x (ch_remote s) (ch_cleanups s) (ch_log s).
Definition set_remote x (s : channel) : channel :=
  Channel (ch_id s) (ch_private s) (ch_closed s) (ch_initialized s) (ch_subscribed s) (ch_handlers s)
    (ch_close_handlers s) (ch_error_handlers s) (ch_requests s) (ch_next s) (ch_mangled_client s)
    (ch_isolated_client s) x (ch_cleanups s) (ch_log s).
Definition upd_cleanups f (s : channel) : channel :=
  Channel (ch_id s) (ch_private s) (ch_closed s) (ch_initialized s) (ch_subscribed s) (ch_handlers s)
    (ch_close_handlers s) (ch_error_handlers s) (ch_requests s) (ch_next s) (ch_mangled_client s)
    (ch_isolated_client s) (ch_remote s) (f (ch_cleanups s)) (ch_log s).
Definition ch_act a : pm exn channel unit := modify (λ s,
  Channel (ch_id s) (ch_private s) (ch_closed s) (ch_initialized s) (ch_subscribed s) (ch_handlers s)
    (ch_close_handlers s) (ch_error_handlers s) (ch_requests s) (ch_next s) (ch_mangled_client s)
    (ch_isolated_client s) (ch_remote s) (ch_cleanups s) (ch_log s ++ [a])).

(** ** Subjects *)

(** [sorted([a, b])] *)
Definition sorted_ids (a b : string) : list string :=
  match String.compare a b with Gt => [b; a] | _ => [a; b] end.

(** The client's name without the suffix of an isolated connection. *)
Definition base_name (full_name : string) : string := before "-private-" (before "-channel-" full_name).

Definition channel_subject (id : string) (private : option (string * string)) : string :=
  match private with
  | None => "channel." +:+ id
  | Some (own, target) => "channel.private." +:+ id +:+ "." +:+ join "." (sorted_ids own target)
  end.
Definition ch_subject (s : channel) : string := channel_subject (ch_id s) (ch_private s).

(** ** Operations

    [published]: whether the client's publish goes through. *)

Definition public_msg (type : string) (data : pyval) : pyval :=
  PDict [(PStr "type", PStr type); (PStr "data", data); (PStr "error", PNone); (PStr "sender", PNone)].
(** Of a private channel, from [send] and from [close]. *)
Definition private_msg (own type : string) (data : pyval) : pyval :=
  PDict [(PStr "type", PStr type); (PStr "data", data); (PStr "sender", PStr own); (PStr "error", PNone)].
Definition private_close (own : string) : pyval :=
  PDict [(PStr "type", PStr "close"); (PStr "sender", PStr own); (PStr "data", PNone); (PStr "error", PNone)].
Definition channel_msg (type : string) (data : pyval) (s : channel) : pyval :=
  match ch_private s with
  | None => public_msg type data
  | Some (own, _) => if bool_decide (type = "close") then private_close own else private_msg own type data
  end.
Definition send_raw (published : result exn unit) (type : string) (data : pyval) : pm exn channel unit :=
  s ← get_state;
  lift published ≫= λ _, ch_act (CPublished (ch_subject s) (channel_msg type data s)).

Definition handshake : pyval := PDict [(PStr "__handshake", PBool true)].

(** [init]; a private channel sends a handshake. *)
Definition channel_init (subscribed published : result exn unit) : pm exn channel unit :=
  s ← get_state;
  if ch_initialized s then mret tt
  else
    modify (set_initialized true) ≫= λ _,
    lift subscribed ≫= λ _,
    ch_act (CSubscribed (ch_subject s)) ≫= λ _,
    modify (set_subscribed true) ≫= λ _,
    match ch_private s with
    | Some _ => suppress (send_raw published "message" handshake)
    | None => mret tt
    end.

Definition closed_channel : exn := RuntimeError "Channel is closed".
Definition send (published : result exn unit) (data : pyval) : pm exn channel unit :=
  s ← get_state;
  if ch_closed s then raise closed_channel else send_raw published "message" data.
Definition channel_request (data : pyval) : pm exn channel unit :=
  s ← get_state;
  if ch_closed s then raise closed_channel else ch_act (CRequested (ch_subject s +:+ ".request") data).

(** [on_request]: only a public channel records the subscription. *)
Definition on_request (responding : result exn unit) : pm exn channel Z :=
  s ← get_state;
  lift responding ≫= λ _,
  let n := ch_next s in
  modify (λ s, Channel (ch_id s) (ch_private s) (ch_closed s) (ch_initialized s) (ch_subscribed s) (ch_handlers s)
    (ch_close_handlers s) (ch_error_handlers s) (ch_requests s) (n + 1) (ch_mangled_client s)
    (ch_isolated_client s) (ch_remote s) (ch_cleanups s) (ch_log s)) ≫= λ _,
  ch_act (CResponding n (ch_subject s +:+ ".request")) ≫= λ _,
  match ch_private s with Some _ => mret tt | None => modify (upd_requests (λ l, l ++ [n])) end ≫= λ _,
  mret n.

(** [on] and [off] *)
Definition listeners (event : string) (s : channel) : list (Z * bool) := default [] (od_get event (ch_handlers s)).
Definition on (event : string) (h : Z) (is_async : bool) : pm exn channel unit :=
  if bool_decide (event = "close") then modify (upd_listeners id (od_set h is_async) id)
  else if bool_decide (event = "error") then modify (upd_listeners id id (od_set h is_async))
  else modify (λ s, upd_listeners (od_set event (od_set h is_async (listeners event s))) id id s).
Definition off (event : string) (h : Z) : pm exn channel unit :=
  if bool_decide (event = "close") then modify (upd_listeners id (od_del h) id)
  else if bool_decide (event = "error") then modify (upd_listeners id id (od_del h))
  else modify (λ s, if od_has event (ch_handlers s)
                    then upd_listeners (od_set event (od_del h (listeners event s))) id id s else s).

(** [_emit], over a snapshot; what a listener raises is printed. *)
Definition emit (event : string) (data : pyval) : pm exn channel unit :=
  s ← get_state;
  for_each (listeners event s) (λ '(h, is_async), ch_act (CCalled h data)).

(** [_cleanup] *)
Definition channel_cleanup : pm exn channel unit :=
  modify (upd_listeners (λ _, []) (λ _, []) (λ _, [])) ≫= λ _,
  s ← get_state;
  for_each (ch_requests s) (λ n, ch_act (CNotResponding n)) ≫= λ _,
  (if ch_subscribed s then ch_act (CUnsubscribed (ch_subject s)) ≫= λ _, modify (set_subscribed false) else mret tt) ≫= λ _,
  match ch_mangled_client s with
  | Some c => ch_act (CDisconnected c)
  | None => mret tt
  end.

(** [_handle_close] and [_handle_error] *)
Definition handle_close : pm exn channel unit :=
  s ← get_state;
  if ch_closed s then mret tt
  else
    modify (set_closed true) ≫= λ _,
    for_each (ch_close_handlers s) (λ '(h, is_async), ch_act (CCalledClose h)) ≫= λ _,
    modify (upd_cleanups S).
Definition handle_channel_error (error : string) : pm exn channel unit :=
  s ← get_state;
  for_each (ch_error_handlers s) (λ '(h, is_async), ch_act (CCalledError h error)).

(** [close] *)
Definition close (published : result exn unit) : pm exn channel unit :=
  s ← get_state;
  if ch_closed s then mret tt
  else
    modify (set_closed true) ≫= λ _,
    suppress (send_raw published "close" PNone) ≫= λ _,
    channel_cleanup.

Section handler.
Variable py_str : pyval → string.

(** The dispatch on [msg["type"]]. *)
Definition dispatch_message (kvs : list (pyval * pyval)) : pm exn channel unit :=
  match dict_lookup "type" kvs with
  | None => raise (KeyError "type")
  | Some type =>
      if is_key "message" type then emit "message" (dict_get "data" kvs)
      else if is_key "close" type then handle_close
      else if is_key "error" type then
        handle_channel_error (fmt py_str (default (PStr "Channel error") (dict_lookup "error" kvs)))
      else mret tt
  end.

(** [message_handler] of either class; what it raises is printed. *)
Definition is_handshake (kvs : list (pyval * pyval)) : bool :=
  match dict_get "data" kvs with PDict data => truthy (dict_get "__handshake" data) | _ => false end.
Definition channel_message_handler (msg : pyval) : pm exn channel unit :=
  s ← get_state;
  match msg with
  | PDict kvs =>
      match ch_private s with
      | None => dispatch_message kvs
      | Some (own, target) =>
          let sender := dict_get "sender" kvs in
          if is_key own sender then mret tt
          else if negb (is_key target sender) then mret tt
          else
            (match ch_remote s with
             | None | Some "" => modify (set_remote (Some target))
             | Some _ => mret tt
             end) ≫= λ _,
            (if is_key "message" (dict_get "type" kvs) && is_handshake kvs then mret tt else dispatch_message kvs)
      end
  | _ => raise (match ch_private s with
                | None => TypeError "message is not subscriptable by a string"
                | Some _ => AttributeError "message has no get"
                end)
  end.

Definition is_connected_to (client_id : string) (s : channel) : bool := bool_decide (ch_remote s = Some client_id).

(** ** Steps *)

Inductive chan_event :=
| HInit (subscribed published : result exn unit)
| HSend (published : result exn unit) (data : pyval)
| HRequest (data : pyval)
| HOnRequest (responding : result exn unit)
| HOn (event : string) (h : Z) (is_async : bool)
| HOff (event : string) (h : Z)
| HClose (published : result exn unit)
| HMessage (msg : pyval)
(** a cleanup task runs *)
| HCleanup.
Definition run_channel (e : chan_event) : pm exn channel unit :=
  match e with
  | HInit subscribed published => channel_init subscribed published
  | HSend published data => send published data
  | HRequest data => channel_request data
  | HOnRequest responding => on_request responding ≫= λ _, mret tt
  | HOn event h is_async => on event h is_async
  | HOff event h => off event h
  | HClose published => close published
  | HMessage msg => channel_message_handler msg
  | HCleanup => s ← get_state; match ch_cleanups s with
                               | O => mret tt
                               | S n => modify (upd_cleanups (λ _, n)) ≫= λ _, channel_cleanup
                               end
  end.
Definition chan_step (s : channel) (e : chan_event) : channel := (run_channel e s).2.
End handler.

(** [RPCClient.channel] and [private_channel], once the client they use is
    connected: [isolated] is the connection made for the channel. *)
Definition open_channel (id : string) (isolated : option Z) (subscribed : result exn unit) :
    result exn unit * channel :=
  let '(r, s) := channel_init subscribed (Ok tt) (new_channel id None) in
  (r, if is_ok r then set_isolated isolated s else s).
Definition open_private (full_name id target : string) (isolated : option Z) (subscribed published : result exn unit) :
    result exn unit * channel :=
  let '(r, s) := channel_init subscribed published (new_channel id (Some (base_name full_name, target))) in
  (r, if is_ok r then set_isolated isolated s else s).
