(* ===== verification/ChannelProps.v ===== *)
(** * What channels guarantee (channel.py)

    A channel closes once; the two ends of a private channel share a subject
    and hear each other only; closing releases what the channel recorded, and
    nothing else. *)

From S2P Require Import Prelude Text PyVal Dict Errors MsgPack Codec CodecSpec CodecRoundtrip Channel.

(** ** The log *)

Definition close_calls (l : list chan_action) : list Z :=
  omap (λ a, match a with CCalledClose h => Some h | _ => None end) l.
Definition is_close_notice (a : chan_action) : bool :=
  match a with
  | CPublished _ (PDict kvs) => is_key "close" (dict_get "type" kvs)
  | _ => false
  end.
Definition close_notices (l : list chan_action) : list chan_action := List.filter is_close_notice l.

(** An action that neither announces nor reports a close. *)
Definition neutral (a : chan_action) : Prop :=
  is_close_notice a = false ∧ match a with CCalledClose _ => False | _ => True end.

Lemma neutral_log a l : neutral a → close_calls (l ++ [a]) = close_calls l ∧ close_notices (l ++ [a]) = close_notices l.
Proof.
  intros [H1 H2]. unfold close_calls, close_notices. rewrite omap_app, List.filter_app. cbn. rewrite H1.
  split; [|by rewrite app_nil_r]. destruct a; try done; by rewrite app_nil_r.
Qed.

Lemma published_log x m l :
  close_calls (l ++ [CPublished x m]) = close_calls l ∧
  length (close_notices (l ++ [CPublished x m])) ≤ S (length (close_notices l)).
Proof.
  unfold close_calls, close_notices. rewrite omap_app, List.filter_app, length_app, app_nil_r. split; [done|].
  cbn [List.filter]. destruct (is_close_notice (CPublished x m)); cbn; lia.
Qed.

Section props.
Variable py_str : pyval → string.
Abbreviation step := (chan_step py_str).

(** [m] only adds actions [P] allows, and touches neither the flag nor the
    close listeners. *)
Definition quiet (s0 : channel) (s : channel) : Prop :=
  ch_closed s = ch_closed s0 ∧ (ch_close_handlers s = ch_close_handlers s0 ∨ ch_close_handlers s = []) ∧
  close_calls (ch_log s) = close_calls (ch_log s0) ∧ close_notices (ch_log s) = close_notices (ch_log s0).

Lemma quiet_act s0 a : neutral a → keeps (quiet s0) (ch_act a).
Proof.
  intros Ha. apply keeps_modify. intros s (H1 & H2 & H3 & H4). destruct (neutral_log a (ch_log s) Ha) as [E1 E2].
  unfold quiet. cbn [ch_closed ch_close_handlers ch_log]. by rewrite E1, E2.
Qed.

Lemma quiet_same s0 (f : channel → channel) :
  (∀ s, ch_closed (f s) = ch_closed s ∧ ch_close_handlers (f s) = ch_close_handlers s ∧ ch_log (f s) = ch_log s) →
  keeps (quiet s0) (modify f : pm exn channel unit).
Proof.
  intros H. apply keeps_modify. intros s (H1 & H2 & H3 & H4). destruct (H s) as (E1 & E2 & E3).
  unfold quiet. by rewrite E1, E2, E3.
Qed.

Lemma quiet_send s0 published type data :
  type ≠ "close" → keeps (quiet s0) (send_raw published type data).
Proof.
  intros Ht. apply keeps_get. intros s _. apply keeps_bind; [apply keeps_lift|]. intros _. apply quiet_act.
  split; [|done]. unfold channel_msg. destruct (ch_private s) as [[own target]|]; cbn; [|by apply bool_decide_eq_false_2].
  rewrite (bool_decide_eq_false_2 (type = "close")) by done. cbn. by apply bool_decide_eq_false_2.
Qed.

Lemma quiet_for_each {A} s0 (l : list A) f :
  (∀ x, x ∈ l → neutral (f x)) → keeps (quiet s0) (for_each l (λ x, ch_act (f x))).
Proof. intros H. apply keeps_for_each. intros x Hx. apply quiet_act; auto. Qed.

Lemma quiet_cleanup s0 : keeps (quiet s0) channel_cleanup.
Proof.
  apply keeps_bind.
  - apply keeps_modify. intros s (H1 & H2 & H3 & H4). split_and!; try done. by right.
  - intros _. apply keeps_get. intros s _. apply keeps_bind; [by apply quiet_for_each|]. intros _.
    apply keeps_bind.
    + destruct (ch_subscribed s); [|apply keeps_ret]. apply keeps_bind; [by apply quiet_act|]. intros _. by apply quiet_same.
    + intros _. destruct (ch_mangled_client s); [by apply quiet_act|apply keeps_ret].
Qed.

Lemma quiet_suppress {A} s0 (m : pm exn channel A) : keeps (quiet s0) m → keeps (quiet s0) (suppress m).
Proof.
  intros H. apply keeps_try; [|intros e; apply keeps_ret]. apply keeps_bind; [done|]. intros a. apply keeps_ret.
Qed.

(** ** Closing once *)

(** How a channel was closed so far: not at all, by this end, or by the
    other; and it is closed if it was. *)
Definition lifecycle (was_closed : bool) (s : channel) : Prop :=
  (od_wf (ch_close_handlers s) ∧ (was_closed = true → ch_closed s = true)) ∧
  if ch_closed s
  then (length (close_notices (ch_log s)) ≤ 1 ∧ close_calls (ch_log s) = []) ∨
       (close_notices (ch_log s) = [] ∧ NoDup (close_calls (ch_log s)))
  else close_notices (ch_log s) = [] ∧ close_calls (ch_log s) = [].

Lemma lifecycle_quiet c s s' : quiet s s' → lifecycle c s → lifecycle c s'.
Proof.
  intros (H1 & H2 & H3 & H4) [[Hw Hc] H]. unfold lifecycle. rewrite H1, H3, H4. split; [|done]. split; [|done].
  destruct H2 as [H2|H2]; rewrite H2; [done|constructor].
Qed.
Lemma keeps_quiet c (m : pm exn channel unit) : (∀ s0, keeps (quiet s0) m) → keeps (lifecycle c) m.
Proof. intros H s Hs. apply (lifecycle_quiet c s); [|done]. apply H. split_and!; auto. Qed.

Lemma close_calls_of (hs : list (Z * bool)) s :
  (for_each hs (λ '(h, is_async), ch_act (CCalledClose h)) s).2 =
    Channel (ch_id s) (ch_private s) (ch_closed s) (ch_initialized s) (ch_subscribed s) (ch_handlers s) (ch_close_handlers s)
      (ch_error_handlers s) (ch_requests s) (ch_next s) (ch_mangled_client s) (ch_isolated_client s) (ch_remote s)
      (ch_cleanups s) (ch_log s ++ (CCalledClose <$> hs.*1)) ∧
  (for_each hs (λ '(h, is_async), ch_act (CCalledClose h)) s).1 = Ok (E := exn) tt.
Proof.
  revert s. induction hs as [|[h a] hs IH]; intros s; cbn [for_each].
  - cbn. rewrite app_nil_r. by destruct s.
  - rewrite pm_bind_eq. cbn [ch_act modify]. destruct (IH (ch_act (CCalledClose h) s).2) as [E1 E2].
    cbn [ch_act modify snd] in E1, E2. rewrite E1, E2. cbn. by rewrite <- app_assoc.
Qed.

Lemma lifecycle_handle_close c : keeps (lifecycle c) handle_close.
Proof.
  intros s [[Hw Hcl] Hs]. unfold handle_close. rewrite pm_bind_eq. cbn [get_state]. destruct (ch_closed s) eqn:Ec.
  - cbn. split; [by rewrite Ec|]. by rewrite Ec.
  - destruct Hs as [Hn Hc]. rewrite pm_bind_eq. cbn [modify]. rewrite pm_bind_eq.
    destruct (close_calls_of (ch_close_handlers s) (set_closed true s)) as [E1 E2].
    destruct (for_each _ _ _) as [r s1]. cbn in E1, E2. subst. split; [done|]. right.
    assert (Hcalls : ∀ l, close_calls (CCalledClose <$> l) = l ∧ close_notices (CCalledClose <$> l) = []).
    { induction l as [|h l [I1 I2]]; [done|]. unfold close_calls, close_notices in *. cbn. by rewrite I1, I2. }
    destruct (Hcalls (ch_close_handlers s).*1) as [F1 F2].
    unfold close_calls, close_notices in *. cbn. rewrite omap_app, List.filter_app, Hc, Hn, F1, F2. done.
Qed.

Lemma lifecycle_close c published : keeps (lifecycle c) (close published).
Proof.
  intros s [[Hw Hcl] Hs]. unfold close. rewrite pm_bind_eq. cbn [get_state]. destruct (ch_closed s) eqn:Ec.
  - cbn. split; [by rewrite Ec|]. by rewrite Ec.
  - destruct Hs as [Hn Hc]. rewrite pm_bind_eq. cbn [modify]. rewrite pm_bind_eq.
    set (s1 := set_closed true s).
    assert (Hsent : ∃ s2, suppress (send_raw published "close" PNone) s1 = (Ok tt, s2) ∧ lifecycle c s2 ∧ ch_closed s2 = true).
    { unfold suppress, try_except, send_raw. rewrite !pm_bind_eq. cbn [get_state]. rewrite pm_bind_eq. cbn [lift].
      destruct published.
      - eexists. split; [reflexivity|]. split; [|done]. split; [done|]. left. cbn [ch_log ch_act modify snd].
        match goal with |- context [_ ++ [CPublished ?x ?m]] => destruct (published_log x m (ch_log s)) as [F1 F2] end.
        rewrite Hc in F1. rewrite Hn in F2. done.
      - eexists. split; [reflexivity|]. split; [|done]. split; [done|]. left.
        change (ch_log s1) with (ch_log s). rewrite Hn, Hc. split; [cbn; lia|done]. }
    destruct Hsent as (s2 & -> & H2 & _). revert s2 H2. apply keeps_quiet, quiet_cleanup.
Qed.

Lemma lifecycle_dispatch c kvs : keeps (lifecycle c) (dispatch_message py_str kvs).
Proof.
  unfold dispatch_message. destruct (dict_lookup "type" kvs) as [type|]; [|apply keeps_raise].
  destruct (is_key "message" type).
  - apply keeps_quiet. intros s0. apply keeps_get. intros s _. apply keeps_for_each. intros [h a] _. by apply quiet_act.
  - destruct (is_key "close" type); [apply lifecycle_handle_close|]. destruct (is_key "error" type); [|apply keeps_ret].
    apply keeps_quiet. intros s0. apply keeps_get. intros s _. apply keeps_for_each. intros [h a] _. by apply quiet_act.
Qed.

Lemma lifecycle_on c event h a : keeps (lifecycle c) (on event h a).
Proof.
  unfold on. destruct (bool_decide _).
  - apply keeps_modify. intros s [[Hw Hc] Hs]. split; [|done]. split; [|done]. cbn. by apply od_wf_set.
  - destruct (bool_decide _); apply keeps_quiet; intros s0; by apply quiet_same.
Qed.
Lemma lifecycle_off c event h : keeps (lifecycle c) (off event h).
Proof.
  unfold off. destruct (bool_decide _).
  - apply keeps_modify. intros s [[Hw Hc] Hs]. split; [|done]. split; [|done]. cbn. by apply od_wf_del.
  - destruct (bool_decide _); apply keeps_quiet; intros s0; [by apply quiet_same|]. apply quiet_same. intros s.
    by destruct (od_has event (ch_handlers s)).
Qed.

Lemma lifecycle_message c msg : keeps (lifecycle c) (channel_message_handler py_str msg).
Proof.
  apply keeps_get. intros s _. destruct msg; try apply keeps_raise. destruct (ch_private s) as [[own target]|];
    [|apply lifecycle_dispatch]. cbv zeta. destruct (is_key own _); [apply keeps_ret|]. destruct (negb _); [apply keeps_ret|].
  apply keeps_bind.
  - destruct (ch_remote s) as [[|]|]; try apply keeps_ret; apply keeps_quiet; intros s0; by apply quiet_same.
  - intros _. destruct (_ && _); [apply keeps_ret|apply lifecycle_dispatch].
Qed.

Lemma lifecycle_step c s e : lifecycle c s → lifecycle c (step s e).
Proof.
  intros Hs. unfold chan_step. revert s Hs. destruct e; cbn [run_channel].
  - apply keeps_quiet. intros s0. apply keeps_get. intros s _. destruct (ch_initialized s); [apply keeps_ret|].
    apply keeps_bind; [by apply quiet_same|]. intros _. apply keeps_bind; [apply keeps_lift|]. intros _.
    apply keeps_bind; [by apply quiet_act|]. intros _. apply keeps_bind; [by apply quiet_same|]. intros _.
    destruct (ch_private s); [|apply keeps_ret]. by apply quiet_suppress, quiet_send.
  - apply keeps_quiet. intros s0. apply keeps_get. intros s _. destruct (ch_closed s); [apply keeps_raise|by apply quiet_send].
  - apply keeps_quiet. intros s0. apply keeps_get. intros s _. destruct (ch_closed s); [apply keeps_raise|by apply quiet_act].
  - apply keeps_quiet. intros s0. apply keeps_bind; [|intros n; apply keeps_ret]. apply keeps_get. intros s _.
    apply keeps_bind; [apply keeps_lift|]. intros _. apply keeps_bind; [by apply quiet_same|]. intros _.
    apply keeps_bind; [by apply quiet_act|]. intros _.
    apply keeps_bind; [|intros _; apply keeps_ret]. destruct (ch_private s); [apply keeps_ret|by apply quiet_same].
  - apply lifecycle_on.
  - apply lifecycle_off.
  - apply lifecycle_close.
  - apply lifecycle_message.
  - apply keeps_quiet. intros s0. apply keeps_get. intros s _. destruct (ch_cleanups s); [apply keeps_ret|].
    apply keeps_bind; [by apply quiet_same|]. intros _. apply quiet_cleanup.
Qed.

(** A channel closes at most once, whatever the two ends do: either this
    end announced the close, with at most one notice, and no close listener
    is called; or the other end did, each listener is called at most once,
    and no notice is sent. A closed channel stays closed, and its sends and
    requests raise and send nothing. *)
Theorem closes_once id private es e :
  let s := foldl step (new_channel id private) es in
  (length (close_notices (ch_log s)) ≤ 1 ∧ close_calls (ch_log s) = [] ∨
   close_notices (ch_log s) = [] ∧ NoDup (close_calls (ch_log s))) ∧
  (ch_closed s = true →
   ch_closed (step s e) = true ∧
   (∀ published data, send published data s = (Raise closed_channel, s)) ∧
   (∀ data, channel_request data s = (Raise closed_channel, s))).
Proof.
  cbv zeta.
  assert (H : lifecycle false (foldl step (new_channel id private) es)).
  { enough (H : ∀ s, lifecycle false s → lifecycle false (foldl step s es)) by (apply H; split; [split; [constructor|done]|done]).
    induction es as [|e' es IH]; intros s Hs; [done|]. by apply IH, lifecycle_step. }
  revert H. generalize (foldl step (new_channel id private) es). intros s [[Hw _] H]. split.
  - destruct (ch_closed s); [done|]. destruct H as [H1 H2]. left. rewrite H1. split; [cbn; lia|done].
  - intros Hc. split; [|unfold send, channel_request; by split; intros; rewrite pm_bind_eq; cbn [get_state]; rewrite Hc].
    by apply (lifecycle_step true s e).
Qed.

(** ** The two ends of a private channel *)

Lemma sorted_ids_comm a b : sorted_ids a b = sorted_ids b a.
Proof.
  unfold sorted_ids. rewrite (String.compare_antisym b a).
  destruct (String.compare a b) eqn:E; cbn; [|done..]. apply String.compare_eq_iff in E. by subst.
Qed.

Lemma emit_log event data s :
  (emit event data s).2 = Channel (ch_id s) (ch_private s) (ch_closed s) (ch_initialized s) (ch_subscribed s) (ch_handlers s)
      (ch_close_handlers s) (ch_error_handlers s) (ch_requests s) (ch_next s) (ch_mangled_client s) (ch_isolated_client s)
      (ch_remote s) (ch_cleanups s) (ch_log s ++ ((λ h, CCalled h data) <$> (listeners event s).*1)).
Proof.
  unfold emit. rewrite pm_bind_eq. cbn [get_state]. generalize (listeners event s). intros hs. revert s.
  induction hs as [|[h a] hs IH]; intros s; cbn [for_each].
  - cbn. rewrite app_nil_r. by destruct s.
  - rewrite pm_bind_eq. cbn [ch_act modify]. rewrite IH. cbn. by rewrite <- app_assoc.
Qed.

(** C15. The two ends of a private channel hear each other: they use one
    subject, a value sent at one end reaches exactly the message listeners
    registered at the other, in their order, as the codec delivers it
    (handshakes excepted), and an end acts on no message of any other
    sender. *)
Theorem private_delivery a b na nb data :
  ch_private a = Some (na, nb) → ch_private b = Some (nb, na) → ch_id a = ch_id b → na ≠ nb →
  ch_closed a = false → is_handshake [(PStr "data", delivered data)] = false →
  ch_subject a = ch_subject b ∧
  (∃ msg, ch_log (step a (HSend (Ok tt) data)) = ch_log a ++ [CPublished (ch_subject b) msg] ∧
     ch_log (step b (HMessage (delivered msg))) =
       ch_log b ++ ((λ h, CCalled h (delivered data)) <$> (listeners "message" b).*1)) ∧
  (∀ kvs, is_key na (dict_get "sender" kvs) = false → step b (HMessage (PDict kvs)) = b).
Proof.
  intros Ha Hb Hid Hne Hc Hh.
  assert (Hs : ch_subject a = ch_subject b) by (unfold ch_subject; by rewrite Ha, Hb, Hid; cbn; rewrite sorted_ids_comm).
  split; [done|]. split.
  - exists (channel_msg "message" data a). split.
    + unfold chan_step. cbn [run_channel]. unfold send, send_raw. rewrite pm_bind_eq. cbn [get_state]. rewrite Hc.
      rewrite pm_bind_eq. cbn [get_state]. rewrite pm_bind_eq. cbn [lift]. by rewrite Hs.
    + unfold channel_msg. rewrite Ha. rewrite (bool_decide_eq_false_2 ("message" = "close")) by done.
      unfold private_msg. rewrite delivered_dict. cbn [fmap list_fmap zip zip_with fst snd wire_value]. unfold chan_step. cbn [run_channel].
      unfold channel_message_handler. rewrite pm_bind_eq. cbn [get_state]. rewrite Hb.
      set (kvs := (PStr "type", _) :: _).
      assert (E1 : dict_get "sender" kvs = PStr na) by done. assert (E2 : dict_get "type" kvs = PStr "message") by done.
      assert (E3 : dict_get "data" kvs = delivered data) by done.
      assert (E4 : dict_lookup "type" kvs = Some (PStr "message")) by done.
      rewrite E1, E2. cbn [is_key]. rewrite bool_decide_eq_false_2 by done. rewrite !bool_decide_eq_true_2 by done. cbn [negb].
      rewrite pm_bind_eq. assert (E5 : is_handshake kvs = false) by exact Hh. rewrite E5.
      unfold dispatch_message. rewrite E4. cbn [is_key andb]. rewrite bool_decide_eq_true_2 by done. rewrite E3.
      destruct (ch_remote b) as [[|]|]; cbn [modify mret pm_ret]; by rewrite emit_log.
  - intros kvs Hk. unfold chan_step. cbn [run_channel]. unfold channel_message_handler. rewrite pm_bind_eq. cbn [get_state]. rewrite Hb.
    cbv zeta. destruct (is_key nb _); [done|]. by rewrite Hk.
Qed.

(** ** Closing and what it releases *)

Definition responding (l : list chan_action) : list Z :=
  omap (λ a, match a with CResponding n _ => Some n | _ => None end) l.

Lemma not_responding_log ns : ∀ s1,
  for_each ns (λ n, ch_act (CNotResponding n)) s1 =
    (Ok tt, Channel (ch_id s1) (ch_private s1) (ch_closed s1) (ch_initialized s1) (ch_subscribed s1) (ch_handlers s1)
      (ch_close_handlers s1) (ch_error_handlers s1) (ch_requests s1) (ch_next s1) (ch_mangled_client s1)
      (ch_isolated_client s1) (ch_remote s1) (ch_cleanups s1) (ch_log s1 ++ (CNotResponding <$> ns))).
Proof.
  induction ns as [|n ns IH]; intros s1; cbn [for_each]; [cbn; rewrite app_nil_r; by destruct s1|].
  rewrite pm_bind_eq. cbn [ch_act modify]. rewrite IH. cbn. by rewrite <- app_assoc.
Qed.

(** What no step of a channel does: it closes no isolated connection, and a
    private channel unsubscribes no request handler. *)
Definition allowed (p : option (string * string)) (a : chan_action) : Prop :=
  match a with CDisconnected _ => False | CNotResponding _ => p = None | _ => True end.
Record leaky (p : option (string * string)) (s : channel) : Prop := {
  lk_private : ch_private s = p;
  lk_mangled : ch_mangled_client s = None;
  lk_log : Forall (allowed p) (ch_log s);
  lk_requests : p ≠ None → ch_requests s = [] }.

Lemma leaky_act p a : allowed p a → keeps (leaky p) (ch_act a).
Proof.
  intros Ha. apply keeps_modify. intros s [H1 H2 H3 H4]. split; try done. cbn. apply Forall_app. split; [done|].
  by apply Forall_singleton.
Qed.
Lemma leaky_same p (f : channel → channel) :
  (∀ s, ch_private (f s) = ch_private s ∧ ch_mangled_client (f s) = ch_mangled_client s ∧ ch_log (f s) = ch_log s ∧
        ch_requests (f s) = ch_requests s) → keeps (leaky p) (modify f : pm exn channel unit).
Proof.
  intros H. apply keeps_modify. intros s [H1 H2 H3 H4]. destruct (H s) as (E1 & E2 & E3 & E4).
  split; [by rewrite E1|by rewrite E2|by rewrite E3|by rewrite E4].
Qed.
Lemma leaky_send p published type data : keeps (leaky p) (send_raw published type data).
Proof. apply keeps_get. intros s _. apply keeps_bind; [apply keeps_lift|]. intros _. by apply leaky_act. Qed.
Lemma leaky_emit p event data : keeps (leaky p) (emit event data).
Proof. apply keeps_get. intros s _. apply keeps_for_each. intros [h a] _. by apply leaky_act. Qed.
Lemma leaky_suppress {A} p (m : pm exn channel A) : keeps (leaky p) m → keeps (leaky p) (suppress m).
Proof.
  intros H. apply keeps_try; [|intros e; apply keeps_ret]. apply keeps_bind; [done|]. intros a. apply keeps_ret.
Qed.

Lemma leaky_cleanup p : keeps (leaky p) channel_cleanup.
Proof.
  apply keeps_bind; [by apply leaky_same|]. intros _. apply keeps_get. intros s Hs. apply keeps_bind.
  - apply keeps_for_each. intros n Hn. apply leaky_act. cbn. destruct p as [x|]; [|done].
    rewrite (lk_requests _ _ Hs) in Hn by done. by apply elem_of_nil in Hn.
  - intros _. apply keeps_bind.
    + destruct (ch_subscribed s); [|apply keeps_ret]. apply keeps_bind; [by apply leaky_act|]. intros _. by apply leaky_same.
    + intros _. rewrite (lk_mangled _ _ Hs). apply keeps_ret.
Qed.

Lemma leaky_dispatch p kvs : keeps (leaky p) (dispatch_message py_str kvs).
Proof.
  unfold dispatch_message. destruct (dict_lookup "type" kvs) as [type|]; [|apply keeps_raise].
  destruct (is_key "message" type); [apply leaky_emit|]. destruct (is_key "close" type).
  - apply keeps_get. intros s _. destruct (ch_closed s); [apply keeps_ret|].
    apply keeps_bind; [by apply leaky_same|]. intros _. apply keeps_bind; [|intros _; by apply leaky_same].
    apply keeps_for_each. intros [h a] _. by apply leaky_act.
  - destruct (is_key "error" type); [|apply keeps_ret].
    apply keeps_get. intros s _. apply keeps_for_each. intros [h a] _. by apply leaky_act.
Qed.

Lemma leaky_step p s e : leaky p s → leaky p (step s e).
Proof.
  unfold chan_step. intros Hs. revert s Hs. destruct e; cbn [run_channel].
  - apply keeps_get. intros s _. destruct (ch_initialized s); [apply keeps_ret|].
    apply keeps_bind; [by apply leaky_same|]. intros _. apply keeps_bind; [apply keeps_lift|]. intros _.
    apply keeps_bind; [by apply leaky_act|]. intros _. apply keeps_bind; [by apply leaky_same|]. intros _.
    destruct (ch_private s); [apply leaky_suppress, leaky_send|apply keeps_ret].
  - apply keeps_get. intros s _. destruct (ch_closed s); [apply keeps_raise|apply leaky_send].
  - apply keeps_get. intros s _. destruct (ch_closed s); [apply keeps_raise|by apply leaky_act].
  - apply keeps_bind; [|intros n; apply keeps_ret]. apply keeps_get. intros s Hs.
    apply keeps_bind; [apply keeps_lift|]. intros _. apply keeps_bind; [by apply leaky_same|]. intros _.
    apply keeps_bind; [by apply leaky_act|]. intros _. apply keeps_bind; [|intros _; apply keeps_ret].
    rewrite (lk_private _ _ Hs). destruct p as [x|]; [apply keeps_ret|]. apply keeps_modify.
    intros s' [H1 H2 H3 H4]. by split.
  - unfold on. destruct (bool_decide _); [by apply leaky_same|]. destruct (bool_decide _); by apply leaky_same.
  - unfold off. destruct (bool_decide _); [by apply leaky_same|]. destruct (bool_decide _); apply leaky_same; [done|].
    intros s. by destruct (od_has event (ch_handlers s)).
  - apply keeps_get. intros s _. destruct (ch_closed s); [apply keeps_ret|].
    apply keeps_bind; [by apply leaky_same|]. intros _. apply keeps_bind; [apply leaky_suppress, leaky_send|].
    intros _. apply leaky_cleanup.
  - apply keeps_get. intros s _. destruct msg; try apply keeps_raise. destruct (ch_private s) as [[own target]|];
      [|apply leaky_dispatch]. cbv zeta. destruct (is_key own _); [apply keeps_ret|]. destruct (negb _); [apply keeps_ret|].
    apply keeps_bind; [destruct (ch_remote s) as [[|]|]; try apply keeps_ret; by apply leaky_same|].
    intros _. destruct (_ && _); [apply keeps_ret|apply leaky_dispatch].
  - apply keeps_get. intros s _. destruct (ch_cleanups s); [apply keeps_ret|].
    apply keeps_bind; [by apply leaky_same|]. intros _. apply leaky_cleanup.
Qed.
Lemma leaky_run p s es : leaky p s → leaky p (foldl step s es).
Proof. revert s. induction es as [|e es IH]; intros s Hs; [done|]. by apply IH, leaky_step. Qed.

(** Closing a public channel releases what it holds, in whatever state its
    use left it: one notice is published, the listeners are dropped, every
    request handler it records is unsubscribed, and so is its subject. *)
Theorem close_releases id es :
  let s := foldl step (new_channel id None) es in
  let s' := step s (HClose (Ok tt)) in
  ch_closed s = false → ch_subscribed s = true →
  ch_closed s' = true ∧ ch_handlers s' = [] ∧ ch_close_handlers s' = [] ∧ ch_error_handlers s' = [] ∧
  ch_subscribed s' = false ∧
  ch_log s' = ch_log s ++ [CPublished (ch_subject s) (channel_msg "close" PNone s)] ++
              (CNotResponding <$> ch_requests s) ++ [CUnsubscribed (ch_subject s)].
Proof.
  cbv zeta. assert (H : leaky None (foldl step (new_channel id None) es)) by (by apply leaky_run; split).
  revert H. generalize (foldl step (new_channel id None) es). intros s [Hp Hm _ _] Hc Hs.
  unfold chan_step. cbn [run_channel]. unfold close. rewrite pm_bind_eq. cbn [get_state].
  rewrite Hc, pm_bind_eq. cbn [modify]. rewrite pm_bind_eq.
  assert (E : ∀ s1, suppress (send_raw (Ok tt) "close" PNone) s1 =
                    (Ok (E := exn) tt, (ch_act (CPublished (ch_subject s1) (channel_msg "close" PNone s1)) s1).2)) by done.
  rewrite E. clear E. unfold channel_cleanup. rewrite pm_bind_eq. cbn [modify]. rewrite pm_bind_eq. cbn [get_state].
  rewrite pm_bind_eq, not_responding_log. cbn. rewrite Hs. cbn. rewrite Hm. cbn. unfold ch_subject, channel_msg. cbn. rewrite Hp.
  rewrite !pm_bind_eq. cbn. by rewrite <- !app_assoc.
Qed.

(** What closing leaves behind. A connection made for a channel is never
    closed by it: the client stores it under a name that the channel's
    cleanup does not read. And a private channel never unsubscribes a request
    handler, which goes on answering after the close. *)
Theorem close_leaks full_name id target isolated subscribed published es es' :
  let s := foldl step (open_channel id isolated subscribed).2 es in
  let s' := foldl step (open_private full_name id target isolated subscribed published).2 es' in
  (∀ c, CDisconnected c ∉ ch_log s) ∧
  (∀ c, CDisconnected c ∉ ch_log s') ∧ (∀ n, CNotResponding n ∉ ch_log s').
Proof.
  cbv zeta.
  assert (Hopen : ∀ p sub pub, leaky p (channel_init sub pub (new_channel id p)).2).
  { intros p sub pub. apply (leaky_step p (new_channel id p) (HInit sub pub)). by split. }
  assert (Hset : ∀ p x s, leaky p s → leaky p (set_isolated x s)) by (intros p x s [H1 H2 H3 H4]; by split).
  assert (H1 : leaky None (open_channel id isolated subscribed).2).
  { unfold open_channel. pose proof (Hopen None subscribed (Ok tt)) as H. destruct (channel_init _ _ _) as [r s].
    cbn in *. destruct (is_ok r); auto. }
  assert (H2 : leaky (Some (base_name full_name, target)) (open_private full_name id target isolated subscribed published).2).
  { unfold open_private. pose proof (Hopen (Some (base_name full_name, target)) subscribed published) as H.
    destruct (channel_init _ _ _) as [r s]. cbn in *. destruct (is_ok r); auto. }
  assert (Hno : ∀ p s a, leaky p s → ¬ allowed p a → a ∉ ch_log s).
  { intros p s a Hs Ha Hin. apply Ha. pose proof (lk_log _ _ Hs) as Hl. rewrite Forall_forall in Hl. auto. }
  split_and!; intros c; eapply Hno; try (by apply leaky_run, H1); try (by apply leaky_run, H2); cbn; intros H; done.
Qed.
End props.

(** A client whose own name contains an isolated connection's suffix is
    taken for its base name: two such clients that open a private channel
    with each other use different subjects, and each would ignore what the
    other sends. *)
Theorem private_name_truncated py_str data :
  let a := (open_private "my-channel-a" "x" "my-channel-b" None (Ok tt) (Ok tt)).2 in
  let b := (open_private "my-channel-b" "x" "my-channel-a" None (Ok tt) (Ok tt)).2 in
  ch_subject a ≠ ch_subject b ∧
  (∀ msg, ch_log (chan_step py_str a (HSend (Ok tt) data)) = ch_log a ++ [CPublished (ch_subject a) msg] →
          chan_step py_str b (HMessage msg) = b).
Proof.
  cbv zeta. split; [vm_compute; discriminate|]. intros msg H.
  assert (E : ch_log (chan_step py_str (open_private "my-channel-a" "x" "my-channel-b" None (Ok tt) (Ok tt)).2
                        (HSend (Ok tt) data)) =
              ch_log (open_private "my-channel-a" "x" "my-channel-b" None (Ok tt) (Ok tt)).2 ++
              [CPublished (ch_subject (open_private "my-channel-a" "x" "my-channel-b" None (Ok tt) (Ok tt)).2)
                 (PDict [(PStr "type", PStr "message"); (PStr "data", data); (PStr "sender", PStr "my"); (PStr "error", PNone)])])
    by reflexivity.
  rewrite E in H. apply app_inv_head in H. injection H as <-. reflexivity.
Qed.

(** ** Witnesses *)

Definition any_str (_ : pyval) : string := "".
Definition busy_channel : list chan_event :=
  [HInit (Ok tt) (Ok tt); HOn "message" 1 false; HOn "close" 2 false; HOnRequest (Ok tt)].

Lemma closes_once_witness :
  let s := foldl (chan_step any_str) (new_channel "x" None) (busy_channel ++ [HClose (Ok tt)]) in
  send (Ok tt) PNone s = (Raise closed_channel, s).
Proof.
  pose proof (closes_once any_str "x" None (busy_channel ++ [HClose (Ok tt)]) HCleanup) as [_ H].
  destruct H as (_ & H & _); [reflexivity|]. apply H.
Defined.

Lemma close_releases_witness :
  let s := foldl (chan_step any_str) (new_channel "x" None) (busy_channel ++ [HClose (Ok tt)]) in
  ch_closed s = true ∧ ch_handlers s = [].
Proof.
  pose proof (close_releases any_str "x" busy_channel) as H. cbv zeta in H.
  destruct H as (H1 & H2 & _); [reflexivity|reflexivity|]. rewrite foldl_app. split; [exact H1|exact H2].
Defined.

Definition end_a : channel := (open_private "a" "x" "b" None (Ok tt) (Ok tt)).2.
Definition end_b : channel := chan_step any_str (open_private "b" "x" "a" None (Ok tt) (Ok tt)).2 (HOn "message" 7 true).
Lemma private_delivery_witness :
  ∃ msg, ch_log (chan_step any_str end_a (HSend (Ok tt) (PInt 5))) = ch_log end_a ++ [CPublished (ch_subject end_b) msg] ∧
    ch_log (chan_step any_str end_b (HMessage (delivered msg))) = ch_log end_b ++ [CCalled 7 (PInt 5)].
Proof.
  destruct (private_delivery any_str end_a end_b "a" "b" (PInt 5)) as (_ & H & _);
    [reflexivity|reflexivity|reflexivity|discriminate|reflexivity|reflexivity|exact H].
Defined.

Lemma private_name_truncated_witness :
  let b := (open_private "my-channel-b" "x" "my-channel-a" None (Ok tt) (Ok tt)).2 in
  chan_step any_str b (HMessage (PDict [(PStr "type", PStr "message"); (PStr "data", PInt 5); (PStr "sender", PStr "my");
                                          (PStr "error", PNone)])) = b.
Proof. apply (private_name_truncated any_str (PInt 5)). reflexivity. Defined.
