(* ===== verification/WireTypes.v ===== *)
(** * Sessions and channels keep to the declared types

    What streams, pull iterators, callback subscriptions, channels and chunked
    transfers publish, checked against [Types]. The responses of the
    dispatcher are in [DispatchSpec], the requests in [Requests]. *)

From S2P Require Import Prelude Text PyVal Dict Errors Types MsgPack Codec Chunking ChunkingManager Ids Transport Handlers ClientStreams Channel.

Definition published_type (t : ty) (a : action) : Prop :=
  match a with Published _ v => has_type t v = true | _ => True end.
Abbreviation log_typed t l := (Forall (published_type t) l).

Lemma log_snoc t l a : log_typed t l → published_type t a → log_typed t (l ++ [a]).
Proof. intros Hl Ha. apply Forall_app. split; [done|]. by apply Forall_singleton. Qed.

Section sessions.
Variable py_str : pyval → string.
Variable w : world.

(** ** Streams *)

Abbreviation stream_typed := (λ s, log_typed (StreamMessage TAny) (ss_log s)).

Lemma data_type id v : has_type (StreamMessage TAny) (data_msg id v) = true.
Proof. done. Qed.
Lemma stream_error_type id e : has_type (StreamMessage TAny) (error_msg id (stream_error py_str e)) = true.
Proof. by destruct e as [| | | | | | | | | |[]|]. Qed.

Lemma typed_act a : published_type (StreamMessage TAny) a → keeps stream_typed (act a).
Proof. intros Ha. apply keeps_modify. intros s Hs. by apply log_snoc. Qed.
Lemma typed_publish subject v :
  has_type (StreamMessage TAny) v = true → keeps stream_typed (publish_value w subject v).
Proof.
  intros Hv. apply keeps_get. intros s Hs. apply keeps_bind; [by apply keeps_modify|]. intros _.
  destruct (publish_at w (ss_time s)); [apply keeps_raise|by apply typed_act].
Qed.

Lemma typed_loop subject id g fuel : ∀ i, keeps stream_typed (stream_loop w subject id g fuel i).
Proof.
  induction fuel as [|fuel IH]; intros i; [apply keeps_ret|]. cbn [stream_loop].
  apply keeps_bind; [by apply keeps_modify|]. intros _. destruct (s_step g i); [|apply keeps_ret|apply keeps_raise].
  apply keeps_get. intros s Hs. destruct (open_at w (ss_time s)); [|apply keeps_ret].
  apply keeps_bind; [by apply typed_publish|]. intros _. apply IH.
Qed.

Lemma typed_stream h args subject id fuel :
  keeps stream_typed (handle_stream_request py_str w h args subject id fuel).
Proof.
  unfold handle_stream_request, stream_values.
  apply keeps_bind; [apply keeps_lift|]. intros g. apply keeps_bind; [by apply typed_act|]. intros _.
  apply keeps_bind.
  - apply keeps_try.
    + apply keeps_bind; [apply typed_loop|]. intros fin. apply keeps_get. intros s Hs.
      apply keeps_bind; [|intros; apply keeps_ret]. case_match; [by apply typed_publish|apply keeps_ret].
    + intros e. apply keeps_get. intros s Hs. apply keeps_bind; [|intros; apply keeps_ret].
      case_match; [|apply keeps_ret]. apply keeps_try; [|intros; apply keeps_ret].
      apply typed_publish, stream_error_type.
  - intros fin. apply keeps_bind; [|intros; apply keeps_ret]. destruct (fin : bool); [|apply keeps_ret].
    apply keeps_bind; [by apply typed_act|]. intros _. unfold close_generator.
    destruct (s_aclose g); [by apply typed_act|apply keeps_ret].
Qed.

(** ** Pull iterators and callbacks *)

Abbreviation pull_typed := (λ p, log_typed (PullIteratorResponse TAny) (p_log p)).

Lemma typed_respond id v : has_type (PullIteratorResponse TAny) v = true → keeps pull_typed (respond w id v).
Proof.
  intros Hv. apply keeps_get. intros p Hp. apply keeps_bind; [by apply keeps_modify|]. intros _.
  destruct (publish_at w (p_time p)); [apply keeps_raise|]. apply keeps_modify. intros q Hq. by apply log_snoc.
Qed.
Lemma typed_pull_act a : published_type (PullIteratorResponse TAny) a → keeps pull_typed (modify (pull_act a) : pm exn pull unit).
Proof. intros Ha. apply keeps_modify. intros p Hp. by apply log_snoc. Qed.
Lemma typed_pull_silent (f : pull → pull) :
  (∀ p, p_log (f p) = p_log p) → keeps pull_typed (modify f : pm exn pull unit).
Proof. intros Hf. apply keeps_modify. intros p Hp. by rewrite Hf. Qed.

Lemma typed_finish has_on_finished : keeps pull_typed (finish has_on_finished).
Proof.
  apply keeps_get. intros p Hp. destruct (p_finished p); [apply keeps_ret|].
  apply keeps_bind; [by apply typed_pull_silent|]. intros _. apply keeps_bind.
  - destruct has_on_finished; [by apply typed_pull_act|apply keeps_ret].
  - intros _. destruct (p_unsub p); [by apply typed_pull_act|apply keeps_ret].
Qed.
Lemma typed_aclose g : keeps pull_typed (aclose g).
Proof.
  unfold aclose. destruct (s_aclose g) as [r|]; [|apply keeps_ret].
  apply keeps_bind; [by apply typed_pull_act|]. intros _. destruct r; [apply keeps_raise|apply keeps_ret].
Qed.
Lemma typed_done id b : keeps pull_typed (respond_done w id b).
Proof. apply keeps_try_finally; [by apply typed_respond|apply typed_finish]. Qed.
Lemma typed_deactivate : keeps pull_typed deactivate.
Proof. by apply typed_pull_silent. Qed.
Lemma typed_error id b e : keeps pull_typed (respond_error py_str w id b e).
Proof.
  apply keeps_bind; [apply typed_deactivate|]. intros _.
  apply keeps_try_finally; [|apply typed_finish]. apply typed_respond. by destruct e as [| | | | | | | | | |[]|].
Qed.

Lemma typed_pull_event id g b with_value e : keeps pull_typed (run_pull py_str w id g b with_value e).
Proof.
  destruct e as [type| |]; cbn [run_pull]; [| |unfold cleanup].
  - apply keeps_get. intros p Hp. destruct (p_busy p); [apply keeps_ret|]. destruct (negb _); [apply keeps_ret|].
    destruct (is_key "cancel" type).
    + apply keeps_try; [|apply typed_error]. apply keeps_bind; [apply typed_deactivate|]. intros _.
      apply keeps_bind; [apply typed_aclose|]. intros _. apply typed_done.
    + destruct (is_key "next" type); [by apply typed_pull_silent|apply keeps_ret].
  - apply keeps_get. intros p Hp. destruct (negb _); [apply keeps_ret|].
    apply keeps_bind; [by apply typed_pull_silent|]. intros _. apply keeps_try; [|apply typed_error].
    destruct (anext g (p_pos p)) as [v| |e]; [|apply keeps_bind; [apply typed_deactivate|intros _; apply typed_done]|apply keeps_raise].
    apply typed_respond. by destruct with_value.
  - apply keeps_bind; [by apply typed_pull_silent|]. intros _. apply keeps_get. intros p Hp.
    apply keeps_bind; [|intros _; apply keeps_suppress, typed_aclose].
    destruct (p_unsub p); [|apply keeps_ret]. apply keeps_modify. intros q Hq. by apply log_snoc.
Qed.

Abbreviation callback_typed := (λ c, log_typed (CallbackMessage TAny) (cb_log c)).

Lemma typed_cb_act a : published_type (CallbackMessage TAny) a → keeps callback_typed (cb_act a).
Proof. intros Ha. apply keeps_modify. intros c Hc. by apply log_snoc. Qed.

Lemma typed_callback_event subject id b k e : keeps callback_typed (run_callback subject id b k e).
Proof.
  assert (Hw : ∀ connected v, keeps callback_typed (wrapper_callback subject id connected v)).
  { intros connected v. unfold wrapper_callback. destruct (negb connected); [apply keeps_ret|by apply typed_cb_act]. }
  assert (Hc : keeps callback_typed (run_handler_cleanup k)).
  { apply keeps_get. intros c Hc. destruct (cb_cleaned c); [apply keeps_ret|].
    apply keeps_bind; [by apply keeps_modify|]. intros _. unfold invoke_cleanup.
    destruct k as [r|]; [|apply keeps_ret]. apply keeps_bind; [by apply typed_cb_act|]. intros _.
    destruct r; [apply keeps_raise|apply keeps_ret]. }
  destruct e as [connected v|t connected v| |]; cbn [run_callback].
  - apply Hw.
  - destruct t; [apply Hw|apply keeps_ret].
  - apply keeps_bind; [destruct b; [by apply typed_cb_act|apply keeps_ret]|]. intros _.
    apply keeps_bind; [exact Hc|]. intros _. by apply typed_cb_act.
  - apply keeps_bind; [by apply typed_cb_act|]. intros _. exact Hc.
Qed.

End sessions.

(** ** The consuming side, chunked transfers and channels *)

(** A pull iterator sends [next] and [cancel]; what it queues for itself on a
    teardown or a no-responder status is a response. *)
Lemma puller_step_typed id callbacks q e :
  Forall (λ v, has_type PullIteratorRequest v = true) (q_sent q) →
  Forall (λ v, has_type PullIteratorRequest v = true) (q_sent (puller_step id callbacks q e)).
Proof.
  assert (Hc : ∀ q, Forall (λ v, has_type PullIteratorRequest v = true) (q_sent q) →
            ∀ r, Forall (λ v, has_type PullIteratorRequest v = true) (q_sent (puller_finish id r q))).
  { intros p Hp r. unfold puller_finish, puller_cleanup. cbn. destruct (q_ended p); [done|].
    apply Forall_app. split; [done|]. by apply Forall_singleton. }
  intros Hq. destruct e as [msg|text| |msg| |failure|]; cbn [puller_step].
  - destruct (q_registered q); [|done]. unfold handle_response. destruct msg; try done.
    repeat case_match; done.
  - by destruct (q_registered q).
  - destruct (q_registered q); [|done]. unfold puller_disconnect, settle_on_disconnect. cbn. by destruct (q_ended q).
  - destruct (q_registered q); [|done]. unfold handle_cb_msg. repeat case_match; done.
  - unfold consume_callback. by destruct (q_callbacks q).
  - unfold advance. destruct (q_done q); [done|]. destruct (q_waiting q).
    + destruct (q_queue q) as [|m queue]; [done|]. unfold process_response.
      repeat case_match; try done; by apply Hc.
    + destruct failure; [by apply Hc|]. cbn. apply Forall_app. split; [done|]. by apply Forall_singleton.
  - unfold close_puller. destruct (q_done q); [done|by apply Hc].
Qed.

Theorem consumers_typed id callbacks es e transfer_id total_chunks total_size chunk_size :
  Forall (λ v, has_type PullIteratorRequest v = true) (q_sent (foldl (puller_step id callbacks) new_puller es)) ∧
  has_type (PullIteratorResponse TAny) (PDict (error_message id e)) = true ∧
  has_type ChunkedTransferHeader (header_msg transfer_id total_chunks total_size chunk_size) = true.
Proof.
  split_and!; [|by destruct e|done]. assert (H := Forall_nil_2 (λ v, has_type PullIteratorRequest v = true)).
  revert H. change [] with (q_sent new_puller) at 1. generalize new_puller.
  induction es as [|ev es IH]; intros q Hq; [done|]. by apply IH, puller_step_typed.
Qed.

Definition chan_typed (a : chan_action) : Prop :=
  match a with CPublished _ v => has_type ChannelMessage v = true | _ => True end.
Abbreviation channel_typed := (λ s, Forall chan_typed (ch_log s)).

Lemma channel_msg_type type data s :
  type = "message" ∨ type = "close" → has_type ChannelMessage (channel_msg type data s) = true.
Proof. unfold channel_msg. destruct (ch_private s) as [[own target]|]; by intros [-> | ->]. Qed.

Lemma typed_ch_act a : chan_typed a → keeps channel_typed (ch_act a).
Proof. intros Ha. apply keeps_modify. intros s Hs. apply Forall_app. split; [done|]. by apply Forall_singleton. Qed.

Lemma typed_send_raw published type data :
  type = "message" ∨ type = "close" → keeps channel_typed (send_raw published type data).
Proof.
  intros Ht. apply keeps_get. intros s Hs. apply keeps_bind; [apply keeps_lift|]. intros _.
  by apply typed_ch_act, channel_msg_type.
Qed.

(** Walks through an operation that publishes nothing but by [send_raw]. *)
Ltac chan_walk_step :=
  lazymatch goal with
  | |- keeps _ (match ?x with _ => _ end) => destruct x
  | |- keeps _ (get_state ≫= _) => apply keeps_get; intros ? ?
  | |- keeps _ (_ ≫= _) => apply keeps_bind; [|intros ?]
  | |- keeps _ (ch_act _) => apply typed_ch_act; exact I
  | |- keeps _ (send_raw _ _ _) => apply typed_send_raw; auto
  | |- keeps _ (modify _) => apply keeps_modify; intros ? ?; try case_match; assumption
  | |- keeps _ (suppress _) => apply keeps_suppress
  | |- keeps _ (for_each _ _) => apply keeps_for_each; intros ? ?
  | |- keeps _ (mret _) => apply keeps_ret
  | |- keeps _ (raise _) => apply keeps_raise
  | |- keeps _ (lift _) => apply keeps_lift
  end.
Ltac chan_walk := repeat chan_walk_step.

Lemma typed_cleanup : keeps channel_typed channel_cleanup.
Proof. unfold channel_cleanup. chan_walk. Qed.
Lemma typed_dispatch py_str kvs : keeps channel_typed (dispatch_message py_str kvs).
Proof. unfold dispatch_message, emit, handle_close, handle_channel_error. chan_walk. Qed.

(** Everything a channel publishes is a [ChannelMessage]. *)
Theorem channel_messages_typed py_str id private es :
  channel_typed (foldl (chan_step py_str) (new_channel id private) es).
Proof.
  apply (keeps_foldl channel_typed (run_channel py_str)); [|by apply Forall_nil_2].
  intros e. destruct e; cbn [run_channel]; unfold channel_init, send, channel_request, on_request, on, off, close,
    channel_message_handler; chan_walk; first [apply typed_dispatch|apply typed_cleanup].
Qed.
