(* ===== verification/Decorators.v ===== *)
(** * What an object exposes (decorators.py)

    The handlers of a registration are collected from an object graph: plain
    dicts by their entries, instances by the marks their class carries. The
    graph is a heap of objects by identity; marks and attributes are what
    [hasattr], [getattr] and [dir] give. *)

From S2P Require Import Prelude Text PyVal Dict Errors.

(** ** Objects *)

Inductive dict_key := KStr (k : string) | KOther.

(** What the class says of one of its attributes; [ca_property] is the mark of
    the getter when the attribute is a property. *)
Record class_attr := ClassAttr {
  ca_exposed : bool;
  ca_nested : bool;
  ca_property : option bool;
  ca_truthy : bool }.

Record pyclass := PyClass {
  (** [__rpc_expose_all__], its truth when it is there *)
  pc_expose_all : option bool;
  (** [dir(cls)]; attributes that cannot be read are absent *)
  pc_dir : list (string * class_attr);
  (** [__rpc_methods__] *)
  pc_rpc_methods : option (list string) }.

Record pyobject := PyObject {
  (** the entries, when [isinstance(obj, dict)]; whether [type(obj) is dict] *)
  o_dict : option (list (dict_key * Z));
  o_plain : bool;
  o_class : pyclass;
  (** [callable(obj)], [isinstance(obj, type)], [hasattr(obj, "__dict__")],
      [isinstance(obj, str | int | float | bool | list | tuple | set)], [obj is None] *)
  o_callable : bool;
  o_is_type : bool;
  o_has_dict : bool;
  o_basic : bool;
  o_none : bool;
  (** [dir(obj)] with what [getattr] gives, and which names a class of the MRO
      defines as static or class methods *)
  o_attrs : list (string * result exn Z);
  o_static : list string;
  (** names in the instance's [__dict__]; [__rpc_nested_attrs__] *)
  o_own : list string;
  o_nested_attrs : list string;
  (** calling a class *)
  o_call : result exn Z }.

(** What a path is bound to: a callable, or a getter made for a value or for a
    marked property. *)
Inductive target := Method (v : Z) | ValueGetter (v : Z) | PropertyGetter (obj : Z) (name : string).

Record extraction := Extraction { ex_handlers : list (string * target); ex_visited : gset Z }.
Definition new_extraction : extraction := Extraction [] ∅.
Definition expose (path : list string) (t : target) : pm exn extraction unit :=
  modify (λ s, Extraction (od_set (join "." path) t (ex_handlers s)) (ex_visited s)).
Definition visit (obj : Z) : pm exn extraction unit :=
  modify (λ s, Extraction (ex_handlers s) ({[obj]} ∪ ex_visited s)).

Definition private_name (name : string) : bool := startswith "_" name.

(** ** Marks *)

Definition has_decorators (c : pyclass) : bool :=
  match pc_expose_all c with Some _ => true | None => false end
  || existsb (λ '(name, a), negb (private_name name) && ca_exposed a) (pc_dir c)
  || existsb (λ '(name, a), negb (private_name name) && ca_nested a) (pc_dir c).

Definition expose_all (c : pyclass) : bool := default false (pc_expose_all c).

(** [rpc_methods] and [rpc_nested], as the names they hold. *)
Definition rpc_methods (o : pyobject) : list string :=
  (filter (λ '(name, a), private_name name = false ∧ ca_exposed a = true) (pc_dir (o_class o))).*1
  ++ default [] (pc_rpc_methods (o_class o)).
Definition class_attr_of (name : string) (c : pyclass) : option class_attr := od_get name (pc_dir c).
Definition rpc_nested (o : pyobject) : list string :=
  (filter (λ '(name, a), private_name name = false ∧ (ca_nested a = true ∨ ca_property a = Some true))
     (pc_dir (o_class o))).*1
  ++ filter (λ name, private_name name = false ∧
               match class_attr_of name (o_class o) with
               | Some a => ca_truthy a && ca_nested a | None => false end = true) (o_own o)
  ++ o_nested_attrs o.

Section extract.
Variable heap : gmap Z pyobject.

Definition flag (f : pyobject → bool) (v : Z) : bool := match heap !! v with Some o => f o | None => false end.

(** A dict entry that is descended into. *)
Definition is_dict (o : pyobject) : bool := match o_dict o with Some _ => true | None => false end.
Definition nested_value (v : Z) : bool := flag is_dict v || (flag o_has_dict v && negb (flag o_basic v)).

(** A nested attribute's object: a property that gives a class has it called. *)
Definition nested_object (o : pyobject) (name : string) (v : Z) : Z :=
  if flag o_callable v then
    match class_attr_of name (o_class o) with
    | Some a =>
        match ca_property a, heap !! v with
        | Some _, Some c => match o_call c with Ok x => x | Raise _ => v end
        | _, _ => v
        end
    | None => v
    end
  else v.

(** One entry in plain dict mode, [rec] being the recursive call. *)
Definition dict_item (rec : Z → list string → pm exn extraction unit) (path : list string) (item : dict_key * Z) :
    pm exn extraction unit :=
  match item.1 with
  | KOther => raise (AttributeError "object has no attribute 'startswith'")
  | KStr key =>
      if private_name key then mret tt
      else if flag o_callable item.2 then expose (path ++ [key]) (Method item.2)
      else if nested_value item.2 then rec item.2 (path ++ [key])
      else expose (path ++ [key]) (ValueGetter item.2)
  end.

(** One attribute in decorator mode; any exception is swallowed. *)
Definition attribute (rec : Z → list string → pm exn extraction unit) (obj : Z) (o : pyobject) (path : list string)
    (attr : string * result exn Z) : pm exn extraction unit :=
  let name := attr.1 in
  if private_name name || bool_decide (name = "constructor") then mret tt
  else
    suppress
      (v ← lift attr.2;
       if flag o_callable v && negb (flag o_is_type v) then
         if expose_all (o_class o) || bool_decide (name ∈ rpc_methods o)
         then expose (path ++ [name]) (Method v) else mret tt
       else if bool_decide (name ∈ rpc_methods o) && negb (flag o_callable v) then
         expose (path ++ [name]) (PropertyGetter obj name)
       else if bool_decide (name ∈ rpc_nested o) then
         let nested := nested_object o name v in
         if flag o_none nested then mret tt else rec nested (path ++ [name])
       else mret tt).

(** [extract_nested_methods_with_decorators]; [depth] is what is left of the
    interpreter's recursion limit. *)
Fixpoint extract_with_decorators (depth : nat) (obj : Z) (path : list string) : pm exn extraction unit :=
  match depth with
  | O => raise (OtherError "maximum recursion depth exceeded")
  | S depth =>
      s ← get_state;
      if bool_decide (obj ∈ ex_visited s) then mret tt
      else
        visit obj ≫= λ _,
        match heap !! obj with
        | None => mret tt
        | Some o =>
            match o_dict o with
            | Some items =>
                if o_plain o && negb (has_decorators (o_class o))
                then for_each items (dict_item (extract_with_decorators depth) path)
                else for_each (o_attrs o) (attribute (extract_with_decorators depth) obj o path)
            | None => for_each (o_attrs o) (attribute (extract_with_decorators depth) obj o path)
            end
        end
  end.

(** [extract_nested_methods_without_decorators], which never descends. *)
Definition plain_item (item : dict_key * Z) : pm exn extraction unit :=
  match item.1 with
  | KStr key =>
      if private_name key then mret tt
      else if flag o_callable item.2 && negb (flag o_is_type item.2) then expose [key] (Method item.2) else mret tt
  | KOther => raise (TypeError "sequence item 0: expected str instance")
  end.
Definition plain_attribute (o : pyobject) (attr : string * result exn Z) : pm exn extraction unit :=
  if private_name attr.1 then mret tt
  else
    suppress
      (if bool_decide (attr.1 ∈ o_static o) then mret tt
       else
         v ← lift attr.2;
         if flag o_is_type v then mret tt
         else if flag o_callable v then expose [attr.1] (Method v) else mret tt).
Definition extract_without_decorators (obj : Z) : pm exn extraction unit :=
  match heap !! obj with
  | None => mret tt
  | Some o =>
      if o_none o then mret tt
      else
        visit obj ≫= λ _,
        match o_dict o with
        | Some items => for_each items plain_item
        | None => for_each (o_attrs o) (plain_attribute o)
        end
  end.

(** The handlers of a registration. *)
Definition handlers_of (depth : nat) (without_decorators : bool) (obj : Z) : result exn (list (string * target)) :=
  let '(r, s) := (if without_decorators then extract_without_decorators obj
                  else extract_with_decorators depth obj []) new_extraction in
  match r with Ok _ => Ok (ex_handlers s) | Raise e => Raise e end.

(** What a request on a getter's path returns: the call's arguments bind the
    parameters that hold the captured value, or the object and the name. *)
Definition call_getter (read : pyval → string → result exn pyval) (self : pyval) (captured : pyval) (t : target)
    (args : list pyval) : result exn pyval :=
  match t, args with
  | Method _, _ => Raise (TypeError "not a getter")
  | ValueGetter _, [] => Ok captured
  | ValueGetter _, [v] => Ok v
  | PropertyGetter _ name, [] => read self name
  | PropertyGetter _ name, [obj] => read obj name
  | PropertyGetter _ _, [obj; PStr attr] => read obj attr
  | _, _ => Raise (TypeError "takes too many positional arguments")
  end.
End extract.

(** ** [RPCPropertyDescriptor] *)

(** A class: its MRO (itself first) and its own [__rpc_methods__]. *)
Record klass := Klass { kl_mro : list string; kl_methods : option (list string) }.

(** The class of the MRO that [cls.__rpc_methods__] finds the list on. *)
Definition methods_owner (classes : gmap string klass) (cls : string) : option string :=
  match classes !! cls with
  | Some k => List.find (λ c, match classes !! c with
                              | Some k => match kl_methods k with Some _ => true | None => false end
                              | None => false end) (kl_mro k)
  | None => None
  end.
Definition methods_of (classes : gmap string klass) (cls : string) : list string :=
  match methods_owner classes cls with
  | Some c => default [] (classes !! c ≫= kl_methods)
  | None => []
  end.

(** [f"set{name[0].upper()}{name[1:]}"] *)
Definition upper_ascii (a : ascii) : ascii :=
  let n := nat_of_ascii a in
  if ((97 <=? n) && (n <=? 122))%nat then ascii_of_nat (n - 32)%nat else a.
Definition setter_name (name : string) : string :=
  match name with String a rest => "set" +:+ String (upper_ascii a) rest | EmptyString => "set" end.

(** [owner.__rpc_methods__.append(name)], after the [hasattr]. *)
Definition append_method (owner name : string) (classes : gmap string klass) : gmap string klass :=
  match methods_owner classes owner with
  | Some c => alter (λ k, Klass (kl_mro k) (Some (default [] (kl_methods k) ++ [name]))) c classes
  | None => alter (λ k, Klass (kl_mro k) (Some [name])) owner classes
  end.
Definition set_name (owner name : string) (classes : gmap string klass) : gmap string klass :=
  append_method owner (setter_name name) (append_method owner name classes).

(** [__get__] and [__set__] on an instance, by its attributes. *)
Definition private_attr (name : string) : string := "_" +:+ name.
Definition property_get (name : string) (attrs : gmap string pyval) : pyval :=
  default PNone (attrs !! private_attr name).
Definition property_set (name : string) (v : pyval) (attrs : gmap string pyval) : gmap string pyval :=
  <[private_attr name := v]> attrs.

(** ** The decorators that set marks *)

(** What a decorator is applied to: the marks it has, and for an instance of
    [property], which takes no new attributes, the nested mark of its getter. *)
Record decorated := Decorated {
  d_exposed : bool;
  d_nested : bool;
  d_expose_all : bool;
  d_property : option bool }.

(** [func.name = True] *)
Definition set_mark (name : string) (set : decorated → decorated) (d : decorated) : result exn decorated :=
  match d_property d with
  | Some _ => Raise (AttributeError ("'property' object has no attribute '" +:+ name +:+ "'"))
  | None => Ok (set d)
  end.
Definition RPCMethod : decorated → result exn decorated :=
  set_mark "__rpc_exposed__" (λ d, Decorated true (d_nested d) (d_expose_all d) (d_property d)).
(** Both branches assign the same attribute. *)
Definition RPCNested : decorated → result exn decorated :=
  set_mark "__rpc_nested__" (λ d, Decorated (d_exposed d) true (d_expose_all d) (d_property d)).
Definition RPCClass : decorated → result exn decorated :=
  set_mark "__rpc_expose_all__" (λ d, Decorated (d_exposed d) (d_nested d) true (d_property d)).
(** [property(f)] of an undecorated or decorated function *)
Definition property_of (f : decorated) : decorated := Decorated false false false (Some (d_nested f)).

(** What extraction reads of an attribute of a class. *)
Definition class_attr_for (d : decorated) : class_attr := ClassAttr (d_exposed d) (d_nested d) (d_property d) true.
