(* ===== verification/DecoratorsProps.v ===== *)
(** * What extraction guarantees (decorators.py)

    Extraction ends on every object graph, cyclic ones included, and exposes
    only what is public and marked; an object that is reached twice is exposed
    once. *)

From S2P Require Import Prelude Text PyVal Dict Errors Decorators.


Section props.
Variable heap : gmap Z pyobject.
Abbreviation extract := (extract_with_decorators heap).

(** An invariant of the whole extraction, from one of its steps. *)
Section keeps.
Variable P : extraction → Prop.
Variable rec : Z → list string → pm exn extraction unit.

Lemma keeps_dict_item path item :
  (∀ key, item.1 = KStr key → private_name key = false →
     flag heap o_callable item.2 = true → keeps P (expose (path ++ [key]) (Method item.2))) →
  (∀ key, item.1 = KStr key → private_name key = false →
     flag heap o_callable item.2 = false → nested_value heap item.2 = false →
     keeps P (expose (path ++ [key]) (ValueGetter item.2))) →
  (∀ key, item.1 = KStr key → private_name key = false → flag heap o_callable item.2 = false →
     nested_value heap item.2 = true → keeps P (rec item.2 (path ++ [key]))) →
  keeps P (dict_item heap rec path item).
Proof.
  intros H1 H2 H3. unfold dict_item. destruct item.1 as [key|]; [|apply keeps_raise].
  destruct (private_name key) eqn:Ep; [apply keeps_ret|]. destruct (flag heap o_callable item.2) eqn:Ec; [by apply H1|].
  destruct (nested_value heap item.2) eqn:En; [by apply H3|by apply H2].
Qed.

Lemma keeps_attribute obj o path attr :
  (∀ v, attr.2 = Ok v → private_name attr.1 = false →
     flag heap o_callable v = true → flag heap o_is_type v = false →
     expose_all (o_class o) = true ∨ attr.1 ∈ rpc_methods o → keeps P (expose (path ++ [attr.1]) (Method v))) →
  (∀ v, attr.2 = Ok v → private_name attr.1 = false → attr.1 ∈ rpc_methods o →
     flag heap o_callable v = false → keeps P (expose (path ++ [attr.1]) (PropertyGetter obj attr.1))) →
  (∀ v, attr.2 = Ok v → private_name attr.1 = false → attr.1 ∈ rpc_nested o →
     keeps P (rec (nested_object heap o attr.1 v) (path ++ [attr.1]))) →
  keeps P (attribute heap rec obj o path attr).
Proof.
  intros H1 H2 H3. unfold attribute. destruct (private_name attr.1) eqn:Ep; [apply keeps_ret|]. cbn [orb].
  case_bool_decide; [apply keeps_ret|]. apply keeps_suppress. destruct attr.2 as [v|e]; [|apply keeps_raise].
  change (lift (Ok v) ≫= ?f) with (f v). cbn beta.
  destruct (flag heap o_callable v) eqn:Ec; [destruct (flag heap o_is_type v) eqn:Et|]; cbn [andb negb].
  - rewrite andb_false_r. case_bool_decide; [|apply keeps_ret]. cbv zeta. destruct (flag heap o_none _); [apply keeps_ret|by apply (H3 v)].
  - destruct (expose_all _) eqn:Ee; cbn [orb]; [by apply H1; auto|]. case_bool_decide; [by apply H1; auto|apply keeps_ret].
  - rewrite andb_true_r. case_bool_decide; [by apply (H2 v)|].
    case_bool_decide; [|apply keeps_ret]. cbv zeta. destruct (flag heap o_none _); [apply keeps_ret|by apply (H3 v)].
Qed.
End keeps.

(** ** Termination *)

(** Objects of the graph that have not been visited. *)
Definition unvisited (s : extraction) : nat := size (dom heap ∖ ex_visited s).

Lemma unvisited_extract c n : ∀ obj path, keeps (λ s, unvisited s ≤ c) (extract n obj path).
Proof.
  induction n as [|n IH]; intros obj path; [apply keeps_raise|]. cbn [extract_with_decorators].
  apply keeps_get. intros s _. case_bool_decide; [apply keeps_ret|]. apply keeps_bind.
  - apply keeps_modify. intros s' Hs'. etransitivity; [|exact Hs']. unfold unvisited. apply subseteq_size. cbn. set_solver.
  - intros _. destruct (heap !! obj) as [o|]; [|apply keeps_ret].
    assert (Hloop : keeps (λ s, unvisited s ≤ c) (for_each (o_attrs o) (attribute heap (extract n) obj o path))).
    { apply keeps_for_each. intros attr _. apply keeps_attribute; auto; by intros; apply keeps_modify. }
    destruct (o_dict o) as [items|]; [|done]. destruct (_ && _); [|done].
    apply keeps_for_each. intros item _. apply keeps_dict_item; auto; by intros; apply keeps_modify.
Qed.

Lemma extract_stable k : ∀ n m obj path s,
  k < n → k < m → unvisited s ≤ k → extract n obj path s = extract m obj path s.
Proof.
  induction k as [k IH] using lt_wf_ind. intros n m obj path s Hn Hm Hs.
  destruct n as [|n], m as [|m]; try lia. cbn [extract_with_decorators]. rewrite !pm_bind_eq. cbn [get_state].
  case_bool_decide as Hv; [done|]. rewrite !pm_bind_eq. cbn [visit modify].
  set (s1 := Extraction _ _). destruct (heap !! obj) as [o|] eqn:Eo; [|done].
  assert (H1 : unvisited s1 < unvisited s).
  { unfold unvisited. apply subset_size. split; [cbn; set_solver|]. intros Hsub.
    assert (Hin : obj ∈ dom heap) by (by apply elem_of_dom_2 in Eo). specialize (Hsub obj). cbn in Hsub. set_solver. }
  assert (Hrec : ∀ v p s', unvisited s' ≤ unvisited s1 → extract n v p s' = extract m v p s').
  { intros v p s' Hs'. apply (IH (unvisited s1)); lia. }
  assert (Hattrs : for_each (o_attrs o) (attribute heap (extract n) obj o path) s1 =
                   for_each (o_attrs o) (attribute heap (extract m) obj o path) s1).
  { apply (for_each_agree (λ s', unvisited s' ≤ unvisited s1)); [| |done].
    - intros [name got] s' Hs'. unfold attribute. cbn [fst snd]. destruct (_ || _); [done|].
      apply suppress_ext. rewrite !pm_bind_eq. cbn [lift]. destruct got as [v|e]; [|done].
      destruct (flag heap o_callable v && negb _); [done|]. destruct (bool_decide _ && _); [done|].
      case_bool_decide; [|done]. destruct (flag heap o_none _); [done|]. by apply Hrec.
    - intros attr. apply keeps_attribute; try (by intros; apply keeps_modify). intros. apply unvisited_extract. }
  destruct (o_dict o) as [items|]; [|done]. destruct (_ && _); [|done].
  apply (for_each_agree (λ s', unvisited s' ≤ unvisited s1)); [| |done].
  - intros [key v] s' Hs'. unfold dict_item. cbn [fst snd]. destruct key; [|done]. destruct (private_name _); [done|].
    destruct (flag heap o_callable v); [done|]. destruct (nested_value heap v); [by apply Hrec|done].
  - intros item. apply keeps_dict_item; try (by intros; apply keeps_modify). intros. apply unvisited_extract.
Qed.

(** C23. Extraction ends on every object graph, however cyclic: a recursion
    limit above the number of objects is never reached, so that the handlers
    are the same for all such limits. *)
Theorem extraction_terminates n m obj :
  size heap < n → size heap < m →
  handlers_of heap n false obj = handlers_of heap m false obj.
Proof.
  intros Hn Hm. unfold handlers_of. rewrite (extract_stable (size heap) n m); [done..|].
  unfold unvisited. cbn. rewrite <- (size_dom heap). apply subseteq_size. set_solver.
Qed.

(** ** Soundness *)

(** The objects that [root] exposes, with the path to each: through the public
    entries of plain dicts and the nested marks of instances. *)
Inductive reach (root : Z) : Z → list string → Prop :=
| reach_root : reach root root []
| reach_entry obj path o items key v :
    reach root obj path → heap !! obj = Some o → o_dict o = Some items → (KStr key, v) ∈ items →
    private_name key = false → nested_value heap v = true → reach root v (path ++ [key])
| reach_nested obj path o name v :
    reach root obj path → heap !! obj = Some o → (name, Ok v) ∈ o_attrs o →
    private_name name = false → name ∈ rpc_nested o → reach root (nested_object heap o name v) (path ++ [name]).

(** What the object at [obj] may expose under a name. *)
Inductive exposes (obj : Z) : string → target → Prop :=
| exposes_entry o items key v :
    heap !! obj = Some o → o_dict o = Some items → (KStr key, v) ∈ items →
    exposes obj key (if flag heap o_callable v then Method v else ValueGetter v)
| exposes_method o name v :
    heap !! obj = Some o → (name, Ok v) ∈ o_attrs o → flag heap o_callable v = true → flag heap o_is_type v = false →
    expose_all (o_class o) = true ∨ name ∈ rpc_methods o → exposes obj name (Method v)
| exposes_property o name v :
    heap !! obj = Some o → (name, Ok v) ∈ o_attrs o → flag heap o_callable v = false → name ∈ rpc_methods o →
    exposes obj name (PropertyGetter obj name).

Definition sound (root : Z) (s : extraction) : Prop :=
  ∀ full t, (full, t) ∈ ex_handlers s →
    ∃ obj path name, reach root obj path ∧ exposes obj name t ∧ private_name name = false ∧
                     full = join "." (path ++ [name]).

Lemma sound_expose root obj path name t :
  reach root obj path → exposes obj name t → private_name name = false →
  keeps (sound root) (expose (path ++ [name]) t).
Proof.
  intros Hr He Hp. apply keeps_modify. intros s Hs full t' [[= -> ->]|Hin]%od_set_elem; [by exists obj, path, name|auto].
Qed.

Lemma sound_extract root n : ∀ obj path, reach root obj path → keeps (sound root) (extract n obj path).
Proof.
  induction n as [|n IH]; intros obj path Hr; [apply keeps_raise|]. cbn [extract_with_decorators].
  apply keeps_get. intros s _. case_bool_decide; [apply keeps_ret|]. apply keeps_bind; [by apply keeps_modify|].
  intros _. destruct (heap !! obj) as [o|] eqn:Eo; [|apply keeps_ret].
  assert (Hattrs : keeps (sound root) (for_each (o_attrs o) (attribute heap (extract n) obj o path))).
  { apply keeps_for_each. intros [name got] Hin. apply keeps_attribute; cbn [fst snd]; intros v -> Hp.
    - intros Hc Ht Hm. apply (sound_expose root obj); [done| |done]. by apply (exposes_method _ o).
    - intros Hm Hc. apply (sound_expose root obj); [done| |done]. by apply (exposes_property _ o _ v).
    - intros Hnest. apply IH. by apply (reach_nested root obj path o). }
  destruct (o_dict o) as [items|] eqn:Ei; [|done]. destruct (_ && _); [|done].
  apply keeps_for_each. intros [k v] Hin. apply keeps_dict_item; cbn [fst snd]; intros key -> Hp Hc.
  - apply (sound_expose root obj); [done| |done]. pose proof (exposes_entry obj o items key v Eo Ei Hin) as Hx. by rewrite Hc in Hx.
  - intros _. apply (sound_expose root obj); [done| |done]. pose proof (exposes_entry obj o items key v Eo Ei Hin) as Hx. by rewrite Hc in Hx.
  - intros Hn. apply IH. by apply (reach_entry root obj path o items).
Qed.

(** C16. Extraction exposes nothing it should not: every handler's path runs
    through public names only, from the root over entries of dicts and nested
    marks to an object, and its last name is a public entry of that dict, a
    method that is marked or whose class exposes all of them, or a marked
    property. *)
Theorem extraction_sound n root handlers :
  handlers_of heap n false root = Ok handlers →
  ∀ full t, (full, t) ∈ handlers →
    ∃ obj path name, reach root obj path ∧ exposes obj name t ∧ private_name name = false ∧
                     full = join "." (path ++ [name]).
Proof.
  unfold handlers_of. intros H. pose proof (sound_extract root n root [] (reach_root root) new_extraction) as Hs.
  destruct (extract n root [] new_extraction) as [[[]|e] s]; [|done]. injection H as <-. apply Hs.
  by intros full t ?%elem_of_nil.
Qed.

(** ** Shared objects *)

Lemma extract_visited n obj path s : obj ∈ ex_visited s → extract (S n) obj path s = (Ok tt, s).
Proof. intros H. cbn [extract_with_decorators]. rewrite pm_bind_eq. cbn [get_state]. by rewrite bool_decide_true. Qed.

Lemma extract_plain n obj path s o items :
  obj ∉ ex_visited s → heap !! obj = Some o → o_dict o = Some items →
  o_plain o = true ∧ has_decorators (o_class o) = false →
  extract (S n) obj path s =
  for_each items (dict_item heap (extract n) path) (Extraction (ex_handlers s) ({[obj]} ∪ ex_visited s)).
Proof.
  intros Hv Ho Hd [Hp Hdec]. cbn [extract_with_decorators]. rewrite pm_bind_eq. cbn [get_state].
  rewrite bool_decide_false by done. rewrite pm_bind_eq. cbn [visit modify]. by rewrite Ho, Hd, Hp, Hdec.
Qed.

(** The guard against cycles also drops shared objects: a dict that holds
    one dict of methods under two names exposes its method under the first
    name only. *)
Theorem shared_object_once n root o v ov a b f w :
  heap !! root = Some o → o_dict o = Some [(KStr a, v); (KStr b, v)] →
  heap !! v = Some ov → o_dict ov = Some [(KStr f, w)] →
  Forall (λ o, o_plain o = true ∧ has_decorators (o_class o) = false) [o; ov] → o_callable ov = false →
  Forall (λ name, private_name name = false) [a; b; f] → flag heap o_callable w = true → v ≠ root →
  handlers_of heap (S (S n)) false root = Ok [(join "." [a; f], Method w)].
Proof.
  intros Ho Hd Hov Hdv Hpl Hc Hp Hw Hne.
  inversion_clear Hpl as [|?? Hpo Hpl']. inversion_clear Hpl' as [|?? Hpv _].
  inversion_clear Hp as [|?? Ha Hp']. inversion_clear Hp' as [|?? Hb Hp'']. inversion_clear Hp'' as [|?? Hf _].
  assert (Hitem : ∀ rec k s, private_name k = false → dict_item heap rec [] (KStr k, v) s = rec v [k] s).
  { intros rec k s Hk. unfold dict_item, nested_value, flag, is_dict. cbn [fst snd]. by rewrite Hk, Hov, Hc, Hdv. }
  unfold handlers_of. rewrite (extract_plain _ root [] new_extraction o _ ltac:(cbn; set_solver) Ho Hd Hpo).
  rewrite (for_each_cons _ _ _ _ (Extraction [(join "." [a; f], Method w)] ({[v]} ∪ ({[root]} ∪ ∅)))).
  - rewrite (for_each_cons _ _ _ _ (Extraction [(join "." [a; f], Method w)] ({[v]} ∪ ({[root]} ∪ ∅)))); [done|].
    rewrite Hitem by done. apply extract_visited. cbn. set_solver.
  - rewrite Hitem by done. rewrite (extract_plain _ v [a] (Extraction [] ({[root]} ∪ ∅)) ov _ ltac:(cbn; set_solver) Hov Hdv Hpv).
    unfold for_each, dict_item. cbn [fst snd]. by rewrite Hf, Hw.
Qed.
End props.

(** ** Marks of properties *)

Lemma append_method_inherited classes owner name base :
  methods_owner classes owner = Some base →
  append_method owner name classes =
    alter (λ k, Klass (kl_mro k) (Some (default [] (kl_methods k) ++ [name]))) base classes.
Proof. intros H. unfold append_method. by rewrite H. Qed.

(** Where the list is found: the first class of the MRO that has one. *)
Definition has_methods (classes : gmap string klass) (c : string) : bool :=
  match classes !! c with
  | Some k => match kl_methods k with Some _ => true | None => false end
  | None => false
  end.

Lemma owner_has_methods classes cls base : methods_owner classes cls = Some base → has_methods classes base = true.
Proof.
  unfold methods_owner. destruct (classes !! cls); [|done]. intros H%List.find_some. by destruct H.
Qed.

Lemma methods_owner_append classes owner name base cls :
  methods_owner classes owner = Some base → methods_owner (append_method owner name classes) cls = methods_owner classes cls.
Proof.
  intros Ho. rewrite (append_method_inherited _ _ _ base) by done. set (g := λ k, Klass _ _).
  assert (Hhas : ∀ c, has_methods (alter g base classes) c = has_methods classes c).
  { intros c. pose proof (owner_has_methods _ _ _ Ho) as Hb. unfold has_methods in *.
    destruct (decide (c = base)) as [->|]; [|by rewrite lookup_alter_ne].
    rewrite lookup_alter_eq. by destruct (classes !! base) as [[? []]|]. }
  assert (Hfind : ∀ l, List.find (has_methods (alter g base classes)) l = List.find (has_methods classes) l).
  { intros l. induction l as [|c l IH]; [done|]. cbn [List.find]. by rewrite Hhas, IH. }
  unfold methods_owner. fold (has_methods classes). fold (has_methods (alter g base classes)).
  destruct (decide (cls = base)) as [->|]; [|rewrite lookup_alter_ne by done; by destruct (classes !! cls)].
  rewrite lookup_alter_eq. destruct (classes !! base) as [k|]; [|done]. apply Hfind.
Qed.

Lemma methods_of_append classes owner name base cls :
  methods_owner classes owner = Some base → methods_owner classes cls = Some base →
  methods_of (append_method owner name classes) cls = methods_of classes cls ++ [name].
Proof.
  intros Ho Hc. unfold methods_of. rewrite (methods_owner_append _ _ _ base), Hc by done.
  rewrite (append_method_inherited _ _ _ base), lookup_alter_eq by done.
  apply owner_has_methods in Ho. unfold has_methods in Ho. by destruct (classes !! base) as [[? []]|].
Qed.

(** A property that a class declares while it inherits the list of marked
    names is added to the list of the class it inherits from, so that its name
    and its setter's name become marked in every other class that finds the
    same list. *)
Theorem property_marks_leak classes owner sibling base name :
  methods_owner classes owner = Some base → methods_owner classes sibling = Some base →
  methods_of (set_name owner name classes) sibling = methods_of classes sibling ++ [name; setter_name name].
Proof.
  intros Ho Hs. unfold set_name. erewrite methods_of_append by (rewrite (methods_owner_append _ _ _ base); done).
  rewrite (methods_of_append _ _ _ base), <- app_assoc by done. done.
Qed.

(** What a marked property stores is what it gives back. *)
Lemma property_roundtrip name v attrs : property_get name (property_set name v attrs) = v.
Proof. unfold property_get, property_set. by rewrite lookup_insert_eq. Qed.

(** A property is marked by decorating its getter: the marks set on a
    [property] itself fail, although [RPCNested] has a branch for it. *)
Lemma nested_property f :
  RPCNested (property_of f) = Raise (AttributeError "'property' object has no attribute '__rpc_nested__'") ∧
  (∀ f', RPCNested f = Ok f' → ca_property (class_attr_for (property_of f')) = Some true).
Proof.
  split; [done|]. intros f'. unfold RPCNested, set_mark. destruct (d_property f); [done|]. by intros [= <-].
Qed.

(** ** Witnesses *)

Section witnesses.
Local Open Scope Z_scope.

Definition plain_class : pyclass := PyClass None [] None.
Definition dict_of (items : list (dict_key * Z)) : pyobject :=
  PyObject (Some items) true plain_class false false false false false [] [] [] [] (Raise (TypeError "not callable")).
Definition function : pyobject :=
  PyObject None false plain_class true false true false false [] [] [] [] (Ok 0).
(** Two dicts that refer to each other, and a method. *)
Definition cyclic : gmap Z pyobject :=
  {[ 1 := dict_of [(KStr "peer", 2); (KStr "_hidden", 3); (KStr "run", 3)];
     2 := dict_of [(KStr "back", 1); (KStr "run", 3)];
     3 := function ]}.
(** One dict under two names. *)
Definition shared : gmap Z pyobject :=
  {[ 1 := dict_of [(KStr "a", 2); (KStr "b", 2)]; 2 := dict_of [(KStr "run", 3)]; 3 := function ]}.
Definition family : gmap string klass :=
  {[ "Base" := Klass ["Base"] (Some ["level"]); "Lamp" := Klass ["Lamp"; "Base"] None;
     "Door" := Klass ["Door"; "Base"] None ]}.

End witnesses.

Lemma extraction_terminates_witness :
  handlers_of cyclic 4 false 1%Z = handlers_of cyclic 1000 false 1%Z ∧
  handlers_of cyclic 4 false 1%Z = Ok [("peer.run", Method 3%Z); ("run", Method 3%Z)].
Proof.
  split; [apply (extraction_terminates cyclic 4 1000 1%Z)|]; [vm_compute; lia..|vm_compute; reflexivity].
Defined.

Lemma extraction_sound_witness :
  ∃ obj path name, reach cyclic 1%Z obj path ∧ exposes cyclic obj name (Method 3%Z) ∧ private_name name = false ∧
                   "peer.run" = join "." (path ++ [name]).
Proof.
  apply (extraction_sound cyclic 4 1%Z [("peer.run", Method 3%Z); ("run", Method 3%Z)] eq_refl).
  apply list_elem_of_here.
Defined.

Lemma shared_object_once_witness :
  handlers_of shared 2 false 1%Z = Ok [("a.run", Method 3%Z)].
Proof.
  apply (shared_object_once shared 0 1%Z (dict_of [(KStr "a", 2%Z); (KStr "b", 2%Z)]) 2%Z (dict_of [(KStr "run", 3%Z)]) "a" "b" "run" 3%Z);
    try reflexivity; [repeat constructor..|done].
Defined.

Lemma property_marks_leak_witness :
  methods_of (set_name "Lamp" "bright" family) "Door" = ["level"; "bright"; "setBright"].
Proof. rewrite (property_marks_leak family "Lamp" "Door" "Base" "bright"); reflexivity. Defined.
