(* ===== verification/Proxy.v ===== *)
(** * Proxies (utils.py)

    Attribute access on a proxy builds a subject; calling the attribute picks
    the kind of call by the arguments and the method's name. An RPC proxy
    learns the method names with its first response; a service proxy walks the
    endpoints that discovery reported. *)

From S2P Require Import Prelude Text PyVal Dict Errors Handlers.

(** ** [rpc_callbacks] *)

(** What a Python argument is to a proxy: a value, which may be a function, a
    class, or a bundle of callbacks. *)
Inductive proxy_arg :=
| AVal (v : pyval)
| AClass (c : Z)
| ACallbacks (methods : list (string * Z)) (oneway : list pyval).

Definition is_rpc_callbacks (a : proxy_arg) : bool := match a with ACallbacks _ _ => true | _ => false end.
(** [callable(a)] *)
Definition callable (a : proxy_arg) : option Z := match a with AVal (PFun f) | AClass f => Some f | _ => None end.

(** Keyword arguments have distinct names. *)
Definition rpc_callbacks (kwargs : list (string * proxy_arg)) : result exn proxy_arg :=
  let oneway := default (AVal PNone) (od_get "oneway" kwargs) in
  let methods := omap (λ '(name, a), pair name <$> callable a) (od_del "oneway" kwargs) in
  match oneway with
  | AVal PNone => Ok (ACallbacks methods (PStr <$> methods.*1))
  | AVal v =>
      match value_items v with
      | Some names => Ok (ACallbacks methods names)
      | None => Raise (TypeError "object is not iterable")
      end
  | _ => Raise (TypeError "object is not iterable")
  end.

(** ** The kind of a call *)

(** The method of the client that a call goes to, with its arguments. *)
Inductive route :=
| ToPullWithCallback (subject : string) (methods : list (string * Z)) (oneway : list pyval) (args : list proxy_arg)
| ToCallback (subject : string) (args : list proxy_arg) (callback : Z)
| ToStream (subject : string) (args : list proxy_arg)
| ToPull (subject : string) (args : list proxy_arg)
| ToCall (subject : string) (args : list proxy_arg) (discover : bool).

(** [next((i for i, a in enumerate(args) if ...), -1)] *)
Definition find_bundle (args : list proxy_arg) : option (nat * proxy_arg) := list_find (λ a, is_rpc_callbacks a = true) args.
Definition is_function (a : proxy_arg) : bool := match a with AVal (PFun _) => true | _ => false end.
Definition find_callback (args : list proxy_arg) : option (nat * proxy_arg) := list_find (λ a, is_function a = true) args.
(** [[a for i, a in enumerate(args) if i != idx]] *)
Definition other_args (idx : nat) (args : list proxy_arg) : list proxy_arg := delete idx args.

(** [CallableProxy.__call__] of either proxy. *)
Definition route_call (subject name : string) (args : list proxy_arg) (discover : bool) : route :=
  match find_bundle args with
  | Some (i, ACallbacks methods oneway) => ToPullWithCallback subject methods oneway (other_args i args)
  | _ =>
      match find_callback args with
      | Some (i, AVal (PFun f)) => ToCallback subject (other_args i args) f
      | _ =>
          if contains "generate" (lower name) then ToStream subject args
          else if contains "pull" (lower name) then ToPull subject args
          else ToCall subject args discover
      end
  end.

(** ** [create_proxy] *)

(** [_cache]: the set of method names, once one is known. *)
Definition cache : Type := option (list pyval).

Fixpoint hashable (v : pyval) : bool :=
  match v with PList _ | PDict _ | PByteArray _ => false | PTuple vs => forallb hashable vs | _ => true end.
Definition update_cache (methods : pyval) (c : cache) : result exn cache :=
  match c with
  | Some _ => Ok c
  | None =>
      match value_items methods with
      | Some names => if forallb hashable names then Ok (Some names) else Raise (TypeError "unhashable type")
      | None => Raise (TypeError "object is not iterable")
      end
  end.
Definition strip_methods (v : pyval) (c : cache) : result exn (pyval * cache) :=
  match v with
  | PDict kvs =>
      if dict_has "__methods" kvs then
        c' ← update_cache (dict_get "__methods" kvs) c; mret (PDict (dict_del "__methods" kvs), c')
      else Ok (v, c)
  | _ => Ok (v, c)
  end.

(** [RPCProxy.__getattr__] of the proxy at [path]: [None], or a callable for
    the full path. *)
Definition proxy_getattr (path : list string) (c : cache) (name : string) : option (list string) :=
  match c with
  | Some names =>
      if bool_decide (path = []) && negb (existsb (is_key name) names) then None else Some (path ++ [name])
  | None => Some (path ++ [name])
  end.
Definition proxy_subject (namespace : string) (full_path : list string) : string :=
  "rpc." +:+ namespace +:+ "." +:+ join "." full_path.
Definition discovering (c : cache) : bool := match c with None => true | Some _ => false end.
Definition proxy_call (namespace : string) (full_path : list string) (args : list proxy_arg) (c : cache) : route :=
  route_call (proxy_subject namespace full_path) (default "" (last full_path)) args (discovering c).
(** [await proxy.name] *)
Definition proxy_await (namespace : string) (full_path : list string) (c : cache) : route :=
  proxy_call namespace full_path [] c.

(** [CallableProxy.__getattr__]: the nested proxy's [__getattribute__], which
    finds what the type [object] or the class defines and nothing else. *)
Definition nested_getattr (defined : string → bool) (full_path : list string) (nested_name : string) : result exn string :=
  if defined nested_name then Ok nested_name else Raise (AttributeError "'RPCProxy' object has no attribute").

(** ** [create_service_proxy] *)

(** What [ServiceProxy.__getattr__] gives. *)
Inductive service_attr := AtEndpoint (subject : string) | AtNamespace (path : list string).

Definition matches_endpoint (path : list string) (name ep : string) : bool :=
  bool_decide (ep = join "." (path ++ [name]))
  || (let parts := split_on dot ep in
      bool_decide (default "" (last parts) = name) && bool_decide (join "." (removelast parts) = join "." path)).
Definition find_endpoint (eps : list string) (path : list string) (name : string) : option string :=
  List.find (matches_endpoint path name) eps.
Definition has_nested (eps : list string) (full_path : list string) : bool :=
  existsb (startswith (join "." full_path +:+ ".")) eps.
Definition service_getattr (eps : list string) (path : list string) (name : string) : result exn service_attr :=
  match find_endpoint eps path name with
  | Some ep => Ok (AtEndpoint ep)
  | None =>
      if has_nested eps (path ++ [name]) then Ok (AtNamespace (path ++ [name]))
      else Raise (AttributeError "'ServiceProxy' object has no attribute")
  end.
(** An expression [proxy.a.b.c]; the callable of an endpoint has no attributes. *)
Fixpoint service_walk (eps : list string) (at_ : service_attr) (names : list string) : result exn service_attr :=
  match names, at_ with
  | [], _ => Ok at_
  | name :: names, AtNamespace path => a ← service_getattr eps path name; service_walk eps a names
  | _ :: _, AtEndpoint _ => Raise (AttributeError "'CallableProxy' object has no attribute")
  end.
Definition service_call (ep name : string) (args : list proxy_arg) : route := route_call ep name args false.

(** The service of those found that a proxy is made for. *)
Definition select_service {A} (id : A → string) (preferred_id : string) (services : list A) : result exn A :=
  match services with
  | [] => Raise (RuntimeError "No services found")
  | s :: _ =>
      if bool_decide (preferred_id = "") then Ok s
      else Ok (default s (List.find (λ s, bool_decide (id s = preferred_id)) services))
  end.
