(* ===== verification/ProxyProps.v ===== *)
(** * What proxies guarantee (utils.py)

    A call through a proxy goes where its arguments and name say and loses
    none of them; walking a service proxy along the segments of a subject
    reaches its endpoint; a discovering proxy returns what a plain call does.
    Attributes of an RPC proxy do not nest. *)

From S2P Require Import Prelude Text PyVal Dict Errors MsgPack Codec CodecRoundtrip Handlers Service ServiceProps RemoteCall Proxy.

(** ** Calls *)

(** How the arguments of a call are split. *)
Definition splits (args : list proxy_arg) (a : proxy_arg) (rest : list proxy_arg) (skip : proxy_arg → bool) : Prop :=
  ∃ l1 l2, args = l1 ++ a :: l2 ∧ rest = l1 ++ l2 ∧ Forall (λ b, skip b = true) l1.
Definition no_bundle (a : proxy_arg) : bool := negb (is_rpc_callbacks a).
Definition no_function (a : proxy_arg) : bool := negb (is_function a).

Lemma find_splits (f : proxy_arg → bool) args i a :
  list_find (λ b, f b = true) args = Some (i, a) → splits args a (other_args i args) (negb ∘ f) ∧ f a = true.
Proof.
  intros (Ha & Hf & Hbefore)%list_find_Some. split; [|done].
  exists (take i args), (drop (S i) args). split_and!.
  - symmetry. by apply take_drop_middle.
  - apply delete_take_drop.
  - apply Forall_lookup. intros j b Hj. apply lookup_take_Some in Hj as [Hj Hlt].
    specialize (Hbefore j b Hj Hlt). unfold compose. by destruct (f b).
Qed.

Lemma find_none (f : proxy_arg → bool) args :
  list_find (λ b, f b = true) args = None → Forall (λ b, negb (f b) = true) args.
Proof. intros H%list_find_None. eapply Forall_impl; [exact H|]. intros b Hb. cbn in Hb. by destruct (f b). Qed.

(** A call through a proxy keeps its subject and its arguments: a bundle of
    callbacks makes it a pull with callbacks, else the first function makes it
    a callback call, each being taken out of the arguments and the others
    kept in order; else the method's name makes it a stream, a pull or a call
    with all the arguments. *)
Theorem route_call_spec subject name args discover :
  match route_call subject name args discover with
  | ToPullWithCallback s ms ow rest => s = subject ∧ splits args (ACallbacks ms ow) rest no_bundle
  | ToCallback s rest f =>
      s = subject ∧ Forall (λ a, no_bundle a = true) args ∧ splits args (AVal (PFun f)) rest no_function
  | ToStream s rest =>
      s = subject ∧ rest = args ∧ Forall (λ a, no_bundle a && no_function a = true) args ∧
      contains "generate" (lower name) = true
  | ToPull s rest =>
      s = subject ∧ rest = args ∧ Forall (λ a, no_bundle a && no_function a = true) args ∧
      contains "generate" (lower name) = false ∧ contains "pull" (lower name) = true
  | ToCall s rest d =>
      s = subject ∧ rest = args ∧ Forall (λ a, no_bundle a && no_function a = true) args ∧
      contains "generate" (lower name) = false ∧ contains "pull" (lower name) = false ∧ d = discover
  end.
Proof.
  unfold route_call, find_bundle, find_callback.
  destruct (list_find (λ a, is_rpc_callbacks a = true) args) as [[i a]|] eqn:Eb.
  { apply find_splits in Eb as [Hs Ha]. destruct a; try discriminate. done. }
  apply find_none in Eb. destruct (list_find (λ a, is_function a = true) args) as [[i a]|] eqn:Ef.
  { apply find_splits in Ef as [Hs Ha]. destruct a as [[]| |]; try discriminate. done. }
  apply find_none in Ef. assert (Hboth : Forall (λ a, no_bundle a && no_function a = true) args).
  { eapply Forall_impl; [apply Forall_and; exact (conj Eb Ef)|]. intros a [H1 H2]. unfold no_bundle, no_function. by rewrite H1, H2. }
  destruct (contains "generate" (lower name)) eqn:Eg; [done|]. destruct (contains "pull" (lower name)) eqn:Ep; done.
Qed.

(** ** Discovery *)

Lemma dict_del_set k v kvs : dict_has k kvs = false → dict_del k (dict_set k v kvs) = kvs.
Proof.
  unfold dict_has. induction kvs as [|[j w] kvs IH]; cbn [dict_lookup dict_set dict_del].
  - by rewrite is_key_refl.
  - destruct (is_key k j) eqn:E; [done|]. cbn [dict_del]. rewrite E. intros H. by rewrite IH.
Qed.

(** A dict has no entry of its own under the name of the method list. *)
Definition no_methods (v : pyval) : bool := match v with PDict kvs => negb (dict_has "__methods" kvs) | _ => true end.

(** A call through a proxy gives what a plain call gives: the method list
    that the response of a discovering call carries is taken out of the
    result again, and is kept as the names the proxy knows when there are
    none yet. *)
Theorem proxy_discovers names v c :
  no_methods (delivered v) = true →
  strip_methods (returned (discovering c) names v) c =
    Ok (delivered v, match delivered v, c with PDict _, None => Some (PStr <$> names) | _, _ => c end).
Proof.
  unfold returned. intros H. destruct (delivered v) as [| | | | | | | | | | kvs| | | | | |] eqn:E; try done.
  apply negb_true_iff in H. destruct c as [known|]; cbn [discovering].
  - unfold strip_methods. by rewrite H.
  - unfold strip_methods, dict_has, dict_get. rewrite dict_lookup_set. cbn [default update_cache value_items].
    cbn [id value_items]. assert (Hh : forallb hashable (PStr <$> names) = true) by (clear; by induction names). rewrite Hh.
    cbn. by rewrite dict_del_set.
Qed.

(** ** Nesting *)

(** Attributes of an RPC proxy do not nest: an attribute of an attribute
    fails unless the class itself defines it, and once a response told the
    proxy the method names, the name that a nested method's path starts with
    gives [None]. *)
Theorem nested_unreachable defined full_path nested names name :
  defined nested = false → PStr name ∉ names →
  nested_getattr defined full_path nested = Raise (AttributeError "'RPCProxy' object has no attribute") ∧
  proxy_getattr [] (Some names) name = None ∧ proxy_getattr [] None name = Some [name].
Proof.
  intros Hd Hn. split_and!; [by unfold nested_getattr; rewrite Hd| |done].
  unfold proxy_getattr. rewrite bool_decide_true by done. cbn [andb].
  destruct (existsb (is_key name) names) eqn:E; [|done]. exfalso. apply Hn.
  apply existsb_exists in E as (v & Hin & Hk). apply list_elem_of_In in Hin.
  destruct v; try discriminate. apply bool_decide_eq_true in Hk. by subst.
Qed.

(** ** Walking a service *)

(** The segments of a string, put together again. *)
Lemma split_segments s :
  removelast (split_on dot s) ++ [default "" (last (split_on dot s))] = split_on dot s.
Proof.
  pose proof (split_on_nonempty dot s) as Hs. destruct (exists_last Hs) as (l & a & ->).
  by rewrite removelast_last, last_snoc.
Qed.

Section walk.
Variable eps : list string.
Hypothesis no_leading_dot : Forall (λ ep, startswith "." ep = false) eps.

(** The test on the last segment adds nothing to the test on the full path. *)
Lemma matches_endpoint_eq path name ep :
  Forall (λ n, n ≠ "") path → startswith "." ep = false →
  matches_endpoint path name ep = bool_decide (ep = join "." (path ++ [name])).
Proof.
  intros Hp Hd. unfold matches_endpoint. destruct (bool_decide (ep = _)) eqn:E; [done|]. cbn [orb].
  apply bool_decide_eq_false in E. apply andb_false_iff.
  destruct (decide (default "" (last (split_on dot ep)) = name)) as [Hn|]; [right|left; by apply bool_decide_eq_false].
  apply bool_decide_eq_false. intros Hj. apply E. clear E.
  pose proof (join_split_on dot ep) as He. rewrite <- split_segments, Hn in He. rewrite <- He.
  destruct (removelast (split_on dot ep)) as [|p ps] eqn:Ep, path as [|q qs]; [done|..].
  - exfalso. apply Forall_cons in Hp as [Hq _]. destruct qs; [by apply Hq|].
    rewrite join_cons in Hj by done. destruct q; [by apply Hq|done].
  - exfalso. destruct ps as [|p' ps]; [|rewrite join_cons in Hj by done; by destruct p].
    cbn in Hj. subst p. rewrite <- He in Hd. by rewrite (startswith_app "." name : startswith "." (join (String dot "") ([""] ++ [name])) = true) in Hd.
  - change (String dot "") with ".". rewrite !join_snoc by done. by rewrite Hj.
Qed.

Lemma find_endpoint_eq path name :
  Forall (λ n, n ≠ "") path →
  find_endpoint eps path name =
    if bool_decide (join "." (path ++ [name]) ∈ eps) then Some (join "." (path ++ [name])) else None.
Proof.
  intros Hp. unfold find_endpoint. clear -no_leading_dot Hp.
  induction eps as [|ep l IH]; [by rewrite bool_decide_false by apply not_elem_of_nil|].
  apply Forall_cons in no_leading_dot as [Hd Hl]. specialize (IH Hl). cbn [List.find]. rewrite matches_endpoint_eq by done.
  destruct (decide (ep = join "." (path ++ [name]))) as [He|Hne].
  - rewrite !bool_decide_true by (try done; rewrite He; apply list_elem_of_here). by rewrite He.
  - rewrite (bool_decide_false (ep = _)) by done. rewrite IH. apply (f_equal (λ b : bool, if b then _ else _)).
    apply bool_decide_ext. rewrite elem_of_cons. split; [auto|]. intros [E|E]; [by rewrite E in Hne|done].
Qed.

Lemma nested_of path name n ns :
  join "." (path ++ name :: n :: ns) ∈ eps → has_nested eps (path ++ [name]) = true.
Proof.
  intros Hin. unfold has_nested. apply existsb_exists. exists (join "." (path ++ name :: n :: ns)).
  split; [by apply list_elem_of_In|]. rewrite (cons_middle name path (n :: ns)), (app_assoc path).
  rewrite (join_app "." (path ++ [name]) (n :: ns)) by (by destruct path). rewrite <- string_app_assoc. apply startswith_app.
Qed.

Lemma walk_from names : ∀ path ep,
  Forall (λ n, n ≠ "") path → Forall (λ n, n ≠ "") names →
  service_walk eps (AtNamespace path) names = Ok (AtEndpoint ep) ↔
    names ≠ [] ∧ ep = join "." (path ++ names) ∧ ep ∈ eps ∧
    ∀ k, 0 < k < length names → join "." (path ++ take k names) ∉ eps.
Proof.
  induction names as [|name names IH]; intros path ep Hp Hn; [split; [done|by intros []]|].
  apply Forall_cons in Hn as [Hname Hn]. cbn [service_walk]. unfold service_getattr. rewrite find_endpoint_eq by done.
  case_bool_decide as Hin.
  - cbn [mbind result_bind]. destruct names as [|n ns]; cbn [service_walk].
    + split; [intros [= <-]; split_and!; [done..|cbn; lia]|]. by intros (_ & -> & _).
    + split; [done|]. intros (_ & _ & _ & H). by destruct (H 1 ltac:(cbn; lia)).
  - destruct (has_nested eps (path ++ [name])) eqn:Eh; cbn [mbind result_bind].
    + rewrite IH by (try done; apply Forall_app; auto). rewrite <- (app_assoc path). cbn [app]. split.
      * intros (Hne & -> & He & H). split_and!; [done..|]. intros [|[|k]] Hk; [lia|done|].
        cbn [take]. specialize (H (S k) ltac:(cbn in Hk; lia)). by rewrite <- app_assoc in H.
      * intros (_ & -> & He & H). split_and!; [by intros ->|done..|].
        intros k Hk. rewrite <- app_assoc. apply (H (S k)). cbn. lia.
    + split; [done|]. intros (_ & -> & He & _). exfalso.
      destruct names as [|n ns]; [done|]. by rewrite (nested_of path name n ns) in Eh.
Qed.
End walk.

(** C28. Following a path on a service proxy reaches an endpoint exactly when
    the path is its subject and no shorter part of the path is a subject
    itself: an endpoint hides what lies below it. *)
Theorem service_walk_spec eps names ep :
  Forall (λ ep, startswith "." ep = false) eps → Forall (λ n, n ≠ "") names →
  service_walk eps (AtNamespace []) names = Ok (AtEndpoint ep) ↔
    names ≠ [] ∧ ep = join "." names ∧ ep ∈ eps ∧
    ∀ k, 0 < k < length names → join "." (take k names) ∉ eps.
Proof. intros He Hn. by apply (walk_from eps He names []). Qed.

(** ** From a service's methods to its proxy *)

Section service.
(** [nats.micro] names an endpoint of a group by the group's name and its own. *)
Variable subject_of : list string * string → string.
Hypothesis subject_of_group : ∀ g n, subject_of (g, n) = join "." (g ++ [n]).

(** Every method of a service is reached through its proxy by the segments
    of its path, unless a shorter part of the path is a method too. *)
Theorem service_proxy_reaches paths path :
  Forall (λ p, startswith "." p = false) paths → path ∈ paths → Forall (λ n, n ≠ "") (split_on dot path) →
  (∀ k, 0 < k < length (split_on dot path) → join "." (take k (split_on dot path)) ∉ paths) →
  service_walk (subject_of <$> (add_endpoints paths).1) (AtNamespace []) (split_on dot path) = Ok (AtEndpoint path).
Proof.
  intros Hd Hin Hn Hk. assert (He : subject_of <$> (add_endpoints paths).1 = paths).
  { pose proof (endpoints_named paths) as Hp. revert Hp. generalize (add_endpoints paths).1. clear -subject_of_group.
    induction 1 as [|p [g n] l eps Hp Hl IH]; [done|].
    rewrite fmap_cons, subject_of_group, IH. by rewrite <- Hp. }
  rewrite He. apply (walk_from paths Hd); [done..|]. split_and!; [apply split_on_nonempty| |done..].
  symmetry. apply join_split_on.
Qed.
End service.

(** ** Witnesses *)

Lemma proxy_discovers_witness :
  strip_methods (returned true ["read"; "pull"] (PDict [(PStr "level", PInt 3)])) None =
    Ok (PDict [(PStr "level", PInt 3)], Some [PStr "read"; PStr "pull"]).
Proof. apply (proxy_discovers ["read"; "pull"] (PDict [(PStr "level", PInt 3)]) None). reflexivity. Defined.

(** After a response that names [math.add], the proxy has no [math]. *)
Lemma nested_unreachable_witness :
  proxy_getattr [] (Some [PStr "math.add"]) "math" = None.
Proof.
  apply (nested_unreachable (λ _, false) ["math"] "add" [PStr "math.add"] "math"); [reflexivity|].
  by intros H%list_elem_of_singleton.
Defined.

Definition some_endpoints : list string := ["stats"; "math.add"; "math.trig.sin"].
Lemma service_walk_spec_witness :
  service_walk some_endpoints (AtNamespace []) ["math"; "trig"; "sin"] = Ok (AtEndpoint "math.trig.sin").
Proof.
  apply (service_walk_spec some_endpoints ["math"; "trig"; "sin"] "math.trig.sin"); [repeat constructor; done..|].
  split_and!; [discriminate|reflexivity|apply (bool_decide_unpack _); vm_compute; exact I|].
  intros [|[|[|k]]] Hk; [|apply (bool_decide_unpack _); vm_compute; exact I..|]; cbn in Hk; lia.
Defined.

Lemma service_proxy_reaches_witness :
  service_walk ((λ '(g, n), join "." (g ++ [n])) <$> (add_endpoints some_endpoints).1) (AtNamespace [])
    ["math"; "trig"; "sin"] = Ok (AtEndpoint "math.trig.sin").
Proof.
  apply (service_proxy_reaches (λ '(g, n), join "." (g ++ [n])) (λ g n, eq_refl) some_endpoints "math.trig.sin");
    [repeat constructor; done|apply (bool_decide_unpack _); vm_compute; exact I|repeat constructor; done|].
  change (split_on dot "math.trig.sin") with ["math"; "trig"; "sin"].
  intros [|[|[|k]]] Hk; [|apply (bool_decide_unpack _); vm_compute; exact I..|]; cbn in Hk; lia.
Defined.
