(* ===== verification/Isolated.v ===== *)
(** * A client and its isolated clients (client.py)

    Handlers, channels and proxies may get a connection of their own: a whole
    client that its maker keeps in [isolated_clients]. The clients form a tree;
    of each the model keeps its options, whether it is connected and closed,
    and its subscription entries. A transport that broke by itself is not
    distinguished from one that is up. *)

From S2P Require Import Prelude Text PyVal Dict Errors.

(** [options], [_closed], [is_connected], [_subscription_entries],
    [isolated_clients]; the number is the object's identity. *)
#[warnings="-register-all"]
Inductive client :=
| Client (id : Z) (options : list (pyval * pyval)) (closed connected : bool) (entries : list Z) (isolated : list client).

Definition cl_id (c : client) : Z := match c with Client id _ _ _ _ _ => id end.
Definition cl_options (c : client) : list (pyval * pyval) := match c with Client _ o _ _ _ _ => o end.
Definition cl_closed (c : client) : bool := match c with Client _ _ cl _ _ _ => cl end.
Definition cl_connected (c : client) : bool := match c with Client _ _ _ co _ _ => co end.
Definition cl_entries (c : client) : list Z := match c with Client _ _ _ _ en _ => en end.
Definition cl_isolated (c : client) : list client := match c with Client _ _ _ _ _ ch => ch end.

(** [RPCClient(options)] *)
Definition new_client (id : Z) (options : list (pyval * pyval)) : client := Client id options false false [] [].

(** [connect], when the transport comes up; the entries are restored, the
    isolated clients are not looked at. *)
Definition connect (c : client) : client :=
  match c with Client id o cl co en ch => if co then c else Client id o false true en ch end.

(** [disconnect]: the client, and the clients of its tree that it let go. *)
Fixpoint disconnect (c : client) : client * list client :=
  match c with
  | Client id o _ _ _ ch =>
      (Client id o true false [] [], mjoin (map (λ c, let '(c', gone) := disconnect c in c' :: gone) ch))
  end.

(** [suspend] keeps its isolated clients in the list. *)
Definition suspend (c : client) : client * list client :=
  match c with
  | Client id o cl _ en ch =>
      (Client id o cl false en (map (λ c, (disconnect c).1) ch), mjoin (map (λ c, (disconnect c).2) ch))
  end.

(** [reconfigure]; an argument that is [None] leaves its option. *)
Definition set_option (k : string) (v : option pyval) (o : list (pyval * pyval)) : list (pyval * pyval) :=
  match v with Some v => dict_set k v o | None => o end.
Section reconfigure.
Variables servers auth : option pyval.
Definition configured (o : list (pyval * pyval)) : list (pyval * pyval) :=
  set_option "auth" auth (set_option "servers" servers o).
Fixpoint reconfigure (c : client) : result exn unit * client :=
  match c with
  | Client id o cl co en ch =>
      if co then (Raise (RuntimeError "Cannot reconfigure while connected. Call suspend() first."), c)
      else
        let '(r, ch) :=
          (fix children (l : list client) : result exn unit * list client :=
             match l with
             | [] => (Ok tt, [])
             | c :: l =>
                 match reconfigure c with
                 | (Ok _, c) => let '(r, l) := children l in (r, c :: l)
                 | (Raise e, c) => (Raise e, c :: l)
                 end
             end) ch in
        (r, Client id (configured o) cl co en ch)
  end.
End reconfigure.

(** ** Making isolated clients *)

(** [{**self.options, "name": f"{self.options['name']}-<kind>-<name>"}] *)
Definition isolated_options (py_str : pyval → string) (kind name : string) (o : list (pyval * pyval)) :
    result exn (list (pyval * pyval)) :=
  match dict_lookup "name" o with
  | Some n => Ok (dict_set "name" (PStr (py_str n +:+ "-" +:+ kind +:+ "-" +:+ name)) o)
  | None => Raise (KeyError "name")
  end.
Definition set_isolated (f : list client → list client) (c : client) : client :=
  match c with Client id o cl co en ch => Client id o cl co en (f ch) end.
Definition track (child : client) : client → client := set_isolated (λ ch, ch ++ [child]).
(** [if client in self.isolated_clients: self.isolated_clients.remove(client)] *)
Definition untrack (id : Z) : client → client := set_isolated (filter (λ c, cl_id c ≠ id)).

Section make.
Variable py_str : pyval → string.

(** [create_proxy] with an isolated connection: it connects with its first call. *)
Definition create_isolated_proxy (namespace : string) (id : Z) : pm exn client client :=
  c ← get_state;
  o ← lift (isolated_options py_str "proxy" namespace (cl_options c));
  modify (track (new_client id o)) ≫= λ _,
  mret (new_client id o).

(** [register_handler] on an isolated connection, up to the subscriptions:
    the client is kept once it is connected. *)
Definition register_isolated (namespace : string) (id : Z) (connecting : result exn unit) : pm exn client client :=
  c ← get_state;
  if negb (cl_connected c) then raise (RuntimeError "Not connected")
  else
    o ← lift (isolated_options py_str "handler" namespace (cl_options c));
    lift connecting ≫= λ _,
    modify (track (connect (new_client id o))) ≫= λ _,
    mret (connect (new_client id o)).

(** [create_service_proxy] on an isolated connection: kept before it connects,
    let go when no service is found. *)
Definition create_isolated_service_proxy (service_name : string) (id : Z) (connecting : result exn unit)
    (found : result exn bool) : pm exn client client :=
  c ← get_state;
  o ← lift (isolated_options py_str "service" service_name (cl_options c));
  modify (track (new_client id o)) ≫= λ _,
  lift connecting ≫= λ _,
  modify (set_isolated (map (λ c, if bool_decide (cl_id c = id) then connect c else c))) ≫= λ _,
  b ← lift found;
  if (b : bool) then mret (connect (new_client id o))
  else modify (untrack id) ≫= λ _, raise (RuntimeError "No services found with name").

(** [ProxyWithClose.close], and the end of a registration's cleanup: the client
    that is closed, and its owner. *)
Definition close_isolated (child owner : client) : client * client := ((disconnect child).1, untrack (cl_id child) owner).
End make.
