(* ===== verification/IsolatedProps.v ===== *)
(** * What the tree of clients guarantees (client.py)

    [reconfigure] reaches every client of a suspended tree; [suspend] keeps a
    client's own subscriptions for the next [connect], but those of its
    isolated clients are gone. *)

From S2P Require Import Prelude Text PyVal Dict Errors Isolated.

(** Induction that reaches the isolated clients. *)
Lemma client_nested_ind (P : client → Prop) :
  (∀ id o cl co en ch, Forall P ch → P (Client id o cl co en ch)) → ∀ c, P c.
Proof.
  intros H. fix IH 1. intros [id o cl co en ch]. apply H. induction ch as [|c ch IHch]; constructor; [apply IH|exact IHch].
Qed.

(** The clients of a tree. *)
Fixpoint all_clients (c : client) : list client :=
  match c with Client _ _ _ _ _ ch => c :: mjoin (map all_clients ch) end.

(** The same tree with other options. *)
Fixpoint map_options (f : list (pyval * pyval) → list (pyval * pyval)) (c : client) : client :=
  match c with Client id o cl co en ch => Client id (f o) cl co en (map (map_options f) ch) end.

Lemma elem_of_mjoin_map (f : client → list client) ch c d :
  c ∈ ch → d ∈ f c → d ∈ mjoin (map f ch).
Proof.
  intros Hc Hd. apply list_elem_of_In in Hc. induction ch as [|x ch IH]; [done|].
  cbn [map]. rewrite mjoin_cons. apply elem_of_app. destruct Hc as [->|Hc]; [by left|right; auto].
Qed.

Definition offline (c : client) : Prop := ∀ d, d ∈ all_clients c → cl_connected d = false.

Lemma offline_inv id o cl co en ch : offline (Client id o cl co en ch) → co = false ∧ Forall offline ch.
Proof.
  intros H. split; [apply (H (Client id o cl co en ch)), list_elem_of_here|].
  apply Forall_forall. intros c Hc d Hd. apply H, list_elem_of_further. by eapply elem_of_mjoin_map.
Qed.

Lemma reconfigure_offline servers auth c :
  offline c → reconfigure servers auth c = (Ok tt, map_options (configured servers auth) c).
Proof.
  induction c as [id o cl co en ch IH] using client_nested_ind. intros [-> Hch]%offline_inv.
  cbn [reconfigure map_options]. 
  match goal with |- (let '(_, _) := ?f ch in _) = _ => assert (E : f ch = (Ok tt, map (map_options (configured servers auth)) ch)) end.
  { induction ch as [|c ch IHch]; [done|]. apply Forall_cons in IH as [Hc IH]. apply Forall_cons in Hch as [Hoc Hch].
    cbn [map]. by rewrite (Hc Hoc), (IHch IH Hch). }
  by rewrite E.
Qed.

Lemma disconnect_eq c : (disconnect c).1 = Client (cl_id c) (cl_options c) true false [] [].
Proof. by destruct c. Qed.

Lemma offline_suspend c : offline (suspend c).1.
Proof.
  destruct c as [id o cl co en ch]. intros d Hd. cbn in Hd. apply elem_of_cons in Hd as [->|Hd]; [done|].
  rewrite map_map in Hd. induction ch as [|c ch IH]; [by apply elem_of_nil in Hd|]. cbn [map] in Hd.
  rewrite disconnect_eq in Hd. cbn in Hd. apply elem_of_cons in Hd as [->|Hd]; [done|auto].
Qed.

(** C35. Between [suspend] and [connect], [reconfigure] succeeds and gives the
    new options to the client and to every client of its tree, whatever was
    connected before, and changes nothing else. *)
Theorem suspend_reconfigure servers auth c :
  reconfigure servers auth (suspend c).1 = (Ok tt, map_options (configured servers auth) (suspend c).1) ∧
  ∀ d, d ∈ all_clients (map_options (configured servers auth) (suspend c).1) →
       ∃ d', d' ∈ all_clients (suspend c).1 ∧ cl_id d = cl_id d' ∧ cl_options d = configured servers auth (cl_options d').
Proof.
  split; [apply reconfigure_offline, offline_suspend|]. generalize (suspend c).1. clear c. intros c.
  induction c as [id o cl co en ch IH] using client_nested_ind. intros d. cbn [map_options all_clients].
  intros [->|Hd]%elem_of_cons; [eexists; split; [apply list_elem_of_here|done]|].
  assert (H : ∃ d', d' ∈ mjoin (map all_clients ch) ∧ cl_id d = cl_id d' ∧ cl_options d = configured servers auth (cl_options d')).
  { induction IH as [|c ch Hc IH IHch]; [by apply elem_of_nil in Hd|]. cbn [map] in *. rewrite mjoin_cons in *.
    apply elem_of_app in Hd as [Hd|Hd].
    - destruct (Hc d Hd) as (d' & Hd' & E). exists d'. split; [|done]. apply elem_of_app. by left.
    - destruct (IHch Hd) as (d' & Hd' & E). exists d'. split; [|done]. apply elem_of_app. by right. }
  destruct H as (d' & Hd' & E). exists d'. split; [|done]. by apply list_elem_of_further.
Qed.

(** A client that is suspended, reconfigured and connected again has its
    own subscriptions back; its isolated clients are still listed, but each
    stays disconnected and closed, without its subscriptions and without
    isolated clients of its own: what was registered on them answers no
    more. *)
Theorem suspend_loses_isolated servers auth c :
  let c' := connect (reconfigure servers auth (suspend c).1).2 in
  cl_connected c' = true ∧ cl_closed c' = false ∧ cl_entries c' = cl_entries c ∧
  (cl_id <$> cl_isolated c') = (cl_id <$> cl_isolated c) ∧
  Forall (λ d, cl_connected d = false ∧ cl_closed d = true ∧ cl_entries d = [] ∧ cl_isolated d = []) (cl_isolated c').
Proof.
  cbv zeta. rewrite reconfigure_offline by apply offline_suspend. destruct c as [id o cl co en ch].
  cbn -[disconnect]. split_and!; [done..| |].
  - induction ch as [|c ch IH]; [done|]. cbn [map]. rewrite !fmap_cons, IH. by rewrite disconnect_eq.
  - induction ch as [|c ch IH]; [constructor|]. cbn [map]. constructor; [by rewrite disconnect_eq|done].
Qed.

(** When an isolated client is connected while its owner is not,
    [reconfigure] raises half way: the owner has the new options already, the
    connected client and those listed after it keep theirs. *)
Theorem reconfigure_partial servers auth id o cl en before c after :
  Forall offline before → cl_connected c = true →
  reconfigure servers auth (Client id o cl false en (before ++ c :: after)) =
    (Raise (RuntimeError "Cannot reconfigure while connected. Call suspend() first."),
     Client id (configured servers auth o) cl false en
       (map (map_options (configured servers auth)) before ++ c :: after)).
Proof.
  intros Hb Hc. cbn [reconfigure].
  match goal with |- (let '(_, _) := ?f _ in _) = _ =>
    assert (E : f (before ++ c :: after) =
      (Raise (RuntimeError "Cannot reconfigure while connected. Call suspend() first."),
       map (map_options (configured servers auth)) before ++ c :: after)) end.
  { induction Hb as [|b before Hb _ IH]; cbn [app map].
    - destruct c. cbn in Hc. subst. done.
    - by rewrite (reconfigure_offline servers auth b Hb), IH. }
  by rewrite E.
Qed.

(** ** Making and closing isolated clients *)

Section make.
Variable py_str : pyval → string.

Lemma untrack_fresh id ch : Forall (λ c, cl_id c ≠ id) ch → filter (λ c, cl_id c ≠ id) ch = ch.
Proof. induction 1 as [|c ch Hc _ IH]; [done|]. by rewrite filter_cons_True, IH. Qed.

Lemma untrack_track id o c : Forall (λ c, cl_id c ≠ id) (cl_isolated c) → untrack id (track (new_client id o) c) = c.
Proof.
  destruct c as [i po cl co en ch]. cbn. intros H. rewrite filter_app, untrack_fresh by done.
  rewrite filter_cons_False by (cbn; tauto). by rewrite filter_nil, app_nil_r.
Qed.

Lemma untrack_connected id o c :
  Forall (λ c, cl_id c ≠ id) (cl_isolated c) → untrack id (track (connect (new_client id o)) c) = c.
Proof.
  destruct c as [i po cl co en ch]. cbn. intros H. rewrite filter_app, untrack_fresh by done.
  rewrite filter_cons_False by (cbn; tauto). by rewrite filter_nil, app_nil_r.
Qed.

Lemma connect_tracked id o c :
  Forall (λ c, cl_id c ≠ id) (cl_isolated c) →
  set_isolated (map (λ c, if bool_decide (cl_id c = id) then connect c else c)) (track (new_client id o) c) =
  track (connect (new_client id o)) c.
Proof.
  destruct c as [i po cl co en ch]. cbn. intros H. rewrite map_app. cbn. rewrite bool_decide_true by done. do 2 f_equal.
  induction H as [|c ch Hc _ IH]; [done|]. cbn [map]. by rewrite bool_decide_false, IH.
Qed.

(** An isolated client that a proxy, a registration or a service proxy was
    given is tracked by its owner until it is closed, which leaves the owner
    as it was before; and a service proxy that finds no service leaves it as
    it was. *)
Theorem isolated_released c id name connecting found :
  Forall (λ c, cl_id c ≠ id) (cl_isolated c) → cl_connected c = true →
  dict_has "name" (cl_options c) = true → connecting = Ok tt →
  (∃ d c', create_isolated_proxy py_str name id c = (Ok d, c') ∧ d ∈ cl_isolated c' ∧ (close_isolated d c').2 = c) ∧
  (∃ d c', register_isolated py_str name id connecting c = (Ok d, c') ∧ d ∈ cl_isolated c' ∧ (close_isolated d c').2 = c) ∧
  (found = Ok true → ∃ d c', create_isolated_service_proxy py_str name id connecting found c = (Ok d, c') ∧
     d ∈ cl_isolated c' ∧ (close_isolated d c').2 = c) ∧
  (found = Ok false →
     create_isolated_service_proxy py_str name id connecting found c = (Raise (RuntimeError "No services found with name"), c)).
Proof.
  intros Hf Hco Hn ->. unfold dict_has in Hn.
  assert (Ho : ∀ kind, ∃ o', isolated_options py_str kind name (cl_options c) = Ok o').
  { intros kind. unfold isolated_options. destruct (dict_lookup "name" (cl_options c)); [by eexists|done]. }
  assert (Hin : ∀ d, d ∈ cl_isolated (track d c)).
  { intros d. destruct c. apply elem_of_app. right. apply list_elem_of_here. }
  split_and!.
  - destruct (Ho "proxy") as [o' E]. unfold create_isolated_proxy. rewrite pm_bind_eq. cbn [get_state].
    rewrite E. rewrite pm_bind_eq. cbn [lift]. rewrite pm_bind_eq. cbn [modify].
    do 2 eexists. split; [done|]. split; [apply Hin|by apply untrack_track].
  - destruct (Ho "handler") as [o' E]. unfold register_isolated. rewrite pm_bind_eq. cbn [get_state].
    rewrite Hco. cbn [negb]. rewrite E. rewrite !pm_bind_eq. cbn [lift]. rewrite !pm_bind_eq. cbn [lift modify].
    rewrite pm_bind_eq. cbn [modify]. do 2 eexists. split; [done|]. split; [apply Hin|by apply untrack_connected].
  - intros ->. destruct (Ho "service") as [o' E]. unfold create_isolated_service_proxy. rewrite pm_bind_eq. cbn [get_state].
    rewrite E. rewrite pm_bind_eq. cbn [lift]. rewrite pm_bind_eq. cbn [modify]. rewrite pm_bind_eq. cbn [lift].
    rewrite pm_bind_eq. cbn [modify]. rewrite pm_bind_eq. cbn [lift]. rewrite connect_tracked by done.
    do 2 eexists. split; [done|]. split; [apply Hin|by apply untrack_connected].
  - intros ->. destruct (Ho "service") as [o' E]. unfold create_isolated_service_proxy. rewrite pm_bind_eq. cbn [get_state].
    rewrite E. rewrite pm_bind_eq. cbn [lift]. rewrite pm_bind_eq. cbn [modify]. rewrite pm_bind_eq. cbn [lift].
    rewrite pm_bind_eq. cbn [modify]. rewrite pm_bind_eq. cbn [lift]. rewrite connect_tracked by done.
    rewrite pm_bind_eq. cbn [modify]. by rewrite untrack_connected.
Qed.
End make.

(** ** Witnesses *)

Definition proxy_client : client := Client 1 [(PStr "name", PStr "cam-proxy-x"); (PStr "servers", PStr "a")] false true [] [].
Lemma reconfigure_partial_witness :
  reconfigure (Some (PStr "b")) None
    (Client 0 [(PStr "name", PStr "cam"); (PStr "servers", PStr "a")] false false [] [proxy_client]) =
  (Raise (RuntimeError "Cannot reconfigure while connected. Call suspend() first."),
   Client 0 [(PStr "name", PStr "cam"); (PStr "servers", PStr "b")] false false [] [proxy_client]).
Proof.
  apply (reconfigure_partial (Some (PStr "b")) None 0 [(PStr "name", PStr "cam"); (PStr "servers", PStr "a")]
           false [] [] proxy_client []); [constructor|reflexivity].
Defined.

Lemma isolated_released_witness :
  let cam := Client 0 [(PStr "name", PStr "cam")] false true [7%Z] [] in
  (create_isolated_service_proxy (λ _, "cam") "math" 1 (Ok tt) (Ok false) cam).2 = cam.
Proof.
  intros cam. destruct (isolated_released (λ _, "cam") cam 1 "math" (Ok tt) (Ok false)) as (_ & _ & _ & H);
    [constructor|reflexivity..|]. exact (f_equal snd (H eq_refl)).
Defined.
