(* ===== verification/Responder.v ===== *)
(** * Answering native requests (client.py [on_request])

    The callback of [on_request]: one message is decoded, handled and answered
    on its reply subject, an exception with an error object. With the caller's
    [_request_once] it gives a request from end to end. *)

From S2P Require Import Prelude Text PyVal Dict Errors MsgPack Codec CodecRoundtrip Chunking Transport Handlers Dispatch Retry RetryProps RemoteCall.

Section responder.
Context {M : MsgPack}.
Variable py_str : pyval → string.
(** What [msg.respond] raises for a payload, if it does. *)
Variable respond_raises : list byte → option exn.

(** [await msg.respond(b)]; the state is what has been sent. *)
Definition respond_bytes (b : list byte) : pm exn (list (list byte)) unit :=
  match respond_raises b with Some e => raise e | None => modify (λ sent, sent ++ [b]) end.

Definition exn_code (e : exn) : pyval :=
  match e with RPCError x => rx_code x | _ => PStr (code_value INTERNAL_ERROR) end.
Definition error_object (e : exn) : pyval :=
  PDict [(PStr "error", PStr (exn_str py_str e)); (PStr "code", exn_code e)].

(** The handler, awaited when it is asynchronous. *)
Definition handled (h : handler) (handler_is_async : bool) (data : pyval) : result exn pyval :=
  o ← h_call h [data];
  o ← (if handler_is_async then await o else mret o);
  mret (obj_value o).

(** [handle_request] *)
Definition handle_request (h : handler) (handler_is_async : bool) (reply : string) (b : list byte) :
    pm exn (list (list byte)) unit :=
  try_except
    (data ← lift (decode_message b);
     result ← lift (handled h handler_is_async data);
     if bool_decide (reply = "") then mret tt
     else response ← lift (encode_message result); respond_bytes response)
    (λ e, if bool_decide (reply = "") then mret tt
          else response ← lift (encode_message (error_object e)); respond_bytes response).

(** [on_request]: the subscription's callback, once the subscription is made. *)
Definition on_request (has_nc : bool) (h : handler) (subscribed : result exn unit) :
    result exn (string → list byte → pm exn (list (list byte)) unit) :=
  if negb has_nc then Raise (RuntimeError "Not connected")
  else subscribed ≫= λ _, Ok (handle_request h (is_async_function h)).

(** ** Properties *)

Lemma handle_request_eq h a reply b sent :
  reply ≠ "" →
  handle_request h a reply b sent =
    match (data ← decode_message b; result ← handled h a data; encode_message result) with
    | Ok response => match respond_raises response with
                     | None => (Ok tt, sent ++ [response])
                     | Some e => (response ← lift (encode_message (error_object e)); respond_bytes response) sent
                     end
    | Raise e => (response ← lift (encode_message (error_object e)); respond_bytes response) sent
    end.
Proof.
  intros Hr. unfold handle_request, try_except. rewrite !pm_bind_eq. cbn [lift].
  destruct (decode_message b) as [data|e]; cbn [mbind result_bind]; [|by rewrite bool_decide_false].
  rewrite !pm_bind_eq. cbn [lift]. destruct (handled h a data) as [v|e]; cbn [mbind result_bind]; [|by rewrite bool_decide_false].
  rewrite bool_decide_false by done. rewrite pm_bind_eq. cbn [lift].
  destruct (encode_message v) as [r|e]; [|done]. unfold respond_bytes at 1. by destruct (respond_raises r).
Qed.

(** What a request is answered with, when nothing raises. *)
Definition served (h : handler) (a : bool) (b : list byte) : result exn (list byte) :=
  data ← decode_message b; result ← handled h a data; encode_message result.

(** Every request that wants a reply gets exactly one, whatever it holds
    and whatever the handler does, as long as replies can be sent and the
    error object encodes: a payload that does not decode, a handler that raises and
    a value that does not encode are each answered with their error object. *)
Theorem request_answered h a reply b sent :
  reply ≠ "" → (∀ b, respond_raises b = None) → (∀ e, served h a b = Raise e → is_ok (encode_message (error_object e)) = true) →
  ∃ response, handle_request h a reply b sent = (Ok tt, sent ++ [response]) ∧
    match served h a b with
    | Ok value => response = value
    | Raise e => encode_message (error_object e) = Ok response
    end.
Proof.
  intros Hr Hs He. rewrite handle_request_eq by done. fold (served h a b).
  destruct (served h a b) as [r|e]; [rewrite Hs; by exists r|].
  specialize (He e eq_refl). destruct (encode_message (error_object e)) as [r|] eqn:E; [|done].
  exists r. split; [|done]. rewrite pm_bind_eq. cbn [lift]. unfold respond_bytes. by rewrite Hs.
Qed.

Context {laws : MsgPackLaws M}.

(** What a native request gives its caller, from the handler's outcome. *)
Definition request_outcome (subject : string) (timeout : option Z) (o : result exn pyval) : result exn pyval :=
  match (match o with
         | Ok v => check_reply (delivered v)
         | Raise e => Raise (RPCError (RPCException (delivered (exn_code e)) (PStr (exn_str py_str e)) (delivered (error_object e))))
         end) with
  | Ok v => Ok v
  | Raise e => Raise (translate_error py_str subject timeout e)
  end.

(** C33. A native request is a local call of the responder's handler: when both
    payloads cross the wire, the handler gets the sent data as it arrives and
    the caller gets the handler's value as it arrives, or an RPC error with the
    code, the text and the error object of the handler's exception; a value
    that is a dict with an [error] entry counts as an error. *)
Theorem request_end_to_end h a reply subject data timeout b b' :
  reply ≠ "" → crosses data b →
  crosses (match handled h a (delivered data) with Ok v => v | Raise e => error_object e end) b' →
  respond_raises b' = None →
  handle_request h a reply b [] = (Ok tt, [b']) ∧
  request_once py_str true subject data timeout (Ok (Msg reply "" None b')) =
    request_outcome subject timeout (handled h a (delivered data)).
Proof.
  intros Hr Hb Hb' Hs. pose proof (crosses_delivered _ _ Hb) as Hd. pose proof (crosses_delivered _ _ Hb') as Hd'.
  pose proof Hb as (_ & _ & He & _). pose proof Hb' as (_ & _ & He' & _). split.
  - rewrite handle_request_eq by done. rewrite Hd. cbn [mbind result_bind].
    destruct (handled h a (delivered data)) as [v|e]; cbn [mbind result_bind]; [by rewrite He', Hs|].
    rewrite pm_bind_eq. rewrite He'. cbn [lift]. unfold respond_bytes. by rewrite Hs.
  - unfold request_once, request_outcome. cbn [negb]. rewrite He. cbn [mbind result_bind].
    unfold read_reply. cbn [service_error header m_headers]. cbn [m_data]. rewrite Hd'. cbn [mbind result_bind].
    destruct (handled h a (delivered data)) as [v|e]; [done|].
    unfold error_object. rewrite delivered_dict. done.
Qed.
End responder.

(** ** Witnesses *)

Definition replies (_ : list byte) : option exn := None.
Definition failing : handler := Handler false false false false (λ _, Raise (ValueError "no such camera")).

(** A value that does not encode is answered with its error object. *)
Lemma request_answered_witness :
  ∃ response, handle_request plain_str replies opaque_result false "_INBOX.1" (bytes_of (PInt 5)) [] = (Ok tt, [response]).
Proof.
  destruct (request_answered plain_str replies opaque_result false "_INBOX.1" (bytes_of (PInt 5)) [])
    as (response & H & _); [discriminate|reflexivity| |by exists response].
  assert (E : served opaque_result false (bytes_of (PInt 5)) = Raise (TypeError "Type is not msgpack serializable"))
    by (vm_compute; reflexivity).
  rewrite E. intros e [= <-]. vm_compute. reflexivity.
Defined.

Lemma request_end_to_end_witness :
  let b := bytes_of (error_object plain_str (ValueError "no such camera")) in
  handle_request plain_str replies failing false "_INBOX.1" (bytes_of (PInt 5)) [] = (Ok tt, [b]) ∧
  request_once plain_str true "cam.get" (PInt 5) None (Ok (Msg "_INBOX.1" "" None b)) =
    Raise (RPCError (RPCException (PStr (code_value INTERNAL_ERROR)) (PStr "no such camera")
                       (error_object plain_str (ValueError "no such camera")))).
Proof.
  intros b. destruct (request_end_to_end plain_str replies failing false "_INBOX.1" "cam.get" (PInt 5) None
      (bytes_of (PInt 5)) b) as [H1 H2];
    [discriminate|split_and!; vm_compute; reflexivity..|reflexivity|].
  split; [exact H1|]. etransitivity; [exact H2|]. vm_compute. reflexivity.
Defined.
